(** * The Trello request pipeline: cache, rate limiter, request executor, bulk tools

    A shallow embedding of the TypeScript sources

    - core/memory-cache.ts: class MemoryCache, a wrapper of the node-cache store;
    - trello/rate-limiter.ts: class TrelloRateLimiter, a wrapper of a Bottleneck
      limiter;
    - trello/client.ts: class TrelloClient (makeRequest, executeRequest,
      updateStats, generateCacheKey, getCardWithPowerUps, createCard,
      updateCard, moveCard, bulkCreateCards, bulkUpdateCards);
    - the bulk tools BulkCreateCardsTool, BulkMoveCardsTool and
      BulkArchiveCardsTool;
    - tools/base-tool.ts: validateRequired, truncateText and retry of BaseTool,
      and shouldLog of SimpleLogger; tools/card-tools.ts: ArchiveCardTool;
    - the cache check of the server's start-up (initializeCache);

    followed by the properties of the specification that are stated about them,
    and by further properties of the same code.

    Conventions.  Asynchronous code is modelled by explicit state passing over a
    [World] (clock, client statistics, cache, the jobs handed to the limiter);
    a promise is modelled by the way it settles ([Fulfilled] or [Rejected]),
    and the calls that [Promise.allSettled] runs together by the turns they
    take, in any order.  Logging has no effect on any of these and is left
    out.  JavaScript numbers are restricted to integers ([Z]), except where a
    quotient is rounded for display, which is computed in binary64 as the
    platform does.  The two packages the sources wrap,
    node-cache and bottleneck, are not part of the sources: each is modelled
    in a module of its own, which says what it takes from the package. *)

From Stdlib Require Import ZArith Lia Floats.
From stdpp Require Import base option list gmap strings pretty sorting.

Local Open Scope string_scope.
Local Open Scope list_scope.
Local Open Scope Z_scope.

#[local] Set Warnings "-register-all".

(* ===================================================================== *)
(** ** JavaScript values *)
(* ===================================================================== *)

Module Js.

(** The [any]-typed payloads that flow through the cache and the transport. *)
Inductive JsVal : Type :=
  | JsUndefined
  | JsNull
  | JsBool (b : bool)
  | JsNum (n : Z)
  | JsStr (s : string)
  | JsArr (items : list JsVal)
  | JsObj (fields : list (string * JsVal)).

(** [if (v)]: undefined, null, false, 0 and the empty string are falsy. *)
Definition truthy (v : JsVal) : bool :=
  match v with
  | JsUndefined | JsNull => false
  | JsBool b => b
  | JsNum n => negb (n =? 0)
  | JsStr s => negb (String.eqb s "")
  | JsArr _ | JsObj _ => true
  end.

(** [v !== undefined] is [negb (is_undefined v)]. *)
Definition is_undefined (v : JsVal) : bool :=
  match v with JsUndefined => true | _ => false end.

(** [o || d] for an optional number [o]: the default is taken when the
    property is missing and also when it is 0. *)
Definition num_or (o : option Z) (d : Z) : Z :=
  match o with
  | Some n => if n =? 0 then d else n
  | None => d
  end.

(** [o || d] for an optional string: the empty string is falsy as well. *)
Definition str_or (o : option string) (d : string) : string :=
  match o with
  | Some s => if String.eqb s "" then d else s
  | None => d
  end.

(** [Math.round(p / q)] for integers [p] and [q > 0]: the nearest integer,
    a tie going up. *)
Definition Math_round_div (p q : Z) : Z := (2 * p + q) / (2 * q).

(** [parts.join(sep)]. *)
Definition join (sep : string) (parts : list string) : string :=
  String.concat sep parts.

(** The value that a list of properties holds under a key, [undefined]
    when it holds none. *)
Fixpoint lookup_field (key : string) (fields : list (string * JsVal)) : JsVal :=
  match fields with
  | [] => JsUndefined
  | (k, v) :: rest => if String.eqb k key then v else lookup_field key rest
  end.

(** A JavaScript string is a sequence of UTF-16 code units: [text.length]
    counts them and [text.substring(0, n)] keeps the first [n] of them, a
    negative [n] counting as 0.  The texts that the code only passes on,
    compares or appends are kept as they are written here, in UTF-8; a text
    that the code measures or cuts is taken as the list of its code units. *)
Definition CodeUnits : Type := list N.

Definition str_length (text : CodeUnits) : Z := Z.of_nat (length text).

Definition substring0 (n : Z) (text : CodeUnits) : CodeUnits :=
  take (Z.to_nat n) text.

(** The code points of a text in UTF-8 (a byte that opens a sequence which
    the text does not complete stands for itself). *)
Fixpoint codePoints (bytes : list N) : list N :=
  match bytes with
  | [] => []
  | b :: rest =>
      if (b <? 128)%N then b :: codePoints rest
      else if (b <? 224)%N then
        match rest with
        | b1 :: rest' => (N.land b 31 * 64 + N.land b1 63)%N :: codePoints rest'
        | _ => [b]
        end
      else if (b <? 240)%N then
        match rest with
        | b1 :: b2 :: rest' =>
            ((N.land b 15 * 64 + N.land b1 63) * 64 + N.land b2 63)%N
              :: codePoints rest'
        | _ => [b]
        end
      else
        match rest with
        | b1 :: b2 :: b3 :: rest' =>
            (((N.land b 7 * 64 + N.land b1 63) * 64 + N.land b2 63) * 64
             + N.land b3 63)%N :: codePoints rest'
        | _ => [b]
        end
  end.

(** The code units of a code point: one, or a surrogate pair above U+FFFF. *)
Definition unitsOf (codePoint : N) : CodeUnits :=
  if (codePoint <? 65536)%N then [codePoint]
  else [(55296 + N.shiftr (codePoint - 65536) 10)%N;
        (56320 + N.land (codePoint - 65536) 1023)%N].

(** The JavaScript string of a text written in UTF-8. *)
Definition utf16 (text : string) : CodeUnits :=
  codePoints ((fun c => N.of_nat (Ascii.nat_of_ascii c))
                <$> String.list_ascii_of_string text)
  ≫= unitsOf.

(** The text of the string of one code unit, in UTF-8 (a surrogate that
    stands alone is written in three bytes, like the units around it). *)
Definition unitText (unit : N) : string :=
  let byte := Ascii.ascii_of_N in
  if (unit <? 128)%N then String (byte unit) ""
  else if (unit <? 2048)%N then
    String (byte (192 + N.shiftr unit 6)%N)
      (String (byte (128 + N.land unit 63)%N) "")
  else
    String (byte (224 + N.shiftr unit 12)%N)
      (String (byte (128 + N.land (N.shiftr unit 6) 63)%N)
         (String (byte (128 + N.land unit 63)%N) "")).

(** The own properties that [{ ...v }] copies: the fields of an object, the
    items of an array and the code units of a string under their indices,
    and nothing for the other values. *)
Definition spread (v : JsVal) : list (string * JsVal) :=
  match v with
  | JsObj fields => fields
  | JsArr items => imap (fun i x => (pretty (Z.of_nat i), x)) items
  | JsStr s => imap (fun i unit => (pretty (Z.of_nat i), JsStr (unitText unit))) (utf16 s)
  | _ => []
  end.

(** [v.key]: the value of an own property, [undefined] when the value has
    none.  An array and a string have their [length] besides what they hold
    under their indices; what a value inherits from its prototype is left
    out. *)
Definition prop (v : JsVal) (key : string) : JsVal :=
  match v with
  | JsObj fields => lookup_field key fields
  | JsArr items =>
      if String.eqb key "length" then JsNum (Z.of_nat (length items))
      else lookup_field key (spread v)
  | JsStr s =>
      if String.eqb key "length" then JsNum (str_length (utf16 s))
      else lookup_field key (spread v)
  | _ => JsUndefined
  end.

(** The string a template literal [`${v}`] shows for a value. *)
Fixpoint to_string (v : JsVal) : string :=
  match v with
  | JsUndefined => "undefined"
  | JsNull => "null"
  | JsBool true => "true"
  | JsBool false => "false"
  | JsNum n => pretty n
  | JsStr s => s
  | JsArr items =>
      join "," (map (fun x => match x with
                              | JsUndefined | JsNull => ""
                              | _ => to_string x
                              end) items)
  | JsObj _ => "[object Object]"
  end.

(** An [Error] object with the properties the client attaches to it. *)
Inductive JsError : Type :=
  MkError (message : string) (status : option Z)
          (endpoint method : option string) (originalError : option JsError).

Definition message (e : JsError) : string :=
  match e with MkError m _ _ _ _ => m end.
Definition originalError (e : JsError) : option JsError :=
  match e with MkError _ _ _ _ o => o end.

Definition Error (m : string) : JsError := MkError m None None None None.

(** How a promise settles. *)
Inductive Settled (A : Type) : Type :=
  | Fulfilled (value : A)
  | Rejected (reason : JsError).
Arguments Fulfilled {A} value.
Arguments Rejected {A} reason.

Definition is_fulfilled {A} (s : Settled A) : bool :=
  match s with Fulfilled _ => true | Rejected _ => false end.

(** How a call of a function ends: it returns a value or it throws. *)
Inductive Completion (A : Type) : Type :=
  | Returns (value : A)
  | Throws (error : JsError).
Arguments Returns {A} value.
Arguments Throws {A} error.

(** The values whose properties cannot be read. *)
Definition nullish (v : JsVal) : bool :=
  match v with JsUndefined | JsNull => true | _ => false end.

(** [v.key] where the code may throw: reading a property of [undefined] or of
    [null] is a TypeError, [None]. *)
Definition prop_of (v : JsVal) (key : string) : option JsVal :=
  match v with
  | JsUndefined | JsNull => None
  | _ => Some (prop v key)
  end.

(** The number [n] as the platform holds it, in binary64. *)
Definition number (n : Z) : float := PrimFloat.of_uint63 (Uint63.of_Z n).

(** [Math.round(x)]: the nearest integer, a tie going up; [None] when [x]
    is NaN or infinite, which [Math.round] gives back as it is. *)
Definition Math_round (x : float) : option Z :=
  match Prim2SF x with
  | S754_zero _ => Some 0
  | S754_finite negative m e =>
      let n := if negative then Z.neg m else Z.pos m in
      Some (if 0 <=? e then n * 2 ^ e
            else (2 * n + 2 ^ (- e)) / 2 ^ (- e + 1))
  | S754_infinity _ | S754_nan => None
  end.

(** [`${Math.round(x)}`]. *)
Definition shown_rounded (x : float) : string :=
  match Math_round x with
  | Some n => pretty n
  | None =>
      if PrimFloat.is_nan x then "NaN"
      else if PrimFloat.ltb x PrimFloat.zero then "-Infinity" else "Infinity"
  end.

End Js.
Import Js.

(* ===================================================================== *)
(** ** The node-cache store behind MemoryCache *)
(* ===================================================================== *)

(** [NodeCache] belongs to the node-cache package (5.1, see package.json),
    not to the sources.  It is modelled as the package is written: an entry
    carries its value and an absolute expiry time in milliseconds, 0 meaning
    that it never expires; [get] answers [undefined] for a missing or expired
    key, and removes an expired one; the value of an entry is handed out
    through the package's [_unwrap], which answers [null] for a value that
    is [undefined] or [null]; a [set] without ttl takes the store's [stdTTL],
    a ttl of 0 means unlimited; a [set] on a store that already holds
    [maxKeys] keys throws the error ECACHEFULL, also when the key is one of
    them, and otherwise returns [true].  The periodic sweep of expired
    entries ([checkperiod]) is left out: an expired entry stays in the store,
    and counts as a key, until a [get] or a [has] meets it. *)
Module NodeCache.

Record Entry := { t : Z; v : JsVal }.

Record Options := { stdTTL : Z; maxKeys : Z }.

Record Store := { options : Options; data : gmap string Entry }.

Definition create (o : Options) : Store := {| options := o; data := ∅ |}.

(** An entry is expired once its time is set and lies in the past. *)
Definition expired (now : Z) (e : Entry) : bool :=
  negb (t e =? 0) && (t e <? now).

(** [_unwrap]: [value.v] when it is not [undefined] or [null], else [null]. *)
Definition unwrap (value : JsVal) : JsVal :=
  match value with
  | JsUndefined | JsNull => JsNull
  | _ => value
  end.

Definition get (now : Z) (key : string) (s : Store) : JsVal * Store :=
  match data s !! key with
  | Some e =>
      if expired now e
      then (JsUndefined, {| options := options s; data := delete key (data s) |})
      else (unwrap (v e), s)
  | None => (JsUndefined, s)
  end.

Definition has (now : Z) (key : string) (s : Store) : bool * Store :=
  match data s !! key with
  | Some e =>
      if expired now e
      then (false, {| options := options s; data := delete key (data s) |})
      else (true, s)
  | None => (false, s)
  end.

(** The expiry time given to a new entry. *)
Definition livetime (now : Z) (std : Z) (ttl : option Z) : Z :=
  match ttl with
  | Some 0 => 0
  | Some n => now + n * 1000
  | None => if std =? 0 then 0 else now + std * 1000
  end.

Definition full (s : Store) : bool :=
  (-1 <? maxKeys (options s)) && (maxKeys (options s) <=? Z.of_nat (size (data s))).

(** The error of the package for a store that is full. *)
Definition ECACHEFULL : JsError := Error "Cache max keys amount exceeded".

Definition set (now : Z) (key : string) (value : JsVal) (ttl : option Z)
    (s : Store) : Completion bool * Store :=
  if full s then (Throws ECACHEFULL, s)
  else (Returns true,
        {| options := options s;
           data := <[key := {| t := livetime now (stdTTL (options s)) ttl;
                               v := value |}]> (data s) |}).

Definition del (key : string) (s : Store) : Z * Store :=
  match data s !! key with
  | Some _ => (1, {| options := options s; data := delete key (data s) |})
  | None => (0, s)
  end.

Definition flushAll (s : Store) : Store := {| options := options s; data := ∅ |}.

Definition keys (s : Store) : list string := (map_to_list (data s)).*1.

End NodeCache.

(* ===================================================================== *)
(** ** core/memory-cache.ts: class MemoryCache *)
(* ===================================================================== *)

Module MemoryCache.

Record CacheOptions := { ttl : option Z; key : option string }.

Record t := { cache : NodeCache.Store; hits : Z; misses : Z }.

(** [constructor]: [stdTTL] and [maxKeys] come from the configuration. *)
Definition create (cfg_ttl cfg_maxKeys : Z) : t :=
  {| cache := NodeCache.create {| NodeCache.stdTTL := cfg_ttl;
                                  NodeCache.maxKeys := cfg_maxKeys |};
     hits := 0; misses := 0 |}.

Definition get (now : Z) (k : string) (c : t) : JsVal * t :=
  let '(value, s) := NodeCache.get now k (cache c) in
  if negb (is_undefined value)
  then (value, {| cache := s; hits := hits c + 1; misses := misses c |})
  else (value, {| cache := s; hits := hits c; misses := misses c + 1 |}).

(** [set(key, value, ttl?)]: the store is called with [ttl || 0], outside
    any [try]: what the store throws, the method throws. *)
Definition set (now : Z) (k : string) (value : JsVal) (ttl : option Z) (c : t)
    : Completion bool * t :=
  let '(success, s) := NodeCache.set now k value (Some (num_or ttl 0)) (cache c) in
  (success, {| cache := s; hits := hits c; misses := misses c |}).

Definition del (k : string) (c : t) : Z * t :=
  let '(deleted, s) := NodeCache.del k (cache c) in
  (deleted, {| cache := s; hits := hits c; misses := misses c |}).

Definition has (now : Z) (k : string) (c : t) : bool * t :=
  let '(b, s) := NodeCache.has now k (cache c) in
  (b, {| cache := s; hits := hits c; misses := misses c |}).

Definition resetStats (c : t) : t :=
  {| cache := cache c; hits := 0; misses := 0 |}.

(** [flush]: the store's flush event resets the counters, and so does the
    method itself. *)
Definition flush (c : t) : t :=
  resetStats (resetStats {| cache := NodeCache.flushAll (cache c);
                            hits := hits c; misses := misses c |}).

(** What a call of a supplier [fn: () => Promise<T>] gives: the way its
    promise settles and the time that takes. *)
Record Supplied := { settles : Settled JsVal; takes : Z }.

(** A supplier works on a state [S] of its own, which a call of it moves
    on; whether and how often [fn] was called is read off that state. *)
Definition Supplier (S : Type) : Type := S -> Supplied * S.

(** The outcome of [getOrSet]: what the caller receives, the cache
    afterwards, and the state in which the supplier is left. *)
Record GetOrSet (S : Type) := {
  outcome : Settled JsVal;
  after : t;
  supplier : S
}.
Arguments outcome {S} _.
Arguments after {S} _.
Arguments supplier {S} _.

Definition getOrSet {S : Type} (now : Z) (k : string) (fn : Supplier S)
    (options : option CacheOptions) (c : t) (s : S) : GetOrSet S :=
  let '(cached, c1) := get now k c in
  if negb (is_undefined cached)
  then {| outcome := Fulfilled cached; after := c1; supplier := s |}
  else
    let '(supplied, s1) := fn s in
    match settles supplied with
    | Fulfilled result =>
        match set (now + takes supplied) k result (options ≫= ttl) c1 with
        | (Returns _, c2) =>
            {| outcome := Fulfilled result; after := c2; supplier := s1 |}
        | (Throws error, c2) =>
            {| outcome := Rejected error; after := c2; supplier := s1 |}
        end
    | Rejected error =>
        {| outcome := Rejected error; after := c1; supplier := s1 |}
    end.

(** [warmUp]: every entry is set without ttl, until a [set] throws. *)
Fixpoint warmUp (now : Z) (entries : list (string * JsVal)) (c : t)
    : Settled unit * t :=
  match entries with
  | [] => (Fulfilled tt, c)
  | (k, value) :: rest =>
      match set now k value None c with
      | (Returns _, c1) => warmUp now rest c1
      | (Throws error, c1) => (Rejected error, c1)
      end
  end.

(** [keys]. *)
Definition keys (c : t) : list string := NodeCache.keys (cache c).

(** [CacheStats].  [hitRate] is a percentage rounded to two decimals; it is
    kept in hundredths of a percent. *)
Record CacheStats := {
  stat_keys : Z;
  stat_hits : Z;
  stat_misses : Z;
  hitRate_x100 : Z
}.

(** [getStats], with the quotient of the rate taken exactly. *)
Definition getStats (c : t) : CacheStats :=
  let totalRequests := hits c + misses c in
  {| stat_keys := Z.of_nat (length (keys c));
     stat_hits := hits c;
     stat_misses := misses c;
     hitRate_x100 := if 0 <? totalRequests
                     then Math_round_div (hits c * 10000) totalRequests
                     else 0 |}.

(** The rate of [getStats] in the arithmetic of the platform, binary64:
    [Math.round(hitRate * 100)], the hundredths that the last division by 100
    turns into the number shown.  The quotient of two counters is rounded
    before it is multiplied, so that the rate can come out a hundredth under
    the exact one where the exact one is a tie. *)
Definition hitRate_binary64 (c : t) : option Z :=
  let totalRequests := hits c + misses c in
  let hitRate := if 0 <? totalRequests
                 then (number (hits c) / number totalRequests * number 100)%float
                 else number 0 in
  Math_round (hitRate * number 100)%float.

(** A part of a cache key, [string | number]. *)
Inductive KeyPart : Type :=
  | TextPart (s : string)
  | NumberPart (n : Z).

Definition show_part (p : KeyPart) : string :=
  match p with TextPart s => s | NumberPart n => pretty n end.

(** [static generateKey(...parts)]: [parts.join(':')]. *)
Definition generateKey (parts : list KeyPart) : string :=
  join ":" (show_part <$> parts).

End MemoryCache.

(* ===================================================================== *)
(** ** The Bottleneck limiter behind TrelloRateLimiter *)
(* ===================================================================== *)

(** [Bottleneck] belongs to the bottleneck package (2.19, see package.json),
    not to the sources.  Two parts of it are modelled, as the package documents
    them.

    - The queues.  A job option [priority] is a level between 0 and 9, a job
      with priority 4 being queued ahead of a job with priority 5: the limiter
      keeps one first-in first-out list per level and always takes the next
      job from the first list that is not empty, level 0 first.
    - The reservoir.  A job of weight [w] starts only if [w] does not exceed
      the capacity, the smaller of the free concurrency slots and the
      reservoir; starting it takes [w] from the reservoir, and nothing is given
      back when the job finishes.  With [reservoirRefreshAmount] and
      [reservoirRefreshInterval], every interval the reservoir is set to the
      refresh amount (the package's other pair of options,
      [reservoirIncreaseAmount] with [reservoirIncreaseMaximum], is the one
      that adds up to a maximum; the wrapper does not set it).

    The spacing of starts by [minTime], the expiry of running jobs and the
    shedding of waiting jobs at [highWater] are left out. *)
Module Bottleneck.

(** Job ids.  The wrapper makes up an id from a prefix and the clock when the
    caller gives none (the random suffix of the ["job"] ids is left out). *)
Inductive JobId : Type :=
  | GivenId (s : string)
  | StampedId (prefix : string) (stamp : Z).

Record JobOptions := {
  priority : Z;
  weight : Z;
  expiration : Z;
  id : JobId
}.

Definition NUM_PRIORITIES : nat := 10.

(** Priorities outside 0..9 are clamped. *)
Definition sanitizePriority (p : Z) : Z :=
  if p <? 0 then 0 else if 9 <? p then 9 else p.

(** One list of waiting jobs per priority level, level 0 first. *)
Definition Queues : Type := list (list JobOptions).

Definition noJobs : Queues := replicate NUM_PRIORITIES [].

Definition push (j : JobOptions) (q : Queues) : Queues :=
  alter (fun l => l ++ [j]) (Z.to_nat (sanitizePriority (priority j))) q.

(** The next job to start: the oldest job of the first list that has one. *)
Fixpoint shift (q : Queues) : option (JobOptions * Queues) :=
  match q with
  | [] => None
  | [] :: rest =>
      match shift rest with
      | Some (j, rest') => Some (j, [] :: rest')
      | None => None
      end
  | (j :: l) :: rest => Some (j, l :: rest)
  end.

Definition queued (q : Queues) : list JobOptions := concat q.

(** The order in which the waiting jobs start when nothing else arrives. *)
Fixpoint drain (fuel : nat) (q : Queues) : list JobOptions :=
  match fuel with
  | O => []
  | S fuel' =>
      match shift q with
      | Some (j, q') => j :: drain fuel' q'
      | None => []
      end
  end.

Definition startOrder (q : Queues) : list JobOptions :=
  drain (length (queued q)) q.

Record Settings := {
  maxConcurrent : Z;
  minTime : Z;
  reservoir : Z;
  reservoirRefreshAmount : Z;
  reservoirRefreshInterval : Z;
  retryDelayMultiplier_x10 : Z;
  maxRetryDelay : Z;
  highWater : Z
}.

(** The part of the limiter's state that admission reads and writes. *)
Record Store := { level : Z; running : Z }.

Definition start (cfg : Settings) : Store :=
  {| level := reservoir cfg; running := 0 |}.

Definition capacity (cfg : Settings) (s : Store) : Z :=
  Z.min (maxConcurrent cfg - running s) (level s).

(** A job of weight [w] is started if the capacity allows it. *)
Definition register (cfg : Settings) (w : Z) (s : Store) : option Store :=
  if w <=? capacity cfg s
  then Some {| level := level s - w; running := running s + w |}
  else None.

Definition free (w : Z) (s : Store) : Store :=
  {| level := level s; running := running s - w |}.

Definition refresh (cfg : Settings) (s : Store) : Store :=
  {| level := reservoirRefreshAmount cfg; running := running s |}.

(** What can happen to the store: a waiting job of some weight asks to start
    (and keeps waiting when it may not), a running job finishes, the refresh
    interval elapses. *)
Inductive Event : Type :=
  | Admission (w : Z)
  | Completion (w : Z)
  | Refill.

Definition step (cfg : Settings) (s : Store) (e : Event) : Store :=
  match e with
  | Admission w => default s (register cfg w s)
  | Completion w => free w s
  | Refill => refresh cfg s
  end.

Definition run (cfg : Settings) (events : list Event) : Store :=
  fold_left (step cfg) events (start cfg).

Definition weight_of (e : Event) : Z :=
  match e with Admission w | Completion w => w | Refill => 0 end.

End Bottleneck.

(* ===================================================================== *)
(** ** trello/rate-limiter.ts: class TrelloRateLimiter *)
(* ===================================================================== *)

Module TrelloRateLimiter.
Import Bottleneck.

Record RateLimitOptions := {
  opt_maxConcurrent : option Z;
  opt_minTime : option Z;
  opt_maxTime : option Z;
  opt_reservoir : option Z;
  opt_reservoirRefreshAmount : option Z;
  opt_reservoirRefreshInterval : option Z
}.

(** [constructor]: the settings given to [new Bottleneck]. *)
Definition constructor (options : option RateLimitOptions) : Settings :=
  {| maxConcurrent := num_or (options ≫= opt_maxConcurrent) 10;
     minTime := num_or (options ≫= opt_minTime) 50;
     reservoir := num_or (options ≫= opt_reservoir) 50;
     reservoirRefreshAmount := num_or (options ≫= opt_reservoirRefreshAmount) 25;
     reservoirRefreshInterval := num_or (options ≫= opt_reservoirRefreshInterval) 2000;
     retryDelayMultiplier_x10 := 15;
     maxRetryDelay := 10000;
     highWater := 50 |}.

(** The options argument of [schedule]. *)
Record ScheduleOptions := {
  so_priority : option Z;
  so_weight : option Z;
  so_expiration : option Z;
  so_id : option string
}.

Definition id_or (o : option string) (prefix : string) (now : Z) : JobId :=
  match o with
  | Some s => if String.eqb s "" then StampedId prefix now else GivenId s
  | None => StampedId prefix now
  end.

(** [schedule]: the [jobOptions] handed to [limiter.schedule]. *)
Definition schedule (now : Z) (options : option ScheduleOptions) : JobOptions :=
  {| priority := num_or (options ≫= so_priority) 5;
     weight := num_or (options ≫= so_weight) 1;
     expiration := num_or (options ≫= so_expiration) 60000;
     id := id_or (options ≫= so_id) "job" now |}.

Definition stamped (prefix : string) (now : Z) : string :=
  prefix +:+ "-" +:+ pretty now.

(** [scheduleHighPriority]: [schedule(fn, { priority: 9, id })]. *)
Definition scheduleHighPriority (now : Z) (id : option string) : JobOptions :=
  schedule now (Some {| so_priority := Some 9; so_weight := None;
                        so_expiration := None;
                        so_id := Some (str_or id (stamped "high-priority" now)) |}).

(** [scheduleLowPriority]: [schedule(fn, { priority: 1, id })]. *)
Definition scheduleLowPriority (now : Z) (id : option string) : JobOptions :=
  schedule now (Some {| so_priority := Some 1; so_weight := None;
                        so_expiration := None;
                        so_id := Some (str_or id (stamped "low-priority" now)) |}).

(** [getReservoirLevel]: the method does not read the limiter. *)
Definition getReservoirLevel (s : Store) : Z := 0.

(** The counters of the wrapper, [this.stats]. *)
Record Counters := { requests : Z; errors : Z; retries : Z }.

Definition noCounters : Counters := {| requests := 0; errors := 0; retries := 0 |}.

(** The events of the limiter that [setupEventListeners] subscribes to. *)
Inductive LimiterEvent : Type :=
  | Executing | Done | Failed | Retry | Depleted | ErrorEvent | Debug.

(** The listeners: three of the events move a counter, the others only log. *)
Definition listen (s : Counters) (e : LimiterEvent) : Counters :=
  match e with
  | Executing =>
      {| requests := requests s + 1; errors := errors s; retries := retries s |}
  | Failed =>
      {| requests := requests s; errors := errors s + 1; retries := retries s |}
  | Retry =>
      {| requests := requests s; errors := errors s; retries := retries s + 1 |}
  | Done | Depleted | ErrorEvent | Debug => s
  end.

(** [shouldThrottle]: [errorRate > 0.1], the rate [errors / requests] being
    compared exactly. *)
Definition shouldThrottle (s : Counters) : bool :=
  if 0 <? requests s then requests s <? 10 * errors s else false.

(** [resetStats]. *)
Definition resetStats (s : Counters) : Counters := noCounters.

(** What [limiter.counts()] answers. *)
Record Counts := { RECEIVED : Z; QUEUED : Z; RUNNING : Z; EXECUTING : Z }.

(** The loop of [waitForQuiet].  [counts k] is what the limiter answers when
    the loop condition is evaluated for the k-th time, [now] the clock at that
    time; a pause takes its 100 ms.  [fuel] bounds the number of evaluations
    and [None] says that it ran out. *)
Fixpoint waitLoop (fuel : nat) (counts : nat -> Counts) (startTime now : Z) (k : nat)
    : option (Settled unit * Z) :=
  match fuel with
  | O => None
  | S fuel' =>
      if (0 <? QUEUED (counts k)) || (0 <? EXECUTING (counts k)) then
        if 30000 <? now - startTime
        then Some (Rejected (Error "Timeout waiting for rate limiter to become quiet"),
                   now)
        else waitLoop fuel' counts startTime (now + 100) (S k)
      else Some (Fulfilled tt, now)
  end.

(** [waitForQuiet]: how the promise settles, and when. *)
Definition waitForQuiet (fuel : nat) (counts : nat -> Counts) (now : Z)
    : option (Settled unit * Z) :=
  waitLoop fuel counts now now 0.

(** [updateConfig]: each option that is not [undefined] goes to
    [limiter.updateSettings], which overwrites the setting in the limiter's
    store; the reservoir of the store is its current level. *)
Definition updateConfig (options : RateLimitOptions) (l : Settings * Store)
    : Settings * Store :=
  let '(cfg, s) := l in
  ({| maxConcurrent := default (maxConcurrent cfg) (opt_maxConcurrent options);
      minTime := default (minTime cfg) (opt_minTime options);
      reservoir := default (reservoir cfg) (opt_reservoir options);
      reservoirRefreshAmount :=
        default (reservoirRefreshAmount cfg) (opt_reservoirRefreshAmount options);
      reservoirRefreshInterval :=
        default (reservoirRefreshInterval cfg) (opt_reservoirRefreshInterval options);
      retryDelayMultiplier_x10 := retryDelayMultiplier_x10 cfg;
      maxRetryDelay := maxRetryDelay cfg;
      highWater := highWater cfg |},
   {| level := default (level s) (opt_reservoir options);
      running := running s |}).

End TrelloRateLimiter.

(* ===================================================================== *)
(** ** trello/client.ts: class TrelloClient *)
(* ===================================================================== *)

Module TrelloClient.

Inductive Method : Type := GET | POST | PUT | DELETE.

Definition method_name (m : Method) : string :=
  match m with GET => "GET" | POST => "POST" | PUT => "PUT" | DELETE => "DELETE" end.

Definition is_GET (m : Method) : bool :=
  match m with GET => true | _ => false end.

Inductive Priority : Type := high | normal | low.

(** [ApiRequestOptions]; a missing [body] is [undefined]. *)
Record ApiRequestOptions := {
  method : option Method;
  body : JsVal;
  useCache : option bool;
  cacheTtl : option Z;
  priority : option Priority;
  retries : option Z
}.

Definition no_options : ApiRequestOptions :=
  {| method := None; body := JsUndefined; useCache := None; cacheTtl := None;
     priority := None; retries := None |}.

Record TrelloClientStats := {
  totalRequests : Z;
  successfulRequests : Z;
  failedRequests : Z;
  cacheHits : Z;
  cacheMisses : Z;
  averageResponseTime : Z
}.

Definition zero_stats : TrelloClientStats :=
  {| totalRequests := 0; successfulRequests := 0; failedRequests := 0;
     cacheHits := 0; cacheMisses := 0; averageResponseTime := 0 |}.

(** What [executeRequest] is called with. *)
Record Request := { url : string; req_method : Method; req_body : JsVal }.

(** A job handed to the rate limiter: its options and the transport call it
    wraps.  The transport is reached from nowhere else. *)
Record Job := { job_options : Bottleneck.JobOptions; job_request : Request }.

(** How [await scheduleRequest()] ends and the time it takes. *)
Record Reply := { settled : Settled JsVal; elapsed : Z }.

(** The limiter and the remote service, seen from the client: the reply to
    the n-th job handed to the limiter. *)
Definition Net : Type := nat -> Request -> Reply.

Record World := {
  now : Z;
  stats : TrelloClientStats;
  cache : MemoryCache.t;
  jobs : list Job
}.

Definition baseUrl : string := "https://api.trello.com/1".

Definition with_stats (s : TrelloClientStats) (w : World) : World :=
  {| now := now w; stats := s; cache := cache w; jobs := jobs w |}.

Definition with_cache (c : MemoryCache.t) (w : World) : World :=
  {| now := now w; stats := stats w; cache := c; jobs := jobs w |}.

(** [await new Promise(resolve => setTimeout(resolve, delay))]. *)
Definition sleep (delay : Z) (w : World) : World :=
  {| now := now w + delay; stats := stats w; cache := cache w; jobs := jobs w |}.

(** [updateStats]. *)
Definition updateStats (success : bool) (duration : Z) (w : World) : World :=
  let s := stats w in
  let total := totalRequests s + 1 in
  let totalTime := averageResponseTime s * (total - 1) + duration in
  with_stats
    {| totalRequests := total;
       successfulRequests := if success then successfulRequests s + 1
                             else successfulRequests s;
       failedRequests := if success then failedRequests s
                         else failedRequests s + 1;
       cacheHits := cacheHits s;
       cacheMisses := cacheMisses s;
       averageResponseTime := Math_round_div totalTime total |} w.

Definition count_cacheHit (w : World) : World :=
  let s := stats w in
  with_stats
    {| totalRequests := totalRequests s;
       successfulRequests := successfulRequests s;
       failedRequests := failedRequests s;
       cacheHits := cacheHits s + 1;
       cacheMisses := cacheMisses s;
       averageResponseTime := averageResponseTime s |} w.

Definition count_cacheMiss (w : World) : World :=
  let s := stats w in
  with_stats
    {| totalRequests := totalRequests s;
       successfulRequests := successfulRequests s;
       failedRequests := failedRequests s;
       cacheHits := cacheHits s;
       cacheMisses := cacheMisses s + 1;
       averageResponseTime := averageResponseTime s |} w.

Section Client.

(** [JSON.stringify], the platform's. *)
Variable JSON_stringify : JsVal -> string.

Variable net : Net.

(** [generateCacheKey]: a falsy body is left out of the key. *)
Definition generateCacheKey (method endpoint : string) (body : JsVal) : string :=
  let parts := [method; endpoint] in
  let parts := if truthy body then parts ++ [JSON_stringify body] else parts in
  join "|" parts.

(** [scheduleRequest]: the job goes to the limiter through the wrapper of its
    priority; the world moves on by the time the job takes. *)
Definition scheduleRequest (p : Priority) (req : Request) (w : World)
    : Settled JsVal * World :=
  let options :=
    match p with
    | high => TrelloRateLimiter.scheduleHighPriority (now w) None
    | low => TrelloRateLimiter.scheduleLowPriority (now w) None
    | normal => TrelloRateLimiter.schedule (now w) None
    end in
  let reply := net (length (jobs w)) req in
  (settled reply,
   {| now := now w + elapsed reply; stats := stats w; cache := cache w;
      jobs := jobs w ++ [{| job_options := options; job_request := req |}] |}).

(** How the retry loop is left: by [return result], or by falling out of the
    [while] with the last error. *)
Inductive LoopExit : Type :=
  | Returned (result : JsVal)
  | Exhausted (lastError : option JsError).

(** The loop [while (attempt <= retries) { try { ... } catch { ... } }].
    The [try] holds the request, [updateStats(true, ...)] and the write to
    the cache, in that order: an error thrown by [cache.set] lands in the
    [catch] like an error of the request, after the attempt was counted as a
    success.  [fuel] bounds the number of iterations; [makeRequest] passes
    [retries + 1], which the loop never exceeds. *)
Fixpoint retryLoop (fuel : nat) (m : Method) (cacheable : bool) (cacheKey : string)
    (ttl : option Z) (p : Priority) (req : Request) (retries startTime : Z)
    (attempt : Z) (lastError : option JsError) (w : World) : LoopExit * World :=
  match fuel with
  | O => (Exhausted lastError, w)
  | S fuel' =>
      if attempt <=? retries then
        (* the [catch] block, and the next turn of the loop *)
        let caught (error : JsError) (w1 : World) :=
          let attempt' := attempt + 1 in
          let w2 := if attempt' <=? retries
                    then sleep (Z.min (1000 * 2 ^ (attempt' - 1)) 10000) w1
                    else w1 in
          retryLoop fuel' m cacheable cacheKey ttl p req retries startTime
                    attempt' (Some error) w2 in
        match scheduleRequest p req w with
        | (Fulfilled result, w1) =>
            let duration := now w1 - startTime in
            let w2 := updateStats true duration w1 in
            if is_GET m && cacheable && truthy result then
              match MemoryCache.set (now w2) cacheKey result ttl (cache w2) with
              | (Returns _, c) => (Returned result, with_cache c w2)
              | (Throws error, c) => caught error (with_cache c w2)
              end
            else (Returned result, w2)
        | (Rejected error, w1) => caught error w1
        end
      else (Exhausted lastError, w)
  end.

(** The error thrown once every attempt has failed. *)
Definition detailedError (retries : Z) (endpoint : string) (m : Method)
    (lastError : option JsError) : JsError :=
  MkError
    ("Trello API request failed after " +:+ pretty retries +:+ " attempts: "
       +:+ endpoint +:+ " - " +:+ str_or (message <$> lastError) "Unknown error")
    None (Some endpoint) (Some (method_name m)) lastError.

(** The [cacheKey] that [makeRequest] derives for a call. *)
Definition cacheKeyOf (endpoint : string) (options : ApiRequestOptions) : string :=
  generateCacheKey (method_name (default GET (method options))) endpoint
                   (body options).

(** The transport call that [makeRequest] wraps into its jobs. *)
Definition requestOf (endpoint : string) (options : ApiRequestOptions) : Request :=
  {| url := baseUrl +:+ endpoint;
     req_method := default GET (method options);
     req_body := body options |}.

(** Whether the call is answered by the cache lookup at the head of
    [makeRequest]. *)
Definition servedFromCache (endpoint : string) (options : ApiRequestOptions)
    (w : World) : bool :=
  is_GET (default GET (method options)) && default true (useCache options)
  && negb (is_undefined
             (MemoryCache.get (now w) (cacheKeyOf endpoint options) (cache w)).1).

(** [makeRequest]. *)
Definition makeRequest (endpoint : string) (options : ApiRequestOptions)
    (w : World) : Settled JsVal * World :=
  let m := default GET (method options) in
  let useCache := default true (useCache options) in
  let p := default normal (priority options) in
  let retries := default 3 (retries options) in
  let req := requestOf endpoint options in
  let cacheKey := cacheKeyOf endpoint options in
  let startTime := now w in
  let lookup :=
    if is_GET m && useCache then
      let '(cached, c) := MemoryCache.get (now w) cacheKey (cache w) in
      if negb (is_undefined cached)
      then inl (cached, count_cacheHit (with_cache c w))
      else inr (count_cacheMiss (with_cache c w))
    else inr w in
  match lookup with
  | inl (cached, w1) => (Fulfilled cached, w1)
  | inr w1 =>
      match retryLoop (Z.to_nat (retries + 1)) m useCache cacheKey
                      (cacheTtl options) p req retries startTime 0 None w1 with
      | (Returned result, w2) => (Fulfilled result, w2)
      | (Exhausted lastError, w2) =>
          (* all retries failed *)
          let w3 := updateStats false (now w2 - startTime) w2 in
          let error := detailedError retries endpoint m lastError in
          (* the enclosing catch *)
          let w4 := updateStats false (now w3 - startTime) w3 in
          (Rejected error, w4)
      end
  end.

(** [{ ...obj, key: v }]: the property is overwritten in place when the
    object has it and added at the end otherwise. *)
Fixpoint set_field (key : string) (v : JsVal) (fields : list (string * JsVal))
    : list (string * JsVal) :=
  match fields with
  | [] => [(key, v)]
  | (k, x) :: rest =>
      if String.eqb k key then (k, v) :: rest else (k, x) :: set_field key v rest
  end.

(** A call of [makeRequest]: its arguments. *)
Record Call := { call_endpoint : string; call_options : ApiRequestOptions }.

(** The call made and awaited, with nothing else under way. *)
Definition perform (c : Call) (w : World) : Settled JsVal * World :=
  makeRequest (call_endpoint c) (call_options c) w.

(** [createCard]: the call of [makeRequest] that it returns. *)
Definition createCardCall (data : JsVal) : Call :=
  {| call_endpoint := "/cards";
     call_options :=
       {| method := Some POST; body := data; useCache := Some false;
          cacheTtl := None; priority := Some normal; retries := None |} |}.

Definition createCard (data : JsVal) (w : World) : Settled JsVal * World :=
  perform (createCardCall data) w.

(** [updateCard]. *)
Definition updateCardCall (cardId : string) (data : JsVal) : Call :=
  {| call_endpoint := "/cards/" +:+ cardId;
     call_options :=
       {| method := Some PUT; body := data; useCache := Some false;
          cacheTtl := None; priority := None; retries := None |} |}.

Definition updateCard (cardId : string) (data : JsVal) (w : World)
    : Settled JsVal * World :=
  perform (updateCardCall cardId data) w.

(** [moveCard]: [position] is [undefined] when the caller gives none. *)
Definition moveCardCall (cardId listId : string) (position : JsVal) : Call :=
  let data := [("idList", JsStr listId)] in
  let data := if negb (is_undefined position) then data ++ [("pos", position)]
              else data in
  updateCardCall cardId (JsObj data).

Definition moveCard (cardId listId : string) (position : JsVal) (w : World)
    : Settled JsVal * World :=
  perform (moveCardCall cardId listId position) w.

(** *** Calls that run together

    [Promise.allSettled(batch.map(...))] starts the calls of a batch one
    after the other, each running as far as its first [await], and waits
    until all of them have settled.  In between, the calls take turns: a
    call goes on when what it awaits is there -- the reply to its job, or the
    timer of its pause -- and runs as far as its next [await], or to its
    end.  The turns of a call are the pieces of [makeRequest] between its
    [await]s. *)

(** Where a call stands: at [await scheduleRequest()], for the reply to the
    job it handed to the limiter; at the [await] of its pause; or settled. *)
Inductive Stage : Type :=
  | AwaitsReply (job : nat) (due : Z)
  | AwaitsTimer (due : Z)
  | Settles (outcome : Settled JsVal).

(** A call under way, with the variables of [makeRequest] that live across
    its [await]s. *)
Record Flight := {
  call : Call;
  startTime : Z;
  attempt : Z;
  lastError : option JsError;
  stage : Stage
}.

(** The clock at the turn of a call that was due at [due]. *)
Definition at_time (due : Z) (w : World) : World :=
  {| now := Z.max (now w) due; stats := stats w; cache := cache w; jobs := jobs w |}.

(** The head of the loop: [while (attempt <= retries)] and, inside,
    [scheduleRequest()], which hands the job to the limiter; the call then
    awaits the reply.  When the loop is over, the call counts its failure,
    twice, and is rejected. *)
Definition loopHead (c : Call) (startTime attempt : Z) (lastError : option JsError)
    (w : World) : Flight * World :=
  let m := default GET (method (call_options c)) in
  let retries := default 3 (retries (call_options c)) in
  if attempt <=? retries then
    let req := requestOf (call_endpoint c) (call_options c) in
    let jobOptions :=
      match default normal (priority (call_options c)) with
      | high => TrelloRateLimiter.scheduleHighPriority (now w) None
      | low => TrelloRateLimiter.scheduleLowPriority (now w) None
      | normal => TrelloRateLimiter.schedule (now w) None
      end in
    let job := length (jobs w) in
    ({| call := c; startTime := startTime; attempt := attempt;
        lastError := lastError;
        stage := AwaitsReply job (now w + elapsed (net job req)) |},
     {| now := now w; stats := stats w; cache := cache w;
        jobs := jobs w ++ [{| job_options := jobOptions; job_request := req |}] |})
  else
    let w3 := updateStats false (now w - startTime) w in
    let w4 := updateStats false (now w3 - startTime) w3 in
    ({| call := c; startTime := startTime; attempt := attempt;
        lastError := lastError;
        stage := Settles (Rejected (detailedError retries (call_endpoint c) m
                                                  lastError)) |},
     w4).

(** The [catch] block of the loop: the pause before the next attempt, if
    there is one to come. *)
Definition caught (f : Flight) (error : JsError) (w : World) : Flight * World :=
  let retries := default 3 (retries (call_options (call f))) in
  let attempt' := attempt f + 1 in
  if attempt' <=? retries then
    ({| call := call f; startTime := startTime f; attempt := attempt';
        lastError := Some error;
        stage := AwaitsTimer (now w + Z.min (1000 * 2 ^ (attempt' - 1)) 10000) |},
     w)
  else loopHead (call f) (startTime f) attempt' (Some error) w.

(** The call as far as its first [await]. *)
Definition begin (c : Call) (w : World) : Flight * World :=
  let m := default GET (method (call_options c)) in
  let useCache := default true (useCache (call_options c)) in
  let cacheKey := cacheKeyOf (call_endpoint c) (call_options c) in
  let lookup :=
    if is_GET m && useCache then
      let '(cached, c') := MemoryCache.get (now w) cacheKey (cache w) in
      if negb (is_undefined cached)
      then inl (cached, count_cacheHit (with_cache c' w))
      else inr (count_cacheMiss (with_cache c' w))
    else inr w in
  match lookup with
  | inl (cached, w1) =>
      ({| call := c; startTime := now w; attempt := 0; lastError := None;
          stage := Settles (Fulfilled cached) |}, w1)
  | inr w1 => loopHead c (now w) 0 None w1
  end.

(** A turn of the call: from the [await] it stands at to the next one. *)
Definition resume (f : Flight) (w : World) : Flight * World :=
  let c := call f in
  let m := default GET (method (call_options c)) in
  let useCache := default true (useCache (call_options c)) in
  let cacheKey := cacheKeyOf (call_endpoint c) (call_options c) in
  let req := requestOf (call_endpoint c) (call_options c) in
  match stage f with
  | AwaitsReply job due =>
      let w1 := at_time due w in
      match settled (net job req) with
      | Fulfilled result =>
          let duration := now w1 - startTime f in
          let w2 := updateStats true duration w1 in
          let returned :=
            {| call := c; startTime := startTime f; attempt := attempt f;
               lastError := lastError f; stage := Settles (Fulfilled result) |} in
          if is_GET m && useCache && truthy result then
            match MemoryCache.set (now w2) cacheKey result
                                  (cacheTtl (call_options c)) (cache w2) with
            | (Returns _, c') => (returned, with_cache c' w2)
            | (Throws error, c') => caught f error (with_cache c' w2)
            end
          else (returned, w2)
      | Rejected error => caught f error w1
      end
  | AwaitsTimer due =>
      loopHead c (startTime f) (attempt f) (lastError f) (at_time due w)
  | Settles _ => (f, w)
  end.

(** [batch.map(...)]: the calls are begun in the order of the batch. *)
Fixpoint beginAll (calls : list Call) (w : World) : list Flight * World :=
  match calls with
  | [] => ([], w)
  | c :: rest =>
      let '(f, w1) := begin c w in
      let '(fs, w2) := beginAll rest w1 in
      (f :: fs, w2)
  end.

Definition waits (f : Flight) : bool :=
  match stage f with Settles _ => false | _ => true end.

(** Of the calls that wait, from index [i] on, the one that is due first,
    and the earlier one of the batch among equals. *)
Fixpoint firstDue (i : nat) (flights : list Flight) : option (nat * Z) :=
  match flights with
  | [] => None
  | f :: rest =>
      let later := firstDue (S i) rest in
      match stage f with
      | AwaitsReply _ due | AwaitsTimer due =>
          match later with
          | Some (j, due') => if due <=? due' then Some (i, due) else Some (j, due')
          | None => Some (i, due)
          end
      | Settles _ => later
      end
  end.

(** Whose turn it is.  [order] names calls of the batch by their index: the
    first of them that waits goes on; when the order names no call that
    waits, the call that is due first goes on.  [None]: no call waits. *)
Fixpoint next (order : list nat) (flights : list Flight) : option (nat * list nat) :=
  match order with
  | i :: rest =>
      match flights !! i with
      | Some f => if waits f then Some (i, rest) else next rest flights
      | None => next rest flights
      end
  | [] =>
      match firstDue 0 flights with
      | Some (i, _) => Some (i, [])
      | None => None
      end
  end.

(** The turns, one after the other, until no call waits. *)
Fixpoint run (fuel : nat) (order : list nat) (flights : list Flight) (w : World)
    : list Flight * World :=
  match fuel with
  | O => (flights, w)
  | S fuel' =>
      match next order flights with
      | Some (i, order') =>
          match flights !! i with
          | Some f =>
              let '(f', w') := resume f w in
              run fuel' order' (<[i := f']> flights) w'
          | None => (flights, w)
          end
      | None => (flights, w)
      end
  end.

(** The number of turns that a call can still take: two for an attempt to
    come, the reply and the pause. *)
Definition turnsLeft (f : Flight) : nat :=
  let retries := default 3 (retries (call_options (call f))) in
  match stage f with
  | AwaitsReply _ _ => 2 * Z.to_nat (retries - attempt f) + 1
  | AwaitsTimer _ => 2 * Z.to_nat (retries - attempt f) + 2
  | Settles _ => 0
  end.

Definition outcome (f : Flight) : option (Settled JsVal) :=
  match stage f with Settles o => Some o | _ => None end.

(** [await Promise.allSettled(calls)]: the way each call settles, in the
    order of the batch.  The bound on the number of turns is the sum of the
    turns that the calls can take, so that none is left waiting. *)
Definition allSettled (order : list nat) (calls : list Call) (w : World)
    : list (Settled JsVal) * World :=
  let '(flights, w1) := beginAll calls w in
  let '(flights', w2) := run (sum_list (turnsLeft <$> flights)) order flights w1 in
  (omap outcome flights', w2).

(** The values of the fulfilled results, in order. *)
Fixpoint fulfilled_values (results : list (Settled JsVal)) : list JsVal :=
  match results with
  | [] => []
  | Fulfilled value :: rest => value :: fulfilled_values rest
  | Rejected _ :: rest => fulfilled_values rest
  end.

Definition batchSize : nat := 5.

(** The order of the turns in each wave of a bulk operation, the wave being
    named by the index [i] of its first item. *)
Variable schedule : nat -> list nat.

Record BulkCreateCardsRequest := { cards : list JsVal; idList : string }.

(** [this.createCard({ ...card, idList })], the call made for a card of the
    request. *)
Definition bulkCardCall (idList : string) (card : JsVal) : Call :=
  createCardCall (JsObj (set_field "idList" (JsStr idList) (spread card))).

(** The loop of [bulkCreateCards], from index [i] on. *)
Fixpoint bulkCreateLoop (fuel : nat) (request : BulkCreateCardsRequest) (i : nat)
    (createdCards : list JsVal) (w : World) : list JsVal * World :=
  match fuel with
  | O => (createdCards, w)
  | S fuel' =>
      if (i <? length (cards request))%nat then
        let batch := take batchSize (drop i (cards request)) in
        let '(batchResults, w1) :=
          allSettled (schedule i) (bulkCardCall (idList request) <$> batch) w in
        let createdCards := createdCards ++ fulfilled_values batchResults in
        let w2 := if (i + batchSize <? length (cards request))%nat
                  then sleep 100 w1 else w1 in
        bulkCreateLoop fuel' request (i + batchSize) createdCards w2
      else (createdCards, w)
  end.

(** [bulkCreateCards]: the created cards are all that is returned. *)
Definition bulkCreateCards (request : BulkCreateCardsRequest) (w : World)
    : list JsVal * World :=
  bulkCreateLoop (length (cards request)) request 0 [] w.

(** An item of [BulkUpdateCardsRequest.updates]. *)
Record CardUpdate := { update_id : string; update_data : JsVal }.

(** The loop of [bulkUpdateCards], from index [i] on. *)
Fixpoint bulkUpdateLoop (fuel : nat) (updates : list CardUpdate) (i : nat)
    (updatedCards : list JsVal) (w : World) : list JsVal * World :=
  match fuel with
  | O => (updatedCards, w)
  | S fuel' =>
      if (i <? length updates)%nat then
        let batch := take batchSize (drop i updates) in
        let '(batchResults, w1) :=
          allSettled (schedule i)
            ((fun update => updateCardCall (update_id update) (update_data update))
               <$> batch) w in
        let updatedCards := updatedCards ++ fulfilled_values batchResults in
        let w2 := if (i + batchSize <? length updates)%nat
                  then sleep 100 w1 else w1 in
        bulkUpdateLoop fuel' updates (i + batchSize) updatedCards w2
      else (updatedCards, w)
  end.

(** [bulkUpdateCards]. *)
Definition bulkUpdateCards (updates : list CardUpdate) (w : World)
    : list JsVal * World :=
  bulkUpdateLoop (length updates) updates 0 [] w.

(** [try { x = await request } catch { x = [] }]. *)
Definition orEmpty (r : Settled JsVal * World) : JsVal * World :=
  match r with
  | (Fulfilled value, w) => (value, w)
  | (Rejected _, w) => (JsArr [], w)
  end.

(** [getCardWithPowerUps]: the card, then three requests each in a [try] of
    its own.  Reading [card.idBoard] belongs to the first of these: on a card
    that is [null] it throws, and the request is not made. *)
Definition getCardWithPowerUps (cardId : string) (w : World) : Settled JsVal * World :=
  match makeRequest ("/cards/" +:+ cardId) no_options w with
  | (Rejected error, w1) => (Rejected error, w1)
  | (Fulfilled card, w1) =>
      let '(customFields, w2) :=
        match prop_of card "idBoard" with
        | Some boardId =>
            orEmpty (makeRequest ("/boards/" +:+ to_string boardId +:+ "/customFields")
                                 no_options w1)
        | None => (JsArr [], w1)
        end in
      let '(customFieldItems, w3) :=
        orEmpty (makeRequest ("/cards/" +:+ cardId +:+ "/customFieldItems")
                             no_options w2) in
      let '(pluginData, w4) :=
        orEmpty (makeRequest ("/cards/" +:+ cardId +:+ "/pluginData") no_options w3) in
      let powerUps := JsObj [("customFields", customFields);
                             ("customFieldItems", customFieldItems);
                             ("pluginData", pluginData)] in
      (Fulfilled (JsObj (set_field "powerUps" powerUps (spread card))), w4)
  end.

End Client.

Section Transport.

(** The platform: [JSON.stringify]; [JSON.parse], [None] when it throws; the
    URL with the credentials set in its query, [None] when [new URL(url)]
    throws; and the two TypeErrors of the platform that can come up. *)
Variable JSON_stringify : JsVal -> string.
Variable JSON_parse : string -> option JsVal.
Variable withCredentials : string -> option string.
Variable InvalidURL : JsError.
Variable CannotReadNull : JsError.

(** What [fetch] is called with (the two headers are always the same). *)
Record FetchCall := {
  fetch_url : string;
  fetch_method : string;
  fetch_body : option string
}.

(** A [Response]; [text()] and [json()] are given by the way they settle. *)
Record Response := {
  ok : bool;
  status : Z;
  statusText : string;
  text : Settled string;
  json : Settled JsVal
}.

(** The [requestOptions] of a call: a body is sent with POST and PUT only,
    and only if it is truthy. *)
Definition fetchCallOf (requestUrl method : string) (body : JsVal) : FetchCall :=
  {| fetch_url := requestUrl;
     fetch_method := method;
     fetch_body := if truthy body
                      && (String.eqb method "POST" || String.eqb method "PUT")
                   then Some (JSON_stringify body) else None |}.

(** The [errorData] read from a response that is not ok. *)
Definition errorDataOf (response : Response) : JsVal :=
  match text response with
  | Fulfilled responseText =>
      match JSON_parse responseText with
      | Some parsed => parsed
      | None => JsObj [("message", JsStr (str_or (Some responseText) "Unknown error"))]
      end
  | Rejected _ => JsObj [("message", JsStr "Unknown error")]
  end.

Definition responseTextOf (response : Response) : string :=
  match text response with Fulfilled responseText => responseText | Rejected _ => "" end.

(** [executeRequest]: the call of [fetch] that is made, if any, and the way
    the promise settles.  Of the properties attached to the error, [status]
    is kept. *)
Definition executeRequest (fetch : FetchCall -> Settled Response)
    (url method : string) (body : JsVal) : option FetchCall * Settled JsVal :=
  match withCredentials url with
  | None => (None, Rejected InvalidURL)
  | Some requestUrl =>
      let call := fetchCallOf requestUrl method body in
      (Some call,
       match fetch call with
       | Rejected reason => Rejected reason
       | Fulfilled response =>
           if negb (ok response) then
             let errorData := errorDataOf response in
             let responseText := responseTextOf response in
             match prop_of errorData "message" with
             | None => Rejected CannotReadNull
             | Some m =>
                 let shown :=
                   if truthy m then m
                   else if negb (String.eqb responseText "") then JsStr responseText
                   else JsStr ("HTTP " +:+ pretty (status response)) in
                 Rejected (MkError (to_string shown) (Some (status response))
                                   None None None)
             end
           else json response
       end)
  end.

End Transport.

End TrelloClient.

(* ===================================================================== *)
(** ** The bulk tools *)
(* ===================================================================== *)

Module BulkTools.
Import TrelloClient.

(** A tool result is represented by the method of [BaseTool] that builds it,
    [this.success(text)] or [this.error(message)], and its text.  The bulk
    tools are stated for any [validateRequired], which may throw, and any
    [createSummary]: both are parameters of the tools below (the module
    [BaseTool] further on has the ones of tools/base-tool.ts).  The body of
    a tool is one [try]: what is thrown inside it comes back as the error
    result of the [catch]. *)
Inductive ToolResult : Type :=
  | ToolSuccess (text : string)
  | ToolError (text : string).

Definition is_error (r : ToolResult) : bool :=
  match r with ToolError _ => true | ToolSuccess _ => false end.

(** An item of [args.cards], with the properties of the input schema. *)
Record CardInput := {
  name : option string;
  description : option string;
  dueDate : option string;
  position : option string;
  memberIds : option (list string);
  labelIds : option (list string)
}.

(** The arguments of bulk_create_cards; [args_cards] is [None] when
    [args.cards] is not an array. *)
Record BulkCreateArgs := {
  args_listId : string;
  args_cards : option (list CardInput)
}.

(** The arguments of bulk_move_cards. *)
Record BulkMoveArgs := {
  move_cardIds : option (list string);
  move_targetListId : string;
  move_startPosition : option string
}.

(** The arguments of bulk_archive_cards. *)
Record BulkArchiveArgs := {
  archive_cardIds : option (list string);
  archive_archive : option bool
}.

Definition nl : string := String (Ascii.ascii_of_nat 10) "".

(** Truthiness of an optional string property. *)
Definition given (o : option string) : bool :=
  match o with Some s => negb (String.eqb s "") | None => false end.

Definition nonempty {A : Type} (o : option (list A)) : bool :=
  match o with Some (_ :: _) => true | _ => false end.

(** [`${index + 1}. ${card.name} (${card.id})\n`] for the first ten cards,
    and the line that counts the others.  A card is what the service
    answered: when one of the ten is [null] or [undefined], reading its name
    throws the platform's TypeError, [CannotRead card "name"]. *)
Definition listCards (CannotRead : JsVal -> string -> JsError) (done : list JsVal)
    : Completion string :=
  match List.find nullish (take 10 done) with
  | Some card => Throws (CannotRead card "name")
  | None =>
      Returns
        (String.concat ""
           (imap (fun index card =>
                    pretty (Z.of_nat index + 1) +:+ ". "
                      +:+ to_string (prop card "name")
                      +:+ " (" +:+ to_string (prop card "id") +:+ ")" +:+ nl)
                 (take 10 done))
         +:+ (if (10 <? length done)%nat
              then "... ve " +:+ pretty (Z.of_nat (length done) - 10)
                   +:+ " kart daha" +:+ nl
              else ""))
  end.

(** [`${index + 1}. ${failed.cardId}: ${failed.error}\n`] for every failure. *)
Definition listFailures (failedCards : list (string * string)) : string :=
  String.concat ""
    (imap (fun index failed =>
             pretty (Z.of_nat index + 1) +:+ ". " +:+ failed.1 +:+ ": "
               +:+ failed.2 +:+ nl)
          failedCards).

(** [`${Math.round((successCount / total) * 100)}%`], the quotient and the
    product in binary64: 23 of 40 make 57.49999999999999, shown as 57%.  The
    counts are lengths of arrays, which binary64 holds exactly. *)
Definition percentage (successCount total : nat) : float :=
  PrimFloat.mul
    (PrimFloat.div (number (Z.of_nat successCount)) (number (Z.of_nat total)))
    (number 100).

Definition successRate (successCount total : nat) : JsVal :=
  JsStr (shown_rounded (percentage successCount total) +:+ "%").

(** [batchResults.forEach((result, index) => ...)] of the move and archive
    tools: a fulfilled result joins the processed cards, a rejected one is
    recorded with the card id of the same index and the message of its reason. *)
Fixpoint sortResults (batch : list string) (results : list (Settled JsVal))
    (processed : list JsVal) (failedCards : list (string * string))
    : list JsVal * list (string * string) :=
  match batch, results with
  | cardId :: batch', Fulfilled value :: results' =>
      sortResults batch' results' (processed ++ [value]) failedCards
  | cardId :: batch', Rejected reason :: results' =>
      sortResults batch' results' processed
        (failedCards ++ [(cardId, str_or (Some (message reason)) "Bilinmeyen hata")])
  | _, _ => (processed, failedCards)
  end.

(** What the [try] of a tool comes to: the text it returns is the success
    result; an error thrown while the text is put together is answered by
    the [catch], under the heading of the tool. *)
Definition answer (heading : string) (text : Completion string) : ToolResult :=
  match text with
  | Returns resultMessage => ToolSuccess resultMessage
  | Throws error => ToolError (heading +:+ message error)
  end.

Section Tools.

Variable JSON_stringify : JsVal -> string.
Variable net : Net.

(** The order of the turns in the waves of a bulk operation. *)
Variable schedule : nat -> list nat.

(** The platform's TypeError for reading a property of [undefined] or of
    [null]. *)
Variable CannotRead : JsVal -> string -> JsError.

(** [BaseTool.validateRequired]: [Some e] when it throws [e]. *)
Variable validateRequired : forall A : Type, A -> list string -> option JsError.

(** [BaseTool.createSummary]. *)
Variable createSummary : string -> list (string * JsVal) -> string.

(** [String.prototype.trim] and the validity of [new Date(s)], the platform's. *)
Variable trim : string -> string.
Variable valid_date : string -> bool.

(** The validation loop of bulk_create_cards: the message of the first card
    that is refused. *)
Fixpoint validateCards (i : nat) (cards : list CardInput) : option string :=
  match cards with
  | [] => None
  | card :: rest =>
      if negb (given (name card)) || negb (given (trim <$> name card))
      then Some ("Kart " +:+ pretty (Z.of_nat i + 1) +:+ ": Kart adı gerekli")
      else if given (dueDate card) && negb (valid_date (default "" (dueDate card)))
      then Some ("Kart " +:+ pretty (Z.of_nat i + 1) +:+ ": Geçersiz tarih formatı")
      else validateCards (S i) rest
  end.

(** The [cardData] prepared for a card. *)
Definition cardData (card : CardInput) : JsVal :=
  JsObj
    ([("name", JsStr (trim (default "" (name card))))]
     ++ (if given (description card) && given (trim <$> description card)
         then [("desc", JsStr (trim (default "" (description card))))] else [])
     ++ (if given (dueDate card)
         then [("due", JsStr (default "" (dueDate card)))] else [])
     ++ (if given (position card)
         then [("pos", JsStr (default "" (position card)))] else [])
     ++ (if nonempty (memberIds card)
         then [("idMembers", JsArr (JsStr <$> default [] (memberIds card)))] else [])
     ++ (if nonempty (labelIds card)
         then [("idLabels", JsArr (JsStr <$> default [] (labelIds card)))] else [])).

(** The text of bulk_create_cards: the summary, the created cards, and the
    number of cards that were not created. *)
Definition createReport (total : nat) (createdCards : list JsVal)
    : Completion string :=
  let successCount := length createdCards in
  let failedCount := Z.of_nat total - Z.of_nat successCount in
  let summary :=
    createSummary "📦 Bulk Kart Oluşturma Sonucu"
      [("Başarılı", JsNum (Z.of_nat successCount));
       ("Başarısız", JsNum failedCount);
       ("Toplam", JsNum (Z.of_nat total));
       ("Başarı Oranı", successRate successCount total)] in
  let warning :=
    if 0 <? failedCount
    then nl +:+ "⚠️ " +:+ pretty failedCount
         +:+ " kart oluşturulamadı. Loglarda detayları kontrol edin."
    else "" in
  if (0 <? successCount)%nat
  then
    match listCards CannotRead createdCards with
    | Returns listed =>
        Returns (summary +:+ nl +:+ nl +:+ "✅ Oluşturulan Kartlar:" +:+ nl
                 +:+ listed +:+ warning)
    | Throws error => Throws error
    end
  else Returns (summary +:+ warning).

(** [BulkCreateCardsTool.execute]. *)
Definition bulkCreateExecute (args : BulkCreateArgs) (w : World)
    : ToolResult * World :=
  match validateRequired _ args ["listId"; "cards"] with
  | Some error => (ToolError ("Bulk kart oluşturma hatası: " +:+ message error), w)
  | None =>
      match args_cards args with
      | None | Some [] => (ToolError "En az bir kart bilgisi gerekli", w)
      | Some cards =>
          if (50 <? length cards)%nat
          then (ToolError "Tek seferde en fazla 50 kart oluşturabilirsiniz", w)
          else
            match validateCards 0 cards with
            | Some refusal => (ToolError refusal, w)
            | None =>
                let bulkRequest :=
                  {| TrelloClient.idList := args_listId args;
                     TrelloClient.cards := cardData <$> cards |} in
                let '(createdCards, w') :=
                  bulkCreateCards JSON_stringify net schedule bulkRequest w in
                (answer "Bulk kart oluşturma hatası: "
                        (createReport (length cards) createdCards), w')
            end
      end
  end.

(** The batch loop shared, word for word, by the move and the archive tool,
    from index [i] on; [op] is the client call made for a card id. *)
Fixpoint cardWaves (fuel : nat) (op : string -> Call)
    (cardIds : list string) (i : nat) (processed : list JsVal)
    (failedCards : list (string * string)) (w : World)
    : list JsVal * list (string * string) * World :=
  match fuel with
  | O => (processed, failedCards, w)
  | S fuel' =>
      if (i <? length cardIds)%nat then
        let batch := take batchSize (drop i cardIds) in
        let '(batchResults, w1) :=
          allSettled JSON_stringify net (schedule i) (op <$> batch) w in
        let '(processed', failedCards') :=
          sortResults batch batchResults processed failedCards in
        let w2 := if (i + batchSize <? length cardIds)%nat
                  then sleep 100 w1 else w1 in
        cardWaves fuel' op cardIds (i + batchSize) processed' failedCards' w2
      else (processed, failedCards, w)
  end.

(** The text of bulk_move_cards. *)
Definition moveReport (total : nat) (targetListId : string)
    (movedCards : list JsVal) (failedCards : list (string * string))
    : Completion string :=
  let successCount := length movedCards in
  let failedCount := length failedCards in
  let summary :=
    createSummary "📦 Bulk Kart Taşıma Sonucu"
      [("Başarılı", JsNum (Z.of_nat successCount));
       ("Başarısız", JsNum (Z.of_nat failedCount));
       ("Toplam", JsNum (Z.of_nat total));
       ("Hedef Liste", JsStr targetListId);
       ("Başarı Oranı", successRate successCount total)] in
  let failures :=
    if (0 <? failedCount)%nat
    then nl +:+ nl +:+ "❌ Taşınamayan Kartlar:" +:+ nl +:+ listFailures failedCards
    else "" in
  if (0 <? successCount)%nat
  then
    match listCards CannotRead movedCards with
    | Returns listed =>
        Returns (summary +:+ nl +:+ nl +:+ "✅ Taşınan Kartlar:" +:+ nl
                 +:+ listed +:+ failures)
    | Throws error => Throws error
    end
  else Returns (summary +:+ failures).

(** [BulkMoveCardsTool.execute]. *)
Definition bulkMoveExecute (args : BulkMoveArgs) (w : World) : ToolResult * World :=
  match validateRequired _ args ["cardIds"; "targetListId"] with
  | Some error => (ToolError ("Bulk kart taşıma hatası: " +:+ message error), w)
  | None =>
      match move_cardIds args with
      | None | Some [] => (ToolError "En az bir kart ID'si gerekli", w)
      | Some cardIds =>
          if (50 <? length cardIds)%nat
          then (ToolError "Tek seferde en fazla 50 kart taşıyabilirsiniz", w)
          else
            let startPosition := str_or (move_startPosition args) "bottom" in
            let '(movedCards, failedCards, w') :=
              cardWaves (length cardIds)
                (fun cardId =>
                   moveCardCall cardId (move_targetListId args)
                                (JsStr startPosition))
                cardIds 0 [] [] w in
            (answer "Bulk kart taşıma hatası: "
                    (moveReport (length cardIds) (move_targetListId args)
                                movedCards failedCards), w')
      end
  end.

(** The text of bulk_archive_cards. *)
Definition archiveReport (total : nat) (archive : bool)
    (processedCards : list JsVal) (failedCards : list (string * string))
    : Completion string :=
  let successCount := length processedCards in
  let failedCount := length failedCards in
  let action := if archive then "Arşivleme" else "Aktifleştirme" in
  let emoji := if archive then "🗄️" else "✅" in
  let summary :=
    createSummary ("📦 Bulk Kart " +:+ action +:+ " Sonucu")
      [("Başarılı", JsNum (Z.of_nat successCount));
       ("Başarısız", JsNum (Z.of_nat failedCount));
       ("Toplam", JsNum (Z.of_nat total));
       ("İşlem", JsStr action);
       ("Başarı Oranı", successRate successCount total)] in
  let failures :=
    if (0 <? failedCount)%nat
    then nl +:+ nl +:+ "❌ İşlem Yapılamayan Kartlar:" +:+ nl
         +:+ listFailures failedCards
    else "" in
  if (0 <? successCount)%nat
  then
    match listCards CannotRead processedCards with
    | Returns listed =>
        Returns (summary +:+ nl +:+ nl +:+ emoji +:+ " İşlem Yapılan Kartlar:" +:+ nl
                 +:+ listed +:+ failures)
    | Throws error => Throws error
    end
  else Returns (summary +:+ failures).

(** [BulkArchiveCardsTool.execute]. *)
Definition bulkArchiveExecute (args : BulkArchiveArgs) (w : World)
    : ToolResult * World :=
  match validateRequired _ args ["cardIds"] with
  | Some error => (ToolError ("Bulk kart arşivleme hatası: " +:+ message error), w)
  | None =>
      match archive_cardIds args with
      | None | Some [] => (ToolError "En az bir kart ID'si gerekli", w)
      | Some cardIds =>
          if (50 <? length cardIds)%nat
          then (ToolError "Tek seferde en fazla 50 kartla işlem yapabilirsiniz", w)
          else
            let archive := default true (archive_archive args) in
            let '(processedCards, failedCards, w') :=
              cardWaves (length cardIds)
                (fun cardId =>
                   updateCardCall cardId (JsObj [("closed", JsBool archive)]))
                cardIds 0 [] [] w in
            (answer "Bulk kart arşivleme hatası: "
                    (archiveReport (length cardIds) archive
                                   processedCards failedCards), w')
      end
  end.

End Tools.

End BulkTools.

(* ===================================================================== *)
(** ** tools/base-tool.ts: class BaseTool *)
(* ===================================================================== *)

(** The helpers of the base class of the tools.  Objects are read by their
    own properties; what an object inherits from its prototype is left out. *)
Module BaseTool.
Import BulkTools.

(** [validateRequired]: [Some e] when it throws [e]; [CannotRead v key] is
    the platform's TypeError for reading the property [key] of [v], which is
    [undefined] or [null]. *)
Definition validateRequired (CannotRead : JsVal -> string -> JsError) (args : JsVal)
    (fields : list string) : option JsError :=
  match args with
  | JsUndefined | JsNull =>
      match fields with
      | [] => None
      | field :: _ => Some (CannotRead args field)
      end
  | _ =>
      let missing := List.filter (fun field => negb (truthy (prop args field))) fields in
      match missing with
      | [] => None
      | _ :: _ => Some (Error ("Missing required fields: " +:+ join ", " missing))
      end
  end.

(** [truncateText]; [maxLength] is 100 when the caller gives none. *)
Definition truncateText (text : CodeUnits) (maxLength : option Z) : CodeUnits :=
  let maxLength := default 100 maxLength in
  if str_length text <=? maxLength then text
  else substring0 (maxLength - 3) text ++ utf16 "...".

(** The outcome of [retry]: the value returned, or what is thrown --
    [lastError], which is still [undefined] ([None]) when no attempt was
    made --, the number of times the operation was called and the time
    spent in the delays. *)
Record Retried (A : Type) := {
  retry_outcome : A + option JsError;
  retry_calls : nat;
  retry_waited : Z
}.
Arguments retry_outcome {A} _.
Arguments retry_calls {A} _.
Arguments retry_waited {A} _.

(** The loop of [retry], from [attempt] on; [operation k] is the way the
    k-th call of the operation settles.  [fuel] bounds the iterations. *)
Fixpoint retryFrom {A : Type} (fuel : nat) (operation : nat -> Settled A)
    (maxRetries initialDelay attempt : Z) (calls : nat) (waited : Z)
    (lastError : option JsError) : Retried A :=
  match fuel with
  | O => {| retry_outcome := inr lastError; retry_calls := calls;
            retry_waited := waited |}
  | S fuel' =>
      if attempt <=? maxRetries then
        match operation calls with
        | Fulfilled value =>
            {| retry_outcome := inl value; retry_calls := S calls;
               retry_waited := waited |}
        | Rejected error =>
            if attempt =? maxRetries
            then {| retry_outcome := inr (Some error); retry_calls := S calls;
                    retry_waited := waited |}
            else retryFrom fuel' operation maxRetries initialDelay (attempt + 1)
                           (S calls) (waited + initialDelay * 2 ^ attempt) (Some error)
        end
      else {| retry_outcome := inr lastError; retry_calls := calls;
              retry_waited := waited |}
  end.

(** [retry]; [maxRetries] is 3 and [initialDelay] 1000 when not given. *)
Definition retry {A : Type} (operation : nat -> Settled A)
    (maxRetries initialDelay : option Z) : Retried A :=
  retryFrom (Z.to_nat (default 3 maxRetries + 1)) operation (default 3 maxRetries)
            (default 1000 initialDelay) 0 0 0 None.

End BaseTool.

(* ===================================================================== *)
(** ** tools/card-tools.ts: ArchiveCardTool *)
(* ===================================================================== *)

Module CardTools.
Import TrelloClient BulkTools.

Section Tools.

Variable JSON_stringify : JsVal -> string.
Variable net : Net.
Variable CannotRead : JsVal -> string -> JsError.

(** [ArchiveCardTool.execute]. *)
Definition archiveCardExecute (args : JsVal) (w : World) : ToolResult * World :=
  match BaseTool.validateRequired CannotRead args ["cardId"] with
  | Some error => (ToolError ("Kart arşivlenirken hata oluştu: " +:+ message error), w)
  | None =>
      match updateCard JSON_stringify net (to_string (prop args "cardId"))
                       (JsObj [("closed", prop args "archive")]) w with
      | (Rejected error, w') =>
          (ToolError ("Kart arşivlenirken hata oluştu: " +:+ message error), w')
      | (Fulfilled card, w') =>
          let action := if truthy (prop args "archive")
                        then "arşivlendi" else "arşivden çıkarıldı" in
          match prop_of card "name" with
          | None =>
              (ToolError ("Kart arşivlenirken hata oluştu: "
                          +:+ message (CannotRead card "name")), w')
          | Some _ =>
              (ToolSuccess
                 (join nl ["✅ **Kart başarıyla " +:+ action +:+ "!**";
                           "🎯 **Ad:** " +:+ to_string (prop card "name");
                           "🆔 **ID:** " +:+ to_string (prop card "id");
                           "🗄️ **Durum:** "
                             +:+ (if truthy (prop card "closed")
                                  then "Arşivlenmiş" else "Aktif")]), w')
          end
      end
  end.

End Tools.

End CardTools.

(* ===================================================================== *)
(** ** core/simple-logger.ts: class SimpleLogger *)
(* ===================================================================== *)

Module SimpleLogger.

Definition levels : list string := ["error"; "warn"; "info"; "debug"].

(** [list.indexOf(x)], from position [i] on: -1 when [x] does not occur. *)
Fixpoint indexOf_from (i : Z) (x : string) (l : list string) : Z :=
  match l with
  | [] => -1
  | y :: rest => if String.eqb y x then i else indexOf_from (i + 1) x rest
  end.

Definition indexOf (x : string) (l : list string) : Z := indexOf_from 0 x l.

(** [shouldLog], for a logger whose level is [current]. *)
Definition shouldLog (current level : string) : bool :=
  indexOf level levels <=? indexOf current levels.

End SimpleLogger.

(* ===================================================================== *)
(** ** The server: the cache check of its start-up *)
(* ===================================================================== *)

Module Server.

(** [initializeCache]: a value is set for a minute and read back at once;
    what [cache.set] throws is thrown on. *)
Definition initializeCache (now : Z) (c : MemoryCache.t) : Settled unit * MemoryCache.t :=
  match MemoryCache.set now "test" (JsStr "value") (Some 60) c with
  | (Throws error, c1) => (Rejected error, c1)
  | (Returns _, c1) =>
      let '(testValue, c2) := MemoryCache.get now "test" c1 in
      match testValue with
      | JsStr "value" => (Fulfilled tt, c2)
      | _ => (Rejected (Error "Cache test failed"), c2)
      end
  end.

End Server.

(* ===================================================================== *)
(** * The vocabulary of the properties *)
(* ===================================================================== *)

(** The separator ["|"] does not occur in the string. *)
Fixpoint bar_free (s : string) : bool :=
  match s with
  | EmptyString => true
  | String c s' => negb (Ascii.eqb c (Ascii.ascii_of_nat 124)) && bar_free s'
  end.

(** The part of the body that enters the key: its serialised form, or nothing
    for a falsy body. *)
Definition bodyPart (stringify : JsVal -> string) (body : JsVal) : option string :=
  if truthy body then Some (stringify body) else None.

(** The change of the three request counters from [w] to [w']. *)
Definition counted (total succeeded failed : Z) (w w' : TrelloClient.World) : Prop :=
  TrelloClient.totalRequests (TrelloClient.stats w')
    = TrelloClient.totalRequests (TrelloClient.stats w) + total
  /\ TrelloClient.successfulRequests (TrelloClient.stats w')
     = TrelloClient.successfulRequests (TrelloClient.stats w) + succeeded
  /\ TrelloClient.failedRequests (TrelloClient.stats w')
     = TrelloClient.failedRequests (TrelloClient.stats w) + failed.

(** What the first sentence of the statistics claim asks of a call: the total
    goes up by one, and so does exactly one of the two outcome counters. *)
Definition countedOnce (w w' : TrelloClient.World) : Prop :=
  counted 1 1 0 w w' \/ counted 1 0 1 w w'.

(** The transport fails the next [k] jobs (whatever the limiter is asked to
    run) and fulfils the one after them with [value]. *)
Definition failsThenSucceeds (net : TrelloClient.Net) (from k : nat)
    (req : TrelloClient.Request) (value : JsVal) : Prop :=
  (forall i : nat, (i < k)%nat ->
     is_fulfilled (TrelloClient.settled (net (from + i)%nat req)) = false)
  /\ TrelloClient.settled (net (from + k)%nat req) = Fulfilled value.

(** The world in which the retry loop starts when the cache has not answered:
    a lookup that was made has counted its miss. *)
Definition afterMiss (stringify : JsVal -> string) (endpoint : string)
    (options : TrelloClient.ApiRequestOptions) (w : TrelloClient.World)
    : TrelloClient.World :=
  if TrelloClient.is_GET (default TrelloClient.GET (TrelloClient.method options))
     && default true (TrelloClient.useCache options)
  then TrelloClient.count_cacheMiss
         (TrelloClient.with_cache
            (MemoryCache.get (TrelloClient.now w)
               (TrelloClient.cacheKeyOf stringify endpoint options)
               (TrelloClient.cache w)).2 w)
  else w.

(** The entry that a key holds at a time: what the store has under the
    key, unless it has expired. *)
Definition held (now : Z) (k : string) (c : MemoryCache.t) : option NodeCache.Entry :=
  match NodeCache.data (MemoryCache.cache c) !! k with
  | Some e => if NodeCache.expired now e then None else Some e
  | None => None
  end.

(** The store without the key [k]: what a lookup of [k] that finds nothing
    leaves behind (an entry that had expired is removed). *)
Definition swept (k : string) (c : MemoryCache.t) : NodeCache.Store :=
  {| NodeCache.options := NodeCache.options (MemoryCache.cache c);
     NodeCache.data := delete k (NodeCache.data (MemoryCache.cache c)) |}.

(** How many of the jobs number [from], [from + 1], ..., [count] of them
    in all, the transport fulfils. *)
Fixpoint fulfilledAmong (net : TrelloClient.Net) (req : TrelloClient.Request)
    (from count : nat) : Z :=
  match count with
  | O => 0
  | S count' =>
      (if is_fulfilled (TrelloClient.settled (net from req)) then 1 else 0)
      + fulfilledAmong net req (S from) count'
  end.

(** The end of the [catch] block after the attempt number [attempt]: a
    pause of [min(1000 * 2^attempt, 10000)] ms, if another attempt is to
    follow. *)
Definition pauseAfter (attempt retries : Z) (w : TrelloClient.World)
    : TrelloClient.World :=
  if attempt + 1 <=? retries
  then TrelloClient.sleep (Z.min (1000 * 2 ^ (attempt + 1 - 1)) 10000) w
  else w.

(** The call looks into the cache and writes its result there: a GET
    with [useCache] on. *)
Definition usesCache (options : TrelloClient.ApiRequestOptions) : bool :=
  TrelloClient.is_GET (default TrelloClient.GET (TrelloClient.method options))
  && default true (TrelloClient.useCache options).

(** The store is full when the call comes to write its result, that is
    after the lookup at the head of the call, which removes the entry of the
    key if that has expired. *)
Definition storeFull (stringify : JsVal -> string) (endpoint : string)
    (options : TrelloClient.ApiRequestOptions) (w : TrelloClient.World) : bool :=
  NodeCache.full
    (MemoryCache.cache (TrelloClient.cache (afterMiss stringify endpoint options w))).

(** The retry property as the specification states it, for the calls that
    the cache does not answer. *)
Definition retryClaim : Prop :=
  forall (stringify : JsVal -> string) (net : TrelloClient.Net) (endpoint : string)
         (options : TrelloClient.ApiRequestOptions) (w : TrelloClient.World)
         (N : Z) (value : JsVal),
    default 3 (TrelloClient.retries options) = N -> 0 <= N ->
    TrelloClient.servedFromCache stringify endpoint options w = false ->
    failsThenSucceeds net (length (TrelloClient.jobs w)) (Z.to_nat (N - 1))
                      (TrelloClient.requestOf endpoint options) value ->
    let r := TrelloClient.makeRequest stringify net endpoint options w in
    r.1 = Fulfilled value /\ counted 1 1 0 w r.2.

(** The queues that can arise: jobs join, and the limiter takes the next one. *)
Inductive Reachable : Bottleneck.Queues -> Prop :=
  | reach_start : Reachable Bottleneck.noJobs
  | reach_push (j : Bottleneck.JobOptions) (q : Bottleneck.Queues) :
      Reachable q -> Reachable (Bottleneck.push j q)
  | reach_shift (j : Bottleneck.JobOptions) (q q' : Bottleneck.Queues) :
      Reachable q -> Bottleneck.shift q = Some (j, q') -> Reachable q'.

(** The level at which a job waits. *)
Definition levelOf (j : Bottleneck.JobOptions) : nat :=
  Z.to_nat (Bottleneck.sanitizePriority (Bottleneck.priority j)).

(** Every waiting job sits in the list of its level, counted from [base]. *)
Fixpoint sorted_from (base : nat) (q : Bottleneck.Queues) : Prop :=
  match q with
  | [] => True
  | l :: rest => Forall (fun j => levelOf j = base) l /\ sorted_from (S base) rest
  end.

(** The shape of the queues at any time: every waiting job is filed under its
    own priority level.  Jobs that join and jobs that leave keep it. *)
Definition filedByPriority (q : Bottleneck.Queues) : Prop := sorted_from 0 q.

(** The ceiling of the claim: the configured [reservoir]. *)
Definition ceiling (cfg : Bottleneck.Settings) : Z := Bottleneck.reservoir cfg.

(** The claim read on the limiter: at all times the level lies between 0 and
    the ceiling, ... *)
Definition levelWithinCeiling : Prop :=
  forall (options : option TrelloRateLimiter.RateLimitOptions)
         (events : list Bottleneck.Event),
    let cfg := TrelloRateLimiter.constructor options in
    0 <= Bottleneck.reservoir cfg -> 0 <= Bottleneck.reservoirRefreshAmount cfg ->
    Forall (fun e => 0 <= Bottleneck.weight_of e) events ->
    0 <= Bottleneck.level (Bottleneck.run cfg events) <= ceiling cfg.

(** ... and a refill adds the refresh amount, up to the ceiling. *)
Definition refillAddsUpToCeiling : Prop :=
  forall (options : option TrelloRateLimiter.RateLimitOptions) (s : Bottleneck.Store),
    let cfg := TrelloRateLimiter.constructor options in
    Bottleneck.level (Bottleneck.step cfg s Bottleneck.Refill)
    = Z.min (Bottleneck.level s + Bottleneck.reservoirRefreshAmount cfg) (ceiling cfg).

(** [needle] occurs in [text]. *)
Fixpoint contains (needle text : string) : bool :=
  String.prefix needle text
  || match text with
     | EmptyString => false
     | String _ rest => contains needle rest
     end.

(** A result text that reports a failed item shows the item and the error. *)
Definition reportsFailure (r : BulkTools.ToolResult) (item error : string) : Prop :=
  match r with
  | BulkTools.ToolSuccess text =>
      contains item text = true /\ contains error text = true
  | BulkTools.ToolError _ => False
  end.

(** Two promises settle alike: both are fulfilled, with the same value, or
    both are rejected. *)
Definition alike (a b : Settled JsVal) : Prop :=
  match a, b with
  | Fulfilled x, Fulfilled y => x = y
  | Rejected _, Rejected _ => True
  | _, _ => False
  end.

(** Two services that differ at most in the errors with which they fail. *)
Definition sameButErrors (n1 n2 : TrelloClient.Net) : Prop :=
  forall (i : nat) (req : TrelloClient.Request),
    TrelloClient.elapsed (n1 i req) = TrelloClient.elapsed (n2 i req)
    /\ alike (TrelloClient.settled (n1 i req)) (TrelloClient.settled (n2 i req)).

(** How the retry loop, run to its end, settles the call. *)
Definition settledBy (c : TrelloClient.Call) (startTime : Z)
    (r : TrelloClient.LoopExit * TrelloClient.World)
    : Settled JsVal * TrelloClient.World :=
  match r with
  | (TrelloClient.Returned result, w2) => (Fulfilled result, w2)
  | (TrelloClient.Exhausted lastError, w2) =>
      let w3 := TrelloClient.updateStats false (TrelloClient.now w2 - startTime) w2 in
      (Rejected
         (TrelloClient.detailedError
            (default 3 (TrelloClient.retries (TrelloClient.call_options c)))
            (TrelloClient.call_endpoint c)
            (default TrelloClient.GET (TrelloClient.method (TrelloClient.call_options c)))
            lastError),
       TrelloClient.updateStats false (TrelloClient.now w3 - startTime) w3)
  end.

(** The texts that are written with digits alone, as the index of an item
    of an array is. *)
Definition is_digit (c : Ascii.ascii) : bool :=
  (48 <=? Ascii.nat_of_ascii c)%nat && (Ascii.nat_of_ascii c <=? 57)%nat.

Fixpoint numeral (s : string) : bool :=
  match s with
  | EmptyString => true
  | String c rest => is_digit c && numeral rest
  end.

(** Two calls under way that differ at most in the errors they have met. *)
Definition alikeFlights (f1 f2 : TrelloClient.Flight) : Prop :=
  TrelloClient.call f1 = TrelloClient.call f2
  /\ TrelloClient.startTime f1 = TrelloClient.startTime f2
  /\ TrelloClient.attempt f1 = TrelloClient.attempt f2
  /\ match TrelloClient.stage f1, TrelloClient.stage f2 with
     | TrelloClient.AwaitsReply j1 due1, TrelloClient.AwaitsReply j2 due2 =>
         j1 = j2 /\ due1 = due2
     | TrelloClient.AwaitsTimer due1, TrelloClient.AwaitsTimer due2 => due1 = due2
     | TrelloClient.Settles o1, TrelloClient.Settles o2 => alike o1 o2
     | _, _ => False
     end.

(** What a follow-up request of [getCardWithPowerUps] leaves behind: the
    world after the request and, for the list, the value that the request
    is fulfilled with, or the empty list when the request is rejected. *)
Definition leaves (request : Settled JsVal * TrelloClient.World) (list : JsVal)
    (w' : TrelloClient.World) : Prop :=
  w' = request.2
  /\ list = match request.1 with
            | Fulfilled value => value
            | Rejected _ => JsArr []
            end.

(** The rate shown for [successCount] of [total] is a whole number between
    0 and 100, which is 100 only for all and 0 only for none. *)
Definition rateInRange (total successCount : nat) : bool :=
  match Math_round (BulkTools.percentage successCount total) with
  | Some rate =>
      (0 <=? rate) && (rate <=? 100)
      && Bool.eqb (rate =? 100) (successCount =? total)%nat
      && Bool.eqb (rate =? 0) (successCount =? 0)%nat
  | None => false
  end.

(** The rate of [hits] hits and [misses] misses in the arithmetic of the
    platform: it lies between 0 and 100 percent, within a hundredth of the
    exact one, is 0 without a hit and 100 with hits and without a miss. *)
Definition hitRateChecked (hits misses : nat) : bool :=
  let c := {| MemoryCache.cache := MemoryCache.cache (MemoryCache.create 300 1000);
              MemoryCache.hits := Z.of_nat hits;
              MemoryCache.misses := Z.of_nat misses |} in
  match MemoryCache.hitRate_binary64 c with
  | Some rate =>
      (0 <=? rate) && (rate <=? 10000)
      && (Z.abs (rate - MemoryCache.hitRate_x100 (MemoryCache.getStats c)) <=? 1)
      && (if (hits =? 0)%nat then rate =? 0 else true)
      && (if (misses =? 0)%nat then (hits =? 0)%nat || (rate =? 10000) else true)
  | None => false
  end.

(** A call of a method of the cache, and the cache after a series of calls. *)
Inductive CacheCall : Type :=
  | CallGet (now : Z) (k : string)
  | CallSet (now : Z) (k : string) (value : JsVal) (ttl : option Z)
  | CallDel (k : string)
  | CallHas (now : Z) (k : string)
  | CallFlush.

Definition afterCall (c : MemoryCache.t) (call : CacheCall) : MemoryCache.t :=
  match call with
  | CallGet now k => (MemoryCache.get now k c).2
  | CallSet now k value ttl => (MemoryCache.set now k value ttl c).2
  | CallDel k => (MemoryCache.del k c).2
  | CallHas now k => (MemoryCache.has now k c).2
  | CallFlush => MemoryCache.flush c
  end.

Definition afterCalls (calls : list CacheCall) (c : MemoryCache.t) : MemoryCache.t :=
  fold_left afterCall calls c.

(** The number of lookups since the last flush, counted from [n]. *)
Definition countCall (n : Z) (call : CacheCall) : Z :=
  match call with
  | CallGet _ _ => n + 1
  | CallFlush => 0
  | _ => n
  end.

Definition lookupsSinceFlush (n : Z) (calls : list CacheCall) : Z :=
  fold_left countCall calls n.

(** The number of keys in the store. *)
Definition keyCount (c : MemoryCache.t) : Z :=
  Z.of_nat (size (NodeCache.data (MemoryCache.cache c))).

(** The character [sep] does not occur in the string. *)
Fixpoint sep_free (sep : Ascii.ascii) (s : string) : bool :=
  match s with
  | EmptyString => true
  | String c s' => negb (Ascii.eqb c sep) && sep_free sep s'
  end.

Definition colon : Ascii.ascii := Ascii.ascii_of_nat 58.

(** The number under which the limiter files a request of a priority. *)
Definition tierNumber (p : TrelloClient.Priority) : Z :=
  match p with
  | TrelloClient.high => 9
  | TrelloClient.normal => 5
  | TrelloClient.low => 1
  end.

(** A job of a call: it wraps the request of the call and carries the number
    of its priority. *)
Definition jobOf (endpoint : string) (options : TrelloClient.ApiRequestOptions)
    (j : TrelloClient.Job) : Prop :=
  TrelloClient.job_request j = TrelloClient.requestOf endpoint options
  /\ Bottleneck.priority (TrelloClient.job_options j)
     = tierNumber (default TrelloClient.normal (TrelloClient.priority options)).

(** The pause before the attempt that follows [attempt] failures, and the
    pauses after the failures number [from], [from + 1], ..., added up. *)
Definition backoff (attempt : Z) : Z := Z.min (1000 * 2 ^ (attempt - 1)) 10000.

Fixpoint backoffSum (from : Z) (count : nat) : Z :=
  match count with
  | O => 0
  | S count' => backoff from + backoffSum (from + 1) count'
  end.

(** The time taken by the jobs number [from], [from + 1], ..., added up. *)
Fixpoint elapsedSum (net : TrelloClient.Net) (req : TrelloClient.Request)
    (from count : nat) : Z :=
  match count with
  | O => 0
  | S count' => TrelloClient.elapsed (net from req) + elapsedSum net req (S from) count'
  end.

(** The transport fails the next [count] jobs. *)
Definition allFail (net : TrelloClient.Net) (req : TrelloClient.Request)
    (from count : nat) : Prop :=
  forall i : nat, (i < count)%nat ->
    is_fulfilled (TrelloClient.settled (net (from + i)%nat req)) = false.

Definition reasonOf {A : Type} (s : Settled A) : option JsError :=
  match s with Rejected reason => Some reason | Fulfilled _ => None end.

(** The transport call of a call of [makeRequest]. *)
Definition requestOfCall (c : TrelloClient.Call) : TrelloClient.Request :=
  TrelloClient.requestOf (TrelloClient.call_endpoint c) (TrelloClient.call_options c).

(** The reply to job [j], sent with the request [req], is a rejection. *)
Definition refused (net : TrelloClient.Net) (req : TrelloClient.Request) (j : nat)
    : Prop :=
  is_fulfilled (TrelloClient.settled (net j req)) = false.

(** The reason of the reply to the last of the jobs [js]. *)
Definition lastReason (net : TrelloClient.Net) (req : TrelloClient.Request)
    (js : list nat) : option JsError :=
  last js ≫= fun j => reasonOf (TrelloClient.settled (net j req)).

(** What a call that does not use the cache comes to, given the jobs [js]
    that it handed to the limiter, in their order: it is fulfilled with the
    value of the reply to the last job, the replies before being rejections;
    or every reply was a rejection, the jobs are as many as the attempts
    that the call has, and the call is rejected with the error that names
    the reason of the last reply. *)
Definition outcomeFrom (net : TrelloClient.Net) (c : TrelloClient.Call)
    (js : list nat) (o : Settled JsVal) : Prop :=
  let req := requestOfCall c in
  let retries := default 3 (TrelloClient.retries (TrelloClient.call_options c)) in
  match o with
  | Fulfilled value =>
      exists (failed : list nat) (j : nat),
        js = failed ++ [j] /\ Forall (refused net req) failed
        /\ Z.of_nat (length failed) <= retries
        /\ TrelloClient.settled (net j req) = Fulfilled value
  | Rejected error =>
      Forall (refused net req) js
      /\ Z.of_nat (length js) = Z.max 0 (retries + 1)
      /\ error = TrelloClient.detailedError retries (TrelloClient.call_endpoint c)
                   (default TrelloClient.GET
                      (TrelloClient.method (TrelloClient.call_options c)))
                   (lastReason net req js)
  end.

(** The jobs [js], in the list [jobs] of the jobs handed to the limiter, are
    jobs of the call [c], in the order they were handed over. *)
Definition jobsOf (jobs : list TrelloClient.Job) (c : TrelloClient.Call)
    (js : list nat) : Prop :=
  Forall (fun j => TrelloClient.job_request <$> jobs !! j = Some (requestOfCall c)) js
  /\ StronglySorted lt js.

(** An account of the calls [calls], made together from the world [w] to
    the world [w']: for every call the way it settled and its jobs, the
    jobs handed to the limiter in between being shared out among the calls. *)
Definition accounts (net : TrelloClient.Net) (w w' : TrelloClient.World)
    (calls : list TrelloClient.Call) (runs : list (Settled JsVal * list nat))
    : Prop :=
  Forall2 (fun c run => outcomeFrom net c run.2 run.1
                        /\ jobsOf (TrelloClient.jobs w') c run.2) calls runs
  /\ exists more : list TrelloClient.Job,
       TrelloClient.jobs w' = TrelloClient.jobs w ++ more
       /\ concat runs.*2 ≡ₚ seq (length (TrelloClient.jobs w)) (length more).

(** Where a call under way stands, given its jobs so far. *)
Definition flightTrace (net : TrelloClient.Net) (f : TrelloClient.Flight)
    (js : list nat) : Prop :=
  let c := TrelloClient.call f in
  let req := requestOfCall c in
  let retries := default 3 (TrelloClient.retries (TrelloClient.call_options c)) in
  match TrelloClient.stage f with
  | TrelloClient.AwaitsReply j _ =>
      exists failed : list nat,
        js = failed ++ [j] /\ Forall (refused net req) failed
        /\ Z.of_nat (length failed) = TrelloClient.attempt f
        /\ TrelloClient.attempt f <= retries
        /\ TrelloClient.lastError f = lastReason net req failed
  | TrelloClient.AwaitsTimer _ =>
      Forall (refused net req) js
      /\ Z.of_nat (length js) = TrelloClient.attempt f
      /\ TrelloClient.attempt f <= retries
      /\ TrelloClient.lastError f = lastReason net req js
  | TrelloClient.Settles o => outcomeFrom net c js o
  end.

(** What a turn does to the jobs: none is added, or one, which joins the
    jobs [js] of the call. *)
Definition stepped (w w' : TrelloClient.World) (c : TrelloClient.Call)
    (js js' : list nat) : Prop :=
  (TrelloClient.jobs w' = TrelloClient.jobs w /\ js' = js)
  \/ (exists options,
        TrelloClient.jobs w'
        = TrelloClient.jobs w
          ++ [{| TrelloClient.job_options := options;
                 TrelloClient.job_request := requestOfCall c |}]
        /\ js' = js ++ [length (TrelloClient.jobs w)]).

(** The calls of a wave under way, begun after the jobs [before]: every
    call stands where its jobs so far put it, and the jobs handed over since
    are shared out among the calls. *)
Definition underWay (net : TrelloClient.Net) (before : list TrelloClient.Job)
    (flights : list TrelloClient.Flight) (w : TrelloClient.World) : Prop :=
  exists (jss : list (list nat)) (more : list TrelloClient.Job),
    Forall2 (fun f js => flightTrace net f js
                         /\ jobsOf (TrelloClient.jobs w) (TrelloClient.call f) js)
            flights jss
    /\ TrelloClient.jobs w = before ++ more
    /\ concat jss ≡ₚ seq (length before) (length more).

(** The failures that the move and the archive tool keep: the id of every
    card whose call was rejected, with the message of its error. *)
Fixpoint failuresOf (cardIds : list string) (results : list (Settled JsVal))
    : list (string * string) :=
  match cardIds, results with
  | cardId :: cardIds', Rejected reason :: results' =>
      (cardId, message reason) :: failuresOf cardIds' results'
  | _ :: cardIds', Fulfilled _ :: results' => failuresOf cardIds' results'
  | _, _ => []
  end.

(** The message that the error of a response that is not ok ends up with:
    the [message] of the body when the body is JSON and has a truthy one,
    else the text of the body, else ["Unknown error"]. *)
Definition failureMessage (parse : string -> option JsVal)
    (response : TrelloClient.Response) : string :=
  match TrelloClient.text response with
  | Fulfilled responseText =>
      match parse responseText with
      | Some parsed =>
          if truthy (prop parsed "message") then to_string (prop parsed "message")
          else responseText
      | None => str_or (Some responseText) "Unknown error"
      end
  | Rejected _ => "Unknown error"
  end.

(** The counters of the wrapper after a series of events of the limiter. *)
Definition observe (events : list TrelloRateLimiter.LimiterEvent)
    (s : TrelloRateLimiter.Counters) : TrelloRateLimiter.Counters :=
  fold_left TrelloRateLimiter.listen events s.

Definition sameEvent (a b : TrelloRateLimiter.LimiterEvent) : bool :=
  match a, b with
  | TrelloRateLimiter.Executing, TrelloRateLimiter.Executing
  | TrelloRateLimiter.Done, TrelloRateLimiter.Done
  | TrelloRateLimiter.Failed, TrelloRateLimiter.Failed
  | TrelloRateLimiter.Retry, TrelloRateLimiter.Retry
  | TrelloRateLimiter.Depleted, TrelloRateLimiter.Depleted
  | TrelloRateLimiter.ErrorEvent, TrelloRateLimiter.ErrorEvent
  | TrelloRateLimiter.Debug, TrelloRateLimiter.Debug => true
  | _, _ => false
  end.

(** How many times an event occurs in a series. *)
Definition occurrences (e : TrelloRateLimiter.LimiterEvent)
    (events : list TrelloRateLimiter.LimiterEvent) : Z :=
  Z.of_nat (length (List.filter (sameEvent e) events)).

(** The limiter has jobs waiting or running. *)
Definition busy (c : TrelloRateLimiter.Counts) : bool :=
  (0 <? TrelloRateLimiter.QUEUED c) || (0 <? TrelloRateLimiter.EXECUTING c).

Definition timeoutError : JsError :=
  Error "Timeout waiting for rate limiter to become quiet".

(** The options that give nothing. *)
Definition noOptions : TrelloRateLimiter.RateLimitOptions :=
  {| TrelloRateLimiter.opt_maxConcurrent := None;
     TrelloRateLimiter.opt_minTime := None;
     TrelloRateLimiter.opt_maxTime := None;
     TrelloRateLimiter.opt_reservoir := None;
     TrelloRateLimiter.opt_reservoirRefreshAmount := None;
     TrelloRateLimiter.opt_reservoirRefreshInterval := None |}.

(** The options with another [maxTime]. *)
Definition withMaxTime (maxTime : option Z)
    (o : TrelloRateLimiter.RateLimitOptions) : TrelloRateLimiter.RateLimitOptions :=
  {| TrelloRateLimiter.opt_maxConcurrent := TrelloRateLimiter.opt_maxConcurrent o;
     TrelloRateLimiter.opt_minTime := TrelloRateLimiter.opt_minTime o;
     TrelloRateLimiter.opt_maxTime := maxTime;
     TrelloRateLimiter.opt_reservoir := TrelloRateLimiter.opt_reservoir o;
     TrelloRateLimiter.opt_reservoirRefreshAmount :=
       TrelloRateLimiter.opt_reservoirRefreshAmount o;
     TrelloRateLimiter.opt_reservoirRefreshInterval :=
       TrelloRateLimiter.opt_reservoirRefreshInterval o |}.

(* ===================================================================== *)
(** * Example data *)
(* ===================================================================== *)

(** A stand-in for [JSON.stringify] in the examples. *)
Definition demo_stringify (v : JsVal) : string := to_string v.

Definition card_json (id name : string) : JsVal :=
  JsObj [("id", JsStr id); ("name", JsStr name)].

(** Every job is answered with a card after 120 ms. *)
Definition net_ok : TrelloClient.Net :=
  fun _ _ => {| TrelloClient.settled := Fulfilled (card_json "c1" "A");
                TrelloClient.elapsed := 120 |}.

(** Every job fails after 30 ms. *)
Definition net_down : TrelloClient.Net :=
  fun _ _ => {| TrelloClient.settled := Rejected (Error "boom");
                TrelloClient.elapsed := 30 |}.

(** The first [k] jobs fail, the others are answered. *)
Definition net_flaky (k : nat) : TrelloClient.Net :=
  fun i req => if (i <? k)%nat then net_down i req else net_ok i req.

Definition fresh_world : TrelloClient.World :=
  {| TrelloClient.now := 1000;
     TrelloClient.stats := TrelloClient.zero_stats;
     TrelloClient.cache := MemoryCache.create 300 1000;
     TrelloClient.jobs := [] |}.

(** The cache already holds the boards. *)
Definition warm_world : TrelloClient.World :=
  TrelloClient.with_cache
    (MemoryCache.set 0 "GET|/boards" (JsArr [card_json "b1" "Board"]) None
                     (MemoryCache.create 300 1000)).2
    fresh_world.

(** The store takes one key and holds one: it is full. *)
Definition full_world : TrelloClient.World :=
  TrelloClient.with_cache
    (MemoryCache.set 0 "GET|/members/me" (JsObj [("id", JsStr "m1")]) None
                     (MemoryCache.create 300 1)).2
    fresh_world.

(** The first job is answered with a card, the others with [null]. *)
Definition net_card_then_null : TrelloClient.Net :=
  fun i req =>
    if (i =? 0)%nat then net_ok i req
    else {| TrelloClient.settled := Fulfilled JsNull; TrelloClient.elapsed := 120 |}.

(** Every request is answered with [null]. *)
Definition net_null : TrelloClient.Net :=
  fun _ _ => {| TrelloClient.settled := Fulfilled JsNull; TrelloClient.elapsed := 50 |}.

(** A read with a single retry. *)
Definition one_retry : TrelloClient.ApiRequestOptions :=
  {| TrelloClient.method := None; TrelloClient.body := JsUndefined;
     TrelloClient.useCache := None; TrelloClient.cacheTtl := None;
     TrelloClient.priority := None; TrelloClient.retries := Some 1 |}.

(** Ten low-priority jobs are waiting when a high-priority job arrives: the
    limiter starts a low-priority job. *)
Definition backlog : Bottleneck.Queues :=
  Bottleneck.push (TrelloRateLimiter.scheduleHighPriority 1010 None)
    (fold_right (fun t q => Bottleneck.push (TrelloRateLimiter.scheduleLowPriority t None) q)
                Bottleneck.noJobs
                [1009; 1008; 1007; 1006; 1005; 1004; 1003; 1002; 1001; 1000]).

Definition onlyReservoir (n : Z) : option TrelloRateLimiter.RateLimitOptions :=
  Some {| TrelloRateLimiter.opt_maxConcurrent := None;
          TrelloRateLimiter.opt_minTime := None;
          TrelloRateLimiter.opt_maxTime := None;
          TrelloRateLimiter.opt_reservoir := Some n;
          TrelloRateLimiter.opt_reservoirRefreshAmount := None;
          TrelloRateLimiter.opt_reservoirRefreshInterval := None |}.

(** Sixty jobs of weight 1 and a refill after the first fifty, with the
    default settings (the jobs finish as they go). *)
Definition sixty_jobs : list Bottleneck.Event :=
  concat (replicate 50 [Bottleneck.Admission 1; Bottleneck.Completion 1])
  ++ [Bottleneck.Admission 1; Bottleneck.Refill]
  ++ concat (replicate 10 [Bottleneck.Admission 1; Bottleneck.Completion 1]).

Definition demo_validateRequired : forall A : Type, A -> list string -> option JsError :=
  fun _ _ _ => None.

Definition demo_createSummary (title : string) (rows : list (string * JsVal))
    : string :=
  title +:+ BulkTools.nl
  +:+ String.concat ""
        (map (fun row => row.1 +:+ ": " +:+ to_string row.2 +:+ BulkTools.nl) rows).

Definition demo_trim (s : string) : string := s.

(** The TypeError of the platform, with the message that Node gives it. *)
Definition demo_CannotRead (v : JsVal) (key : string) : JsError :=
  Error ("Cannot read properties of " +:+ to_string v
         +:+ " (reading '" +:+ key +:+ "')").

(** The calls of every wave go on as they come due. *)
Definition as_due : nat -> list nat := fun _ => [].

(** The calls of every wave go on in the reverse order of the batch, as far
    as that is possible. *)
Definition backwards : nat -> list nat :=
  fun _ => [4; 3; 2; 1; 0; 4; 3; 2; 1; 0]%nat.

Definition demo_valid_date (s : string) : bool := true.

Definition card_named (n : string) : BulkTools.CardInput :=
  {| BulkTools.name := Some n; BulkTools.description := None;
     BulkTools.dueDate := None; BulkTools.position := None;
     BulkTools.memberIds := None; BulkTools.labelIds := None |}.

(** The service refuses, with the error [why], every request about [what] (a
    card name in the body of a creation, or a path), and answers the others. *)
Definition net_refusing (what why : string) : TrelloClient.Net :=
  fun _ req =>
    if String.eqb (to_string (prop (TrelloClient.req_body req) "name")) what
       || String.eqb (TrelloClient.url req) (TrelloClient.baseUrl +:+ what)
    then {| TrelloClient.settled := Rejected (Error why); TrelloClient.elapsed := 30 |}
    else {| TrelloClient.settled :=
              Fulfilled (JsObj [("id", JsStr "c1");
                                ("name", prop (TrelloClient.req_body req) "name")]);
            TrelloClient.elapsed := 120 |}.

Definition two_cards : BulkTools.BulkCreateArgs :=
  {| BulkTools.args_listId := "list1";
     BulkTools.args_cards := Some [card_named "Card A"; card_named "Card B"] |}.

Definition fifty_one_cards : BulkTools.BulkCreateArgs :=
  {| BulkTools.args_listId := "list1";
     BulkTools.args_cards := Some (replicate 51 (card_named "Card")) |}.

Definition two_moves : BulkTools.BulkMoveArgs :=
  {| BulkTools.move_cardIds := Some ["idA"; "idB"];
     BulkTools.move_targetListId := "list2";
     BulkTools.move_startPosition := None |}.

Definition fifty_one_moves : BulkTools.BulkMoveArgs :=
  {| BulkTools.move_cardIds := Some (replicate 51 "idA");
     BulkTools.move_targetListId := "list2";
     BulkTools.move_startPosition := None |}.

(** An empty cache with the default configuration. *)
Definition empty_cache : MemoryCache.t := MemoryCache.create 300 1000.

(** A stand-in for [JSON.parse] in the examples: it refuses the empty text
    and the text of a gateway, and reads an error object out of any other. *)
Definition demo_parse (s : string) : option JsVal :=
  if String.eqb s "" || String.eqb s "Bad Gateway" then None
  else if String.eqb s "null" then Some JsNull
  else Some (JsObj [("message", JsStr "invalid key"); ("error", JsStr "UNAUTHORIZED")]).

Definition demo_credentials (url : string) : option string :=
  Some (url +:+ "?key=k&token=t").

(** The service answers every request with the status 401 and a JSON body. *)
Definition fetch_unauthorized (call : TrelloClient.FetchCall)
    : Settled TrelloClient.Response :=
  Fulfilled {| TrelloClient.ok := false; TrelloClient.status := 401;
               TrelloClient.statusText := "Unauthorized";
               TrelloClient.text := Fulfilled "{ ... }";
               TrelloClient.json := Rejected (Error "body already read") |}.

(* ===================================================================== *)
(** * Properties *)
(* ===================================================================== *)

(** ** Strings and the separator of cache keys *)

Lemma bar_split (a b x y : string) :
  bar_free a = true -> bar_free b = true ->
  a +:+ "|" +:+ x = b +:+ "|" +:+ y -> a = b /\ x = y.
Proof.
  revert b. induction a as [|c a IH]; intros [|d b] Ha Hb H; simpl in H.
  - injection H as H. auto.
  - injection H as Hc H. subst d. vm_compute in Hb. discriminate.
  - injection H as Hc H. subst c. vm_compute in Ha. discriminate.
  - injection H as Hc H. subst d. simpl in Ha, Hb.
    apply andb_prop in Ha as [_ Ha]. apply andb_prop in Hb as [_ Hb].
    destruct (IH b Ha Hb H) as [-> ->]. auto.
Qed.

Lemma bar_no_split (a b x : string) :
  bar_free a = true -> bar_free b = true -> a <> b +:+ "|" +:+ x.
Proof.
  revert b. induction a as [|c a IH]; intros [|d b] Ha Hb H; simpl in H;
    try discriminate.
  - injection H as Hc H. subst c. vm_compute in Ha. discriminate.
  - injection H as Hc H. subst d. simpl in Ha, Hb.
    apply andb_prop in Ha as [_ Ha]. apply andb_prop in Hb as [_ Hb].
    exact (IH b Ha Hb H).
Qed.

Lemma pretty_N_char_digit (x : N) : is_digit (pretty_N_char x) = true.
Proof.
  destruct x as [|p]; [reflexivity|].
  do 4 (destruct p as [p|p|]; try reflexivity).
Qed.

Lemma pretty_N_go_numeral (x : N) :
  forall s, numeral s = true -> numeral (pretty_N_go x s) = true.
Proof.
  induction (N.lt_wf_0 x) as [x _ IH]. intros s Hs.
  destruct (N.eq_dec x 0%N) as [->|Hx]; [now rewrite pretty_N_go_0|].
  rewrite pretty_N_go_step by lia. apply IH.
  - apply N.div_lt; lia.
  - simpl. now rewrite pretty_N_char_digit.
Qed.

Lemma pretty_index_numeral (i : nat) : numeral (pretty (Z.of_nat i)) = true.
Proof.
  destruct i as [|i]; [reflexivity|].
  change (Z.of_nat (S i)) with (Z.pos (Pos.of_succ_nat i)).
  unfold pretty, pretty_Z, pretty_positive, pretty, pretty_N.
  destruct (decide _); [reflexivity|]. now apply pretty_N_go_numeral.
Qed.

Lemma lookup_field_indices {A} (key : string) (items : list A) :
  forall entry : nat -> A -> string * JsVal,
    (forall i x, numeral (entry i x).1 = true) ->
    numeral key = false ->
    lookup_field key (imap entry items) = JsUndefined.
Proof.
  induction items as [|x items IH]; intros entry Hentry Hkey; [reflexivity|].
  cbn [imap lookup_field]. specialize (Hentry 0%nat x) as Hx.
  destruct (entry 0%nat x) as [k v]. cbn [fst] in Hx.
  destruct (String.eqb k key) eqn:Heq.
  - apply String.eqb_eq in Heq. congruence.
  - apply IH; [|exact Hkey]. intros i y. apply Hentry.
Qed.

(** A value that is not an object has nothing under a name that is neither
    an index nor [length]. *)
Lemma prop_of_no_object (v : JsVal) (key : string) :
  (forall fields, v <> JsObj fields) ->
  numeral key = false -> String.eqb key "length" = false ->
  prop v key = JsUndefined.
Proof.
  intros Hv Hkey Hlen. destruct v; cbn [prop]; try reflexivity.
  - rewrite Hlen. apply lookup_field_indices; [|exact Hkey].
    intros i x. apply pretty_index_numeral.
  - rewrite Hlen. apply lookup_field_indices; [|exact Hkey].
    intros i x. apply pretty_index_numeral.
  - now destruct (Hv fields).
Qed.

Lemma method_name_bar_free (m : TrelloClient.Method) :
  bar_free (TrelloClient.method_name m) = true.
Proof. destruct m; reflexivity. Qed.

Lemma method_name_inj (m1 m2 : TrelloClient.Method) :
  TrelloClient.method_name m1 = TrelloClient.method_name m2 -> m1 = m2.
Proof. destruct m1, m2; simpl; intros H; try reflexivity; discriminate. Qed.

Lemma generateCacheKey_parts stringify (m e : string) (body : JsVal) :
  TrelloClient.generateCacheKey stringify m e body =
  match bodyPart stringify body with
  | Some b => m +:+ "|" +:+ e +:+ "|" +:+ b
  | None => m +:+ "|" +:+ e
  end.
Proof.
  unfold TrelloClient.generateCacheKey, bodyPart, join.
  destruct (truthy body); reflexivity.
Qed.

(** C7 (cache-key derivation).  The key that [makeRequest] derives is built
    from the method, the endpoint and the serialised body alone, joined by
    ["|"]: two descriptors with the same method and body get the same key for
    an endpoint, whatever their useCache, cacheTtl, priority and retries are;
    and, for endpoints in which the separator does not occur, two descriptors
    with the same key have the same method, the same endpoint and the same
    serialised body (a falsy body counting as no body). *)
Theorem cache_key_from_method_endpoint_body (stringify : JsVal -> string) :
  (forall (e : string) (o1 o2 : TrelloClient.ApiRequestOptions),
     default TrelloClient.GET (TrelloClient.method o1)
       = default TrelloClient.GET (TrelloClient.method o2) ->
     TrelloClient.body o1 = TrelloClient.body o2 ->
     TrelloClient.cacheKeyOf stringify e o1 = TrelloClient.cacheKeyOf stringify e o2)
  /\ (forall (e1 e2 : string) (o1 o2 : TrelloClient.ApiRequestOptions),
        bar_free e1 = true -> bar_free e2 = true ->
        TrelloClient.cacheKeyOf stringify e1 o1
          = TrelloClient.cacheKeyOf stringify e2 o2 ->
        default TrelloClient.GET (TrelloClient.method o1)
          = default TrelloClient.GET (TrelloClient.method o2)
        /\ e1 = e2
        /\ bodyPart stringify (TrelloClient.body o1)
           = bodyPart stringify (TrelloClient.body o2)).
Proof.
  split.
  - intros e o1 o2 Hm Hb. unfold TrelloClient.cacheKeyOf. now rewrite Hm, Hb.
  - intros e1 e2 o1 o2 He1 He2.
    unfold TrelloClient.cacheKeyOf. rewrite !generateCacheKey_parts.
    set (m1 := default TrelloClient.GET (TrelloClient.method o1)).
    set (m2 := default TrelloClient.GET (TrelloClient.method o2)).
    pose proof (method_name_bar_free m1) as Hm1.
    pose proof (method_name_bar_free m2) as Hm2.
    destruct (bodyPart stringify (TrelloClient.body o1)) as [b1|];
      destruct (bodyPart stringify (TrelloClient.body o2)) as [b2|]; intros H;
      apply bar_split in H as [Hm H]; try assumption;
      apply method_name_inj in Hm.
    + apply bar_split in H as [-> ->]; auto.
    + symmetry in H. now apply bar_no_split in H.
    + now apply bar_no_split in H.
    + auto.
Qed.

(** Two descriptors of the boards request that differ in every cache policy. *)
Lemma cache_key_from_method_endpoint_body_witness :
  TrelloClient.cacheKeyOf demo_stringify "/members/me/boards" TrelloClient.no_options
  = TrelloClient.cacheKeyOf demo_stringify "/members/me/boards"
      {| TrelloClient.method := Some TrelloClient.GET;
         TrelloClient.body := JsUndefined;
         TrelloClient.useCache := Some false;
         TrelloClient.cacheTtl := Some 60;
         TrelloClient.priority := Some TrelloClient.low;
         TrelloClient.retries := Some 0 |}.
Proof.
  exact (proj1 (cache_key_from_method_endpoint_body demo_stringify)
           "/members/me/boards" TrelloClient.no_options _ eq_refl eq_refl).
Defined.

(** The key of the boards request, and a falsy body that leaves no trace in
    the key. *)
Example cache_key_examples :
  TrelloClient.cacheKeyOf demo_stringify "/members/me/boards" TrelloClient.no_options
  = "GET|/members/me/boards"
  /\ TrelloClient.generateCacheKey demo_stringify "POST" "/cards" (JsStr "x")
     = "POST|/cards|x"
  /\ TrelloClient.generateCacheKey demo_stringify "POST" "/cards" (JsNum 0)
     = TrelloClient.generateCacheKey demo_stringify "POST" "/cards" JsUndefined.
Proof. repeat split; reflexivity. Qed.

(** ** The cache *)

Lemma NodeCache_get_live (now : Z) (k : string) (s : NodeCache.Store)
    (e : NodeCache.Entry) :
  NodeCache.data s !! k = Some e -> NodeCache.expired now e = false ->
  NodeCache.get now k s = (NodeCache.unwrap (NodeCache.v e), s).
Proof. intros He Hx. unfold NodeCache.get. now rewrite He, Hx. Qed.

(** What the store hands out is never [undefined]. *)
Lemma unwrap_defined (value : JsVal) : is_undefined (NodeCache.unwrap value) = false.
Proof. now destruct value. Qed.

Lemma unwrap_truthy (value : JsVal) :
  truthy value = true -> NodeCache.unwrap value = value.
Proof. now destruct value. Qed.

Lemma unwrap_value (value : JsVal) :
  value <> JsUndefined -> NodeCache.unwrap value = value.
Proof. destruct value; simpl; congruence. Qed.

(** After a lookup that answered [undefined], the key holds nothing. *)
Lemma NodeCache_get_undefined (now : Z) (k : string) (s : NodeCache.Store) :
  (NodeCache.get now k s).1 = JsUndefined ->
  NodeCache.data (NodeCache.get now k s).2 !! k = None.
Proof.
  unfold NodeCache.get. destruct (NodeCache.data s !! k) as [e|] eqn:He.
  - destruct (NodeCache.expired now e); simpl.
    + intros _. now rewrite lookup_delete_eq.
    + intros Hv. pose proof (unwrap_defined (NodeCache.v e)) as Hd.
      rewrite Hv in Hd. discriminate.
  - simpl. intros _. exact He.
Qed.

Lemma NodeCache_get_absent (later : Z) (k : string) (s : NodeCache.Store) :
  NodeCache.data s !! k = None -> (NodeCache.get later k s).1 = JsUndefined.
Proof. unfold NodeCache.get. now intros ->. Qed.

Lemma MemoryCache_get_value (now : Z) (k : string) (c : MemoryCache.t) :
  (MemoryCache.get now k c).1 = (NodeCache.get now k (MemoryCache.cache c)).1.
Proof.
  unfold MemoryCache.get.
  destruct (NodeCache.get now k (MemoryCache.cache c)) as [value s].
  now destruct (negb (is_undefined value)).
Qed.

Lemma MemoryCache_get_store (now : Z) (k : string) (c : MemoryCache.t) :
  MemoryCache.cache (MemoryCache.get now k c).2
  = (NodeCache.get now k (MemoryCache.cache c)).2.
Proof.
  unfold MemoryCache.get.
  destruct (NodeCache.get now k (MemoryCache.cache c)) as [value s].
  now destruct (negb (is_undefined value)).
Qed.

Lemma is_undefined_spec (x : JsVal) : is_undefined x = true <-> x = JsUndefined.
Proof. destruct x; simpl; split; intros H; try reflexivity; discriminate. Qed.

Lemma is_undefined_false (x : JsVal) : is_undefined x = false <-> x <> JsUndefined.
Proof.
  destruct x; simpl; split; intros H; try reflexivity; try discriminate;
    congruence.
Qed.

(** A [set] returns on a store that has room and throws on one that is
    full, and there is no third way. *)
Lemma MemoryCache_set_cases (now : Z) (k : string) (value : JsVal)
    (ttl : option Z) (c : MemoryCache.t) :
  MemoryCache.set now k value ttl c
  = if NodeCache.full (MemoryCache.cache c)
    then (Throws NodeCache.ECACHEFULL, c)
    else (Returns true,
          {| MemoryCache.cache :=
               {| NodeCache.options := NodeCache.options (MemoryCache.cache c);
                  NodeCache.data :=
                    <[k := {| NodeCache.t := if num_or ttl 0 =? 0 then 0
                                             else now + num_or ttl 0 * 1000;
                              NodeCache.v := value |}]>
                      (NodeCache.data (MemoryCache.cache c)) |};
             MemoryCache.hits := MemoryCache.hits c;
             MemoryCache.misses := MemoryCache.misses c |}).
Proof.
  unfold MemoryCache.set, NodeCache.set.
  destruct (NodeCache.full (MemoryCache.cache c)).
  - now destruct c.
  - unfold NodeCache.livetime. now destruct (num_or ttl 0).
Qed.

Lemma MemoryCache_set_returns (now : Z) (k : string) (value : JsVal)
    (ttl : option Z) (c : MemoryCache.t) :
  (MemoryCache.set now k value ttl c).1 = Returns true
  <-> NodeCache.full (MemoryCache.cache c) = false.
Proof.
  rewrite MemoryCache_set_cases.
  destruct (NodeCache.full (MemoryCache.cache c)); simpl; split; intros H;
    (reflexivity || discriminate).
Qed.

Lemma MemoryCache_set_data (now : Z) (k : string) (value : JsVal)
    (ttl : option Z) (c : MemoryCache.t) :
  (MemoryCache.set now k value ttl c).1 = Returns true ->
  NodeCache.data (MemoryCache.cache (MemoryCache.set now k value ttl c).2)
  = <[k := {| NodeCache.t :=
                NodeCache.livetime now
                  (NodeCache.stdTTL (NodeCache.options (MemoryCache.cache c)))
                  (Some (num_or ttl 0));
              NodeCache.v := value |}]> (NodeCache.data (MemoryCache.cache c)).
Proof.
  unfold MemoryCache.set, NodeCache.set.
  destruct (NodeCache.full (MemoryCache.cache c)); [discriminate | reflexivity].
Qed.

Lemma livetime_of_number (now std n : Z) :
  NodeCache.livetime now std (Some n) = if n =? 0 then 0 else now + n * 1000.
Proof. unfold NodeCache.livetime. now destruct n. Qed.

(** C10 (set without ttl).  A [set] through the wrapper reaches the store with
    [ttl || 0]: the expiry time of the entry never comes from the configured
    [stdTTL]; and when the call gives no ttl, or a ttl of 0, the entry that
    is stored has no expiry time, so that a later [get] answers its value at
    any time (as the store hands it out: [null] for a value that is
    [undefined]). *)
Theorem set_without_ttl_never_expires (now : Z) (k : string) (value : JsVal)
    (ttl : option Z) (c : MemoryCache.t) :
  (MemoryCache.set now k value ttl c).1 = Returns true ->
  let c' := (MemoryCache.set now k value ttl c).2 in
  NodeCache.data (MemoryCache.cache c') !! k
    = Some {| NodeCache.t := if num_or ttl 0 =? 0 then 0
                             else now + num_or ttl 0 * 1000;
              NodeCache.v := value |}
  /\ (ttl = None \/ ttl = Some 0 ->
      NodeCache.data (MemoryCache.cache c') !! k
        = Some {| NodeCache.t := 0; NodeCache.v := value |}
      /\ forall later : Z,
           (MemoryCache.get later k c').1 = NodeCache.unwrap value).
Proof.
  intros Hok c'. subst c'. rewrite (MemoryCache_set_data _ _ _ _ _ Hok).
  rewrite livetime_of_number.
  split; [apply lookup_insert_eq|].
  intros Httl.
  assert (H0 : num_or ttl 0 = 0) by (destruct Httl; subst ttl; reflexivity).
  rewrite H0. change (0 =? 0) with true. cbv iota.
  split; [apply lookup_insert_eq|].
  intros later. rewrite MemoryCache_get_value.
  rewrite (NodeCache_get_live later k _ {| NodeCache.t := 0; NodeCache.v := value |});
    [reflexivity | | reflexivity].
  rewrite (MemoryCache_set_data _ _ _ _ _ Hok), livetime_of_number, H0.
  apply lookup_insert_eq.
Qed.

Lemma set_without_ttl_never_expires_witness :
  NodeCache.data
    (MemoryCache.cache (MemoryCache.set 1000 "k" (JsStr "v") None empty_cache).2)
    !! "k"
  = Some {| NodeCache.t := 0; NodeCache.v := JsStr "v" |}
  /\ forall later : Z,
       (MemoryCache.get later "k"
          (MemoryCache.set 1000 "k" (JsStr "v") None empty_cache).2).1
       = JsStr "v".
Proof.
  exact (proj2 (set_without_ttl_never_expires 1000 "k" (JsStr "v") None
                  empty_cache eq_refl) (or_introl eq_refl)).
Defined.

(** *** Get-or-compute *)

Lemma held_lookup (now : Z) (k : string) (c : MemoryCache.t) :
  MemoryCache.get now k c
  = match held now k c with
    | Some e =>
        (NodeCache.unwrap (NodeCache.v e),
         {| MemoryCache.cache := MemoryCache.cache c;
            MemoryCache.hits := MemoryCache.hits c + 1;
            MemoryCache.misses := MemoryCache.misses c |})
    | None =>
        (JsUndefined,
         {| MemoryCache.cache := swept k c;
            MemoryCache.hits := MemoryCache.hits c;
            MemoryCache.misses := MemoryCache.misses c + 1 |})
    end.
Proof.
  unfold held, MemoryCache.get, NodeCache.get, swept.
  destruct (NodeCache.data (MemoryCache.cache c) !! k) as [e|] eqn:He.
  - destruct (NodeCache.expired now e); [reflexivity|].
    now rewrite unwrap_defined.
  - rewrite (delete_id _ _ He). simpl. now destruct (MemoryCache.cache c).
Qed.

Lemma held_none (later : Z) (k : string) (c : MemoryCache.t) :
  NodeCache.data (MemoryCache.cache c) !! k = None -> held later k c = None.
Proof. unfold held. now intros ->. Qed.



(** ** The request executor *)

Section ExecutorFacts.

Variable stringify : JsVal -> string.
Variable net : TrelloClient.Net.

Lemma counted_refl (w : TrelloClient.World) : counted 0 0 0 w w.
Proof. unfold counted. lia. Qed.

Lemma counted_stats (a b c : Z) (w w1 w' : TrelloClient.World) :
  TrelloClient.stats w1 = TrelloClient.stats w -> counted a b c w1 w' ->
  counted a b c w w'.
Proof. unfold counted. intros ->. auto. Qed.

Lemma updateStats_counted (success : bool) (duration : Z) (w : TrelloClient.World) :
  counted 1 (if success then 1 else 0) (if success then 0 else 1) w
          (TrelloClient.updateStats success duration w).
Proof. unfold counted, TrelloClient.updateStats. destruct success; simpl; lia. Qed.

Lemma fulfilledAmong_nonneg (req : TrelloClient.Request) (count : nat) :
  forall from : nat, 0 <= fulfilledAmong net req from count.
Proof.
  induction count as [|count IH]; intros from; simpl; [lia|].
  specialize (IH (S from)).
  destruct (is_fulfilled (TrelloClient.settled (net from req))); lia.
Qed.

Lemma fulfilledAmong_allFail (req : TrelloClient.Request) (count : nat) :
  forall from : nat,
    allFail net req from count -> fulfilledAmong net req from count = 0.
Proof.
  induction count as [|count IH]; intros from Hfail; simpl; [reflexivity|].
  pose proof (Hfail 0%nat ltac:(lia)) as H0. rewrite Nat.add_0_r in H0.
  rewrite H0, IH; [reflexivity|].
  intros i Hi. replace (S from + i)%nat with (from + S i)%nat by lia.
  apply Hfail. lia.
Qed.

(** One turn of the retry loop.  A request that fails, and a write to the
    cache that throws, both lead to the next turn; the store is the same
    after a write that throws. *)
Lemma retryLoop_step fuel m cacheable key ttl p req retries startTime attempt
    lastError w :
  TrelloClient.retryLoop net (S fuel) m cacheable key ttl p req retries startTime
                         attempt lastError w
  = if attempt <=? retries then
      let w1 := (TrelloClient.scheduleRequest net p req w).2 in
      match TrelloClient.settled (net (length (TrelloClient.jobs w)) req) with
      | Fulfilled result =>
          let w2 := TrelloClient.updateStats true
                      (TrelloClient.now w1 - startTime) w1 in
          if TrelloClient.is_GET m && cacheable && truthy result then
            if NodeCache.full (MemoryCache.cache (TrelloClient.cache w))
            then TrelloClient.retryLoop net fuel m cacheable key ttl p req retries
                   startTime (attempt + 1) (Some NodeCache.ECACHEFULL)
                   (pauseAfter attempt retries w2)
            else (TrelloClient.Returned result,
                  TrelloClient.with_cache
                    (MemoryCache.set (TrelloClient.now w2) key result ttl
                       (TrelloClient.cache w)).2 w2)
          else (TrelloClient.Returned result, w2)
      | Rejected error =>
          TrelloClient.retryLoop net fuel m cacheable key ttl p req retries
            startTime (attempt + 1) (Some error) (pauseAfter attempt retries w1)
      end
    else (TrelloClient.Exhausted lastError, w).
Proof.
  cbn [TrelloClient.retryLoop]. destruct (attempt <=? retries); [|reflexivity].
  unfold TrelloClient.scheduleRequest. cbv zeta. cbn [fst snd].
  destruct (TrelloClient.settled (net (length (TrelloClient.jobs w)) req))
    as [result|error]; [|reflexivity].
  destruct (TrelloClient.is_GET m && cacheable && truthy result); [|reflexivity].
  cbn [TrelloClient.updateStats TrelloClient.with_stats TrelloClient.cache
       TrelloClient.now].
  rewrite !MemoryCache_set_cases.
  destruct (NodeCache.full (MemoryCache.cache (TrelloClient.cache w)));
    reflexivity.
Qed.

Lemma scheduleRequest_world (p : TrelloClient.Priority) (req : TrelloClient.Request)
    (w : TrelloClient.World) :
  let w1 := (TrelloClient.scheduleRequest net p req w).2 in
  TrelloClient.stats w1 = TrelloClient.stats w
  /\ TrelloClient.cache w1 = TrelloClient.cache w
  /\ length (TrelloClient.jobs w1) = S (length (TrelloClient.jobs w))
  /\ TrelloClient.now w1
     = TrelloClient.now w + TrelloClient.elapsed (net (length (TrelloClient.jobs w)) req).
Proof.
  unfold TrelloClient.scheduleRequest. simpl. rewrite length_app. simpl.
  repeat split. lia.
Qed.

Lemma pauseAfter_world (attempt retries : Z) (w : TrelloClient.World) :
  TrelloClient.stats (pauseAfter attempt retries w) = TrelloClient.stats w
  /\ TrelloClient.cache (pauseAfter attempt retries w) = TrelloClient.cache w
  /\ TrelloClient.jobs (pauseAfter attempt retries w) = TrelloClient.jobs w.
Proof. unfold pauseAfter. now destruct (attempt + 1 <=? retries). Qed.

Lemma updateStats_world (success : bool) (duration : Z) (w : TrelloClient.World) :
  TrelloClient.cache (TrelloClient.updateStats success duration w)
  = TrelloClient.cache w
  /\ TrelloClient.jobs (TrelloClient.updateStats success duration w)
     = TrelloClient.jobs w
  /\ TrelloClient.now (TrelloClient.updateStats success duration w)
     = TrelloClient.now w.
Proof. repeat split. Qed.

(** The statistics count the attempts that the transport fulfils: each of
    them is counted as a request and as a success, whether the loop goes on
    after it or not, and nothing else is counted in the loop.  A loop that
    returns has counted at least one; and where nothing is written to the
    cache, or the store has room, a fulfilled attempt is the last one. *)
Lemma retryLoop_counted fuel m cacheable key ttl p req retries startTime :
  forall attempt lastError w,
    let r := TrelloClient.retryLoop net fuel m cacheable key ttl p req retries
               startTime attempt lastError w in
    exists n : nat,
      length (TrelloClient.jobs r.2) = (length (TrelloClient.jobs w) + n)%nat
      /\ let k := fulfilledAmong net req (length (TrelloClient.jobs w)) n in
         counted k k 0 w r.2
         /\ match r.1 with
            | TrelloClient.Returned _ => 1 <= k
            | TrelloClient.Exhausted _ => 0 <= k
            end
         /\ (TrelloClient.is_GET m && cacheable = false
             \/ NodeCache.full (MemoryCache.cache (TrelloClient.cache w)) = false ->
             k = match r.1 with
                 | TrelloClient.Returned _ => 1
                 | TrelloClient.Exhausted _ => 0
                 end).
Proof.
  induction fuel as [|fuel IH]; intros attempt lastError w; cbv zeta.
  - exists 0%nat. simpl. split; [lia|]. split; [apply counted_refl|]. split; [lia|auto].
  - rewrite retryLoop_step.
    destruct (attempt <=? retries);
      [|exists 0%nat; simpl; split; [lia|]; split; [apply counted_refl|];
        split; [lia | auto]].
    cbv zeta.
    destruct (scheduleRequest_world p req w) as (Hs1 & Hc1 & Hj1 & _).
    set (w1 := (TrelloClient.scheduleRequest net p req w).2) in *.
    destruct (TrelloClient.settled (net (length (TrelloClient.jobs w)) req))
      as [result|error] eqn:Hreply.
    + pose proof (updateStats_counted true (TrelloClient.now w1 - startTime) w1) as Hc.
      set (w2 := TrelloClient.updateStats true (TrelloClient.now w1 - startTime) w1)
        in *.
      assert (Hone : counted 1 1 0 w w2) by (eapply counted_stats; eassumption).
      destruct (TrelloClient.is_GET m && cacheable && truthy result) eqn:Hwrite;
        [destruct (NodeCache.full (MemoryCache.cache (TrelloClient.cache w)))
           eqn:Hfull|].
      * destruct (pauseAfter_world attempt retries w2) as (Hs3 & Hc3 & Hj3).
        destruct (IH (attempt + 1) (Some NodeCache.ECACHEFULL)
                     (pauseAfter attempt retries w2))
          as (n & Hlen & Hcount & Hexit & _).
        exists (S n). rewrite Hlen, Hj3. cbn [fulfilledAmong]. rewrite Hreply.
        cbn [is_fulfilled]. rewrite Hj3 in Hcount, Hexit.
        change (TrelloClient.jobs w2) with (TrelloClient.jobs w1) in *.
        rewrite Hj1 in *.
        pose proof (fulfilledAmong_nonneg req n (S (length (TrelloClient.jobs w))))
          as Hnn.
        split; [lia|]. split; [|split].
        -- apply (counted_stats _ _ _ _ _ _ Hs3) in Hcount.
           unfold counted in *. lia.
        -- destruct (TrelloClient.retryLoop net fuel _ _ _ _ _ _ _ _ _ _ _).1; lia.
        -- intros [Hgate|Hroom]; [|congruence].
           rewrite Hgate in Hwrite. discriminate.
      * exists 1%nat. cbn [fst snd fulfilledAmong]. rewrite Hreply.
        cbn [is_fulfilled TrelloClient.with_cache TrelloClient.jobs].
        change (TrelloClient.jobs w2) with (TrelloClient.jobs w1).
        split; [lia|].
        split; [unfold counted in *; simpl in *; lia|]. split; [lia|reflexivity].
      * exists 1%nat. cbn [fst snd fulfilledAmong]. rewrite Hreply.
        cbn [is_fulfilled TrelloClient.with_cache TrelloClient.jobs].
        change (TrelloClient.jobs w2) with (TrelloClient.jobs w1).
        split; [lia|].
        split; [unfold counted in *; simpl in *; lia|]. split; [lia|reflexivity].
    + destruct (pauseAfter_world attempt retries w1) as (Hs3 & Hc3 & Hj3).
      destruct (IH (attempt + 1) (Some error) (pauseAfter attempt retries w1))
        as (n & Hlen & Hcount & Hexit & Honce).
      exists (S n). rewrite Hlen, Hj3. cbn [fulfilledAmong]. rewrite Hreply.
      cbn [is_fulfilled]. rewrite Hj3, Hj1 in *. rewrite Hc3, Hc1 in Honce.
      split; [lia|]. split; [|split].
      * apply (counted_stats _ _ _ _ _ _ Hs3) in Hcount.
        apply (counted_stats _ _ _ _ _ _ Hs1) in Hcount. exact Hcount.
      * exact Hexit.
      * intros Hroom. rewrite (Honce Hroom). lia.
Qed.

(** The bound on the iterations is never what ends the loop: from
    [retries + 1 - attempt] iterations on, allowing more changes nothing. *)
Lemma retryLoop_enough_fuel m cacheable key ttl p req retries startTime :
  forall (fuel extra : nat) attempt lastError w,
    (Z.to_nat (retries + 1 - attempt) <= fuel)%nat ->
    TrelloClient.retryLoop net (fuel + extra) m cacheable key ttl p req retries
                           startTime attempt lastError w
    = TrelloClient.retryLoop net fuel m cacheable key ttl p req retries
                             startTime attempt lastError w.
Proof.
  induction fuel as [|fuel IH]; intros extra attempt lastError w Hfuel.
  - destruct extra as [|extra]; [reflexivity|].
    cbn [Nat.add]. rewrite retryLoop_step.
    assert (Hgt : (attempt <=? retries) = false) by (apply Z.leb_gt; lia).
    now rewrite Hgt.
  - cbn [Nat.add]. rewrite !retryLoop_step.
    destruct (attempt <=? retries) eqn:Hle; [|reflexivity].
    apply Z.leb_le in Hle. cbv zeta.
    destruct (TrelloClient.settled (net (length (TrelloClient.jobs w)) req))
      as [result|error].
    + destruct (TrelloClient.is_GET m && cacheable && truthy result);
        [|reflexivity].
      destruct (NodeCache.full (MemoryCache.cache (TrelloClient.cache w)));
        [|reflexivity].
      apply IH. lia.
    + apply IH. lia.
Qed.

(** After [k] failures within the retry budget the loop returns the value of
    the next attempt, counted once, if that value is not to be written to
    the cache or the store has room for it. *)
Lemma retryLoop_returns m cacheable key ttl p req retries startTime value :
  forall (k fuel : nat) attempt lastError w,
    (k < fuel)%nat -> attempt + Z.of_nat k <= retries ->
    failsThenSucceeds net (length (TrelloClient.jobs w)) k req value ->
    TrelloClient.is_GET m && cacheable && truthy value = false
    \/ NodeCache.full (MemoryCache.cache (TrelloClient.cache w)) = false ->
    exists w',
      TrelloClient.retryLoop net fuel m cacheable key ttl p req retries
                             startTime attempt lastError w
        = (TrelloClient.Returned value, w')
      /\ length (TrelloClient.jobs w') = (length (TrelloClient.jobs w) + k + 1)%nat
      /\ counted 1 1 0 w w'.
Proof.
  induction k as [|k IH];
    intros fuel attempt lastError w Hfuel Hbudget [Hfail Hok] Hroom;
    (destruct fuel as [|fuel]; [lia|]); rewrite retryLoop_step;
    (assert (Hle : (attempt <=? retries) = true) by (apply Z.leb_le; lia));
    rewrite Hle; cbv zeta;
    destruct (scheduleRequest_world p req w) as (Hs1 & Hc1 & Hj1 & _);
    set (w1 := (TrelloClient.scheduleRequest net p req w).2) in *.
  - rewrite Nat.add_0_r in Hok. rewrite Hok.
    pose proof (updateStats_counted true (TrelloClient.now w1 - startTime) w1) as Hc.
    apply (counted_stats _ _ _ _ _ _ Hs1) in Hc.
    destruct (TrelloClient.is_GET m && cacheable && truthy value) eqn:Hwrite.
    + destruct Hroom as [Hroom|Hroom]; [discriminate|]. rewrite Hroom.
      eexists. split; [reflexivity|]. cbn [TrelloClient.with_cache TrelloClient.jobs].
      change (TrelloClient.jobs (TrelloClient.updateStats true _ w1))
        with (TrelloClient.jobs w1).
      split; [lia|]. unfold counted in *. simpl in *. lia.
    + eexists. split; [reflexivity|].
      change (TrelloClient.jobs (TrelloClient.updateStats true _ w1))
        with (TrelloClient.jobs w1).
      split; [lia | exact Hc].
  - pose proof (Hfail 0%nat ltac:(lia)) as H0. rewrite Nat.add_0_r in H0.
    destruct (TrelloClient.settled (net (length (TrelloClient.jobs w)) req))
      as [result|error]; [discriminate|].
    destruct (pauseAfter_world attempt retries w1) as (Hs3 & Hc3 & Hj3).
    destruct (IH fuel (attempt + 1) (Some error) (pauseAfter attempt retries w1))
      as (w' & Hrun & Hjobs & Hcount).
    + lia.
    + lia.
    + rewrite Hj3, Hj1. split.
      * intros i Hi.
        replace (S (length (TrelloClient.jobs w)) + i)%nat
          with (length (TrelloClient.jobs w) + S i)%nat by lia.
        apply Hfail. lia.
      * replace (S (length (TrelloClient.jobs w)) + k)%nat
          with (length (TrelloClient.jobs w) + S k)%nat by lia.
        exact Hok.
    + now rewrite Hc3, Hc1.
    + exists w'. split; [exact Hrun|]. rewrite Hjobs, Hj3, Hj1. split; [lia|].
      apply (counted_stats _ _ _ _ _ _ Hs3) in Hcount.
      apply (counted_stats _ _ _ _ _ _ Hs1) in Hcount. exact Hcount.
Qed.

End ExecutorFacts.

(** Case analysis on the way the retry loop of the goal is left, with what
    [retryLoop_counted] says of its counters. *)
Ltac loop_cases net H :=
  match goal with
  | |- context [TrelloClient.retryLoop net ?f ?m ?c ?k ?t ?p ?r ?n ?s ?a ?l ?w1] =>
      pose proof (retryLoop_counted net f m c k t p r n s a l w1) as H;
      cbv zeta in H;
      destruct (TrelloClient.retryLoop net f m c k t p r n s a l w1)
        as [[?result|?last] ?w2]
  end.

(** *** The cache lookup *)

Lemma servedFromCache_true stringify endpoint options w :
  TrelloClient.servedFromCache stringify endpoint options w = true ->
  exists cached c,
    MemoryCache.get (TrelloClient.now w)
      (TrelloClient.cacheKeyOf stringify endpoint options) (TrelloClient.cache w)
      = (cached, c)
    /\ is_undefined cached = false
    /\ forall net,
         TrelloClient.makeRequest stringify net endpoint options w
         = (Fulfilled cached,
            TrelloClient.count_cacheHit (TrelloClient.with_cache c w)).
Proof.
  unfold TrelloClient.servedFromCache, TrelloClient.makeRequest.
  intros H. apply andb_prop in H as [Hgate Hdef].
  rewrite Hgate.
  destruct (MemoryCache.get (TrelloClient.now w)
              (TrelloClient.cacheKeyOf stringify endpoint options)
              (TrelloClient.cache w)) as [cached c].
  simpl in Hdef. exists cached, c. apply negb_true_iff in Hdef.
  split; [reflexivity|]. split; [exact Hdef|].
  intros net. now rewrite Hdef.
Qed.

Lemma afterMiss_jobs stringify endpoint options w :
  TrelloClient.jobs (afterMiss stringify endpoint options w) = TrelloClient.jobs w.
Proof. unfold afterMiss. now destruct (_ && _). Qed.

Lemma afterMiss_counted stringify endpoint options w :
  counted 0 0 0 w (afterMiss stringify endpoint options w).
Proof.
  unfold afterMiss, counted. destruct (_ && _); simpl; lia.
Qed.

(** A call that the cache does not answer goes through the retry loop. *)
Lemma servedFromCache_false stringify net endpoint options w :
  TrelloClient.servedFromCache stringify endpoint options w = false ->
  TrelloClient.makeRequest stringify net endpoint options w
  = let retries := default 3 (TrelloClient.retries options) in
    match TrelloClient.retryLoop net (Z.to_nat (retries + 1))
            (default TrelloClient.GET (TrelloClient.method options))
            (default true (TrelloClient.useCache options))
            (TrelloClient.cacheKeyOf stringify endpoint options)
            (TrelloClient.cacheTtl options)
            (default TrelloClient.normal (TrelloClient.priority options))
            (TrelloClient.requestOf endpoint options) retries
            (TrelloClient.now w) 0 None
            (afterMiss stringify endpoint options w) with
    | (TrelloClient.Returned result, w2) => (Fulfilled result, w2)
    | (TrelloClient.Exhausted lastError, w2) =>
        let w3 := TrelloClient.updateStats false
                    (TrelloClient.now w2 - TrelloClient.now w) w2 in
        (Rejected (TrelloClient.detailedError retries endpoint
                     (default TrelloClient.GET (TrelloClient.method options))
                     lastError),
         TrelloClient.updateStats false
           (TrelloClient.now w3 - TrelloClient.now w) w3)
    end.
Proof.
  unfold TrelloClient.servedFromCache, TrelloClient.makeRequest, afterMiss.
  destruct (TrelloClient.is_GET (default TrelloClient.GET (TrelloClient.method options))
            && default true (TrelloClient.useCache options)); simpl.
  - destruct (MemoryCache.get (TrelloClient.now w)
                (TrelloClient.cacheKeyOf stringify endpoint options)
                (TrelloClient.cache w)) as [cached c].
    simpl. intros Hdef. apply negb_false_iff in Hdef. rewrite Hdef. reflexivity.
  - reflexivity.
Qed.

(** C6 (cache hit).  A GET call with useCache on, whose cache key holds an
    unexpired value, returns that value at once: the client's cache-hit
    counter and the hit counter of the cache go up by one, no job is handed to
    the rate limiter (so that no transport call is made), the clock has not
    moved and the request counters are as before. *)
Theorem cache_hit_skips_limiter (stringify : JsVal -> string)
    (net : TrelloClient.Net) (endpoint : string)
    (options : TrelloClient.ApiRequestOptions) (w : TrelloClient.World)
    (e : NodeCache.Entry) :
  default TrelloClient.GET (TrelloClient.method options) = TrelloClient.GET ->
  default true (TrelloClient.useCache options) = true ->
  NodeCache.data (MemoryCache.cache (TrelloClient.cache w))
    !! TrelloClient.cacheKeyOf stringify endpoint options = Some e ->
  NodeCache.expired (TrelloClient.now w) e = false ->
  NodeCache.v e <> JsUndefined ->
  let r := TrelloClient.makeRequest stringify net endpoint options w in
  r.1 = Fulfilled (NodeCache.v e)
  /\ TrelloClient.cacheHits (TrelloClient.stats r.2)
     = TrelloClient.cacheHits (TrelloClient.stats w) + 1
  /\ MemoryCache.hits (TrelloClient.cache r.2)
     = MemoryCache.hits (TrelloClient.cache w) + 1
  /\ TrelloClient.jobs r.2 = TrelloClient.jobs w
  /\ TrelloClient.now r.2 = TrelloClient.now w
  /\ counted 0 0 0 w r.2.
Proof.
  intros Hm Hc He Hx Hv r. subst r.
  pose proof (NodeCache_get_live _ _ _ _ He Hx) as Hget.
  rewrite (unwrap_value _ Hv) in Hget.
  apply is_undefined_false in Hv.
  assert (Hserved : TrelloClient.servedFromCache stringify endpoint options w = true).
  { unfold TrelloClient.servedFromCache. rewrite Hm, Hc, MemoryCache_get_value, Hget.
    simpl. now rewrite Hv. }
  destruct (servedFromCache_true _ _ _ _ Hserved) as (cached & c & Hmc & _ & Hrun).
  rewrite Hrun. simpl.
  unfold MemoryCache.get in Hmc. rewrite Hget, Hv in Hmc. simpl in Hmc.
  injection Hmc as <- <-.
  unfold counted. simpl. repeat split; try reflexivity; lia.
Qed.

(** The hypotheses of C6 hold of the boards request in [warm_world]. *)
Lemma cache_hit_skips_limiter_witness :
  let r := TrelloClient.makeRequest demo_stringify net_ok "/boards"
             TrelloClient.no_options warm_world in
  r.1 = Fulfilled (JsArr [card_json "b1" "Board"])
  /\ TrelloClient.cacheHits (TrelloClient.stats r.2)
     = TrelloClient.cacheHits (TrelloClient.stats warm_world) + 1
  /\ MemoryCache.hits (TrelloClient.cache r.2)
     = MemoryCache.hits (TrelloClient.cache warm_world) + 1
  /\ TrelloClient.jobs r.2 = TrelloClient.jobs warm_world
  /\ TrelloClient.now r.2 = TrelloClient.now warm_world
  /\ counted 0 0 0 warm_world r.2.
Proof.
  apply (cache_hit_skips_limiter demo_stringify net_ok "/boards"
           TrelloClient.no_options warm_world
           {| NodeCache.t := 0; NodeCache.v := JsArr [card_json "b1" "Board"] |}).
  - reflexivity.
  - reflexivity.
  - vm_compute. reflexivity.
  - reflexivity.
  - discriminate.
Defined.

(** *** Statistics *)

Section CountFacts.

Variable stringify : JsVal -> string.
Variable net : TrelloClient.Net.

Lemma afterMiss_world endpoint options w :
  TrelloClient.now (afterMiss stringify endpoint options w) = TrelloClient.now w
  /\ TrelloClient.jobs (afterMiss stringify endpoint options w) = TrelloClient.jobs w.
Proof. unfold afterMiss. now destruct (_ && _). Qed.

(** The counters of a call that the cache does not answer: every attempt
    that the transport fulfils is counted as a request and as a success,
    and a call that is rejected counts two failures on top, one where the
    loop ends and one more in the enclosing [catch]. *)
Lemma call_counted (endpoint : string) (options : TrelloClient.ApiRequestOptions)
    (w : TrelloClient.World) :
  TrelloClient.servedFromCache stringify endpoint options w = false ->
  let r := TrelloClient.makeRequest stringify net endpoint options w in
  let k := fulfilledAmong net (TrelloClient.requestOf endpoint options)
             (length (TrelloClient.jobs w))
             (length (TrelloClient.jobs r.2) - length (TrelloClient.jobs w)) in
  match r.1 with
  | Fulfilled _ => counted k k 0 w r.2 /\ 1 <= k
  | Rejected _ => counted (k + 2) k 2 w r.2 /\ 0 <= k
  end
  /\ (usesCache options = false \/ storeFull stringify endpoint options w = false ->
      k = if is_fulfilled r.1 then 1 else 0).
Proof.
  intros Hs. cbv zeta.
  rewrite (servedFromCache_false stringify net _ _ _ Hs). cbv zeta.
  pose proof (afterMiss_counted stringify endpoint options w) as Hw1.
  destruct (afterMiss_world endpoint options w) as [_ Hjobs].
  unfold storeFull, usesCache.
  set (w1 := afterMiss stringify endpoint options w) in *.
  match goal with
  | |- context [TrelloClient.retryLoop net ?f ?m ?c ?k ?t ?p ?r ?n ?s ?a ?l w1] =>
      destruct (retryLoop_counted net f m c k t p r n s a l w1)
        as (jobs & Hlen & Hcount & Hexit & Honce);
      destruct (TrelloClient.retryLoop net f m c k t p r n s a l w1)
        as [[value|last] w2]
  end; cbn [fst snd] in *; rewrite Hjobs in *.
  - rewrite Hlen. replace (length (TrelloClient.jobs w) + jobs
                           - length (TrelloClient.jobs w))%nat with jobs by lia.
    split; [split; [|exact Hexit]|exact Honce].
    unfold counted in *. lia.
  - cbn [TrelloClient.updateStats TrelloClient.with_stats TrelloClient.jobs].
    rewrite Hlen. replace (length (TrelloClient.jobs w) + jobs
                           - length (TrelloClient.jobs w))%nat with jobs by lia.
    split; [split; [|exact Hexit]|exact Honce].
    unfold counted in *. simpl. lia.
Qed.

(** A call that is rejected without a fulfilled attempt is counted as two
    requests and two failures. *)
Lemma rejected_call_counted_twice (endpoint : string)
    (options : TrelloClient.ApiRequestOptions) (w : TrelloClient.World)
    (error : JsError) :
  (TrelloClient.makeRequest stringify net endpoint options w).1 = Rejected error ->
  fulfilledAmong net (TrelloClient.requestOf endpoint options)
    (length (TrelloClient.jobs w))
    (length (TrelloClient.jobs
               (TrelloClient.makeRequest stringify net endpoint options w).2)
     - length (TrelloClient.jobs w)) = 0 ->
  counted 2 0 2 w (TrelloClient.makeRequest stringify net endpoint options w).2.
Proof.
  intros Hrun Hnone.
  destruct (TrelloClient.servedFromCache stringify endpoint options w) eqn:Hs.
  - destruct (servedFromCache_true _ _ _ _ Hs) as (cached & c & _ & _ & Hhit).
    rewrite Hhit in Hrun. discriminate.
  - destruct (call_counted endpoint options w Hs) as [Hc _]. cbv zeta in Hc.
    rewrite Hrun, Hnone in Hc. exact (proj1 Hc).
Qed.

End CountFacts.




(** The other way the counters leave the claim: with no retry against a
    service that is down, the one failed call is counted as two requests and
    two failures. *)
Example failed_call_counted_twice :
  TrelloClient.stats
    (TrelloClient.makeRequest demo_stringify net_down "/boards"
       {| TrelloClient.method := None; TrelloClient.body := JsUndefined;
          TrelloClient.useCache := Some false; TrelloClient.cacheTtl := None;
          TrelloClient.priority := None; TrelloClient.retries := Some 0 |}
       fresh_world).2
  = {| TrelloClient.totalRequests := 2;
       TrelloClient.successfulRequests := 0;
       TrelloClient.failedRequests := 2;
       TrelloClient.cacheHits := 0;
       TrelloClient.cacheMisses := 0;
       TrelloClient.averageResponseTime := 30 |}.
Proof. vm_compute. reflexivity. Qed.

(** *** Retries *)

Section RetryFacts.

Variable net : TrelloClient.Net.

(** On a store that is full, a loop that writes its results to the cache
    returns falsy results only. *)
Lemma retryLoop_full fuel m cacheable key ttl p req retries startTime :
  forall attempt lastError w,
    TrelloClient.is_GET m && cacheable = true ->
    NodeCache.full (MemoryCache.cache (TrelloClient.cache w)) = true ->
    match (TrelloClient.retryLoop net fuel m cacheable key ttl p req retries
             startTime attempt lastError w).1 with
    | TrelloClient.Returned result => truthy result = false
    | TrelloClient.Exhausted _ => True
    end.
Proof.
  induction fuel as [|fuel IH]; intros attempt lastError w Hgate Hfull;
    [exact I|].
  rewrite retryLoop_step. destruct (attempt <=? retries); [|exact I]. cbv zeta.
  destruct (scheduleRequest_world net p req w) as (_ & Hc1 & _).
  destruct (TrelloClient.settled (net (length (TrelloClient.jobs w)) req))
    as [result|error].
  - rewrite Hgate, Hfull. cbn [andb]. destruct (truthy result) eqn:Ht.
    + apply IH; [exact Hgate|].
      now rewrite (proj1 (proj2 (pauseAfter_world _ _ _))).
    + exact Ht.
  - apply IH; [exact Hgate|].
    now rewrite (proj1 (proj2 (pauseAfter_world _ _ _))), Hc1.
Qed.

(** On a store that is full, the attempt that brings a result to be written
    to the cache is counted and does not end the loop: whatever comes of
    the loop, it is not that result counted once. *)
Lemma retryLoop_full_store m cacheable key ttl p req retries startTime value :
  forall (k fuel : nat) attempt lastError w,
    (k < fuel)%nat -> attempt + Z.of_nat k <= retries ->
    failsThenSucceeds net (length (TrelloClient.jobs w)) k req value ->
    TrelloClient.is_GET m && cacheable && truthy value = true ->
    NodeCache.full (MemoryCache.cache (TrelloClient.cache w)) = true ->
    let r := TrelloClient.retryLoop net fuel m cacheable key ttl p req retries
               startTime attempt lastError w in
    exists t : Z,
      counted t t 0 w r.2
      /\ match r.1 with
         | TrelloClient.Returned result => result <> value /\ 2 <= t
         | TrelloClient.Exhausted _ => 1 <= t
         end.
Proof.
  induction k as [|k IH];
    intros fuel attempt lastError w Hfuel Hbudget [Hfail Hok] Hwrite Hfull;
    (destruct fuel as [|fuel]; [lia|]); cbv zeta; rewrite retryLoop_step;
    (assert (Hle : (attempt <=? retries) = true) by (apply Z.leb_le; lia));
    rewrite Hle; cbv zeta;
    destruct (scheduleRequest_world net p req w) as (Hs1 & Hc1 & Hj1 & _);
    set (w1 := (TrelloClient.scheduleRequest net p req w).2) in *.
  - rewrite Nat.add_0_r in Hok. rewrite Hok, Hwrite, Hfull.
    pose proof (updateStats_counted true (TrelloClient.now w1 - startTime) w1) as Hc.
    apply (counted_stats _ _ _ _ _ _ Hs1) in Hc.
    set (w2 := TrelloClient.updateStats true (TrelloClient.now w1 - startTime) w1)
      in *.
    destruct (pauseAfter_world attempt retries w2) as (Hs3 & Hc3 & _).
    assert (Hgate : TrelloClient.is_GET m && cacheable = true)
      by (now apply andb_prop in Hwrite as [-> _]).
    assert (Hvalue : truthy value = true)
      by (now apply andb_prop in Hwrite as [_ ->]).
    pose proof (retryLoop_full fuel m cacheable key ttl p req retries startTime
                  (attempt + 1) (Some NodeCache.ECACHEFULL)
                  (pauseAfter attempt retries w2) Hgate) as Hfalsy.
    destruct (retryLoop_counted net fuel m cacheable key ttl p req retries startTime
                (attempt + 1) (Some NodeCache.ECACHEFULL)
                (pauseAfter attempt retries w2))
      as (n & _ & Hcount & Hexit & _).
    apply (counted_stats _ _ _ _ _ _ Hs3) in Hcount.
    exists (1 + fulfilledAmong net req
                  (length (TrelloClient.jobs (pauseAfter attempt retries w2))) n).
    split; [unfold counted in *; simpl in *; lia|].
    destruct (TrelloClient.retryLoop net fuel m cacheable key ttl p req retries
                startTime (attempt + 1) (Some NodeCache.ECACHEFULL)
                (pauseAfter attempt retries w2)).1 as [result|last].
    + split; [|lia]. intros ->.
      rewrite Hfalsy in Hvalue; [discriminate|].
      rewrite Hc3. change (TrelloClient.cache w2) with (TrelloClient.cache w1).
      now rewrite Hc1.
    + lia.
  - pose proof (Hfail 0%nat ltac:(lia)) as H0. rewrite Nat.add_0_r in H0.
    destruct (TrelloClient.settled (net (length (TrelloClient.jobs w)) req))
      as [result|error]; [discriminate|].
    destruct (pauseAfter_world attempt retries w1) as (Hs3 & Hc3 & Hj3).
    destruct (IH fuel (attempt + 1) (Some error) (pauseAfter attempt retries w1))
      as (t & Hcount & Hexit).
    + lia.
    + lia.
    + rewrite Hj3, Hj1. split.
      * intros i Hi.
        replace (S (length (TrelloClient.jobs w)) + i)%nat
          with (length (TrelloClient.jobs w) + S i)%nat by lia.
        apply Hfail. lia.
      * replace (S (length (TrelloClient.jobs w)) + k)%nat
          with (length (TrelloClient.jobs w) + S k)%nat by lia.
        exact Hok.
    + exact Hwrite.
    + now rewrite Hc3, Hc1.
    + exists t. split; [|exact Hexit].
      apply (counted_stats _ _ _ _ _ _ Hs3) in Hcount.
      apply (counted_stats _ _ _ _ _ _ Hs1) in Hcount. exact Hcount.
Qed.

End RetryFacts.




(** What that call comes to: two attempts, each fulfilled and counted as a
    success, and two failures counted at the end. *)
Example full_store_call :
  let r := TrelloClient.makeRequest demo_stringify net_ok "/boards" one_retry
             full_world in
  r.1 = Rejected (TrelloClient.detailedError 1 "/boards" TrelloClient.GET
                    (Some NodeCache.ECACHEFULL))
  /\ message (TrelloClient.detailedError 1 "/boards" TrelloClient.GET
                (Some NodeCache.ECACHEFULL))
     = "Trello API request failed after 1 attempts: /boards - Cache max keys amount exceeded"
  /\ counted 4 2 2 full_world r.2
  /\ length (TrelloClient.jobs r.2) = 2%nat.
Proof. vm_compute. repeat split; reflexivity. Qed.

(** ** The rate limiter *)

Lemma sorted_from_replicate (n base : nat) :
  sorted_from base (replicate n []).
Proof.
  revert base. induction n as [|n IH]; intros base; simpl; [exact I|].
  split; [constructor | apply IH].
Qed.

Lemma sorted_from_alter (j : Bottleneck.JobOptions) (q : Bottleneck.Queues) :
  forall base i : nat,
    levelOf j = (base + i)%nat -> sorted_from base q ->
    sorted_from base (alter (fun l => l ++ [j]) i q).
Proof.
  induction q as [|l rest IH]; intros base i Hj Hq; [exact I|].
  destruct Hq as [Hl Hrest]. destruct i as [|i]; simpl.
  - split; [|exact Hrest]. apply Forall_app. split; [exact Hl|].
    constructor; [lia | constructor].
  - split; [exact Hl|]. apply IH; [lia | exact Hrest].
Qed.

Lemma sorted_from_shift (q : Bottleneck.Queues) :
  forall (base : nat) j q',
    sorted_from base q -> Bottleneck.shift q = Some (j, q') ->
    sorted_from base q'
    /\ (base <= levelOf j)%nat
    /\ forall j', j' ∈ Bottleneck.queued q -> (levelOf j <= levelOf j')%nat.
Proof.
  induction q as [|l rest IH]; intros base j q' Hq Hs; [discriminate|].
  destruct Hq as [Hl Hrest]. destruct l as [|x l]; simpl in Hs.
  - destruct (Bottleneck.shift rest) as [[y rest']|] eqn:Hrest'; [|discriminate].
    injection Hs as <- <-.
    destruct (IH (S base) y rest' Hrest eq_refl) as (Hsorted & Hbase & Hmin).
    split; [split; [constructor | exact Hsorted]|]. split; [lia|].
    intros j' Hj'. apply Hmin. exact Hj'.
  - injection Hs as <- <-. apply Forall_cons in Hl as [Hx Hl].
    split; [split; assumption|]. split; [lia|].
    intros j' Hj'. unfold Bottleneck.queued in Hj'. simpl in Hj'.
    apply elem_of_cons in Hj' as [->|Hj']; [lia|].
    apply elem_of_app in Hj' as [Hj'|Hj'].
    + rewrite Forall_forall in Hl. rewrite (Hl _ Hj'). lia.
    + assert (Hge : forall (r : Bottleneck.Queues) (b : nat),
                 sorted_from b r -> j' ∈ concat r -> (b <= levelOf j')%nat).
      { clear. induction r as [|l r IHr]; intros b Hsorted Hin; simpl in Hin.
        - apply elem_of_nil in Hin. contradiction.
        - destruct Hsorted as [Hl Hr]. apply elem_of_app in Hin as [Hin|Hin].
          + rewrite Forall_forall in Hl. rewrite (Hl _ Hin). lia.
          + specialize (IHr (S b) Hr Hin). lia. }
      specialize (Hge rest (S base) Hrest Hj'). lia.
Qed.

Lemma reachable_filed (q : Bottleneck.Queues) :
  Reachable q -> filedByPriority q.
Proof.
  unfold filedByPriority. induction 1 as [|j q _ IH|j q q' _ IH Hs].
  - apply sorted_from_replicate.
  - apply sorted_from_alter; [reflexivity | exact IH].
  - now destruct (sorted_from_shift q 0 j q' IH Hs).
Qed.

Lemma shift_queued (q : Bottleneck.Queues) :
  match Bottleneck.shift q with
  | Some (j, q') =>
      length (Bottleneck.queued q) = S (length (Bottleneck.queued q'))
  | None => Bottleneck.queued q = []
  end.
Proof.
  unfold Bottleneck.queued. induction q as [|l rest IH]; [reflexivity|].
  destruct l as [|x l]; simpl.
  - destruct (Bottleneck.shift rest) as [[j rest']|]; exact IH.
  - reflexivity.
Qed.

(** The bound on the steps of [startOrder] lets every waiting job start. *)
Lemma drain_enough_fuel :
  forall (fuel extra : nat) (q : Bottleneck.Queues),
    (length (Bottleneck.queued q) <= fuel)%nat ->
    Bottleneck.drain (fuel + extra) q = Bottleneck.drain fuel q.
Proof.
  induction fuel as [|fuel IH]; intros extra q Hfuel.
  - pose proof (shift_queued q) as Hq.
    destruct extra as [|extra]; [reflexivity|]. simpl.
    destruct (Bottleneck.shift q) as [[j q']|]; [lia | reflexivity].
  - simpl. pose proof (shift_queued q) as Hq.
    destruct (Bottleneck.shift q) as [[j q']|]; [|reflexivity].
    f_equal. apply IH. lia.
Qed.

(** The next job to start has the smallest priority number of all that wait. *)
Lemma shift_takes_lowest_number (q q' : Bottleneck.Queues)
    (j j' : Bottleneck.JobOptions) :
  filedByPriority q -> Bottleneck.shift q = Some (j, q') ->
  j' ∈ Bottleneck.queued q ->
  (levelOf j <= levelOf j')%nat.
Proof.
  intros Hq Hs Hj'.
  destruct (sorted_from_shift q 0 j q' Hq Hs) as (_ & _ & Hmin).
  now apply Hmin.
Qed.

(** C2 (priority tiers), what the code does.  [scheduleHighPriority] submits
    its job with priority 9 and [scheduleLowPriority] with priority 1, and the
    limiter serves the smaller number first: as long as a job submitted
    through [scheduleLowPriority] is waiting, the job that starts next is
    never one submitted through [scheduleHighPriority].  The high-priority
    job is the one that waits behind the low-priority backlog. *)
Theorem high_priority_job_starts_last (q q' : Bottleneck.Queues)
    (j : Bottleneck.JobOptions) (tl th : Z) (idl idh : option string) :
  filedByPriority q ->
  TrelloRateLimiter.scheduleLowPriority tl idl ∈ Bottleneck.queued q ->
  Bottleneck.shift q = Some (j, q') ->
  j <> TrelloRateLimiter.scheduleHighPriority th idh.
Proof.
  intros Hq Hlow Hs ->.
  pose proof (shift_takes_lowest_number q q' _ _ Hq Hs Hlow) as H.
  vm_compute in H. lia.
Qed.

Lemma backlog_reachable : Reachable backlog.
Proof. unfold backlog. simpl. repeat (apply reach_push). apply reach_start. Qed.

Lemma high_priority_job_starts_last_witness :
  match Bottleneck.shift backlog with
  | Some (j, _) => j <> TrelloRateLimiter.scheduleHighPriority 1010 None
  | None => False
  end.
Proof.
  destruct (Bottleneck.shift backlog) as [[j q']|] eqn:Hs.
  - apply (high_priority_job_starts_last backlog q' j 1000 1010 None None).
    + exact (reachable_filed backlog backlog_reachable).
    + vm_compute. repeat first [left; reflexivity | right].
    + exact Hs.
  - vm_compute in Hs. discriminate.
Defined.

(** Whichever of the two is submitted first, the low-priority job starts
    first. *)
Example low_before_high_either_way :
  let low := TrelloRateLimiter.scheduleLowPriority 1000 None in
  let high := TrelloRateLimiter.scheduleHighPriority 1001 None in
  Bottleneck.startOrder (Bottleneck.push high (Bottleneck.push low Bottleneck.noJobs))
    = [low; high]
  /\ Bottleneck.startOrder (Bottleneck.push low (Bottleneck.push high Bottleneck.noJobs))
    = [low; high].
Proof. split; vm_compute; reflexivity. Qed.

(** The jobs that [makeRequest] hands over for a request of priority 'high'
    and for one of priority 'low' carry the priorities 9 and 1. *)
Example request_priorities :
  let request p :=
    {| TrelloClient.method := None; TrelloClient.body := JsUndefined;
       TrelloClient.useCache := Some false; TrelloClient.cacheTtl := None;
       TrelloClient.priority := Some p; TrelloClient.retries := None |} in
  let priorities p :=
    map (fun job => Bottleneck.priority (TrelloClient.job_options job))
        (TrelloClient.jobs
           (TrelloClient.makeRequest demo_stringify net_ok "/boards" (request p)
              fresh_world).2) in
  priorities TrelloClient.high = [9]
  /\ priorities TrelloClient.normal = [5]
  /\ priorities TrelloClient.low = [1].
Proof. repeat split; vm_compute; reflexivity. Qed.

(** *** The reservoir *)

Lemma step_level_bounds (cfg : Bottleneck.Settings) (s : Bottleneck.Store)
    (e : Bottleneck.Event) (top : Z) :
  0 <= Bottleneck.reservoirRefreshAmount cfg <= top ->
  0 <= Bottleneck.weight_of e ->
  0 <= Bottleneck.level s <= top ->
  0 <= Bottleneck.level (Bottleneck.step cfg s e) <= top.
Proof.
  intros Hamount Hw Hs. destruct e as [w|w|]; simpl in *.
  - unfold Bottleneck.register, Bottleneck.capacity.
    destruct (w <=? Z.min (Bottleneck.maxConcurrent cfg - Bottleneck.running s)
                          (Bottleneck.level s)) eqn:Hle; simpl; [|lia].
    apply Z.leb_le in Hle. lia.
  - lia.
  - lia.
Qed.

Lemma run_level_bounds (cfg : Bottleneck.Settings) (events : list Bottleneck.Event)
    (top : Z) :
  0 <= Bottleneck.reservoirRefreshAmount cfg <= top ->
  Forall (fun e => 0 <= Bottleneck.weight_of e) events ->
  forall s, 0 <= Bottleneck.level s <= top ->
            0 <= Bottleneck.level (fold_left (Bottleneck.step cfg) events s) <= top.
Proof.
  intros Hamount Hw. induction Hw as [|e events He _ IH]; intros s Hs; simpl.
  - exact Hs.
  - apply IH. now apply step_level_bounds.
Qed.

(** C8 (reservoir range, as amended).  Across every sequence of admissions
    of non-negative weight, completions and refills, the level of the
    reservoir never goes negative and never exceeds the larger of the
    configured reservoir and the refresh amount; a refill sets the level to
    the refresh amount, whatever it was.  With the default settings the level
    stays between 0 and 50, and a refill leaves 25. *)
Theorem reservoir_level_in_range
    (options : option TrelloRateLimiter.RateLimitOptions)
    (events : list Bottleneck.Event) :
  let cfg := TrelloRateLimiter.constructor options in
  0 <= Bottleneck.reservoir cfg -> 0 <= Bottleneck.reservoirRefreshAmount cfg ->
  Forall (fun e => 0 <= Bottleneck.weight_of e) events ->
  0 <= Bottleneck.level (Bottleneck.run cfg events)
    <= Z.max (Bottleneck.reservoir cfg) (Bottleneck.reservoirRefreshAmount cfg)
  /\ (forall s, Bottleneck.level (Bottleneck.step cfg s Bottleneck.Refill)
                = Bottleneck.reservoirRefreshAmount cfg)
  /\ (options = None ->
      0 <= Bottleneck.level (Bottleneck.run cfg events) <= 50
      /\ forall s, Bottleneck.level (Bottleneck.step cfg s Bottleneck.Refill) = 25).
Proof.
  intros cfg Hres Hamount Hw. split; [|split].
  - apply run_level_bounds; [lia | exact Hw |].
    change (Bottleneck.level (Bottleneck.start cfg)) with (Bottleneck.reservoir cfg).
    lia.
  - reflexivity.
  - intros ->. split; [|reflexivity].
    apply (run_level_bounds _ _ 50); [simpl; lia | exact Hw | simpl; lia].
Qed.

Lemma reservoir_level_in_range_witness :
  0 <= Bottleneck.level (Bottleneck.run (TrelloRateLimiter.constructor None) sixty_jobs)
    <= 50.
Proof.
  refine (proj1 (proj2 (proj2
            (reservoir_level_in_range None sixty_jobs _ _ _)) eq_refl)).
  - vm_compute. discriminate.
  - vm_compute. discriminate.
  - unfold sixty_jobs. repeat (apply Forall_app; split);
      try (apply Forall_concat, Forall_replicate);
      repeat constructor; vm_compute; discriminate.
Defined.

(** C8, as the specification states it, fails twice.  Built with a reservoir
    of 10, the limiter has a level of 25 after its first refill, above that
    ceiling.  And with the default settings a refill at level 50 leaves 25,
    where adding the refresh amount up to the ceiling would leave 50. *)
Lemma refill_resets_the_level :
  ~ levelWithinCeiling /\ ~ refillAddsUpToCeiling.
Proof.
  split.
  - intros H.
    specialize (H (onlyReservoir 10) [Bottleneck.Refill]). cbv zeta in H.
    assert (Hw : Forall (fun e => 0 <= Bottleneck.weight_of e) [Bottleneck.Refill])
      by (repeat constructor; vm_compute; discriminate).
    specialize (H ltac:(vm_compute; discriminate) ltac:(vm_compute; discriminate) Hw).
    vm_compute in H. destruct H as [_ H]. apply H. reflexivity.
  - intros H. specialize (H None (Bottleneck.start (TrelloRateLimiter.constructor None))).
    vm_compute in H. discriminate.
Qed.

(** [getReservoirLevel] reports 0 whatever the level is. *)
Lemma getReservoirLevel_constant (s : Bottleneck.Store) :
  TrelloRateLimiter.getReservoirLevel s = 0.
Proof. reflexivity. Qed.

(** ** Calls that run together *)

Section Flights.

Variable stringify : JsVal -> string.
Variable net : TrelloClient.Net.

Lemma firstDue_None (flights : list TrelloClient.Flight) :
  forall i, TrelloClient.firstDue i flights = None ->
            Forall (fun f => TrelloClient.waits f = false) flights.
Proof.
  induction flights as [|f flights IH]; intros i H; [constructor|].
  simpl in H. unfold TrelloClient.waits.
  destruct (TrelloClient.stage f) eqn:Hs.
  - destruct (TrelloClient.firstDue (S i) flights) as [[j d]|];
      [destruct (_ <=? _)|]; discriminate.
  - destruct (TrelloClient.firstDue (S i) flights) as [[j d]|];
      [destruct (_ <=? _)|]; discriminate.
  - constructor; [now rewrite Hs | eapply IH; exact H].
Qed.

Lemma firstDue_Some (flights : list TrelloClient.Flight) :
  forall i j d, TrelloClient.firstDue i flights = Some (j, d) ->
    exists f, (i <= j)%nat /\ flights !! (j - i)%nat = Some f
              /\ TrelloClient.waits f = true.
Proof.
  induction flights as [|f flights IH]; intros i j d H; [discriminate|].
  simpl in H.
  assert (Hlater : TrelloClient.firstDue (S i) flights = Some (j, d) ->
                   exists f', (i <= j)%nat /\ (f :: flights) !! (j - i)%nat = Some f'
                              /\ TrelloClient.waits f' = true).
  { intros H'. destruct (IH _ _ _ H') as (f' & Hle & Hf' & Hw).
    exists f'. split; [lia|]. split; [|exact Hw].
    replace (j - i)%nat with (S (j - S i)) by lia. exact Hf'. }
  assert (Hhere : TrelloClient.waits f = true ->
                  exists f', (i <= i)%nat /\ (f :: flights) !! (i - i)%nat = Some f'
                             /\ TrelloClient.waits f' = true).
  { intros Hw. exists f. rewrite Nat.sub_diag. auto. }
  unfold TrelloClient.waits in Hhere.
  destruct (TrelloClient.stage f) eqn:Hs.
  - destruct (TrelloClient.firstDue (S i) flights) as [[j' d']|].
    + destruct (_ <=? _); injection H as <- <-; auto.
    + injection H as <- <-; auto.
  - destruct (TrelloClient.firstDue (S i) flights) as [[j' d']|].
    + destruct (_ <=? _); injection H as <- <-; auto.
    + injection H as <- <-; auto.
  - auto.
Qed.

Lemma next_None (order : list nat) (flights : list TrelloClient.Flight) :
  TrelloClient.next order flights = None ->
  Forall (fun f => TrelloClient.waits f = false) flights.
Proof.
  induction order as [|i order IH]; simpl.
  - destruct (TrelloClient.firstDue 0 flights) as [[j d]|] eqn:Hd; [discriminate|].
    intros _. eapply firstDue_None. exact Hd.
  - destruct (flights !! i) as [f|]; [destruct (TrelloClient.waits f)|];
      [discriminate | exact IH | exact IH].
Qed.

Lemma next_Some (order : list nat) (flights : list TrelloClient.Flight) i order' :
  TrelloClient.next order flights = Some (i, order') ->
  exists f, flights !! i = Some f /\ TrelloClient.waits f = true.
Proof.
  induction order as [|k order IH]; simpl.
  - destruct (TrelloClient.firstDue 0 flights) as [[j d]|] eqn:Hd; [|discriminate].
    intros H. injection H as <- <-.
    destruct (firstDue_Some _ _ _ _ Hd) as (f & _ & Hf & Hw).
    rewrite Nat.sub_0_r in Hf. eauto.
  - destruct (flights !! k) as [f|] eqn:Hk; [destruct (TrelloClient.waits f) eqn:Hw|];
      [|exact IH | exact IH].
    intros H. injection H as <- <-. eauto.
Qed.

Lemma loopHead_turns c startTime attempt lastError w :
  (TrelloClient.turnsLeft (TrelloClient.loopHead net c startTime attempt lastError w).1
   <= 2 * Z.to_nat (default 3 (TrelloClient.retries (TrelloClient.call_options c))
                    - attempt)%Z + 1)%nat.
Proof.
  unfold TrelloClient.loopHead. destruct (attempt <=? _);
    unfold TrelloClient.turnsLeft; simpl; lia.
Qed.

Lemma caught_turns f error w :
  (TrelloClient.turnsLeft (TrelloClient.caught net f error w).1
   <= 2 * Z.to_nat (default 3 (TrelloClient.retries
                                 (TrelloClient.call_options (TrelloClient.call f)))
                    - TrelloClient.attempt f)%Z)%nat.
Proof.
  unfold TrelloClient.caught.
  destruct (TrelloClient.attempt f + 1 <=? _) eqn:Hle.
  - apply Z.leb_le in Hle. unfold TrelloClient.turnsLeft. simpl. lia.
  - apply Z.leb_gt in Hle.
    unfold TrelloClient.loopHead. rewrite (proj2 (Z.leb_gt _ _) Hle).
    unfold TrelloClient.turnsLeft. simpl. lia.
Qed.

Lemma resume_turns f w :
  TrelloClient.waits f = true ->
  (TrelloClient.turnsLeft (TrelloClient.resume stringify net f w).1
   < TrelloClient.turnsLeft f)%nat.
Proof.
  unfold TrelloClient.waits, TrelloClient.resume.
  destruct (TrelloClient.stage f) as [job due|due|o] eqn:Hs; [| |discriminate];
    intros _; unfold TrelloClient.turnsLeft at 2; rewrite Hs.
  - destruct (TrelloClient.settled _) as [result|error].
    + destruct (_ && _ && _).
      * destruct (MemoryCache.set _ _ _ _ _) as [[ok|error] c'].
        -- unfold TrelloClient.turnsLeft. simpl. lia.
        -- pose proof (caught_turns f error
                         (TrelloClient.with_cache c'
                            (TrelloClient.updateStats true
                               (TrelloClient.now (TrelloClient.at_time due w)
                                - TrelloClient.startTime f)
                               (TrelloClient.at_time due w)))). lia.
      * unfold TrelloClient.turnsLeft. simpl. lia.
    + pose proof (caught_turns f error (TrelloClient.at_time due w)). lia.
  - pose proof (loopHead_turns (TrelloClient.call f) (TrelloClient.startTime f)
                  (TrelloClient.attempt f) (TrelloClient.lastError f)
                  (TrelloClient.at_time due w)). lia.
Qed.

Lemma turnsLeft_settled f :
  TrelloClient.turnsLeft f = 0%nat -> TrelloClient.waits f = false.
Proof.
  unfold TrelloClient.turnsLeft, TrelloClient.waits.
  destruct (TrelloClient.stage f); [lia | lia | reflexivity].
Qed.

Lemma sum_list_insert (l : list nat) (i x y : nat) :
  l !! i = Some x -> (sum_list (<[i := y]> l) + x = sum_list l + y)%nat.
Proof.
  revert i. induction l as [|z l IH]; intros [|i] H; simpl in *; try discriminate.
  - injection H as ->. lia.
  - specialize (IH i H). lia.
Qed.

(** The bound on the number of turns is never what ends a wave: with the
    turns that the calls can take, every call settles. *)
Lemma run_settles :
  forall (fuel : nat) order flights w,
    (sum_list (TrelloClient.turnsLeft <$> flights) <= fuel)%nat ->
    Forall (fun f => TrelloClient.waits f = false)
           (TrelloClient.run stringify net fuel order flights w).1.
Proof.
  induction fuel as [|fuel IH]; intros order flights w Hfuel.
  - simpl. apply Forall_forall. intros f Hf. apply turnsLeft_settled.
    assert (Hin : TrelloClient.turnsLeft f ∈ TrelloClient.turnsLeft <$> flights)
      by (apply list_elem_of_fmap; eauto).
    apply sum_list_with_in with (f := id) in Hin.
    change (id (TrelloClient.turnsLeft f)) with (TrelloClient.turnsLeft f) in Hin.
    lia.
  - simpl. destruct (TrelloClient.next order flights) as [[i order']|] eqn:Hn.
    + destruct (next_Some _ _ _ _ Hn) as (f & Hf & Hw). rewrite Hf.
      pose proof (resume_turns f w Hw) as Hless.
      destruct (TrelloClient.resume stringify net f w) as [f' w'].
      apply IH. rewrite list_fmap_insert.
      pose proof (sum_list_insert (TrelloClient.turnsLeft <$> flights) i
                    (TrelloClient.turnsLeft f) (TrelloClient.turnsLeft f')
                    ltac:(now rewrite list_lookup_fmap, Hf)) as Hsum.
      simpl in Hless. lia.
    + simpl. apply next_None with order. exact Hn.
Qed.

(** What every turn keeps, the run keeps. *)
Lemma run_keeps (P : list TrelloClient.Flight -> TrelloClient.World -> Prop) :
  (forall flights w i f,
     P flights w -> flights !! i = Some f -> TrelloClient.waits f = true ->
     P (<[i := (TrelloClient.resume stringify net f w).1]> flights)
       (TrelloClient.resume stringify net f w).2) ->
  forall (fuel : nat) order flights w,
    P flights w ->
    P (TrelloClient.run stringify net fuel order flights w).1
      (TrelloClient.run stringify net fuel order flights w).2.
Proof.
  intros Hturn. induction fuel as [|fuel IH]; intros order flights w HP;
    [exact HP|].
  simpl. destruct (TrelloClient.next order flights) as [[i order']|] eqn:Hn;
    [|exact HP].
  destruct (next_Some _ _ _ _ Hn) as (f & Hf & Hw). rewrite Hf.
  specialize (Hturn flights w i f HP Hf Hw).
  destruct (TrelloClient.resume stringify net f w) as [f' w'].
  apply IH. exact Hturn.
Qed.

Lemma lastReason_snoc req (js : list nat) (j : nat) :
  lastReason net req (js ++ [j]) = reasonOf (TrelloClient.settled (net j req)).
Proof. unfold lastReason. now rewrite last_snoc. Qed.

Lemma jobsOf_below jobs c js :
  jobsOf jobs c js -> Forall (fun j => (j < length jobs)%nat) js.
Proof.
  intros [Hjobs _]. eapply Forall_impl; [exact Hjobs|]. intros j Hj. simpl in Hj.
  destruct (jobs !! j) eqn:Hl; [|discriminate].
  eapply lookup_lt_Some. exact Hl.
Qed.

Lemma jobsOf_more jobs more c js : jobsOf jobs c js -> jobsOf (jobs ++ more) c js.
Proof.
  intros H. pose proof (jobsOf_below _ _ _ H) as Hbelow. destruct H as [Hjobs Hs].
  split; [|exact Hs].
  rewrite Forall_forall in *. intros j Hj.
  rewrite lookup_app_l by (now apply Hbelow). now apply Hjobs.
Qed.

Lemma jobsOf_snoc jobs options c js :
  jobsOf jobs c js ->
  jobsOf (jobs ++ [{| TrelloClient.job_options := options;
                      TrelloClient.job_request := requestOfCall c |}])
         c (js ++ [length jobs]).
Proof.
  intros H. pose proof (jobsOf_below _ _ _ H) as Hbelow.
  destruct (jobsOf_more jobs
              [{| TrelloClient.job_options := options;
                  TrelloClient.job_request := requestOfCall c |}] c js H)
    as [Hjobs Hs].
  split.
  - apply Forall_app. split; [exact Hjobs|]. constructor; [|constructor].
    now rewrite lookup_app_r, Nat.sub_diag by lia.
  - apply StronglySorted_app_2; [|exact Hs | repeat constructor].
    intros a b Ha Hb. apply list_elem_of_singleton in Hb. subst b.
    rewrite Forall_forall in Hbelow. now apply Hbelow.
Qed.

Lemma stepped_jobs w w' c js js' :
  stepped w w' c js js' ->
  jobsOf (TrelloClient.jobs w) c js -> jobsOf (TrelloClient.jobs w') c js'.
Proof.
  intros [[-> ->]|(options & -> & ->)] H; [exact H | now apply jobsOf_snoc].
Qed.

(** The head of the loop, for a call whose attempts so far have failed. *)
Lemma loopHead_trace c startTime attempt lastError w js :
  let retries := default 3 (TrelloClient.retries (TrelloClient.call_options c)) in
  Forall (refused net (requestOfCall c)) js ->
  Z.of_nat (length js) = attempt -> attempt <= Z.max 0 (retries + 1) ->
  lastError = lastReason net (requestOfCall c) js ->
  let r := TrelloClient.loopHead net c startTime attempt lastError w in
  TrelloClient.call r.1 = c
  /\ exists js', flightTrace net r.1 js' /\ stepped w r.2 c js js'.
Proof.
  intros retries Hre Hlen Hmax Hlast. cbv zeta. unfold TrelloClient.loopHead.
  fold retries. destruct (attempt <=? retries) eqn:Hle.
  - apply Z.leb_le in Hle. split; [reflexivity|].
    exists (js ++ [length (TrelloClient.jobs w)]). split.
    + unfold flightTrace. cbn [TrelloClient.stage TrelloClient.call fst].
      exists js. fold retries.
      cbn [TrelloClient.attempt TrelloClient.lastError]. auto.
    + right. eexists. split; reflexivity.
  - apply Z.leb_gt in Hle. split; [reflexivity|].
    exists js. split.
    + unfold flightTrace. cbn [TrelloClient.stage TrelloClient.call fst].
      unfold outcomeFrom. fold retries. subst lastError.
      split; [exact Hre|]. split; [lia | reflexivity].
    + left. split; reflexivity.
Qed.

Lemma caught_trace f error w js :
  let c := TrelloClient.call f in
  let retries := default 3 (TrelloClient.retries (TrelloClient.call_options c)) in
  Forall (refused net (requestOfCall c)) js ->
  Z.of_nat (length js) = TrelloClient.attempt f + 1 ->
  TrelloClient.attempt f <= retries ->
  lastReason net (requestOfCall c) js = Some error ->
  let r := TrelloClient.caught net f error w in
  TrelloClient.call r.1 = c
  /\ flightTrace net r.1 js /\ TrelloClient.jobs r.2 = TrelloClient.jobs w.
Proof.
  intros c retries Hre Hlen Hle Hlast. cbv zeta. unfold TrelloClient.caught.
  fold c. fold retries.
  destruct (TrelloClient.attempt f + 1 <=? retries) eqn:Hnext.
  - apply Z.leb_le in Hnext. split; [reflexivity|]. split; [|reflexivity].
    unfold flightTrace.
    cbn [TrelloClient.stage TrelloClient.call TrelloClient.attempt
         TrelloClient.lastError fst]. fold c. fold retries. auto.
  - apply Z.leb_gt in Hnext. unfold TrelloClient.loopHead. fold retries.
    rewrite (proj2 (Z.leb_gt _ _) Hnext).
    split; [reflexivity|]. split; [|reflexivity].
    unfold flightTrace. cbn [TrelloClient.stage TrelloClient.call fst].
    unfold outcomeFrom. fold c. fold retries. rewrite Hlast.
    split; [exact Hre|]. split; [lia | reflexivity].
Qed.

(** A call that does not use the cache, at its first [await]. *)
Lemma begin_trace c w :
  usesCache (TrelloClient.call_options c) = false ->
  let r := TrelloClient.begin stringify net c w in
  TrelloClient.call r.1 = c
  /\ exists js, flightTrace net r.1 js /\ stepped w r.2 c [] js.
Proof.
  intros Hgate. cbv zeta. unfold TrelloClient.begin.
  unfold usesCache in Hgate. rewrite Hgate.
  apply loopHead_trace; [constructor | reflexivity | lia | reflexivity].
Qed.

(** A turn of a call that does not use the cache. *)
Lemma resume_trace f w js :
  usesCache (TrelloClient.call_options (TrelloClient.call f)) = false ->
  flightTrace net f js ->
  let r := TrelloClient.resume stringify net f w in
  TrelloClient.call r.1 = TrelloClient.call f
  /\ exists js', flightTrace net r.1 js'
                 /\ stepped w r.2 (TrelloClient.call f) js js'.
Proof.
  intros Hgate Htrace. cbv zeta. unfold TrelloClient.resume.
  unfold usesCache in Hgate. unfold flightTrace in Htrace.
  destruct (TrelloClient.stage f) as [job due|due|o] eqn:Hs.
  - destruct Htrace as (failed & -> & Hre & Hlen & Hle & Hlast).
    fold (requestOfCall (TrelloClient.call f)).
    destruct (TrelloClient.settled
                (net job (requestOfCall (TrelloClient.call f))))
      as [result|error] eqn:Hreply.
    + rewrite Hgate. cbn [andb]. split; [reflexivity|].
      exists (failed ++ [job]). split; [|left; split; reflexivity].
      unfold flightTrace. cbn [TrelloClient.stage TrelloClient.call fst].
      exists failed, job. cbv zeta in *.
      split; [reflexivity|]. split; [exact Hre|]. split; [lia | exact Hreply].
    + destruct (caught_trace f error (TrelloClient.at_time due w) (failed ++ [job]))
        as (Hcall & Htr & Hjobs).
      * apply Forall_app. split; [exact Hre|]. constructor; [|constructor].
        unfold refused. now rewrite Hreply.
      * rewrite length_app. simpl. lia.
      * exact Hle.
      * now rewrite lastReason_snoc, Hreply.
      * split; [exact Hcall|]. exists (failed ++ [job]). split; [exact Htr|].
        left. split; [exact Hjobs | reflexivity].
  - destruct Htrace as (Hre & Hlen & Hle & Hlast).
    destruct (loopHead_trace (TrelloClient.call f) (TrelloClient.startTime f)
                (TrelloClient.attempt f) (TrelloClient.lastError f)
                (TrelloClient.at_time due w) js Hre Hlen ltac:(lia) Hlast)
      as (Hcall & js' & Htr & Hstep).
    split; [exact Hcall|]. exists js'. split; [exact Htr|exact Hstep].
  - split; [reflexivity|]. exists js. split.
    + unfold flightTrace. cbn [fst]. now rewrite Hs.
    + left. split; reflexivity.
Qed.

Lemma concat_insert_snoc (jss : list (list nat)) (i : nat) (js : list nat) (j : nat) :
  jss !! i = Some js -> concat (<[i := js ++ [j]]> jss) ≡ₚ concat jss ++ [j].
Proof.
  revert i. induction jss as [|x jss IH]; intros [|i] H; simpl in *; try discriminate.
  - injection H as ->. rewrite <- !(assoc_L (++)).
    apply Permutation_app_head. apply Permutation_app_comm.
  - rewrite (IH i H). now rewrite (assoc_L (++)).
Qed.

Lemma stepped_more w w' c js js' :
  stepped w w' c js js' ->
  exists more, TrelloClient.jobs w' = TrelloClient.jobs w ++ more
               /\ js' = js ++ seq (length (TrelloClient.jobs w)) (length more).
Proof.
  intros [[-> ->]|(options & -> & ->)].
  - exists []. now rewrite !app_nil_r.
  - eexists. split; reflexivity.
Qed.

(** The calls of a batch that do not use the cache, each at its first
    [await]. *)
Lemma beginAll_underWay (calls : list TrelloClient.Call) :
  Forall (fun c => usesCache (TrelloClient.call_options c) = false) calls ->
  forall w,
    let r := TrelloClient.beginAll stringify net calls w in
    TrelloClient.call <$> r.1 = calls
    /\ underWay net (TrelloClient.jobs w) r.1 r.2.
Proof.
  induction 1 as [|c calls Hc _ IH]; intros w; cbv zeta.
  - simpl. split; [reflexivity|]. exists [], []. split; [constructor|].
    now rewrite app_nil_r.
  - simpl. destruct (begin_trace c w Hc) as (Hcall & js & Htrace & Hstep).
    destruct (TrelloClient.begin stringify net c w) as [f w1]. cbn [fst snd] in *.
    specialize (IH w1). cbv zeta in IH.
    destruct (TrelloClient.beginAll stringify net calls w1) as [fs w2].
    cbn [fst snd] in *. destruct IH as (Hcalls & jss & more & Hall & Hmore & Hperm).
    destruct (stepped_more _ _ _ _ _ Hstep) as (more1 & Hmore1 & Hjs).
    split; [now rewrite fmap_cons, Hcall, Hcalls|].
    exists (js :: jss), (more1 ++ more). split; [|split].
    + constructor; [|exact Hall]. split; [exact Htrace|].
      rewrite Hmore, Hcall. apply jobsOf_more.
      apply (stepped_jobs _ _ _ _ _ Hstep). split; constructor.
    + now rewrite Hmore, Hmore1, (assoc_L (++)).
    + simpl. rewrite Hperm, Hjs, Hmore1, !length_app. simpl.
      now rewrite <- seq_app.
Qed.

(** A turn of one of the calls. *)
Lemma turn_underWay before flights w i f :
  Forall (fun c => usesCache (TrelloClient.call_options c) = false)
         (TrelloClient.call <$> flights) ->
  underWay net before flights w -> flights !! i = Some f ->
  let r := TrelloClient.resume stringify net f w in
  TrelloClient.call <$> <[i := r.1]> flights = TrelloClient.call <$> flights
  /\ underWay net before (<[i := r.1]> flights) r.2.
Proof.
  intros Hgates (jss & more & Hall & Hmore & Hperm) Hf. cbv zeta.
  assert (Hgate : usesCache (TrelloClient.call_options (TrelloClient.call f)) = false).
  { rewrite Forall_forall in Hgates. apply Hgates.
    apply list_elem_of_fmap. exists f. split; [reflexivity|].
    eapply list_elem_of_lookup_2. exact Hf. }
  destruct (Forall2_lookup_l _ _ _ _ _ Hall Hf) as (js & Hjs & Htrace & Hjobs).
  destruct (resume_trace f w js Hgate Htrace) as (Hcall & js' & Htrace' & Hstep).
  destruct (TrelloClient.resume stringify net f w) as [f' w']. cbn [fst snd] in *.
  split.
  - rewrite list_fmap_insert, Hcall. apply list_insert_id.
    now rewrite list_lookup_fmap, Hf.
  - destruct (stepped_more _ _ _ _ _ Hstep) as (more1 & Hmore1 & _).
    exists (<[i := js']> jss), (more ++ more1). split; [|split].
    + apply Forall2_insert.
      * eapply Forall2_impl; [exact Hall|]. intros g gs [Hg1 Hg2].
        split; [exact Hg1|]. rewrite Hmore1. now apply jobsOf_more.
      * split; [exact Htrace'|]. rewrite Hcall.
        apply (stepped_jobs _ _ _ _ _ Hstep). exact Hjobs.
    + now rewrite Hmore1, Hmore, (assoc_L (++)).
    + destruct Hstep as [[Hsame ->]|(options & Hone & ->)].
      * rewrite Hsame in Hmore1.
        assert (more1 = []) as ->.
        { apply (f_equal length) in Hmore1. rewrite length_app in Hmore1.
          destruct more1; [reflexivity | simpl in Hmore1; lia]. }
        now rewrite list_insert_id, app_nil_r.
      * rewrite Hone in Hmore1. apply app_inv_head in Hmore1. subst more1.
        rewrite (concat_insert_snoc _ _ _ _ Hjs), Hperm, length_app. simpl.
        rewrite Nat.add_1_r, seq_S, Hmore, length_app. reflexivity.
Qed.

Lemma outcomes_cons (f : TrelloClient.Flight) (fs : list TrelloClient.Flight) :
  omap TrelloClient.outcome (f :: fs)
  = match TrelloClient.stage f with
    | TrelloClient.Settles o => o :: omap TrelloClient.outcome fs
    | _ => omap TrelloClient.outcome fs
    end.
Proof. destruct f as [c startTime attempt lastError [job due|due|o]]; reflexivity. Qed.

Lemma settled_runs (jobs : list TrelloClient.Job) (flights : list TrelloClient.Flight)
    (jss : list (list nat)) :
  Forall2 (fun f js => flightTrace net f js /\ jobsOf jobs (TrelloClient.call f) js)
          flights jss ->
  Forall (fun f => TrelloClient.waits f = false) flights ->
  exists runs : list (Settled JsVal * list nat),
    omap TrelloClient.outcome flights = runs.*1 /\ runs.*2 = jss
    /\ Forall2 (fun c run => outcomeFrom net c run.2 run.1 /\ jobsOf jobs c run.2)
               (TrelloClient.call <$> flights) runs.
Proof.
  induction 1 as [|f js flights jss [Htrace Hjobs] _ IH]; intros Hset.
  - exists []. repeat split. constructor.
  - apply Forall_cons in Hset as [Hf Hset].
    destruct (IH Hset) as (runs & Hout & Hjss & Hall).
    unfold flightTrace in Htrace. unfold TrelloClient.waits in Hf.
    destruct (TrelloClient.stage f) as [| |o] eqn:Hs; try discriminate.
    exists ((o, js) :: runs). split; [|split].
    + now rewrite outcomes_cons, Hs, Hout.
    + now rewrite fmap_cons, Hjss.
    + rewrite fmap_cons. constructor; [split; assumption | exact Hall].
Qed.

(** The calls of a wave that do not use the cache: every call settles, and
    the way it settles is accounted for by the replies to its jobs. *)
Lemma allSettled_accounts (order : list nat) (calls : list TrelloClient.Call)
    (w : TrelloClient.World) :
  Forall (fun c => usesCache (TrelloClient.call_options c) = false) calls ->
  let r := TrelloClient.allSettled stringify net order calls w in
  exists runs : list (Settled JsVal * list nat),
    r.1 = runs.*1 /\ accounts net w r.2 calls runs.
Proof.
  intros Hgates. cbv zeta. unfold TrelloClient.allSettled.
  destruct (beginAll_underWay calls Hgates w) as (Hcalls & Hbegun).
  destruct (TrelloClient.beginAll stringify net calls w) as [flights w1].
  cbn [fst snd] in *.
  pose proof (run_settles (sum_list (TrelloClient.turnsLeft <$> flights)) order
                flights w1 ltac:(lia)) as Hsettled.
  pose proof (run_keeps
                (fun fs w' => TrelloClient.call <$> fs = calls
                              /\ underWay net (TrelloClient.jobs w) fs w')
                ltac:(intros fs w' i f [Hc Hu] Hf _;
                      destruct (turn_underWay _ fs w' i f
                                  ltac:(now rewrite Hc) Hu Hf) as [Hc' Hu'];
                      split; [now rewrite Hc' | exact Hu'])
                (sum_list (TrelloClient.turnsLeft <$> flights)) order flights w1
                (conj Hcalls Hbegun)) as [Hcalls' (jss & more & Hall & Hmore & Hperm)].
  destruct (TrelloClient.run stringify net _ order flights w1) as [flights' w2].
  cbn [fst snd] in *.
  destruct (settled_runs _ _ _ Hall Hsettled) as (runs & Hout & Hjss & Hruns).
  exists runs. split; [exact Hout|]. split.
  - now rewrite <- Hcalls'.
  - exists more. split; [exact Hmore | now rewrite Hjss].
Qed.

End Flights.

Section Accounts.

Variable net : TrelloClient.Net.

Lemma accounts_nil w w' :
  TrelloClient.jobs w' = TrelloClient.jobs w -> accounts net w w' [] [].
Proof.
  intros H. split; [constructor|]. exists []. now rewrite H, app_nil_r.
Qed.

(** The accounts of two waves, one after the other, make one. *)
Lemma accounts_app w w1 w1' w2 calls1 calls2 runs1 runs2 :
  accounts net w w1 calls1 runs1 -> TrelloClient.jobs w1' = TrelloClient.jobs w1 ->
  accounts net w1' w2 calls2 runs2 ->
  accounts net w w2 (calls1 ++ calls2) (runs1 ++ runs2).
Proof.
  intros [Hall1 (more1 & Hmore1 & Hperm1)] Hsame [Hall2 (more2 & Hmore2 & Hperm2)].
  rewrite Hsame in Hmore2, Hperm2. split.
  - apply Forall2_app; [|exact Hall2].
    eapply Forall2_impl; [exact Hall1|]. intros c run [Ho [Hjobs Hs]].
    split; [exact Ho|]. rewrite Hmore2. now apply jobsOf_more.
  - exists (more1 ++ more2). split.
    + now rewrite Hmore2, Hmore1, (assoc_L (++)).
    + rewrite fmap_app, concat_app, Hperm1, Hperm2, Hmore1, !length_app.
      now rewrite <- seq_app.
Qed.

(** A call with the default of three retries has between one and four
    jobs. *)
Lemma outcomeFrom_count c js o :
  TrelloClient.retries (TrelloClient.call_options c) = None ->
  outcomeFrom net c js o -> (1 <= length js <= 4)%nat.
Proof.
  unfold outcomeFrom. intros ->. cbn [default].
  destruct o as [value|error].
  - intros (failed & j & -> & _ & Hlen & _). rewrite length_app. simpl. lia.
  - intros (_ & Hlen & _). lia.
Qed.

Lemma accounts_count w w' calls runs :
  Forall (fun c => TrelloClient.retries (TrelloClient.call_options c) = None) calls ->
  accounts net w w' calls runs ->
  (length (TrelloClient.jobs w) + length calls
   <= length (TrelloClient.jobs w')
   <= length (TrelloClient.jobs w) + 4 * length calls)%nat.
Proof.
  intros Hcalls [Hall (more & Hmore & Hperm)].
  rewrite Hmore, length_app.
  apply (f_equal length) in Hperm || apply Permutation_length in Hperm.
  rewrite length_seq in Hperm. rewrite <- Hperm. clear Hperm Hmore.
  induction Hall as [|c run calls runs [Ho _] _ IH]; [simpl; lia|].
  apply Forall_cons in Hcalls as [Hc Hcalls]. specialize (IH Hcalls).
  pose proof (outcomeFrom_count _ _ _ Hc Ho).
  rewrite fmap_cons. simpl. rewrite length_app. simpl in *. lia.
Qed.

Lemma elem_of_concat {A : Type} (x : A) (ls : list (list A)) :
  x ∈ concat ls -> exists l, x ∈ l /\ l ∈ ls.
Proof.
  induction ls as [|l ls IH]; simpl; intros H.
  - apply elem_of_nil in H. contradiction.
  - apply elem_of_app in H as [H|H].
    + exists l. split; [exact H | apply list_elem_of_here].
    + destruct (IH H) as (l' & Hx & Hl). exists l'.
      split; [exact Hx | now apply list_elem_of_further].
Qed.

(** Every job handed over during the calls is a job of one of them. *)
Lemma accounts_jobs (P : TrelloClient.Request -> Prop) w w' calls runs :
  Forall (fun c => P (requestOfCall c)) calls ->
  accounts net w w' calls runs ->
  exists more, TrelloClient.jobs w' = TrelloClient.jobs w ++ more
               /\ Forall (fun job => P (TrelloClient.job_request job)) more.
Proof.
  intros Hcalls [Hall (more & Hmore & Hperm)]. exists more. split; [exact Hmore|].
  apply Forall_lookup. intros k job Hk.
  assert (Hin : (length (TrelloClient.jobs w) + k)%nat ∈ concat runs.*2).
  { rewrite Hperm. apply elem_of_seq. apply lookup_lt_Some in Hk. lia. }
  apply elem_of_concat in Hin as (js & Hj & Hjs).
  apply list_elem_of_fmap in Hjs as ([o js'] & -> & Hrun). simpl in Hj.
  apply list_elem_of_lookup_1 in Hrun as (i & Hi).
  destruct (Forall2_lookup_r _ _ _ _ _ Hall Hi) as (c & Hc & _ & Hjobs & _).
  simpl in Hjobs. rewrite Forall_forall in Hjobs. specialize (Hjobs _ Hj).
  rewrite Hmore, lookup_app_r in Hjobs by lia.
  replace (length (TrelloClient.jobs w) + k - length (TrelloClient.jobs w))%nat
    with k in Hjobs by lia.
  rewrite Hk in Hjobs. simpl in Hjobs. injection Hjobs as ->.
  rewrite Forall_forall in Hcalls. apply Hcalls.
  eapply list_elem_of_lookup_2. exact Hc.
Qed.

Lemma accounts_length w w' calls runs :
  accounts net w w' calls runs -> length runs = length calls.
Proof. intros [Hall _]. symmetry. eapply Forall2_length. exact Hall. Qed.

End Accounts.

Lemma fulfilled_values_app (a b : list (Settled JsVal)) :
  TrelloClient.fulfilled_values (a ++ b)
  = TrelloClient.fulfilled_values a ++ TrelloClient.fulfilled_values b.
Proof.
  induction a as [|[value|reason] a IH]; simpl; [reflexivity | now rewrite IH | exact IH].
Qed.

Lemma failuresOf_app (ids1 ids2 : list string) (r1 r2 : list (Settled JsVal)) :
  length r1 = length ids1 ->
  failuresOf (ids1 ++ ids2) (r1 ++ r2) = failuresOf ids1 r1 ++ failuresOf ids2 r2.
Proof.
  revert r1. induction ids1 as [|cardId ids1 IH]; intros [|[value|reason] r1] Hlen;
    simpl in *; try discriminate.
  - reflexivity.
  - apply IH. lia.
  - f_equal. apply IH. lia.
Qed.

(** Every card of a batch lands in one of the two lists: the value of its
    call among the cards done, or its id and the message of its error among
    the failures. *)
Lemma sortResults_lists (batch : list string) :
  forall (results : list (Settled JsVal)) processed failedCards,
    length results = length batch ->
    Forall (fun result => match result with
                          | Rejected reason => message reason <> ""
                          | Fulfilled _ => True
                          end) results ->
    BulkTools.sortResults batch results processed failedCards
    = (processed ++ TrelloClient.fulfilled_values results,
       failedCards ++ failuresOf batch results).
Proof.
  induction batch as [|cardId batch IH]; intros results processed failedCards Hlen Hmsg;
    destruct results as [|result results]; simpl in Hlen; try discriminate.
  - simpl. now rewrite !app_nil_r.
  - injection Hlen as Hlen. apply Forall_cons in Hmsg as [Hm Hmsg].
    destruct result as [value|reason].
    + change (BulkTools.sortResults (cardId :: batch) (Fulfilled value :: results)
                processed failedCards)
        with (BulkTools.sortResults batch results (processed ++ [value]) failedCards).
      rewrite (IH _ _ _ Hlen Hmsg). simpl. now rewrite <- (assoc_L (++)).
    + change (BulkTools.sortResults (cardId :: batch) (Rejected reason :: results)
                processed failedCards)
        with (BulkTools.sortResults batch results processed
                (failedCards
                 ++ [(cardId, str_or (Some (message reason)) "Bilinmeyen hata")])).
      rewrite (IH _ _ _ Hlen Hmsg). simpl. rewrite <- (assoc_L (++)). simpl.
      apply String.eqb_neq in Hm. now rewrite Hm.
Qed.

Lemma accounts_messages net w w' calls runs :
  accounts net w w' calls runs ->
  Forall (fun result => match result with
                        | Rejected reason => message reason <> ""
                        | Fulfilled _ => True
                        end) runs.*1.
Proof.
  intros [Hall _]. induction Hall as [|c [o js] calls runs [Ho _] _ IH];
    [constructor|].
  rewrite fmap_cons. constructor; [|exact IH]. simpl in *.
  destruct o as [value|reason]; [exact I|].
  destruct Ho as (_ & _ & ->). discriminate.
Qed.

Section Waves.

Variable stringify : JsVal -> string.
Variable net : TrelloClient.Net.
Variable schedule : nat -> list nat.

(** The waves of the move and of the archive tool, from the card at [i] on:
    the cards done are the values of the calls that were fulfilled, in the
    order of the cards, and the failures are those of the calls that were
    rejected. *)
Lemma cardWaves_accounts (op : string -> TrelloClient.Call) (cardIds : list string) :
  (forall cardId, usesCache (TrelloClient.call_options (op cardId)) = false) ->
  forall (fuel i : nat) processed failedCards w,
    (length cardIds - i <= TrelloClient.batchSize * fuel)%nat ->
    let r := BulkTools.cardWaves stringify net schedule fuel op cardIds i processed
               failedCards w in
    exists runs : list (Settled JsVal * list nat),
      accounts net w r.2 (op <$> drop i cardIds) runs
      /\ r.1.1 = processed ++ TrelloClient.fulfilled_values runs.*1
      /\ r.1.2 = failedCards ++ failuresOf (drop i cardIds) runs.*1.
Proof.
  intros Hop. unfold TrelloClient.batchSize.
  induction fuel as [|fuel IH]; intros i processed failedCards w Hfuel; cbv zeta.
  - rewrite drop_ge by lia. exists []. simpl. rewrite !app_nil_r.
    split; [now apply accounts_nil | auto].
  - simpl. destruct (i <? length cardIds)%nat eqn:Hi.
    + apply Nat.ltb_lt in Hi.
      set (batch := take TrelloClient.batchSize (drop i cardIds)).
      destruct (allSettled_accounts stringify net (schedule i) (op <$> batch) w)
        as (runs1 & Hresults & Hacc1).
      { apply Forall_fmap, Forall_forall. intros cardId _. apply Hop. }
      destruct (TrelloClient.allSettled stringify net (schedule i) (op <$> batch) w)
        as [results w1]. cbn [fst snd] in *. subst results.
      pose proof (accounts_length net _ _ _ _ Hacc1) as Hlen1.
      rewrite length_fmap in Hlen1.
      rewrite (sortResults_lists batch runs1.*1 processed failedCards
                 ltac:(now rewrite length_fmap)
                 (accounts_messages net _ _ _ _ Hacc1)).
      match goal with
      | |- context [BulkTools.cardWaves stringify net schedule fuel op cardIds
                      ?i' ?p' ?f' ?w2] =>
          destruct (IH i' p' f' w2 ltac:(unfold TrelloClient.batchSize; lia))
            as (runs2 & Hacc2 & Hdone & Hfailed);
          destruct (BulkTools.cardWaves stringify net schedule fuel op cardIds
                      i' p' f' w2) as [[processed' failed'] w3]
      end.
      cbn [fst snd] in *. exists (runs1 ++ runs2).
      assert (Hsplit : drop i cardIds
                       = batch ++ drop (i + TrelloClient.batchSize) cardIds).
      { unfold batch. rewrite <- drop_drop. symmetry. apply take_drop. }
      split; [|split].
      * rewrite Hsplit, fmap_app.
        eapply accounts_app; [exact Hacc1 | | exact Hacc2].
        now destruct (_ <? _)%nat.
      * now rewrite Hdone, fmap_app, fulfilled_values_app, (assoc_L (++)).
      * rewrite Hfailed, Hsplit at 1. rewrite fmap_app, failuresOf_app
          by (now rewrite length_fmap).
        now rewrite (assoc_L (++)).
    + apply Nat.ltb_ge in Hi. rewrite drop_ge by lia. exists []. simpl.
      rewrite !app_nil_r. split; [now apply accounts_nil | auto].
Qed.

End Waves.

(** *** A call that runs alone

    The turns of a single call, taken one after the other, are the loop of
    [makeRequest] itself, when no answer of the service takes a negative
    time. *)

Section Alone.

Variable stringify : JsVal -> string.
Variable net : TrelloClient.Net.
Hypothesis Htime : forall (j : nat) (req : TrelloClient.Request),
    0 <= TrelloClient.elapsed (net j req).

Lemma next_alone (f : TrelloClient.Flight) :
  forall order : list nat,
    if TrelloClient.waits f
    then exists order', TrelloClient.next order [f] = Some (0%nat, order')
    else TrelloClient.next order [f] = None.
Proof.
  induction order as [|i order IH]; simpl.
  - unfold TrelloClient.waits. destruct (TrelloClient.stage f); eauto.
  - destruct i as [|i]; simpl; [|exact IH].
    destruct (TrelloClient.waits f); [eauto | exact IH].
Qed.

Lemma run_alone_settled (f : TrelloClient.Flight) fuel order w :
  TrelloClient.waits f = false ->
  TrelloClient.run stringify net fuel order [f] w = ([f], w).
Proof.
  intros Hw. destruct fuel as [|fuel]; [reflexivity|]. simpl.
  pose proof (next_alone f order) as Hn. rewrite Hw in Hn. now rewrite Hn.
Qed.

Lemma run_alone_step (f : TrelloClient.Flight) fuel order w :
  TrelloClient.waits f = true ->
  exists order',
    TrelloClient.run stringify net (S fuel) order [f] w
    = TrelloClient.run stringify net fuel order'
        [(TrelloClient.resume stringify net f w).1]
        (TrelloClient.resume stringify net f w).2.
Proof.
  intros Hw. pose proof (next_alone f order) as Hn. rewrite Hw in Hn.
  destruct Hn as (order' & Hn). exists order'. simpl. rewrite Hn. simpl.
  now destruct (TrelloClient.resume stringify net f w).
Qed.

Lemma at_time_later (delay : Z) (w : TrelloClient.World) :
  0 <= delay ->
  TrelloClient.at_time (TrelloClient.now w + delay) w = TrelloClient.sleep delay w.
Proof.
  intros H. unfold TrelloClient.at_time, TrelloClient.sleep. f_equal. lia.
Qed.

Lemma at_time_reply (p : TrelloClient.Priority) (req : TrelloClient.Request)
    (options : Bottleneck.JobOptions) (w : TrelloClient.World) :
  options = match p with
            | TrelloClient.high =>
                TrelloRateLimiter.scheduleHighPriority (TrelloClient.now w) None
            | TrelloClient.low =>
                TrelloRateLimiter.scheduleLowPriority (TrelloClient.now w) None
            | TrelloClient.normal =>
                TrelloRateLimiter.schedule (TrelloClient.now w) None
            end ->
  TrelloClient.at_time
    (TrelloClient.now w
     + TrelloClient.elapsed (net (length (TrelloClient.jobs w)) req))
    {| TrelloClient.now := TrelloClient.now w;
       TrelloClient.stats := TrelloClient.stats w;
       TrelloClient.cache := TrelloClient.cache w;
       TrelloClient.jobs :=
         TrelloClient.jobs w
         ++ [{| TrelloClient.job_options := options;
                TrelloClient.job_request := req |}] |}
  = (TrelloClient.scheduleRequest net p req w).2.
Proof.
  intros ->. unfold TrelloClient.at_time, TrelloClient.scheduleRequest.
  cbn [snd TrelloClient.now TrelloClient.stats TrelloClient.cache TrelloClient.jobs].
  f_equal. pose proof (Htime (length (TrelloClient.jobs w)) req). lia.
Qed.

(** A call that runs alone takes its turns one after the other: the head of
    the loop, run to the end of the call, comes to what the loop of
    [makeRequest] comes to. *)
Lemma loop_alone (c : TrelloClient.Call) (startTime : Z) :
  let options := TrelloClient.call_options c in
  let retries := default 3 (TrelloClient.retries options) in
  forall (n : nat) (attempt : Z) (lastError : option JsError)
         (w : TrelloClient.World) (fuel : nat) (order : list nat),
    let begun := TrelloClient.loopHead net c startTime attempt lastError w in
    (TrelloClient.turnsLeft begun.1 <= fuel)%nat ->
    (Z.to_nat (retries + 1 - attempt) <= n)%nat ->
    let done := TrelloClient.run stringify net fuel order [begun.1] begun.2 in
    let settled :=
      settledBy c startTime
        (TrelloClient.retryLoop net n
           (default TrelloClient.GET (TrelloClient.method options))
           (default true (TrelloClient.useCache options))
           (TrelloClient.cacheKeyOf stringify (TrelloClient.call_endpoint c) options)
           (TrelloClient.cacheTtl options)
           (default TrelloClient.normal (TrelloClient.priority options))
           (TrelloClient.requestOf (TrelloClient.call_endpoint c) options)
           retries startTime attempt lastError w) in
    omap TrelloClient.outcome done.1 = [settled.1] /\ done.2 = settled.2.
Proof.
  intros options retries.
  induction n as [|n IH]; intros attempt lastError w fuel order begun Hfuel Hn.
  - assert (Hover : (attempt <=? retries) = false) by (apply Z.leb_gt; lia).
    subst begun. unfold TrelloClient.loopHead in Hfuel |- *.
    fold options in Hfuel |- *. fold retries in Hfuel |- *.
    rewrite Hover in Hfuel |- *. cbn [fst snd] in Hfuel |- *.
    rewrite run_alone_settled by reflexivity. split; reflexivity.
  - subst begun. rewrite retryLoop_step.
    unfold TrelloClient.loopHead in Hfuel |- *. fold options in Hfuel |- *.
    fold retries in Hfuel |- *.
    destruct (attempt <=? retries) eqn:Hle.
    + apply Z.leb_le in Hle. cbn [fst snd] in Hfuel |- *.
      unfold TrelloClient.turnsLeft in Hfuel.
      cbn [TrelloClient.stage TrelloClient.call TrelloClient.attempt] in Hfuel.
      fold options in Hfuel. fold retries in Hfuel.
      destruct fuel as [|fuel]; [lia|].
      match goal with
      | |- context [TrelloClient.run stringify net (S fuel) order [?f] ?w1] =>
          destruct (run_alone_step f fuel order w1 eq_refl) as (order' & ->);
          set (flight := f)
      end.
      (* what the catch block leads to *)
      assert (Hcaught : forall error wX order0,
                 let next := TrelloClient.caught net flight error wX in
                 let done := TrelloClient.run stringify net fuel order0
                               [next.1] next.2 in
                 let settled :=
                   settledBy c startTime
                     (TrelloClient.retryLoop net n
                        (default TrelloClient.GET (TrelloClient.method options))
                        (default true (TrelloClient.useCache options))
                        (TrelloClient.cacheKeyOf stringify
                           (TrelloClient.call_endpoint c) options)
                        (TrelloClient.cacheTtl options)
                        (default TrelloClient.normal (TrelloClient.priority options))
                        (TrelloClient.requestOf (TrelloClient.call_endpoint c) options)
                        retries startTime (attempt + 1) (Some error)
                        (pauseAfter attempt retries wX)) in
                 omap TrelloClient.outcome done.1 = [settled.1]
                 /\ done.2 = settled.2).
      { intros error wX order0. cbv zeta. unfold TrelloClient.caught, pauseAfter.
        cbn [TrelloClient.call TrelloClient.attempt TrelloClient.startTime flight].
        fold options. fold retries.
        destruct (attempt + 1 <=? retries) eqn:Hmore.
        - apply Z.leb_le in Hmore. cbn [fst snd].
          destruct fuel as [|fuel'];
            [exfalso; lia|].
          match goal with
          | |- context [TrelloClient.run stringify net (S fuel') order0 [?g] wX] =>
              destruct (run_alone_step g fuel' order0 wX eq_refl) as (order1 & ->)
          end.
          unfold TrelloClient.resume.
          cbn [TrelloClient.stage TrelloClient.call TrelloClient.attempt
               TrelloClient.startTime TrelloClient.lastError].
          rewrite at_time_later.
          + apply IH; [|lia].
            pose proof (loopHead_turns net c startTime (attempt + 1) (Some error)
                          (TrelloClient.sleep
                             (Z.min (1000 * 2 ^ (attempt + 1 - 1)) 10000) wX)) as Ht.
            fold options in Ht. fold retries in Ht. lia.
          + assert (0 <= 2 ^ (attempt + 1 - 1)) by (apply Z.pow_nonneg; lia). lia.
        - apply IH; [|apply Z.leb_gt in Hmore; lia].
          unfold TrelloClient.loopHead. fold options. fold retries.
          rewrite Hmore. cbn [fst TrelloClient.turnsLeft TrelloClient.stage]. lia. }
      unfold TrelloClient.resume.
      cbn [TrelloClient.stage TrelloClient.call TrelloClient.attempt
           TrelloClient.startTime TrelloClient.lastError flight].
      rewrite (at_time_reply
                 (default TrelloClient.normal (TrelloClient.priority options)))
        by reflexivity.
      fold options.
      set (w1 := (TrelloClient.scheduleRequest net _ _ w).2) in *.
      destruct (TrelloClient.settled
                  (net (length (TrelloClient.jobs w))
                       (TrelloClient.requestOf (TrelloClient.call_endpoint c) options)))
        as [result|error].
      * cbv zeta.
        destruct (TrelloClient.is_GET _ && _ && truthy result).
        -- rewrite MemoryCache_set_cases.
           cbn [TrelloClient.updateStats TrelloClient.with_stats TrelloClient.cache].
           destruct (NodeCache.full (MemoryCache.cache (TrelloClient.cache w1)))
             eqn:Hfull.
           ++ assert (Hc1 : TrelloClient.cache w1 = TrelloClient.cache w)
                by reflexivity.
              rewrite Hc1 in Hfull. rewrite Hfull. apply Hcaught.
           ++ assert (Hc1 : TrelloClient.cache w1 = TrelloClient.cache w)
                by reflexivity.
              rewrite Hc1 in Hfull. rewrite Hfull.
              cbn [fst snd]. rewrite run_alone_settled by reflexivity.
              cbn [settledBy fst snd]. split; [reflexivity|].
              rewrite MemoryCache_set_cases, Hc1, Hfull. reflexivity.
        -- cbn [fst snd]. rewrite run_alone_settled by reflexivity.
           split; reflexivity.
      * apply Hcaught.
    + cbn [fst snd]. rewrite run_alone_settled by reflexivity.
      split; reflexivity.
Qed.

(** A call that [Promise.allSettled] runs alone settles as the call made
    and awaited does, and leaves the same world, whatever the order given. *)
Lemma allSettled_alone (order : list nat) (c : TrelloClient.Call)
    (w : TrelloClient.World) :
  TrelloClient.allSettled stringify net order [c] w
  = ([(TrelloClient.perform stringify net c w).1],
     (TrelloClient.perform stringify net c w).2).
Proof.
  unfold TrelloClient.allSettled, TrelloClient.perform, TrelloClient.makeRequest.
  cbn [TrelloClient.beginAll]. unfold TrelloClient.begin.
  destruct (TrelloClient.is_GET _ && _).
  - destruct (MemoryCache.get _ _ _) as [cached c'].
    destruct (negb (is_undefined cached)).
    + cbn [fst snd fmap list_fmap sum_list_with].
      rewrite run_alone_settled by reflexivity. reflexivity.
    + match goal with
      | |- context [TrelloClient.loopHead net c ?st ?a ?l ?w1] =>
          pose proof (loop_alone c st
                        (Z.to_nat (default 3 (TrelloClient.retries
                                                (TrelloClient.call_options c)) + 1))
                        a l w1) as Hloop;
          destruct (TrelloClient.loopHead net c st a l w1) as [f w2]
      end.
      cbv zeta in Hloop. cbn [fst snd] in Hloop.
      assert (Hf : (TrelloClient.turnsLeft f
                    <= sum_list (TrelloClient.turnsLeft <$> [f]))%nat)
        by (change (TrelloClient.turnsLeft f <= TrelloClient.turnsLeft f + 0)%nat;
            lia).
      specialize (Hloop _ order Hf ltac:(lia)).
      destruct Hloop as [Hout Hw].
      destruct (TrelloClient.run stringify net _ order [f] w2) as [fs w3].
      cbn [fst snd] in *. rewrite Hout, Hw.
      destruct (TrelloClient.retryLoop _ _ _ _ _ _ _ _ _ _ _ _ _) as [[v|l] w4];
        reflexivity.
  - match goal with
    | |- context [TrelloClient.loopHead net c ?st ?a ?l ?w1] =>
        pose proof (loop_alone c st
                      (Z.to_nat (default 3 (TrelloClient.retries
                                              (TrelloClient.call_options c)) + 1))
                      a l w1) as Hloop;
        destruct (TrelloClient.loopHead net c st a l w1) as [f w2]
    end.
    cbv zeta in Hloop. cbn [fst snd] in Hloop.
    assert (Hf : (TrelloClient.turnsLeft f
                  <= sum_list (TrelloClient.turnsLeft <$> [f]))%nat)
      by (change (TrelloClient.turnsLeft f <= TrelloClient.turnsLeft f + 0)%nat; lia).
    specialize (Hloop _ order Hf ltac:(lia)).
    destruct Hloop as [Hout Hw].
    destruct (TrelloClient.run stringify net _ order [f] w2) as [fs w3].
    cbn [fst snd] in *. rewrite Hout, Hw.
    destruct (TrelloClient.retryLoop _ _ _ _ _ _ _ _ _ _ _ _ _) as [[v|l] w4];
      reflexivity.
Qed.

End Alone.

(** *** Services that differ in their errors *)

Section Blind.

Variable stringify : JsVal -> string.
Variables n1 n2 : TrelloClient.Net.
Hypothesis Hnets : sameButErrors n1 n2.

Lemma loopHead_blind c startTime attempt l1 l2 w :
  alikeFlights (TrelloClient.loopHead n1 c startTime attempt l1 w).1
               (TrelloClient.loopHead n2 c startTime attempt l2 w).1
  /\ (TrelloClient.loopHead n1 c startTime attempt l1 w).2
     = (TrelloClient.loopHead n2 c startTime attempt l2 w).2.
Proof.
  unfold TrelloClient.loopHead. destruct (attempt <=? _).
  - destruct (Hnets (length (TrelloClient.jobs w))
                (TrelloClient.requestOf (TrelloClient.call_endpoint c)
                   (TrelloClient.call_options c))) as [-> _].
    repeat split.
  - repeat split.
Qed.

Lemma caught_blind f1 f2 e1 e2 w :
  alikeFlights f1 f2 ->
  alikeFlights (TrelloClient.caught n1 f1 e1 w).1 (TrelloClient.caught n2 f2 e2 w).1
  /\ (TrelloClient.caught n1 f1 e1 w).2 = (TrelloClient.caught n2 f2 e2 w).2.
Proof.
  intros (Hc & Hs & Ha & _). unfold TrelloClient.caught. rewrite Hc, Hs, Ha.
  destruct (_ <=? _); [repeat split | apply loopHead_blind].
Qed.

Lemma resume_blind f1 f2 w :
  alikeFlights f1 f2 ->
  alikeFlights (TrelloClient.resume stringify n1 f1 w).1
               (TrelloClient.resume stringify n2 f2 w).1
  /\ (TrelloClient.resume stringify n1 f1 w).2
     = (TrelloClient.resume stringify n2 f2 w).2.
Proof.
  intros Hlike. pose proof Hlike as (Hc & Hs & Ha & Hstage).
  unfold TrelloClient.resume. rewrite Hc, Hs, Ha.
  destruct (TrelloClient.stage f1) as [j1 d1|d1|o1];
    destruct (TrelloClient.stage f2) as [j2 d2|d2|o2] eqn:Hs2; try contradiction.
  - destruct Hstage as [-> ->].
    destruct (Hnets j2 (TrelloClient.requestOf
                          (TrelloClient.call_endpoint (TrelloClient.call f2))
                          (TrelloClient.call_options (TrelloClient.call f2))))
      as [_ Hreply].
    destruct (TrelloClient.settled (n1 j2 _)) as [x|e1];
      destruct (TrelloClient.settled (n2 j2 _)) as [y|e2];
      simpl in Hreply; try contradiction.
    + subst y. destruct (_ && _ && _).
      * destruct (MemoryCache.set _ _ _ _ _) as [[ok|error] c'].
        -- repeat split.
        -- now apply caught_blind.
      * repeat split.
    + now apply caught_blind.
  - subst d2. apply loopHead_blind.
  - split; [|reflexivity]. simpl. unfold alikeFlights. rewrite Hs2.
    destruct Hlike as (_ & _ & _ & H). rewrite Hs2 in H.
    destruct (TrelloClient.stage f1); try contradiction. auto.
Qed.

Lemma begin_blind c w :
  alikeFlights (TrelloClient.begin stringify n1 c w).1
               (TrelloClient.begin stringify n2 c w).1
  /\ (TrelloClient.begin stringify n1 c w).2 = (TrelloClient.begin stringify n2 c w).2.
Proof.
  unfold TrelloClient.begin. destruct (_ && _).
  - destruct (MemoryCache.get _ _ _) as [cached c'].
    destruct (negb _); [repeat split | apply loopHead_blind].
  - apply loopHead_blind.
Qed.

Lemma beginAll_blind calls :
  forall w,
    Forall2 alikeFlights (TrelloClient.beginAll stringify n1 calls w).1
                         (TrelloClient.beginAll stringify n2 calls w).1
    /\ (TrelloClient.beginAll stringify n1 calls w).2
       = (TrelloClient.beginAll stringify n2 calls w).2.
Proof.
  induction calls as [|c calls IH]; intros w; simpl; [split; [constructor | reflexivity]|].
  destruct (begin_blind c w) as [Hf Hw].
  destruct (TrelloClient.begin stringify n1 c w) as [f1 w1].
  destruct (TrelloClient.begin stringify n2 c w) as [f2 w1']. simpl in Hf, Hw.
  subst w1'. destruct (IH w1) as [Hfs Hw2].
  destruct (TrelloClient.beginAll stringify n1 calls w1) as [fs1 w2].
  destruct (TrelloClient.beginAll stringify n2 calls w1) as [fs2 w2'].
  simpl in *. subst w2'. split; [now constructor | reflexivity].
Qed.

Lemma firstDue_blind fs1 fs2 :
  Forall2 alikeFlights fs1 fs2 ->
  forall i, TrelloClient.firstDue i fs1 = TrelloClient.firstDue i fs2.
Proof.
  induction 1 as [|f1 f2 fs1 fs2 (_ & _ & _ & Hstage) _ IH]; intros i; [reflexivity|].
  simpl. rewrite (IH (S i)).
  destruct (TrelloClient.stage f1); destruct (TrelloClient.stage f2);
    try contradiction; [destruct Hstage as [_ ->] | subst |]; reflexivity.
Qed.

Lemma waits_blind f1 f2 :
  alikeFlights f1 f2 -> TrelloClient.waits f1 = TrelloClient.waits f2.
Proof.
  intros (_ & _ & _ & Hstage). unfold TrelloClient.waits.
  destruct (TrelloClient.stage f1); destruct (TrelloClient.stage f2);
    try contradiction; reflexivity.
Qed.

Lemma next_blind order fs1 fs2 :
  Forall2 alikeFlights fs1 fs2 ->
  TrelloClient.next order fs1 = TrelloClient.next order fs2.
Proof.
  intros Hfs. induction order as [|i order IH]; simpl.
  - now rewrite (firstDue_blind _ _ Hfs 0).
  - destruct (fs1 !! i) as [f1|] eqn:H1.
    + destruct (Forall2_lookup_l _ _ _ _ _ Hfs H1) as (f2 & -> & Hlike).
      rewrite (waits_blind _ _ Hlike). now rewrite IH.
    + assert (fs2 !! i = None) as ->; [|exact IH].
      apply lookup_ge_None. apply lookup_ge_None in H1.
      now rewrite <- (Forall2_length _ _ _ Hfs).
Qed.

Lemma run_blind :
  forall (fuel : nat) order fs1 fs2 w,
    Forall2 alikeFlights fs1 fs2 ->
    Forall2 alikeFlights (TrelloClient.run stringify n1 fuel order fs1 w).1
                         (TrelloClient.run stringify n2 fuel order fs2 w).1
    /\ (TrelloClient.run stringify n1 fuel order fs1 w).2
       = (TrelloClient.run stringify n2 fuel order fs2 w).2.
Proof.
  induction fuel as [|fuel IH]; intros order fs1 fs2 w Hfs; simpl;
    [split; [exact Hfs | reflexivity]|].
  rewrite (next_blind order _ _ Hfs).
  destruct (TrelloClient.next order fs2) as [[i order']|];
    [|split; [exact Hfs | reflexivity]].
  destruct (fs1 !! i) as [f1|] eqn:H1.
  - destruct (Forall2_lookup_l _ _ _ _ _ Hfs H1) as (f2 & -> & Hlike).
    destruct (resume_blind f1 f2 w Hlike) as [Hf Hw].
    destruct (TrelloClient.resume stringify n1 f1 w) as [f1' w1].
    destruct (TrelloClient.resume stringify n2 f2 w) as [f2' w1'].
    simpl in Hf, Hw. subst w1'. apply IH. now apply Forall2_insert.
  - assert (fs2 !! i = None) as ->; [|split; [exact Hfs | reflexivity]].
    apply lookup_ge_None. apply lookup_ge_None in H1.
    now rewrite <- (Forall2_length _ _ _ Hfs).
Qed.

Lemma turnsLeft_blind fs1 fs2 :
  Forall2 alikeFlights fs1 fs2 ->
  TrelloClient.turnsLeft <$> fs1 = TrelloClient.turnsLeft <$> fs2.
Proof.
  induction 1 as [|f1 f2 fs1 fs2 (Hc & _ & Ha & Hstage) _ IH]; [reflexivity|].
  rewrite !fmap_cons, IH. f_equal. unfold TrelloClient.turnsLeft. rewrite Hc, Ha.
  destruct (TrelloClient.stage f1); destruct (TrelloClient.stage f2);
    try contradiction; reflexivity.
Qed.

Lemma outcomes_blind fs1 fs2 :
  Forall2 alikeFlights fs1 fs2 ->
  Forall2 alike (omap TrelloClient.outcome fs1) (omap TrelloClient.outcome fs2).
Proof.
  induction 1 as [|f1 f2 fs1 fs2 (_ & _ & _ & Hstage) _ IH]; [constructor|].
  rewrite !outcomes_cons.
  destruct (TrelloClient.stage f1); destruct (TrelloClient.stage f2);
    try contradiction; try exact IH. now constructor.
Qed.

(** The calls of a wave settle alike, and leave the same world, with two
    services that differ at most in their errors. *)
Lemma allSettled_blind order calls w :
  Forall2 alike (TrelloClient.allSettled stringify n1 order calls w).1
                (TrelloClient.allSettled stringify n2 order calls w).1
  /\ (TrelloClient.allSettled stringify n1 order calls w).2
     = (TrelloClient.allSettled stringify n2 order calls w).2.
Proof.
  unfold TrelloClient.allSettled.
  destruct (beginAll_blind calls w) as [Hfs Hw].
  destruct (TrelloClient.beginAll stringify n1 calls w) as [fs1 w1].
  destruct (TrelloClient.beginAll stringify n2 calls w) as [fs2 w1'].
  simpl in Hfs, Hw. subst w1'. rewrite (turnsLeft_blind _ _ Hfs).
  destruct (run_blind (sum_list (TrelloClient.turnsLeft <$> fs2)) order fs1 fs2 w1 Hfs)
    as [Hfs' Hw'].
  destruct (TrelloClient.run stringify n1 _ order fs1 w1) as [fs1' w2].
  destruct (TrelloClient.run stringify n2 _ order fs2 w1) as [fs2' w2'].
  simpl in *. subst w2'. split; [now apply outcomes_blind | reflexivity].
Qed.

End Blind.

(** *** The waves of the bulk operations *)

Lemma fulfilled_values_alike (rs1 rs2 : list (Settled JsVal)) :
  Forall2 alike rs1 rs2 ->
  TrelloClient.fulfilled_values rs1 = TrelloClient.fulfilled_values rs2.
Proof.
  induction 1 as [|r1 r2 rs1 rs2 Hr _ IH]; [reflexivity|].
  destruct r1, r2; simpl in *; try contradiction; congruence.
Qed.

Lemma fulfilled_values_length (results : list (Settled JsVal)) :
  (length (TrelloClient.fulfilled_values results) <= length results)%nat.
Proof.
  induction results as [|[value|reason] results IH]; simpl; lia.
Qed.

Lemma results_split (cardIds : list string) :
  forall results : list (Settled JsVal),
    length results = length cardIds ->
    (length (TrelloClient.fulfilled_values results)
     + length (failuresOf cardIds results) = length cardIds)%nat.
Proof.
  induction cardIds as [|cardId cardIds IH]; intros [|[value|reason] results] Hlen;
    simpl in *; try discriminate; [reflexivity | |];
    specialize (IH results ltac:(lia)); lia.
Qed.

(** A failure carries the id of a card of the input. *)
Lemma failuresOf_ids (cardIds : list string) :
  forall (results : list (Settled JsVal)) (failed : string * string),
    failed ∈ failuresOf cardIds results -> failed.1 ∈ cardIds.
Proof.
  induction cardIds as [|cardId cardIds IH]; intros [|[value|reason] results] failed H;
    simpl in H; try (apply elem_of_nil in H; contradiction).
  - apply list_elem_of_further. eapply IH. exact H.
  - apply elem_of_cons in H as [->|H]; [apply list_elem_of_here|].
    apply list_elem_of_further. eapply IH. exact H.
Qed.

Section CreateWaves.

Variable stringify : JsVal -> string.
Variable net : TrelloClient.Net.
Variable schedule : nat -> list nat.

(** The waves of [bulkCreateCards], from the card at [i] on: the cards that
    it returns are the values of the calls that were fulfilled, in the order
    of the cards of the request. *)
Lemma bulkCreateLoop_accounts (request : TrelloClient.BulkCreateCardsRequest) :
  forall (fuel i : nat) created w,
    (length (TrelloClient.cards request) - i <= TrelloClient.batchSize * fuel)%nat ->
    let r := TrelloClient.bulkCreateLoop stringify net schedule fuel request i
               created w in
    exists runs : list (Settled JsVal * list nat),
      accounts net w r.2
        (TrelloClient.bulkCardCall (TrelloClient.idList request)
           <$> drop i (TrelloClient.cards request)) runs
      /\ r.1 = created ++ TrelloClient.fulfilled_values runs.*1.
Proof.
  unfold TrelloClient.batchSize.
  induction fuel as [|fuel IH]; intros i created w Hfuel; cbv zeta.
  - rewrite drop_ge by lia. exists []. simpl. rewrite app_nil_r.
    split; [now apply accounts_nil | reflexivity].
  - simpl. destruct (i <? length (TrelloClient.cards request))%nat eqn:Hi.
    + apply Nat.ltb_lt in Hi.
      set (batch := take TrelloClient.batchSize (drop i (TrelloClient.cards request))).
      destruct (allSettled_accounts stringify net (schedule i)
                  (TrelloClient.bulkCardCall (TrelloClient.idList request) <$> batch) w)
        as (runs1 & Hresults & Hacc1).
      { apply Forall_fmap, Forall_forall. intros card _. reflexivity. }
      destruct (TrelloClient.allSettled stringify net (schedule i) _ w)
        as [results w1]. cbn [fst snd] in *. subst results.
      match goal with
      | |- context [TrelloClient.bulkCreateLoop stringify net schedule fuel request
                      ?i' ?c' ?w2] =>
          destruct (IH i' c' w2 ltac:(unfold TrelloClient.batchSize; lia))
            as (runs2 & Hacc2 & Hdone);
          destruct (TrelloClient.bulkCreateLoop stringify net schedule fuel request
                      i' c' w2) as [created' w3]
      end.
      cbn [fst snd] in *. exists (runs1 ++ runs2).
      assert (Hsplit : drop i (TrelloClient.cards request)
                       = batch ++ drop (i + TrelloClient.batchSize)
                                       (TrelloClient.cards request)).
      { unfold batch. rewrite <- drop_drop. symmetry. apply take_drop. }
      split.
      * rewrite Hsplit, fmap_app.
        eapply accounts_app; [exact Hacc1 | | exact Hacc2].
        now destruct (_ <? _)%nat.
      * now rewrite Hdone, fmap_app, fulfilled_values_app, (assoc_L (++)).
    + apply Nat.ltb_ge in Hi. rewrite drop_ge by lia. exists []. simpl.
      rewrite app_nil_r. split; [now apply accounts_nil | reflexivity].
Qed.

(** The waves of [bulkUpdateCards]. *)
Lemma bulkUpdateLoop_accounts (updates : list TrelloClient.CardUpdate) :
  forall (fuel i : nat) updated w,
    (length updates - i <= TrelloClient.batchSize * fuel)%nat ->
    let r := TrelloClient.bulkUpdateLoop stringify net schedule fuel updates i
               updated w in
    exists runs : list (Settled JsVal * list nat),
      accounts net w r.2
        ((fun update => TrelloClient.updateCardCall (TrelloClient.update_id update)
                                                    (TrelloClient.update_data update))
           <$> drop i updates) runs
      /\ r.1 = updated ++ TrelloClient.fulfilled_values runs.*1.
Proof.
  unfold TrelloClient.batchSize.
  induction fuel as [|fuel IH]; intros i updated w Hfuel; cbv zeta.
  - rewrite drop_ge by lia. exists []. simpl. rewrite app_nil_r.
    split; [now apply accounts_nil | reflexivity].
  - simpl. destruct (i <? length updates)%nat eqn:Hi.
    + apply Nat.ltb_lt in Hi.
      set (batch := take TrelloClient.batchSize (drop i updates)).
      match goal with
      | |- context [TrelloClient.allSettled stringify net (schedule i) (?op <$> batch) w] =>
          destruct (allSettled_accounts stringify net (schedule i) (op <$> batch) w)
            as (runs1 & Hresults & Hacc1);
          [apply Forall_fmap, Forall_forall; intros update _; reflexivity|];
          destruct (TrelloClient.allSettled stringify net (schedule i) (op <$> batch) w)
            as [results w1]
      end.
      cbn [fst snd] in *. subst results.
      match goal with
      | |- context [TrelloClient.bulkUpdateLoop stringify net schedule fuel updates
                      ?i' ?c' ?w2] =>
          destruct (IH i' c' w2 ltac:(unfold TrelloClient.batchSize; lia))
            as (runs2 & Hacc2 & Hdone);
          destruct (TrelloClient.bulkUpdateLoop stringify net schedule fuel updates
                      i' c' w2) as [updated' w3]
      end.
      cbn [fst snd] in *. exists (runs1 ++ runs2).
      assert (Hsplit : drop i updates
                       = batch ++ drop (i + TrelloClient.batchSize) updates).
      { unfold batch. rewrite <- drop_drop. symmetry. apply take_drop. }
      split.
      * rewrite Hsplit, fmap_app.
        eapply accounts_app; [exact Hacc1 | | exact Hacc2].
        now destruct (_ <? _)%nat.
      * now rewrite Hdone, fmap_app, fulfilled_values_app, (assoc_L (++)).
    + apply Nat.ltb_ge in Hi. rewrite drop_ge by lia. exists []. simpl.
      rewrite app_nil_r. split; [now apply accounts_nil | reflexivity].
Qed.

(** The bound on the number of waves is never what ends a bulk loop. *)
Lemma cardWaves_enough_fuel (op : string -> TrelloClient.Call)
    (cardIds : list string) :
  forall (fuel extra i : nat) processed failedCards w,
    (length cardIds - i <= TrelloClient.batchSize * fuel)%nat ->
    BulkTools.cardWaves stringify net schedule (fuel + extra) op cardIds i processed
      failedCards w
    = BulkTools.cardWaves stringify net schedule fuel op cardIds i processed
        failedCards w.
Proof.
  unfold TrelloClient.batchSize.
  induction fuel as [|fuel IH]; intros extra i processed failedCards w Hfuel.
  - destruct extra as [|extra]; [reflexivity|]. simpl.
    assert (Hge : (i <? length cardIds)%nat = false) by (apply Nat.ltb_ge; lia).
    now rewrite Hge.
  - simpl. destruct (i <? length cardIds)%nat; [|reflexivity].
    destruct (TrelloClient.allSettled stringify net (schedule i) _ w)
      as [results w1].
    destruct (BulkTools.sortResults (take TrelloClient.batchSize (drop i cardIds))
                results processed failedCards) as [processed' failed'].
    apply IH. unfold TrelloClient.batchSize. lia.
Qed.

Lemma bulkCreateLoop_enough_fuel (request : TrelloClient.BulkCreateCardsRequest) :
  forall (fuel extra i : nat) created w,
    (length (TrelloClient.cards request) - i <= TrelloClient.batchSize * fuel)%nat ->
    TrelloClient.bulkCreateLoop stringify net schedule (fuel + extra) request i
      created w
    = TrelloClient.bulkCreateLoop stringify net schedule fuel request i created w.
Proof.
  unfold TrelloClient.batchSize.
  induction fuel as [|fuel IH]; intros extra i created w Hfuel.
  - destruct extra as [|extra]; [reflexivity|]. simpl.
    assert (Hge : (i <? length (TrelloClient.cards request))%nat = false)
      by (apply Nat.ltb_ge; lia).
    now rewrite Hge.
  - simpl. destruct (i <? length (TrelloClient.cards request))%nat; [|reflexivity].
    destruct (TrelloClient.allSettled stringify net (schedule i) _ w)
      as [results w1].
    apply IH. unfold TrelloClient.batchSize. lia.
Qed.

End CreateWaves.

Lemma bulkCreateLoop_blind (stringify : JsVal -> string) (n1 n2 : TrelloClient.Net)
    (schedule : nat -> list nat) (request : TrelloClient.BulkCreateCardsRequest) :
  sameButErrors n1 n2 ->
  forall fuel i created w,
    TrelloClient.bulkCreateLoop stringify n1 schedule fuel request i created w
    = TrelloClient.bulkCreateLoop stringify n2 schedule fuel request i created w.
Proof.
  intros Hnets. induction fuel as [|fuel IH]; intros i created w; simpl;
    [reflexivity|].
  destruct (i <? length (TrelloClient.cards request))%nat; [|reflexivity].
  match goal with
  | |- context [TrelloClient.allSettled stringify n1 ?order ?calls w] =>
      destruct (allSettled_blind stringify n1 n2 Hnets order calls w) as [Hrs Hw];
      destruct (TrelloClient.allSettled stringify n1 order calls w) as [rs1 w1];
      destruct (TrelloClient.allSettled stringify n2 order calls w) as [rs2 w1']
  end.
  simpl in Hw, Hrs. subst w1'.
  rewrite (fulfilled_values_alike _ _ Hrs). apply IH.
Qed.

(* ===================================================================== *)
(** ** The bulk tools *)
(* ===================================================================== *)

(** *** The batch size cap *)

Section BulkFacts.

Variable stringify : JsVal -> string.
Variable schedule : nat -> list nat.
Variable CannotRead : JsVal -> string -> JsError.
Variable validateRequired : forall A : Type, A -> list string -> option JsError.
Variable createSummary : string -> list (string * JsVal) -> string.
Variable trim : string -> string.
Variable valid_date : string -> bool.

Lemma over_fifty {A : Type} (l : list A) :
  (50 < length l)%nat -> (50 <? length l)%nat = true /\ l <> [].
Proof.
  intros H. split; [now apply Nat.ltb_lt|]. intros ->. simpl in H. lia.
Qed.

(** C5 (batch size cap).  A bulk tool called with more than 50 items answers
    with an error and does nothing else: the world after the call is the world
    before it, so that no job reached the rate limiter and no transport call
    was made for any item.  This holds of the create, the move and the
    archive tool. *)
Theorem oversized_batch_rejected (net : TrelloClient.Net) (w : TrelloClient.World) :
  (forall (args : BulkTools.BulkCreateArgs) (cards : list BulkTools.CardInput),
     BulkTools.args_cards args = Some cards -> (50 < length cards)%nat ->
     let r := BulkTools.bulkCreateExecute stringify net schedule CannotRead
                validateRequired createSummary trim valid_date args w in
     BulkTools.is_error r.1 = true /\ r.2 = w)
  /\ (forall (args : BulkTools.BulkMoveArgs) (cardIds : list string),
        BulkTools.move_cardIds args = Some cardIds -> (50 < length cardIds)%nat ->
        let r := BulkTools.bulkMoveExecute stringify net schedule CannotRead
                   validateRequired createSummary args w in
        BulkTools.is_error r.1 = true /\ r.2 = w)
  /\ (forall (args : BulkTools.BulkArchiveArgs) (cardIds : list string),
        BulkTools.archive_cardIds args = Some cardIds -> (50 < length cardIds)%nat ->
        let r := BulkTools.bulkArchiveExecute stringify net schedule CannotRead
                   validateRequired createSummary args w in
        BulkTools.is_error r.1 = true /\ r.2 = w).
Proof.
  split; [|split]; intros args items Hitems Hlen;
    destruct (over_fifty items Hlen) as [Hcap Hne];
    [unfold BulkTools.bulkCreateExecute
    |unfold BulkTools.bulkMoveExecute
    |unfold BulkTools.bulkArchiveExecute];
    (destruct (validateRequired _ args _); [split; reflexivity|]);
    rewrite Hitems; (destruct items as [|x items]; [congruence|]);
    rewrite Hcap; split; reflexivity.
Qed.

End BulkFacts.

(** Fifty-one cards to create, and fifty-one to move. *)
Lemma oversized_batch_rejected_witness :
  (let r := BulkTools.bulkCreateExecute demo_stringify net_ok as_due demo_CannotRead
              demo_validateRequired demo_createSummary demo_trim demo_valid_date
              fifty_one_cards fresh_world in
   BulkTools.is_error r.1 = true /\ r.2 = fresh_world)
  /\ (let r := BulkTools.bulkMoveExecute demo_stringify net_ok as_due demo_CannotRead
                 demo_validateRequired demo_createSummary fifty_one_moves
                 fresh_world in
      BulkTools.is_error r.1 = true /\ r.2 = fresh_world).
Proof.
  pose proof (oversized_batch_rejected demo_stringify as_due demo_CannotRead
                demo_validateRequired demo_createSummary demo_trim demo_valid_date
                net_ok fresh_world)
    as (Hcreate & Hmove & _).
  split.
  - apply (Hcreate fifty_one_cards (replicate 51 (card_named "Card")));
      [reflexivity | vm_compute; lia].
  - apply (Hmove fifty_one_moves (replicate 51 "idA"));
      [reflexivity | vm_compute; lia].
Defined.

(** *** What a bulk result reports *)

(** The list of the cards done is put together unless one of the first ten
    cards is [null] or [undefined]. *)
Lemma listCards_throws (CannotRead : JsVal -> string -> JsError) (done : list JsVal) :
  match BulkTools.listCards CannotRead done with
  | Returns _ => Forall (fun card => nullish card = false) (take 10 done)
  | Throws error =>
      exists card, card ∈ take 10 done /\ nullish card = true
                   /\ error = CannotRead card "name"
  end.
Proof.
  unfold BulkTools.listCards.
  destruct (List.find nullish (take 10 done)) as [card|] eqn:Hfind.
  - apply find_some in Hfind as [Hin Hnull]. exists card.
    split; [now apply list_elem_of_In | auto].
  - apply Forall_forall. intros card Hin. apply list_elem_of_In in Hin.
    pose proof (find_none _ _ Hfind card Hin) as H. exact H.
Qed.

Section Reports.

Variable stringify : JsVal -> string.
Variable schedule : nat -> list nat.
Variable CannotRead : JsVal -> string -> JsError.
Variable validateRequired : forall A : Type, A -> list string -> option JsError.
Variable createSummary : string -> list (string * JsVal) -> string.
Variable trim : string -> string.
Variable valid_date : string -> bool.

Lemma bulkCreateExecute_blind (n1 n2 : TrelloClient.Net)
    (args : BulkTools.BulkCreateArgs) (w : TrelloClient.World) :
  sameButErrors n1 n2 ->
  BulkTools.bulkCreateExecute stringify n1 schedule CannotRead validateRequired
    createSummary trim valid_date args w
  = BulkTools.bulkCreateExecute stringify n2 schedule CannotRead validateRequired
      createSummary trim valid_date args w.
Proof.
  intros Hnets. unfold BulkTools.bulkCreateExecute, TrelloClient.bulkCreateCards.
  destruct (validateRequired _ args _); [reflexivity|].
  destruct (BulkTools.args_cards args) as [[|card cards]|]; try reflexivity.
  destruct (50 <? _)%nat; [reflexivity|].
  destruct (BulkTools.validateCards _ _ _ _); [reflexivity|].
  now rewrite (bulkCreateLoop_blind stringify n1 n2 schedule _ Hnets).
Qed.

(** An accepted call of the move tool: the calls it makes and what it
    answers. *)
Lemma bulkMove_accounts (net : TrelloClient.Net) (w : TrelloClient.World)
    (args : BulkTools.BulkMoveArgs) (cardIds : list string) :
  validateRequired _ args ["cardIds"; "targetListId"] = None ->
  BulkTools.move_cardIds args = Some cardIds -> cardIds <> [] ->
  (length cardIds <= 50)%nat ->
  let r := BulkTools.bulkMoveExecute stringify net schedule CannotRead
             validateRequired createSummary args w in
  exists runs : list (Settled JsVal * list nat),
    accounts net w r.2
      ((fun cardId =>
          TrelloClient.moveCardCall cardId (BulkTools.move_targetListId args)
            (JsStr (str_or (BulkTools.move_startPosition args) "bottom")))
         <$> cardIds) runs
    /\ r.1 = BulkTools.answer "Bulk kart taşıma hatası: "
               (BulkTools.moveReport CannotRead createSummary (length cardIds)
                  (BulkTools.move_targetListId args)
                  (TrelloClient.fulfilled_values runs.*1)
                  (failuresOf cardIds runs.*1)).
Proof.
  intros Hvalid Hids Hne Hlen.
  unfold BulkTools.bulkMoveExecute. rewrite Hvalid, Hids.
  destruct cardIds as [|cardId cardIds]; [congruence|].
  assert (Hcap : (50 <? length (cardId :: cardIds))%nat = false)
    by (apply Nat.ltb_ge; exact Hlen).
  rewrite Hcap. set (ids := cardId :: cardIds) in *.
  match goal with
  | |- context [BulkTools.cardWaves stringify net schedule ?f ?op ids 0%nat [] [] w] =>
      destruct (cardWaves_accounts stringify net schedule op ids
                  ltac:(intros x; reflexivity) f 0 [] [] w
                  ltac:(unfold TrelloClient.batchSize; lia))
        as (runs & Hacc & Hdone & Hfailed);
      destruct (BulkTools.cardWaves stringify net schedule f op ids 0 [] [] w)
        as [[movedCards failedCards] w']
  end.
  cbn [fst snd] in *. rewrite drop_0 in *. simpl in Hdone, Hfailed.
  subst movedCards failedCards. exists runs. split; [exact Hacc | reflexivity].
Qed.

(** An accepted call of the archive tool. *)
Lemma bulkArchive_accounts (net : TrelloClient.Net) (w : TrelloClient.World)
    (args : BulkTools.BulkArchiveArgs) (cardIds : list string) :
  validateRequired _ args ["cardIds"] = None ->
  BulkTools.archive_cardIds args = Some cardIds -> cardIds <> [] ->
  (length cardIds <= 50)%nat ->
  let r := BulkTools.bulkArchiveExecute stringify net schedule CannotRead
             validateRequired createSummary args w in
  exists runs : list (Settled JsVal * list nat),
    accounts net w r.2
      ((fun cardId =>
          TrelloClient.updateCardCall cardId
            (JsObj [("closed",
                     JsBool (default true (BulkTools.archive_archive args)))]))
         <$> cardIds) runs
    /\ r.1 = BulkTools.answer "Bulk kart arşivleme hatası: "
               (BulkTools.archiveReport CannotRead createSummary (length cardIds)
                  (default true (BulkTools.archive_archive args))
                  (TrelloClient.fulfilled_values runs.*1)
                  (failuresOf cardIds runs.*1)).
Proof.
  intros Hvalid Hids Hne Hlen.
  unfold BulkTools.bulkArchiveExecute. rewrite Hvalid, Hids.
  destruct cardIds as [|cardId cardIds]; [congruence|].
  assert (Hcap : (50 <? length (cardId :: cardIds))%nat = false)
    by (apply Nat.ltb_ge; exact Hlen).
  rewrite Hcap. set (ids := cardId :: cardIds) in *.
  match goal with
  | |- context [BulkTools.cardWaves stringify net schedule ?f ?op ids 0%nat [] [] w] =>
      destruct (cardWaves_accounts stringify net schedule op ids
                  ltac:(intros x; reflexivity) f 0 [] [] w
                  ltac:(unfold TrelloClient.batchSize; lia))
        as (runs & Hacc & Hdone & Hfailed);
      destruct (BulkTools.cardWaves stringify net schedule f op ids 0 [] [] w)
        as [[processedCards failedCards] w']
  end.
  cbn [fst snd] in *. rewrite drop_0 in *. simpl in Hdone, Hfailed.
  subst processedCards failedCards. exists runs. split; [exact Hacc | reflexivity].
Qed.

(** An accepted call of the create tool. *)
Lemma bulkCreate_accounts (net : TrelloClient.Net) (w : TrelloClient.World)
    (args : BulkTools.BulkCreateArgs) (cards : list BulkTools.CardInput) :
  validateRequired _ args ["listId"; "cards"] = None ->
  BulkTools.args_cards args = Some cards -> cards <> [] ->
  (length cards <= 50)%nat ->
  BulkTools.validateCards trim valid_date 0 cards = None ->
  let r := BulkTools.bulkCreateExecute stringify net schedule CannotRead
             validateRequired createSummary trim valid_date args w in
  exists runs : list (Settled JsVal * list nat),
    accounts net w r.2
      (TrelloClient.bulkCardCall (BulkTools.args_listId args)
         <$> (BulkTools.cardData trim <$> cards)) runs
    /\ r.1 = BulkTools.answer "Bulk kart oluşturma hatası: "
               (BulkTools.createReport CannotRead createSummary (length cards)
                  (TrelloClient.fulfilled_values runs.*1)).
Proof.
  intros Hvalid Hcards Hne Hlen Hcheck.
  unfold BulkTools.bulkCreateExecute, TrelloClient.bulkCreateCards.
  rewrite Hvalid, Hcards.
  destruct cards as [|card cards]; [congruence|].
  assert (Hcap : (50 <? length (card :: cards))%nat = false)
    by (apply Nat.ltb_ge; exact Hlen).
  rewrite Hcap, Hcheck. set (inputs := card :: cards) in *.
  match goal with
  | |- context [TrelloClient.bulkCreateLoop stringify net schedule ?f ?req 0%nat [] w] =>
      destruct (bulkCreateLoop_accounts stringify net schedule req f 0 [] w
                  ltac:(unfold TrelloClient.batchSize; simpl; lia))
        as (runs & Hacc & Hdone);
      destruct (TrelloClient.bulkCreateLoop stringify net schedule f req 0 [] w)
        as [createdCards w']
  end.
  cbn [fst snd TrelloClient.cards TrelloClient.idList] in *. rewrite drop_0 in *.
  simpl in Hdone. subst createdCards. exists runs.
  split; [exact Hacc | reflexivity].
Qed.

(** A report is answered as an error when listing the cards done throws. *)
Lemma answer_is_error (heading : string) (around : string -> string)
    (without : string) (done : list JsVal) :
  BulkTools.is_error
    (BulkTools.answer heading
       (if (0 <? length done)%nat
        then match BulkTools.listCards CannotRead done with
             | Returns listed => Returns (around listed)
             | Throws error => Throws error
             end
        else Returns without)) = true
  <-> exists card, card ∈ take 10 done /\ nullish card = true.
Proof.
  pose proof (listCards_throws CannotRead done) as Hlist.
  destruct (0 <? length done)%nat eqn:Hsome.
  - destruct (BulkTools.listCards CannotRead done) as [listed|error].
    + split; [discriminate|]. intros (card & Hin & Hnull).
      rewrite Forall_forall in Hlist. rewrite (Hlist card Hin) in Hnull.
      discriminate.
    + split; [|reflexivity]. intros _.
      destruct Hlist as (card & Hin & Hnull & _). eauto.
  - split; [discriminate|]. intros (card & Hin & _).
    apply Nat.ltb_ge in Hsome.
    destruct done; [|simpl in Hsome; lia].
    apply elem_of_nil in Hin. contradiction.
Qed.


End Reports.

Lemma net_refusing_sameButErrors (what why1 why2 : string) :
  sameButErrors (net_refusing what why1) (net_refusing what why2).
Proof.
  intros i req. unfold net_refusing.
  destruct (String.eqb _ what || String.eqb _ _); simpl; auto.
Qed.



(** The move tool does show them, with the calls taking their turns as they
    come due and also in the reverse order of the batch: the second card is
    given up after four jobs. *)
Example bulk_move_shows_failures :
  let failing := net_refusing "/cards/idB" "boom" in
  let r := BulkTools.bulkMoveExecute demo_stringify failing as_due demo_CannotRead
             demo_validateRequired demo_createSummary two_moves fresh_world in
  let r' := BulkTools.bulkMoveExecute demo_stringify failing backwards
              demo_CannotRead demo_validateRequired demo_createSummary two_moves
              fresh_world in
  reportsFailure r.1 "idB"
    "Trello API request failed after 3 attempts: /cards/idB - boom"
  /\ r'.1 = r.1
  /\ TrelloClient.url <$> (TrelloClient.job_request <$> TrelloClient.jobs r.2)
     = (TrelloClient.baseUrl +:+ "/cards/idA")
         :: replicate 4 (TrelloClient.baseUrl +:+ "/cards/idB").
Proof. vm_compute. repeat split; reflexivity. Qed.

(** A service that answers [null] for every card: the two cards count as
    moved, and the result of the tool is the error of listing them. *)
Example bulk_move_of_null_cards :
  (BulkTools.bulkMoveExecute demo_stringify net_null as_due demo_CannotRead
     demo_validateRequired demo_createSummary two_moves fresh_world).1
  = BulkTools.ToolError
      "Bulk kart taşıma hatası: Cannot read properties of null (reading 'name')".
Proof. vm_compute. reflexivity. Qed.

(* ===================================================================== *)
(** * Further properties of the sources *)
(* ===================================================================== *)

(** ** The cache: round trips, counters and capacity *)

(** The entry that a [set] leaves in the store. *)
Lemma set_entry (now : Z) (k : string) (value : JsVal) (ttl : option Z)
    (c : MemoryCache.t) :
  (MemoryCache.set now k value ttl c).1 = Returns true ->
  NodeCache.data (MemoryCache.cache (MemoryCache.set now k value ttl c).2) !! k
  = Some {| NodeCache.t := if num_or ttl 0 =? 0 then 0 else now + num_or ttl 0 * 1000;
            NodeCache.v := value |}.
Proof.
  intros Hok. rewrite (MemoryCache_set_data _ _ _ _ _ Hok), livetime_of_number.
  apply lookup_insert_eq.
Qed.

(** X1 (set, then get).  A value that the store has taken under a ttl of [n]
    seconds is what a lookup of the key answers up to [n] seconds later, and
    at any time when [n] is 0 -- [null] in the place of a value that is
    [undefined], as the store hands out every value; once the time is over
    the lookup answers [undefined]. *)
Theorem set_then_get (now : Z) (k : string) (value : JsVal) (ttl : option Z)
    (c : MemoryCache.t) :
  (MemoryCache.set now k value ttl c).1 = Returns true ->
  0 <= now -> 0 <= num_or ttl 0 ->
  forall later : Z,
    (MemoryCache.get later k (MemoryCache.set now k value ttl c).2).1
    = if (num_or ttl 0 =? 0) || (later <=? now + num_or ttl 0 * 1000)
      then NodeCache.unwrap value else JsUndefined.
Proof.
  intros Hok Hnow Httl later.
  rewrite MemoryCache_get_value. unfold NodeCache.get.
  rewrite (MemoryCache_set_data _ _ _ _ _ Hok), lookup_insert_eq.
  unfold NodeCache.expired. cbn [NodeCache.t NodeCache.v].
  rewrite livetime_of_number.
  destruct (num_or ttl 0 =? 0) eqn:H0.
  - reflexivity.
  - apply Z.eqb_neq in H0.
    assert (Hne : (now + num_or ttl 0 * 1000 =? 0) = false)
      by (apply Z.eqb_neq; lia).
    rewrite Hne. cbn [negb andb orb].
    destruct (later <=? now + num_or ttl 0 * 1000) eqn:Hl;
      destruct (now + num_or ttl 0 * 1000 <? later) eqn:Hl2; try reflexivity;
      [apply Z.leb_le in Hl; apply Z.ltb_lt in Hl2
      |apply Z.leb_gt in Hl; apply Z.ltb_ge in Hl2]; lia.
Qed.


(** A value kept for 60 seconds, read after 60 and after 61 seconds. *)
Lemma set_then_get_witness :
  (MemoryCache.get 61000 "k" (MemoryCache.set 1000 "k" (JsStr "v") (Some 60) empty_cache).2).1
  = JsStr "v"
  /\ (MemoryCache.get 62000 "k"
        (MemoryCache.set 1000 "k" (JsStr "v") (Some 60) empty_cache).2).1
     = JsUndefined.
Proof.
  split.
  - exact (set_then_get 1000 "k" (JsStr "v") (Some 60) empty_cache eq_refl
             ltac:(lia) ltac:(vm_compute; discriminate) 61000).
  - exact (set_then_get 1000 "k" (JsStr "v") (Some 60) empty_cache eq_refl
             ltac:(lia) ltac:(vm_compute; discriminate) 62000).
Defined.

(** X2 (del and flush).  [del] answers 1 when the store held the key and 0
    otherwise, and leaves the counters alone; afterwards a lookup of the key
    answers [undefined] at any time, and the other keys answer as before.
    After [flush] the store holds no key and both counters are 0, whatever
    they were; the options of the store are kept; every lookup answers
    [undefined] and every [has] false; and a second flush changes nothing. *)
Theorem del_and_flush_forget (k : string) (c : MemoryCache.t) :
  (let r := MemoryCache.del k c in
   r.1 = match NodeCache.data (MemoryCache.cache c) !! k with
         | Some _ => 1
         | None => 0
         end
   /\ MemoryCache.hits r.2 = MemoryCache.hits c
   /\ MemoryCache.misses r.2 = MemoryCache.misses c
   /\ forall later : Z,
        (MemoryCache.get later k r.2).1 = JsUndefined
        /\ forall k' : string, k' <> k ->
             (MemoryCache.get later k' r.2).1 = (MemoryCache.get later k' c).1)
  /\ (let c' := MemoryCache.flush c in
      MemoryCache.keys c' = []
      /\ MemoryCache.hits c' = 0 /\ MemoryCache.misses c' = 0
      /\ NodeCache.options (MemoryCache.cache c')
         = NodeCache.options (MemoryCache.cache c)
      /\ (forall (now : Z) (k0 : string),
            (MemoryCache.get now k0 c').1 = JsUndefined
            /\ (MemoryCache.has now k0 c').1 = false)
      /\ MemoryCache.flush c' = c').
Proof.
  split.
  - cbv zeta. unfold MemoryCache.del, NodeCache.del.
    destruct (NodeCache.data (MemoryCache.cache c) !! k) as [e|] eqn:He;
      cbn [fst snd MemoryCache.hits MemoryCache.misses];
      (split; [reflexivity|]); (split; [reflexivity|]); (split; [reflexivity|]);
      intros later; rewrite !MemoryCache_get_value; unfold NodeCache.get;
      cbn [MemoryCache.cache NodeCache.data].
    + rewrite lookup_delete_eq. split; [reflexivity|].
      intros k' Hk'. rewrite !MemoryCache_get_value. unfold NodeCache.get.
      cbn [MemoryCache.cache NodeCache.data].
      rewrite lookup_delete_ne by congruence.
      destruct (NodeCache.data (MemoryCache.cache c) !! k') as [e'|]; [|reflexivity].
      now destruct (NodeCache.expired later e').
    + rewrite He. split; [reflexivity|].
      intros k' Hk'. rewrite !MemoryCache_get_value. reflexivity.
  - cbv zeta. unfold MemoryCache.flush, MemoryCache.resetStats, NodeCache.flushAll.
    cbn [MemoryCache.cache MemoryCache.hits MemoryCache.misses NodeCache.options].
    split; [|repeat split].
    unfold MemoryCache.keys, NodeCache.keys. cbn [MemoryCache.cache NodeCache.data].
    now rewrite map_to_list_empty.
Qed.

Lemma afterCall_counters (c : MemoryCache.t) (call : CacheCall) :
  MemoryCache.hits (afterCall c call) + MemoryCache.misses (afterCall c call)
  = countCall (MemoryCache.hits c + MemoryCache.misses c) call
  /\ (0 <= MemoryCache.hits c -> 0 <= MemoryCache.hits (afterCall c call))
  /\ (0 <= MemoryCache.misses c -> 0 <= MemoryCache.misses (afterCall c call)).
Proof.
  destruct call as [now k|now k value ttl|k|now k|]; simpl.
  - unfold MemoryCache.get.
    destruct (NodeCache.get now k (MemoryCache.cache c)) as [value s].
    destruct (negb (is_undefined value)); simpl; lia.
  - unfold MemoryCache.set.
    destruct (NodeCache.set now k value (Some (num_or ttl 0)) (MemoryCache.cache c)).
    simpl. lia.
  - unfold MemoryCache.del. destruct (NodeCache.del k (MemoryCache.cache c)).
    simpl. lia.
  - unfold MemoryCache.has. destruct (NodeCache.has now k (MemoryCache.cache c)).
    simpl. lia.
  - lia.
Qed.

Lemma afterCalls_counters_sum (calls : list CacheCall) :
  forall c : MemoryCache.t,
    MemoryCache.hits (afterCalls calls c) + MemoryCache.misses (afterCalls calls c)
    = lookupsSinceFlush (MemoryCache.hits c + MemoryCache.misses c) calls.
Proof.
  unfold afterCalls, lookupsSinceFlush.
  induction calls as [|call calls IH]; intros c; simpl; [reflexivity|].
  rewrite IH. now destruct (afterCall_counters c call) as [-> _].
Qed.

Lemma afterCalls_counters_nonneg (calls : list CacheCall) :
  forall c : MemoryCache.t,
    0 <= MemoryCache.hits c -> 0 <= MemoryCache.misses c ->
    0 <= MemoryCache.hits (afterCalls calls c)
    /\ 0 <= MemoryCache.misses (afterCalls calls c).
Proof.
  unfold afterCalls.
  induction calls as [|call calls IH]; intros c Hh Hm; simpl; [auto|].
  destruct (afterCall_counters c call) as (_ & Hh' & Hm'). apply IH; auto.
Qed.

Lemma counters_from_empty (cfg_ttl cfg_maxKeys : Z) (calls : list CacheCall) :
  let c' := afterCalls calls (MemoryCache.create cfg_ttl cfg_maxKeys) in
  0 <= MemoryCache.hits c' /\ 0 <= MemoryCache.misses c'
  /\ MemoryCache.hits c' + MemoryCache.misses c' = lookupsSinceFlush 0 calls.
Proof.
  cbv zeta.
  destruct (afterCalls_counters_nonneg calls (MemoryCache.create cfg_ttl cfg_maxKeys))
    as [Hh Hm]; [simpl; lia | simpl; lia |].
  split; [exact Hh|]. split; [exact Hm|]. now rewrite afterCalls_counters_sum.
Qed.

(** X3 (hits and misses).  Every lookup is counted once, as a hit or as a
    miss, and nothing else moves the two counters but a flush, which puts
    them back to 0: after any series of calls the counters add up to the
    number of lookups since the last flush, and in a cache that started
    empty neither is negative. *)
Theorem lookups_counted (calls : list CacheCall) :
  (forall c : MemoryCache.t,
     MemoryCache.hits (afterCalls calls c) + MemoryCache.misses (afterCalls calls c)
     = lookupsSinceFlush (MemoryCache.hits c + MemoryCache.misses c) calls)
  /\ (forall cfg_ttl cfg_maxKeys : Z,
        let c' := afterCalls calls (MemoryCache.create cfg_ttl cfg_maxKeys) in
        0 <= MemoryCache.hits c' /\ 0 <= MemoryCache.misses c'
        /\ MemoryCache.hits c' + MemoryCache.misses c' = lookupsSinceFlush 0 calls).
Proof.
  split; [apply afterCalls_counters_sum|].
  intros cfg_ttl cfg_maxKeys. apply counters_from_empty.
Qed.

Lemma delete_keeps_count (k : string) (m : gmap string NodeCache.Entry) :
  (size (delete k m) <= size m)%nat.
Proof. rewrite map_size_delete. destruct (m !! k); simpl; lia. Qed.

Lemma afterCall_capacity (c : MemoryCache.t) (call : CacheCall) :
  NodeCache.options (MemoryCache.cache (afterCall c call))
  = NodeCache.options (MemoryCache.cache c)
  /\ (0 <= NodeCache.maxKeys (NodeCache.options (MemoryCache.cache c)) ->
      keyCount c <= NodeCache.maxKeys (NodeCache.options (MemoryCache.cache c)) ->
      keyCount (afterCall c call)
      <= NodeCache.maxKeys (NodeCache.options (MemoryCache.cache c))).
Proof.
  unfold keyCount.
  destruct call as [now k|now k value ttl|k|now k|]; simpl.
  - rewrite MemoryCache_get_store. unfold NodeCache.get.
    destruct (NodeCache.data (MemoryCache.cache c) !! k) as [e|]; [|auto].
    destruct (NodeCache.expired now e); [|auto]. simpl.
    split; [reflexivity|]. intros _ H.
    pose proof (delete_keeps_count k (NodeCache.data (MemoryCache.cache c))). lia.
  - unfold MemoryCache.set, NodeCache.set, NodeCache.full.
    destruct (-1 <? NodeCache.maxKeys (NodeCache.options (MemoryCache.cache c)))
      eqn:Hlim;
      destruct (NodeCache.maxKeys (NodeCache.options (MemoryCache.cache c))
                <=? Z.of_nat (size (NodeCache.data (MemoryCache.cache c))))
        eqn:Hfull; simpl; (split; [reflexivity|]); intros Hpos H; try exact H.
    + apply Z.leb_gt in Hfull. rewrite map_size_insert.
      destruct (NodeCache.data (MemoryCache.cache c) !! k); simpl; lia.
    + apply Z.ltb_ge in Hlim. lia.
    + apply Z.ltb_ge in Hlim. lia.
  - unfold MemoryCache.del, NodeCache.del.
    destruct (NodeCache.data (MemoryCache.cache c) !! k) as [e|]; simpl; [|auto].
    split; [reflexivity|]. intros _ H.
    pose proof (delete_keeps_count k (NodeCache.data (MemoryCache.cache c))). lia.
  - unfold MemoryCache.has, NodeCache.has.
    destruct (NodeCache.data (MemoryCache.cache c) !! k) as [e|]; [|auto].
    destruct (NodeCache.expired now e); [|auto]. simpl.
    split; [reflexivity|]. intros _ H.
    pose proof (delete_keeps_count k (NodeCache.data (MemoryCache.cache c))). lia.
  - split; [reflexivity|]. intros Hpos _. rewrite map_size_empty. simpl. lia.
Qed.

(** X4 (capacity).  A cache built with a limit of [maxKeys] keys never holds
    more, whatever is called on it: a [set] that would go beyond the limit
    stores nothing. *)
Theorem store_within_maxKeys (cfg_ttl cfg_maxKeys : Z) (calls : list CacheCall) :
  0 <= cfg_maxKeys ->
  keyCount (afterCalls calls (MemoryCache.create cfg_ttl cfg_maxKeys)) <= cfg_maxKeys.
Proof.
  intros Hpos.
  assert (Hinv : forall c : MemoryCache.t,
             NodeCache.maxKeys (NodeCache.options (MemoryCache.cache c)) = cfg_maxKeys ->
             keyCount c <= cfg_maxKeys ->
             keyCount (afterCalls calls c) <= cfg_maxKeys).
  { unfold afterCalls.
    induction calls as [|call calls IH]; intros c Hmax Hc; simpl; [exact Hc|].
    destruct (afterCall_capacity c call) as [Hopt Hcount].
    apply IH; [now rewrite Hopt | rewrite <- Hmax; apply Hcount; lia]. }
  apply Hinv; [reflexivity|].
  unfold keyCount. simpl. rewrite map_size_empty. simpl. lia.
Qed.

(** A cache of two keys that is asked to take three. *)
Lemma store_within_maxKeys_witness :
  keyCount (afterCalls [CallSet 1000 "a" (JsNum 1) None;
                        CallSet 1000 "b" (JsNum 2) None;
                        CallSet 1000 "c" (JsNum 3) None]
              (MemoryCache.create 300 2)) <= 2.
Proof.
  exact (store_within_maxKeys 300 2 [CallSet 1000 "a" (JsNum 1) None;
                                     CallSet 1000 "b" (JsNum 2) None;
                                     CallSet 1000 "c" (JsNum 3) None]
           ltac:(vm_compute; discriminate)).
Defined.

Lemma round_div_bounds (p q lo hi : Z) :
  0 < q -> lo * q <= p <= hi * q -> lo <= Math_round_div p q <= hi.
Proof.
  intros Hq [Hlo Hhi]. unfold Math_round_div. split.
  - apply Z.div_le_lower_bound; lia.
  - assert (H : (2 * p + q) / (2 * q) < hi + 1); [|lia].
    apply Z.div_lt_upper_bound; lia.
Qed.

Lemma hitRate_bounds (c : MemoryCache.t) :
  0 <= MemoryCache.hits c -> 0 <= MemoryCache.misses c ->
  0 <= MemoryCache.hitRate_x100 (MemoryCache.getStats c) <= 10000.
Proof.
  intros Hh Hm. unfold MemoryCache.getStats. cbn [MemoryCache.hitRate_x100].
  destruct (0 <? MemoryCache.hits c + MemoryCache.misses c) eqn:Ht; [|lia].
  apply Z.ltb_lt in Ht. apply round_div_bounds; lia.
Qed.


(** The rate in the arithmetic of the platform.  For counters up to 100 the
    three facts above hold of it as well, and it is never more than a
    hundredth away from the exact rate; 23 hits among 160 lookups are a case
    where it is: 14.375 percent rounds to 14.38, and the platform, whose
    quotient times 100 is 14.374999999999998, shows 14.37. *)
Lemma hitRate_binary64_small (hits misses : nat) :
  (hits <= 100)%nat -> (misses <= 100)%nat -> hitRateChecked hits misses = true.
Proof.
  intros Hh Hm.
  assert (Hall : forallb (fun h => forallb (hitRateChecked h) (seq 0 101))
                   (seq 0 101) = true) by (vm_compute; reflexivity).
  rewrite forallb_forall in Hall.
  specialize (Hall hits ltac:(apply in_seq; lia)).
  rewrite forallb_forall in Hall.
  exact (Hall misses ltac:(apply in_seq; lia)).
Qed.

Example hitRate_at_a_tie :
  let c := {| MemoryCache.cache := MemoryCache.cache empty_cache;
              MemoryCache.hits := 23; MemoryCache.misses := 137 |} in
  MemoryCache.hitRate_x100 (MemoryCache.getStats c) = 1438
  /\ MemoryCache.hitRate_binary64 c = Some 1437.
Proof. vm_compute. split; reflexivity. Qed.

(** X6 (has).  [has] answers from the store as a lookup does, and leaves the
    same store behind (an expired entry is removed by either), but it counts
    neither a hit nor a miss.  The keys that [has] reports are those for
    which a lookup has a value; and a key that [has] reports holds an
    unexpired entry, whose value is what the lookup answers, [null] standing
    for a value that is [undefined]. *)
Theorem has_agrees_with_get (now : Z) (k : string) (c : MemoryCache.t) :
  let h := MemoryCache.has now k c in
  let g := MemoryCache.get now k c in
  MemoryCache.cache h.2 = MemoryCache.cache g.2
  /\ MemoryCache.hits h.2 = MemoryCache.hits c
  /\ MemoryCache.misses h.2 = MemoryCache.misses c
  /\ (g.1 <> JsUndefined <-> h.1 = true)
  /\ (h.1 = true ->
      exists e : NodeCache.Entry,
        NodeCache.data (MemoryCache.cache c) !! k = Some e
        /\ NodeCache.expired now e = false
        /\ g.1 = NodeCache.unwrap (NodeCache.v e)).
Proof.
  cbv zeta. rewrite MemoryCache_get_store, MemoryCache_get_value.
  unfold MemoryCache.has, NodeCache.has, NodeCache.get.
  destruct (NodeCache.data (MemoryCache.cache c) !! k) as [e|] eqn:He;
    [destruct (NodeCache.expired now e) eqn:Hx|]; cbn [fst snd];
    repeat split; try reflexivity; try congruence; try discriminate.
  - intros _ H. pose proof (unwrap_defined (NodeCache.v e)) as Hd.
    rewrite H in Hd. discriminate.
  - intros _. exists e. auto.
Qed.

(** *** Keys made of parts *)

Lemma sep_split (c : Ascii.ascii) (a b x y : string) :
  sep_free c a = true -> sep_free c b = true ->
  a +:+ String c x = b +:+ String c y -> a = b /\ x = y.
Proof.
  revert b. induction a as [|d a IH]; intros [|d' b] Ha Hb H; simpl in H.
  - injection H as H. auto.
  - injection H as Hc H. subst d'. simpl in Hb.
    rewrite Ascii.eqb_refl in Hb. discriminate.
  - injection H as Hc H. subst d. simpl in Ha.
    rewrite Ascii.eqb_refl in Ha. discriminate.
  - injection H as Hc H. subst d'. simpl in Ha, Hb.
    apply andb_prop in Ha as [_ Ha]. apply andb_prop in Hb as [_ Hb].
    destruct (IH b Ha Hb H) as [-> ->]. auto.
Qed.

Lemma sep_no_split (c : Ascii.ascii) (a b x : string) :
  sep_free c a = true -> a <> b +:+ String c x.
Proof.
  revert b. induction a as [|d a IH]; intros [|d' b] Ha H; simpl in H;
    try discriminate.
  - injection H as Hc H. subst d. simpl in Ha.
    rewrite Ascii.eqb_refl in Ha. discriminate.
  - injection H as Hc H. simpl in Ha. apply andb_prop in Ha as [_ Ha].
    exact (IH b Ha H).
Qed.

Lemma join_cons (c : Ascii.ascii) (a b : string) (l : list string) :
  join (String c "") (a :: b :: l) = a +:+ String c (join (String c "") (b :: l)).
Proof. reflexivity. Qed.

Lemma join_sep_inj (c : Ascii.ascii) :
  forall l1 l2 : list string,
    l1 <> [] -> l2 <> [] ->
    Forall (fun s => sep_free c s = true) l1 ->
    Forall (fun s => sep_free c s = true) l2 ->
    join (String c "") l1 = join (String c "") l2 -> l1 = l2.
Proof.
  induction l1 as [|a l1 IH]; intros l2 Hne1 Hne2 H1 H2 H; [congruence|].
  destruct l2 as [|b l2]; [congruence|].
  apply Forall_cons in H1 as [Ha H1]. apply Forall_cons in H2 as [Hb H2].
  destruct l1 as [|a' l1]; destruct l2 as [|b' l2].
  - simpl in H. now subst.
  - rewrite join_cons in H. change (join (String c "") [a]) with a in H.
    now apply sep_no_split in H.
  - rewrite join_cons in H. change (join (String c "") [b]) with b in H.
    symmetry in H. now apply sep_no_split in H.
  - rewrite !join_cons in H. apply sep_split in H as [-> H]; [|assumption..].
    f_equal. apply IH; [discriminate | discriminate | assumption..].
Qed.

(** X7 (keys made of parts).  [generateKey] joins its parts with [":"].  For
    parts in which the separator does not occur, and at least one part on
    either side, two keys are equal only if they are made of the same parts,
    as they are written. *)
Theorem generateKey_injective (parts1 parts2 : list MemoryCache.KeyPart) :
  parts1 <> [] -> parts2 <> [] ->
  Forall (fun p => sep_free colon (MemoryCache.show_part p) = true) parts1 ->
  Forall (fun p => sep_free colon (MemoryCache.show_part p) = true) parts2 ->
  MemoryCache.generateKey parts1 = MemoryCache.generateKey parts2 ->
  MemoryCache.show_part <$> parts1 = MemoryCache.show_part <$> parts2.
Proof.
  intros Hne1 Hne2 H1 H2 H. unfold MemoryCache.generateKey in H.
  apply (join_sep_inj colon); try (now apply Forall_fmap).
  - destruct parts1; [congruence | discriminate].
  - destruct parts2; [congruence | discriminate].
  - exact H.
Qed.

Lemma generateKey_injective_witness :
  MemoryCache.show_part <$> [MemoryCache.TextPart "board"; MemoryCache.NumberPart 7]
  = MemoryCache.show_part <$> [MemoryCache.TextPart "board"; MemoryCache.TextPart "7"].
Proof.
  apply generateKey_injective.
  - discriminate.
  - discriminate.
  - repeat constructor.
  - repeat constructor.
  - reflexivity.
Defined.

(** Where the conditions are needed: a part that holds the separator, and
    the key of no part at all. *)
Example generateKey_collisions :
  MemoryCache.generateKey [MemoryCache.TextPart "a:b"]
  = MemoryCache.generateKey [MemoryCache.TextPart "a"; MemoryCache.TextPart "b"]
  /\ MemoryCache.generateKey [] = MemoryCache.generateKey [MemoryCache.TextPart ""].
Proof. split; reflexivity. Qed.

(** *** Warming up and the start-up check *)

Lemma warmUp_cons (now : Z) (k : string) (value : JsVal)
    (entries : list (string * JsVal)) (c : MemoryCache.t) :
  MemoryCache.warmUp now ((k, value) :: entries) c
  = match MemoryCache.set now k value None c with
    | (Returns _, c1) => MemoryCache.warmUp now entries c1
    | (Throws error, c1) => (Rejected error, c1)
    end.
Proof. reflexivity. Qed.

Lemma set_other_key (now : Z) (k k' : string) (value : JsVal) (ttl : option Z)
    (c : MemoryCache.t) :
  k' <> k ->
  NodeCache.data (MemoryCache.cache (MemoryCache.set now k value ttl c).2) !! k'
  = NodeCache.data (MemoryCache.cache c) !! k'.
Proof.
  intros Hk. rewrite MemoryCache_set_cases.
  destruct (NodeCache.full (MemoryCache.cache c)); cbn [snd MemoryCache.cache
    NodeCache.data]; [reflexivity|].
  now rewrite lookup_insert_ne.
Qed.

Lemma set_keeps_options (now : Z) (k : string) (value : JsVal) (ttl : option Z)
    (c : MemoryCache.t) :
  NodeCache.options (MemoryCache.cache (MemoryCache.set now k value ttl c).2)
  = NodeCache.options (MemoryCache.cache c)
  /\ MemoryCache.hits (MemoryCache.set now k value ttl c).2 = MemoryCache.hits c
  /\ MemoryCache.misses (MemoryCache.set now k value ttl c).2 = MemoryCache.misses c
  /\ keyCount (MemoryCache.set now k value ttl c).2 <= keyCount c + 1.
Proof.
  rewrite MemoryCache_set_cases. unfold keyCount.
  destruct (NodeCache.full (MemoryCache.cache c));
    cbn [snd MemoryCache.cache MemoryCache.hits MemoryCache.misses NodeCache.data
         NodeCache.options];
    repeat split; try lia.
  rewrite map_size_insert.
  destruct (NodeCache.data (MemoryCache.cache c) !! k); simpl; lia.
Qed.

Lemma warmUp_other (now : Z) (k : string) (entries : list (string * JsVal)) :
  forall c : MemoryCache.t,
    k ∉ entries.*1 ->
    NodeCache.data (MemoryCache.cache (MemoryCache.warmUp now entries c).2) !! k
    = NodeCache.data (MemoryCache.cache c) !! k.
Proof.
  induction entries as [|[k0 v0] entries IH]; intros c Hk; [reflexivity|].
  rewrite warmUp_cons. simpl in Hk. apply not_elem_of_cons in Hk as [Hne Hk].
  pose proof (set_other_key now k0 k v0 None c Hne) as Hset.
  destruct (MemoryCache.set now k0 v0 None c) as [[ok|error] c1]; cbn [snd] in *.
  - now rewrite IH.
  - exact Hset.
Qed.

Lemma warmUp_counters (now : Z) (entries : list (string * JsVal)) :
  forall c : MemoryCache.t,
    MemoryCache.hits (MemoryCache.warmUp now entries c).2 = MemoryCache.hits c
    /\ MemoryCache.misses (MemoryCache.warmUp now entries c).2 = MemoryCache.misses c.
Proof.
  induction entries as [|[k0 v0] entries IH]; intros c; [split; reflexivity|].
  rewrite warmUp_cons.
  destruct (set_keeps_options now k0 v0 None c) as (_ & Hh & Hm & _).
  destruct (MemoryCache.set now k0 v0 None c) as [[ok|error] c1]; cbn [snd] in *.
  - destruct (IH c1) as [-> ->]. auto.
  - auto.
Qed.

Lemma warmUp_stores (now : Z) (entries : list (string * JsVal)) :
  forall c : MemoryCache.t,
    NoDup entries.*1 ->
    NodeCache.maxKeys (NodeCache.options (MemoryCache.cache c)) < 0
    \/ keyCount c + Z.of_nat (length entries)
       <= NodeCache.maxKeys (NodeCache.options (MemoryCache.cache c)) ->
    (MemoryCache.warmUp now entries c).1 = Fulfilled tt
    /\ forall (k : string) (value : JsVal),
         (k, value) ∈ entries ->
         NodeCache.data (MemoryCache.cache (MemoryCache.warmUp now entries c).2) !! k
         = Some {| NodeCache.t := 0; NodeCache.v := value |}.
Proof.
  induction entries as [|[k0 v0] entries IH]; intros c Hdup Hroom.
  - split; [reflexivity|]. intros k value Hin.
    apply elem_of_nil in Hin. contradiction.
  - simpl in Hdup. apply NoDup_cons in Hdup as [Hk0 Hdup].
    destruct (set_keeps_options now k0 v0 None c) as (Hopt & _ & _ & Hcount).
    assert (Hok : (MemoryCache.set now k0 v0 None c).1 = Returns true).
    { apply MemoryCache_set_returns. unfold NodeCache.full.
      destruct Hroom as [Hroom|Hroom].
      - assert (H : (-1 <? NodeCache.maxKeys (NodeCache.options (MemoryCache.cache c)))
                    = false) by (apply Z.ltb_ge; lia).
        now rewrite H.
      - assert (H : (NodeCache.maxKeys (NodeCache.options (MemoryCache.cache c))
                     <=? Z.of_nat (size (NodeCache.data (MemoryCache.cache c))))
                    = false).
        { apply Z.leb_gt. unfold keyCount in Hroom. simpl in Hroom. lia. }
        rewrite H, andb_false_r. reflexivity. }
    pose proof (MemoryCache_set_data _ _ _ _ _ Hok) as Hdata.
    pose proof (warmUp_other now k0 entries (MemoryCache.set now k0 v0 None c).2 Hk0)
      as Hother.
    rewrite warmUp_cons.
    destruct (MemoryCache.set now k0 v0 None c) as [[ok|error] c1];
      cbn [fst snd] in *; [|discriminate].
    destruct (IH c1 Hdup) as [Hdone Hall].
    { rewrite Hopt. destruct Hroom as [Hroom|Hroom]; [now left|right].
      simpl in Hroom. lia. }
    split; [exact Hdone|]. intros k value Hin.
    apply elem_of_cons in Hin as [Heq|Hin].
    + injection Heq as -> ->. rewrite Hother, Hdata, lookup_insert_eq.
      reflexivity.
    + now apply Hall.
Qed.

(** X8 (warm-up).  [warmUp] sets every entry of its argument, the keys of
    which are distinct, without a ttl, and counts no hit and no miss.  On a
    store that has room for them (no limit, or enough keys left) it comes
    to its end, and every one of the entries is then answered by a lookup of
    its key, at any time, [null] standing for a value that is [undefined]. *)
Theorem warmUp_then_get (now : Z) (entries : list (string * JsVal))
    (c : MemoryCache.t) :
  NoDup entries.*1 ->
  NodeCache.maxKeys (NodeCache.options (MemoryCache.cache c)) < 0
  \/ keyCount c + Z.of_nat (length entries)
     <= NodeCache.maxKeys (NodeCache.options (MemoryCache.cache c)) ->
  let r := MemoryCache.warmUp now entries c in
  r.1 = Fulfilled tt
  /\ MemoryCache.hits r.2 = MemoryCache.hits c
  /\ MemoryCache.misses r.2 = MemoryCache.misses c
  /\ forall (k : string) (value : JsVal) (later : Z),
       (k, value) ∈ entries ->
       (MemoryCache.get later k r.2).1 = NodeCache.unwrap value.
Proof.
  intros Hdup Hroom r. subst r.
  destruct (warmUp_counters now entries c) as [Hh Hm].
  destruct (warmUp_stores now entries c Hdup Hroom) as [Hdone Hall].
  split; [exact Hdone|]. split; [exact Hh|]. split; [exact Hm|].
  intros k value later Hin. rewrite MemoryCache_get_value.
  rewrite (NodeCache_get_live later k _ {| NodeCache.t := 0; NodeCache.v := value |});
    [reflexivity | | reflexivity].
  now apply Hall.
Qed.

Lemma warmUp_then_get_witness :
  let r := MemoryCache.warmUp 1000 [("a", JsNum 1); ("b", JsNum 2)] empty_cache in
  r.1 = Fulfilled tt
  /\ MemoryCache.hits r.2 = 0 /\ MemoryCache.misses r.2 = 0
  /\ forall (k : string) (value : JsVal) (later : Z),
       (k, value) ∈ [("a", JsNum 1); ("b", JsNum 2)] ->
       (MemoryCache.get later k r.2).1 = NodeCache.unwrap value.
Proof.
  apply (warmUp_then_get 1000 [("a", JsNum 1); ("b", JsNum 2)] empty_cache).
  - simpl. apply NoDup_cons. split.
    + intros H. apply list_elem_of_singleton in H. discriminate.
    + apply NoDup_cons. split; [|apply NoDup_nil_2].
      intros H. apply elem_of_nil in H. exact H.
  - right. vm_compute. discriminate.
Defined.

(** On a store without room the warm-up stops at the first entry that the
    store refuses, and is rejected with the error of the store. *)
Example warmUp_on_a_small_store :
  let r := MemoryCache.warmUp 1000 [("a", JsNum 1); ("b", JsNum 2); ("c", JsNum 3)]
             (MemoryCache.create 300 2) in
  r.1 = Rejected NodeCache.ECACHEFULL
  /\ keyCount r.2 = 2 /\ (MemoryCache.has 1000 "c" r.2).1 = false.
Proof. vm_compute. repeat split; reflexivity. Qed.

(** X9 (start-up check).  The cache check of the server's start-up succeeds
    on every cache that has room for a key, counting one hit and leaving the
    key ["test"] behind for a minute; on a full cache it fails with the
    error of the store, which is left as it was. *)
Theorem initializeCache_checks_round_trip (now : Z) (c : MemoryCache.t) :
  let r := Server.initializeCache now c in
  (NodeCache.full (MemoryCache.cache c) = false ->
   r.1 = Fulfilled tt
   /\ MemoryCache.hits r.2 = MemoryCache.hits c + 1
   /\ MemoryCache.misses r.2 = MemoryCache.misses c
   /\ NodeCache.data (MemoryCache.cache r.2) !! "test"
      = Some {| NodeCache.t := now + 60000; NodeCache.v := JsStr "value" |})
  /\ (NodeCache.full (MemoryCache.cache c) = true ->
      r = (Rejected NodeCache.ECACHEFULL, c)
      /\ is_fulfilled r.1 = false /\ MemoryCache.cache r.2 = MemoryCache.cache c).
Proof.
  cbv zeta. unfold Server.initializeCache. rewrite MemoryCache_set_cases.
  change (num_or (Some 60) 0) with 60.
  split.
  - intros Hfull. rewrite Hfull.
    unfold MemoryCache.get, NodeCache.get. cbn [MemoryCache.cache NodeCache.data].
    rewrite lookup_insert_eq. unfold NodeCache.expired. cbn [NodeCache.t NodeCache.v].
    change (60 =? 0) with false. cbv iota.
    assert (Hx : (now + 60 * 1000 <? now) = false) by (apply Z.ltb_ge; lia).
    rewrite Hx, andb_false_r. simpl.
    repeat split. rewrite lookup_insert_eq. do 2 f_equal; lia.
  - intros Hfull. rewrite Hfull. repeat split.
Qed.

(** ** The request executor: attempts, pauses and the cache *)

Section CallFacts.

Variable stringify : JsVal -> string.
Variable net : TrelloClient.Net.

Lemma scheduleRequest_job (p : TrelloClient.Priority) (req : TrelloClient.Request)
    (w : TrelloClient.World) :
  exists job : TrelloClient.Job,
    TrelloClient.jobs (TrelloClient.scheduleRequest net p req w).2
    = TrelloClient.jobs w ++ [job]
    /\ TrelloClient.job_request job = req
    /\ Bottleneck.priority (TrelloClient.job_options job) = tierNumber p.
Proof.
  unfold TrelloClient.scheduleRequest. eexists. split; [reflexivity|].
  split; [reflexivity|]. destruct p; reflexivity.
Qed.

(** The jobs that the retry loop hands to the limiter. *)
Lemma retryLoop_jobs fuel m cacheable key ttl p req retries startTime :
  forall attempt lastError w,
    let r := TrelloClient.retryLoop net fuel m cacheable key ttl p req retries
               startTime attempt lastError w in
    exists new : list TrelloClient.Job,
      TrelloClient.jobs r.2 = TrelloClient.jobs w ++ new
      /\ (length new <= fuel)%nat
      /\ (length new <= Z.to_nat (retries + 1 - attempt))%nat
      /\ Forall (fun j => TrelloClient.job_request j = req
                          /\ Bottleneck.priority (TrelloClient.job_options j)
                             = tierNumber p) new
      /\ match r.1 with
         | TrelloClient.Returned _ => new <> []
         | TrelloClient.Exhausted _ =>
             (Z.to_nat (retries + 1 - attempt) <= fuel)%nat ->
             length new = Z.to_nat (retries + 1 - attempt)
         end.
Proof.
  induction fuel as [|fuel IH]; intros attempt lastError w; cbv zeta.
  - exists []. simpl. rewrite app_nil_r.
    repeat split; try lia; try constructor.
  - rewrite retryLoop_step.
    destruct (attempt <=? retries) eqn:Hle.
    + apply Z.leb_le in Hle. cbv zeta.
      destruct (scheduleRequest_job p req w) as (job & Hjob & Hreq & Hprio).
      set (w1 := (TrelloClient.scheduleRequest net p req w).2) in *.
      assert (Hnext : forall l wX,
                 TrelloClient.jobs wX = TrelloClient.jobs w ++ [job] ->
                 let r := TrelloClient.retryLoop net fuel m cacheable key ttl p req
                            retries startTime (attempt + 1) l
                            (pauseAfter attempt retries wX) in
                 exists new : list TrelloClient.Job,
                   TrelloClient.jobs r.2 = TrelloClient.jobs w ++ new
                   /\ (length new <= S fuel)%nat
                   /\ (length new <= Z.to_nat (retries + 1 - attempt))%nat
                   /\ Forall (fun j => TrelloClient.job_request j = req
                                       /\ Bottleneck.priority
                                            (TrelloClient.job_options j)
                                          = tierNumber p) new
                   /\ match r.1 with
                      | TrelloClient.Returned _ => new <> []
                      | TrelloClient.Exhausted _ =>
                          (Z.to_nat (retries + 1 - attempt) <= S fuel)%nat ->
                          length new = Z.to_nat (retries + 1 - attempt)
                      end).
      { intros l wX HwX. cbv zeta.
        destruct (IH (attempt + 1) l (pauseAfter attempt retries wX))
          as (new & Hnew & Hfuel & Hbudget & Hall & Hexit).
        rewrite (proj2 (proj2 (pauseAfter_world attempt retries wX))), HwX in Hnew.
        destruct (TrelloClient.retryLoop net fuel m cacheable key ttl p req
                    retries startTime (attempt + 1) l
                    (pauseAfter attempt retries wX)) as [exit w'].
        cbn [fst snd] in *. exists (job :: new).
        rewrite Hnew, <- app_assoc. simpl.
        split; [reflexivity|]. split; [lia|]. split; [lia|].
        split; [constructor; [split; assumption | exact Hall]|].
        destruct exit as [value|last]; [discriminate|].
        intros Hf. rewrite Hexit by lia. lia. }
      destruct (TrelloClient.settled (net (length (TrelloClient.jobs w)) req))
        as [result|error].
      * assert (Hone : exists new : list TrelloClient.Job,
                   TrelloClient.jobs w1 = TrelloClient.jobs w ++ new
                   /\ (length new <= S fuel)%nat
                   /\ (length new <= Z.to_nat (retries + 1 - attempt))%nat
                   /\ Forall (fun j => TrelloClient.job_request j = req
                                       /\ Bottleneck.priority
                                            (TrelloClient.job_options j)
                                          = tierNumber p) new
                   /\ new <> []).
        { exists [job]. split; [exact Hjob|]. simpl.
          repeat split; try lia; try discriminate.
          constructor; [split; assumption | constructor]. }
        destruct (TrelloClient.is_GET m && cacheable && truthy result);
          [destruct (NodeCache.full _)|]; [now apply Hnext | exact Hone | exact Hone].
      * now apply Hnext.
    + apply Z.leb_gt in Hle. exists []. simpl. rewrite app_nil_r.
      repeat split; try lia; try constructor.
Qed.

(** The retry loop leaves the cache counters of the client alone, and the
    cache too unless it returns a result that is to be kept. *)
Lemma retryLoop_cache fuel m cacheable key ttl p req retries startTime :
  forall attempt lastError w,
    let r := TrelloClient.retryLoop net fuel m cacheable key ttl p req retries
               startTime attempt lastError w in
    TrelloClient.cacheHits (TrelloClient.stats r.2)
      = TrelloClient.cacheHits (TrelloClient.stats w)
    /\ TrelloClient.cacheMisses (TrelloClient.stats r.2)
       = TrelloClient.cacheMisses (TrelloClient.stats w)
    /\ TrelloClient.cache r.2
       = match r.1 with
         | TrelloClient.Returned value =>
             if TrelloClient.is_GET m && cacheable && truthy value
             then (MemoryCache.set (TrelloClient.now r.2) key value ttl
                                   (TrelloClient.cache w)).2
             else TrelloClient.cache w
         | TrelloClient.Exhausted _ => TrelloClient.cache w
         end.
Proof.
  induction fuel as [|fuel IH]; intros attempt lastError w; cbv zeta.
  - simpl. auto.
  - rewrite retryLoop_step.
    destruct (attempt <=? retries); [|simpl; auto]. cbv zeta.
    destruct (scheduleRequest_world net p req w) as (Hs1 & Hc1 & _).
    set (w1 := (TrelloClient.scheduleRequest net p req w).2) in *.
    assert (Hnext : forall l wX,
               TrelloClient.cacheHits (TrelloClient.stats wX)
               = TrelloClient.cacheHits (TrelloClient.stats w) ->
               TrelloClient.cacheMisses (TrelloClient.stats wX)
               = TrelloClient.cacheMisses (TrelloClient.stats w) ->
               TrelloClient.cache wX = TrelloClient.cache w ->
               let r := TrelloClient.retryLoop net fuel m cacheable key ttl p req
                          retries startTime (attempt + 1) l
                          (pauseAfter attempt retries wX) in
               TrelloClient.cacheHits (TrelloClient.stats r.2)
               = TrelloClient.cacheHits (TrelloClient.stats w)
               /\ TrelloClient.cacheMisses (TrelloClient.stats r.2)
                  = TrelloClient.cacheMisses (TrelloClient.stats w)
               /\ TrelloClient.cache r.2
                  = match r.1 with
                    | TrelloClient.Returned value =>
                        if TrelloClient.is_GET m && cacheable && truthy value
                        then (MemoryCache.set (TrelloClient.now r.2) key value ttl
                                              (TrelloClient.cache w)).2
                        else TrelloClient.cache w
                    | TrelloClient.Exhausted _ => TrelloClient.cache w
                    end).
    { intros l wX Hh Hm Hc. cbv zeta.
      destruct (IH (attempt + 1) l (pauseAfter attempt retries wX)) as (Hh' & Hm' & Hc').
      destruct (pauseAfter_world attempt retries wX) as (Hs3 & Hc3 & _).
      rewrite Hs3 in Hh', Hm'. rewrite Hc3, Hc in Hc'.
      rewrite Hh', Hm', Hh, Hm. auto. }
    destruct (TrelloClient.settled (net (length (TrelloClient.jobs w)) req))
      as [result|error].
    + destruct (TrelloClient.is_GET m && cacheable && truthy result) eqn:Hkeep.
      * destruct (NodeCache.full (MemoryCache.cache (TrelloClient.cache w))).
        -- apply Hnext;
             cbn [TrelloClient.updateStats TrelloClient.with_stats TrelloClient.stats
                  TrelloClient.cacheHits TrelloClient.cacheMisses TrelloClient.cache];
             now rewrite ?Hs1, ?Hc1.
        -- cbn [fst snd]. rewrite Hkeep.
           cbn [TrelloClient.with_cache TrelloClient.updateStats
                TrelloClient.with_stats TrelloClient.stats TrelloClient.cacheHits
                TrelloClient.cacheMisses TrelloClient.cache TrelloClient.now].
           rewrite Hs1. auto.
      * cbn [fst snd]. rewrite Hkeep.
        cbn [TrelloClient.updateStats TrelloClient.with_stats TrelloClient.stats
             TrelloClient.cacheHits TrelloClient.cacheMisses TrelloClient.cache].
        rewrite Hs1, Hc1. auto.
    + apply Hnext; [now rewrite Hs1 | now rewrite Hs1 | exact Hc1].
Qed.

Lemma backoffSum_pred (from : Z) (k : nat) :
  backoffSum from k
  = match k with
    | O => 0
    | S k' => backoff from + backoffSum (from + 1) k'
    end.
Proof. now destruct k. Qed.

(** When every attempt fails, the loop ends with the error of the last one,
    after the time of the attempts and of the pauses between them. *)
Lemma retryLoop_all_fail m cacheable key ttl p req retries startTime :
  forall (k fuel : nat) attempt lastError w,
    (k <= fuel)%nat -> attempt + Z.of_nat k = retries + 1 ->
    allFail net req (length (TrelloClient.jobs w)) k ->
    let r := TrelloClient.retryLoop net fuel m cacheable key ttl p req retries
               startTime attempt lastError w in
    r.1 = TrelloClient.Exhausted
            (match k with
             | O => lastError
             | S k' =>
                 reasonOf (TrelloClient.settled
                             (net (length (TrelloClient.jobs w) + k')%nat req))
             end)
    /\ TrelloClient.now r.2
       = TrelloClient.now w + elapsedSum net req (length (TrelloClient.jobs w)) k
         + backoffSum (attempt + 1) (pred k).
Proof.
  induction k as [|k IH]; intros fuel attempt lastError w Hfuel Hbudget Hfail;
    cbv zeta.
  - assert (Hgt : (attempt <=? retries) = false) by (apply Z.leb_gt; lia).
    destruct fuel as [|fuel]; simpl; rewrite ?Hgt; simpl; split; (reflexivity || lia).
  - destruct fuel as [|fuel]; [lia|]. rewrite retryLoop_step.
    assert (Hle : (attempt <=? retries) = true) by (apply Z.leb_le; lia).
    rewrite Hle. cbv zeta.
    pose proof (Hfail 0%nat ltac:(lia)) as H0. rewrite Nat.add_0_r in H0.
    destruct (TrelloClient.settled (net (length (TrelloClient.jobs w)) req))
      as [result|error] eqn:Hnet; [discriminate|].
    destruct (scheduleRequest_world net p req w) as (_ & _ & Hj1 & Hn1).
    set (w1 := (TrelloClient.scheduleRequest net p req w).2) in *.
    assert (Hjobs : length (TrelloClient.jobs (pauseAfter attempt retries w1))
                    = S (length (TrelloClient.jobs w)))
      by (now rewrite (proj2 (proj2 (pauseAfter_world attempt retries w1)))).
    assert (Hnow : TrelloClient.now (pauseAfter attempt retries w1)
                   = TrelloClient.now w
                     + TrelloClient.elapsed (net (length (TrelloClient.jobs w)) req)
                     + match k with O => 0 | S _ => backoff (attempt + 1) end).
    { unfold pauseAfter. destruct k as [|k].
      - assert (Hlast : (attempt + 1 <=? retries) = false) by (apply Z.leb_gt; lia).
        rewrite Hlast. lia.
      - assert (Hmore : (attempt + 1 <=? retries) = true) by (apply Z.leb_le; lia).
        rewrite Hmore. unfold backoff. simpl. lia. }
    destruct (IH fuel (attempt + 1) (Some error) (pauseAfter attempt retries w1))
      as [Hexit Htime]; [lia | lia | |].
    + intros i Hi. rewrite Hjobs.
      replace (S (length (TrelloClient.jobs w)) + i)%nat
        with (length (TrelloClient.jobs w) + S i)%nat by lia.
      apply Hfail. lia.
    + cbv zeta in Hexit, Htime. rewrite Hexit, Htime, Hnow, Hjobs. split.
      * f_equal. destruct k as [|k].
        -- rewrite Nat.add_0_r, Hnet. reflexivity.
        -- f_equal. f_equal. f_equal. lia.
      * cbn [elapsedSum pred]. rewrite (backoffSum_pred (attempt + 1) k).
        destruct k as [|k]; simpl; lia.
Qed.

Lemma fulfilledAmong_none (req : TrelloClient.Request) (k : nat) :
  forall (n from : nat),
    (n <= k)%nat -> allFail net req from k -> fulfilledAmong net req from n = 0.
Proof.
  intros n from Hn Hfail. apply fulfilledAmong_allFail.
  intros i Hi. apply Hfail. lia.
Qed.

(** A call that the cache does not answer and whose attempts all fail is
    counted as two requests and two failures. *)
Lemma all_fail_counted_twice (endpoint : string)
    (options : TrelloClient.ApiRequestOptions) (w : TrelloClient.World) :
  TrelloClient.servedFromCache stringify endpoint options w = false ->
  allFail net (TrelloClient.requestOf endpoint options)
          (length (TrelloClient.jobs w))
          (Z.to_nat (default 3 (TrelloClient.retries options) + 1)) ->
  counted 2 0 2 w (TrelloClient.makeRequest stringify net endpoint options w).2.
Proof.
  intros Hs Hfail.
  destruct (call_counted stringify net endpoint options w Hs) as [Hc _].
  cbv zeta in Hc.
  assert (Hnone : fulfilledAmong net (TrelloClient.requestOf endpoint options)
                    (length (TrelloClient.jobs w))
                    (length (TrelloClient.jobs
                               (TrelloClient.makeRequest stringify net endpoint
                                  options w).2)
                     - length (TrelloClient.jobs w)) = 0).
  { eapply fulfilledAmong_none; [|exact Hfail].
    rewrite (servedFromCache_false stringify net _ _ _ Hs). cbv zeta.
    pose proof (afterMiss_jobs stringify endpoint options w) as Hjobs.
    match goal with
    | |- context [TrelloClient.retryLoop net ?f ?m ?c ?k ?t ?p ?r ?n ?s ?a ?l ?w1] =>
        destruct (retryLoop_jobs f m c k t p r n s a l w1)
          as (new & Hnew & _ & Hbudget & _);
        destruct (TrelloClient.retryLoop net f m c k t p r n s a l w1)
          as [[value|last] w2]
    end; cbn [fst snd] in *;
      cbn [TrelloClient.updateStats TrelloClient.with_stats TrelloClient.jobs];
      rewrite Hnew, length_app, Hjobs; rewrite Z.sub_0_r in Hbudget; lia. }
  rewrite Hnone in Hc.
  destruct (TrelloClient.makeRequest stringify net endpoint options w).1
    as [value|error]; [lia | exact (proj1 Hc)].
Qed.

End CallFacts.

(** X10 (the jobs of a call).  All that a call hands to the rate limiter is
    jobs that wrap its own request, under the number of its priority (9 for
    'high', 5 for 'normal', 1 for 'low'): none when the cache answers, at
    most [retries + 1] otherwise, and at least one when [retries] is not
    negative.  The jobs handed over before are still there, in order. *)
Theorem jobs_of_a_call (stringify : JsVal -> string) (net : TrelloClient.Net)
    (endpoint : string) (options : TrelloClient.ApiRequestOptions)
    (w : TrelloClient.World) :
  let r := TrelloClient.makeRequest stringify net endpoint options w in
  exists new : list TrelloClient.Job,
    TrelloClient.jobs r.2 = TrelloClient.jobs w ++ new
    /\ Forall (jobOf endpoint options) new
    /\ (length new <= Z.to_nat (default 3 (TrelloClient.retries options) + 1)%Z)%nat
    /\ (TrelloClient.servedFromCache stringify endpoint options w = true -> new = [])
    /\ (TrelloClient.servedFromCache stringify endpoint options w = false ->
        0 <= default 3 (TrelloClient.retries options) -> new <> []).
Proof.
  cbv zeta.
  destruct (TrelloClient.servedFromCache stringify endpoint options w) eqn:Hs.
  - destruct (servedFromCache_true _ _ _ _ Hs) as (cached & c & _ & _ & Hrun).
    rewrite Hrun. exists []. simpl. rewrite app_nil_r.
    repeat split; try constructor; try lia; discriminate.
  - rewrite (servedFromCache_false stringify net _ _ _ Hs). cbv zeta.
    pose proof (afterMiss_jobs stringify endpoint options w) as Hjobs.
    match goal with
    | |- context [TrelloClient.retryLoop net ?f ?m ?c ?k ?t ?p ?r ?n ?s ?a ?l ?w1] =>
        destruct (retryLoop_jobs net f m c k t p r n s a l w1)
          as (new & Hnew & Hfuel & _ & Hall & Hexit);
        destruct (TrelloClient.retryLoop net f m c k t p r n s a l w1)
          as [[value|last] w2]
    end; cbn [fst snd] in *; exists new; rewrite Hjobs in Hnew;
      (split; [exact Hnew|]); (split; [exact Hall|]); (split; [exact Hfuel|]);
      (split; [discriminate|]); intros _ Hpos.
    + exact Hexit.
    + specialize (Hexit ltac:(lia)). intros ->. simpl in Hexit. lia.
Qed.

(** X11 (a call that fails).  A call that the cache does not answer, with
    [retries = N >= 0], against a transport that fails [N + 1] times: the
    call is rejected with the error that names the endpoint, the method and
    the last failure; [N + 1] jobs went to the limiter; the statistics count
    two requests and two failures; and the time that has passed is the time
    of the attempts and of the [N] pauses between them, of 1000, 2000, 4000
    and 8000 ms and of 10000 ms from the fifth on. *)
Theorem failing_call_exhausts_retries (stringify : JsVal -> string)
    (net : TrelloClient.Net) (endpoint : string)
    (options : TrelloClient.ApiRequestOptions) (w : TrelloClient.World) (N : Z) :
  default 3 (TrelloClient.retries options) = N -> 0 <= N ->
  TrelloClient.servedFromCache stringify endpoint options w = false ->
  allFail net (TrelloClient.requestOf endpoint options)
          (length (TrelloClient.jobs w)) (Z.to_nat (N + 1)) ->
  let r := TrelloClient.makeRequest stringify net endpoint options w in
  r.1 = Rejected
          (TrelloClient.detailedError N endpoint
             (default TrelloClient.GET (TrelloClient.method options))
             (reasonOf (TrelloClient.settled
                          (net (length (TrelloClient.jobs w) + Z.to_nat N)%nat
                               (TrelloClient.requestOf endpoint options)))))
  /\ length (TrelloClient.jobs r.2)
     = (length (TrelloClient.jobs w) + Z.to_nat (N + 1))%nat
  /\ counted 2 0 2 w r.2
  /\ TrelloClient.now r.2
     = TrelloClient.now w
       + elapsedSum net (TrelloClient.requestOf endpoint options)
                    (length (TrelloClient.jobs w)) (Z.to_nat (N + 1))
       + backoffSum 1 (Z.to_nat N)
  /\ (forall a : Z, 0 <= backoff a <= 10000).
Proof.
  intros HN Hpos Hs Hfail r.
  assert (Hstats : counted 2 0 2 w r.2).
  { subst r. apply all_fail_counted_twice; [exact Hs | now rewrite HN]. }
  split; [|split; [|split; [exact Hstats|split]]].
  - subst r. rewrite (servedFromCache_false stringify net _ _ _ Hs), HN. cbv zeta.
    pose proof (afterMiss_jobs stringify endpoint options w) as Hjobs.
    match goal with
    | |- context [TrelloClient.retryLoop net ?f ?m ?c ?k ?t ?p ?r ?n ?s ?a ?l ?w1] =>
        destruct (retryLoop_all_fail net m c k t p r n s (Z.to_nat (N + 1)) f a l w1)
          as [Hexit _]; [lia | lia | now rewrite Hjobs |];
        destruct (TrelloClient.retryLoop net f m c k t p r n s a l w1)
          as [exit w2]
    end.
    simpl in Hexit. subst exit. simpl. rewrite Hjobs. do 3 f_equal.
    replace (Z.to_nat (N + 1)) with (S (Z.to_nat N)) by lia. reflexivity.
  - subst r. rewrite (servedFromCache_false stringify net _ _ _ Hs), HN. cbv zeta.
    pose proof (afterMiss_jobs stringify endpoint options w) as Hjobs.
    match goal with
    | |- context [TrelloClient.retryLoop net ?f ?m ?c ?k ?t ?p ?r ?n ?s ?a ?l ?w1] =>
        destruct (retryLoop_all_fail net m c k t p r n s (Z.to_nat (N + 1)) f a l w1)
          as [Hexit _]; [lia | lia | now rewrite Hjobs |];
        destruct (retryLoop_jobs net f m c k t p r n s a l w1)
          as (new & Hnew & _ & _ & _ & Hlen);
        destruct (TrelloClient.retryLoop net f m c k t p r n s a l w1)
          as [exit w2]
    end.
    cbn [fst snd] in *. subst exit. simpl.
    rewrite Hnew, length_app, Hjobs, Hlen by lia. f_equal. f_equal. lia.
  - subst r. rewrite (servedFromCache_false stringify net _ _ _ Hs), HN. cbv zeta.
    pose proof (afterMiss_jobs stringify endpoint options w) as Hjobs.
    assert (Hnow : TrelloClient.now (afterMiss stringify endpoint options w)
                   = TrelloClient.now w)
      by (unfold afterMiss; now destruct (_ && _)).
    match goal with
    | |- context [TrelloClient.retryLoop net ?f ?m ?c ?k ?t ?p ?r ?n ?s ?a ?l ?w1] =>
        destruct (retryLoop_all_fail net m c k t p r n s (Z.to_nat (N + 1)) f a l w1)
          as [Hexit Htime]; [lia | lia | now rewrite Hjobs |];
        destruct (TrelloClient.retryLoop net f m c k t p r n s a l w1)
          as [exit w2]
    end.
    cbn [fst snd] in *. subst exit. simpl. rewrite Htime, Hnow, Hjobs.
    replace (Z.to_nat (N + 1)) with (S (Z.to_nat N)) by lia. reflexivity.
  - intros a. unfold backoff.
    assert (0 <= 2 ^ (a - 1)) by (apply Z.pow_nonneg; lia). lia.
Qed.

(** The default of three retries against a service that is down: four
    attempts of 30 ms and pauses of 1000, 2000 and 4000 ms. *)
Lemma failing_call_exhausts_retries_witness :
  let r := TrelloClient.makeRequest demo_stringify net_down "/boards"
             TrelloClient.no_options fresh_world in
  r.1 = Rejected
          (TrelloClient.detailedError 3 "/boards" TrelloClient.GET
             (Some (Error "boom")))
  /\ length (TrelloClient.jobs r.2) = 4%nat
  /\ counted 2 0 2 fresh_world r.2
  /\ TrelloClient.now r.2 = 1000 + 120 + 7000
  /\ (forall a : Z, 0 <= backoff a <= 10000).
Proof.
  apply (failing_call_exhausts_retries demo_stringify net_down "/boards"
           TrelloClient.no_options fresh_world 3).
  - reflexivity.
  - lia.
  - reflexivity.
  - intros i _. reflexivity.
Defined.

(** X12 (negative retries).  With a negative [retries] a call that the cache
    does not answer makes no attempt at all: nothing goes to the limiter,
    and the call is rejected with "Unknown error" for want of a last error,
    counted as two requests and two failures. *)
Theorem negative_retries_make_no_attempt (stringify : JsVal -> string)
    (net : TrelloClient.Net) (endpoint : string)
    (options : TrelloClient.ApiRequestOptions) (w : TrelloClient.World) (N : Z) :
  TrelloClient.retries options = Some N -> N < 0 ->
  TrelloClient.servedFromCache stringify endpoint options w = false ->
  let r := TrelloClient.makeRequest stringify net endpoint options w in
  r.1 = Rejected
          (MkError ("Trello API request failed after " +:+ pretty N +:+ " attempts: "
                    +:+ endpoint +:+ " - Unknown error")
                   None (Some endpoint)
                   (Some (TrelloClient.method_name
                            (default TrelloClient.GET (TrelloClient.method options))))
                   None)
  /\ TrelloClient.jobs r.2 = TrelloClient.jobs w
  /\ TrelloClient.now r.2 = TrelloClient.now w
  /\ counted 2 0 2 w r.2.
Proof.
  intros HN Hneg Hs r. subst r.
  assert (Hc : counted 2 0 2 w
                 (TrelloClient.makeRequest stringify net endpoint options w).2).
  { apply all_fail_counted_twice; [exact Hs|]. rewrite HN.
    change (default 3 (Some N)) with N. intros i Hi. lia. }
  revert Hc.
  rewrite (servedFromCache_false stringify net _ _ _ Hs). rewrite HN.
  cbv zeta. change (default 3 (Some N)) with N.
  replace (Z.to_nat (N + 1)) with 0%nat by lia.
  cbn [TrelloClient.retryLoop]. intros Hc.
  split; [reflexivity|]. split; [apply afterMiss_jobs|].
  split; [simpl; unfold afterMiss; now destruct (_ && _)|].
  exact Hc.
Qed.

Lemma negative_retries_make_no_attempt_witness :
  let r := TrelloClient.makeRequest demo_stringify net_ok "/boards"
             {| TrelloClient.method := None; TrelloClient.body := JsUndefined;
                TrelloClient.useCache := None; TrelloClient.cacheTtl := None;
                TrelloClient.priority := None; TrelloClient.retries := Some (-1) |}
             fresh_world in
  r.1 = Rejected
          (MkError "Trello API request failed after -1 attempts: /boards - Unknown error"
                   None (Some "/boards") (Some "GET") None)
  /\ TrelloClient.jobs r.2 = TrelloClient.jobs fresh_world
  /\ TrelloClient.now r.2 = TrelloClient.now fresh_world
  /\ counted 2 0 2 fresh_world r.2.
Proof.
  apply (negative_retries_make_no_attempt demo_stringify net_ok "/boards"
           {| TrelloClient.method := None; TrelloClient.body := JsUndefined;
              TrelloClient.useCache := None; TrelloClient.cacheTtl := None;
              TrelloClient.priority := None; TrelloClient.retries := Some (-1) |}
           fresh_world (-1)).
  - reflexivity.
  - lia.
  - reflexivity.
Defined.

(** X13 (calls that bypass the cache).  A call whose method is not GET, or
    whose [useCache] is false, never touches the cache: whatever its
    outcome, the store, the hit and miss counters of the cache and the two
    cache counters of the client are as before.  In particular a write does
    not remove what earlier reads have left in the cache. *)
Theorem uncached_call_leaves_cache (stringify : JsVal -> string)
    (net : TrelloClient.Net) (endpoint : string)
    (options : TrelloClient.ApiRequestOptions) (w : TrelloClient.World) :
  TrelloClient.is_GET (default TrelloClient.GET (TrelloClient.method options))
    && default true (TrelloClient.useCache options) = false ->
  let r := TrelloClient.makeRequest stringify net endpoint options w in
  TrelloClient.cache r.2 = TrelloClient.cache w
  /\ TrelloClient.cacheHits (TrelloClient.stats r.2)
     = TrelloClient.cacheHits (TrelloClient.stats w)
  /\ TrelloClient.cacheMisses (TrelloClient.stats r.2)
     = TrelloClient.cacheMisses (TrelloClient.stats w).
Proof.
  intros Hgate r. subst r.
  assert (Hs : TrelloClient.servedFromCache stringify endpoint options w = false)
    by (unfold TrelloClient.servedFromCache; now rewrite Hgate).
  rewrite (servedFromCache_false stringify net _ _ _ Hs). cbv zeta.
  assert (Hw1 : afterMiss stringify endpoint options w = w)
    by (unfold afterMiss; now rewrite Hgate).
  rewrite Hw1.
  match goal with
  | |- context [TrelloClient.retryLoop net ?f ?m ?c ?k ?t ?p ?r ?n ?s ?a ?l ?w1] =>
      destruct (retryLoop_cache net f m c k t p r n s a l w1) as (Hh & Hm & Hc);
      destruct (TrelloClient.retryLoop net f m c k t p r n s a l w1)
        as [[value|last] w2]
  end; cbn [fst snd] in *.
  - rewrite Hgate in Hc. simpl in Hc. auto.
  - simpl. auto.
Qed.

(** A card is created while the boards are in the cache. *)
Lemma uncached_call_leaves_cache_witness :
  let r := TrelloClient.createCard demo_stringify net_ok (card_json "" "A")
             warm_world in
  TrelloClient.cache r.2 = TrelloClient.cache warm_world
  /\ TrelloClient.cacheHits (TrelloClient.stats r.2)
     = TrelloClient.cacheHits (TrelloClient.stats warm_world)
  /\ TrelloClient.cacheMisses (TrelloClient.stats r.2)
     = TrelloClient.cacheMisses (TrelloClient.stats warm_world).
Proof.
  exact (uncached_call_leaves_cache demo_stringify net_ok "/cards"
           {| TrelloClient.method := Some TrelloClient.POST;
              TrelloClient.body := card_json "" "A";
              TrelloClient.useCache := Some false; TrelloClient.cacheTtl := None;
              TrelloClient.priority := Some TrelloClient.normal;
              TrelloClient.retries := None |}
           warm_world eq_refl).
Defined.

Lemma get_keeps_room (now : Z) (k : string) (c : MemoryCache.t) :
  NodeCache.full (MemoryCache.cache c) = false ->
  NodeCache.full (MemoryCache.cache (MemoryCache.get now k c).2) = false.
Proof.
  rewrite MemoryCache_get_store. unfold NodeCache.get.
  destruct (NodeCache.data (MemoryCache.cache c) !! k) as [e|]; [|auto].
  destruct (NodeCache.expired now e); [|auto].
  unfold NodeCache.full. simpl. intros H.
  apply andb_false_iff in H as [H|H]; [now rewrite H|].
  apply andb_false_iff. right. apply Z.leb_gt in H. apply Z.leb_gt.
  pose proof (delete_keeps_count k (NodeCache.data (MemoryCache.cache c))). lia.
Qed.

Lemma afterMiss_now stringify endpoint options w :
  TrelloClient.now (afterMiss stringify endpoint options w) = TrelloClient.now w.
Proof. unfold afterMiss. now destruct (_ && _). Qed.

(** The retry loop only moves the clock forward when the transport and the
    pauses take time. *)
Lemma retryLoop_returned_cache (net : TrelloClient.Net) fuel m cacheable key ttl p
    req retries startTime attempt lastError w value w' :
  TrelloClient.retryLoop net fuel m cacheable key ttl p req retries startTime
                         attempt lastError w
  = (TrelloClient.Returned value, w') ->
  TrelloClient.cache w'
  = if TrelloClient.is_GET m && cacheable && truthy value
    then (MemoryCache.set (TrelloClient.now w') key value ttl (TrelloClient.cache w)).2
    else TrelloClient.cache w.
Proof.
  intros Hrun.
  destruct (retryLoop_cache net fuel m cacheable key ttl p req retries startTime
              attempt lastError w) as (_ & _ & Hc).
  rewrite Hrun in Hc. exact Hc.
Qed.

(** X14 (a read fills the cache).  A GET call with [useCache] on that goes to
    the transport and returns a truthy result leaves that result in the
    cache, if the store has room: the same call, made again within the
    [cacheTtl] seconds (at any later time when none, or 0, is given), is
    answered by the cache with the same result, and hands nothing to the
    limiter, whatever the transport would answer by then. *)
Theorem read_fills_the_cache (stringify : JsVal -> string)
    (net net' : TrelloClient.Net) (endpoint : string)
    (options : TrelloClient.ApiRequestOptions) (w w' : TrelloClient.World)
    (value : JsVal) (d : Z) :
  TrelloClient.is_GET (default TrelloClient.GET (TrelloClient.method options))
    && default true (TrelloClient.useCache options) = true ->
  TrelloClient.servedFromCache stringify endpoint options w = false ->
  NodeCache.full (MemoryCache.cache (TrelloClient.cache w)) = false ->
  TrelloClient.makeRequest stringify net endpoint options w = (Fulfilled value, w') ->
  truthy value = true ->
  num_or (TrelloClient.cacheTtl options) 0 = 0
  \/ d <= num_or (TrelloClient.cacheTtl options) 0 * 1000 ->
  let r := TrelloClient.makeRequest stringify net' endpoint options
             (TrelloClient.sleep d w') in
  r.1 = Fulfilled value
  /\ TrelloClient.jobs r.2 = TrelloClient.jobs w'
  /\ TrelloClient.cacheHits (TrelloClient.stats r.2)
     = TrelloClient.cacheHits (TrelloClient.stats w') + 1.
Proof.
  intros Hgate Hs Hroom Hrun Hvalue Hwithin r. subst r.
  rewrite (servedFromCache_false stringify net _ _ _ Hs) in Hrun. cbv zeta in Hrun.
  match type of Hrun with
  | context [TrelloClient.retryLoop net ?f ?m ?c ?k ?t ?p ?r ?n ?s ?a ?l ?w1] =>
      destruct (TrelloClient.retryLoop net f m c k t p r n s a l w1)
        as [[result|last] w2] eqn:Hloop; [|discriminate];
      pose proof (retryLoop_returned_cache net f m c k t p r n s a l w1 result w2 Hloop)
        as Hcache
  end.
  injection Hrun as -> ->.
  apply andb_prop in Hgate as [Hget Huse].
  rewrite Hget, Huse, Hvalue in Hcache. cbn [andb] in Hcache.
  assert (Hroom1 : NodeCache.full
                     (MemoryCache.cache
                        (TrelloClient.cache (afterMiss stringify endpoint options w)))
                   = false).
  { unfold afterMiss. rewrite Hget, Huse. simpl. now apply get_keeps_room. }
  set (c1 := TrelloClient.cache (afterMiss stringify endpoint options w)) in *.
  assert (Hok : (MemoryCache.set (TrelloClient.now w') (TrelloClient.cacheKeyOf
                   stringify endpoint options) value (TrelloClient.cacheTtl options)
                   c1).1 = Returns true).
  { now apply MemoryCache_set_returns. }
  pose proof (set_entry _ _ _ _ _ Hok) as Hentry. rewrite <- Hcache in Hentry.
  assert (Hget' : (MemoryCache.get (TrelloClient.now w' + d)
                     (TrelloClient.cacheKeyOf stringify endpoint options)
                     (TrelloClient.cache w')).1 = value).
  { rewrite MemoryCache_get_value.
    rewrite (NodeCache_get_live _ _ _ _ Hentry);
      [cbn [fst NodeCache.v]; now apply unwrap_truthy|].
    unfold NodeCache.expired. cbn [NodeCache.t].
    destruct (num_or (TrelloClient.cacheTtl options) 0 =? 0) eqn:H0; [reflexivity|].
    apply Z.eqb_neq in H0. apply andb_false_iff. right. apply Z.ltb_ge.
    destruct Hwithin; lia. }
  assert (Hserved : TrelloClient.servedFromCache stringify endpoint options
                      (TrelloClient.sleep d w') = true).
  { unfold TrelloClient.servedFromCache. rewrite Hget, Huse.
    cbn [TrelloClient.sleep TrelloClient.now TrelloClient.cache]. rewrite Hget'.
    destruct value; try discriminate; reflexivity. }
  destruct (servedFromCache_true _ _ _ _ Hserved) as (cached & c & Hmc & _ & Hrun').
  rewrite Hrun'. cbn [fst snd].
  assert (cached = value).
  { cbn [TrelloClient.sleep TrelloClient.now TrelloClient.cache] in Hmc.
    rewrite <- Hget', Hmc. reflexivity. }
  subst cached. repeat split.
Qed.

(** The boards are read, and read again five seconds later while the
    service is down. *)
Lemma read_fills_the_cache_witness :
  let w' := (TrelloClient.makeRequest demo_stringify net_ok "/boards"
               TrelloClient.no_options fresh_world).2 in
  let r := TrelloClient.makeRequest demo_stringify net_down "/boards"
             TrelloClient.no_options (TrelloClient.sleep 5000 w') in
  r.1 = Fulfilled (card_json "c1" "A")
  /\ TrelloClient.jobs r.2 = TrelloClient.jobs w'
  /\ TrelloClient.cacheHits (TrelloClient.stats r.2)
     = TrelloClient.cacheHits (TrelloClient.stats w') + 1.
Proof.
  apply (read_fills_the_cache demo_stringify net_ok net_down "/boards"
           TrelloClient.no_options fresh_world _ (card_json "c1" "A") 5000).
  - reflexivity.
  - reflexivity.
  - reflexivity.
  - vm_compute. reflexivity.
  - reflexivity.
  - left. reflexivity.
Defined.

(** X15 (a falsy result is not kept).  When a GET call with [useCache] on
    goes to the transport and returns a falsy result ([null], [false], 0 or
    the empty string), nothing is written to the cache: the store is as the
    lookup left it, and the same call is not answered by the cache at any
    later time. *)
Theorem falsy_result_is_not_cached (stringify : JsVal -> string)
    (net : TrelloClient.Net) (endpoint : string)
    (options : TrelloClient.ApiRequestOptions) (w w' : TrelloClient.World)
    (value : JsVal) :
  TrelloClient.servedFromCache stringify endpoint options w = false ->
  TrelloClient.makeRequest stringify net endpoint options w = (Fulfilled value, w') ->
  truthy value = false ->
  TrelloClient.cache w' = TrelloClient.cache (afterMiss stringify endpoint options w)
  /\ forall d : Z,
       TrelloClient.servedFromCache stringify endpoint options (TrelloClient.sleep d w')
       = false.
Proof.
  intros Hs Hrun Hvalue.
  rewrite (servedFromCache_false stringify net _ _ _ Hs) in Hrun. cbv zeta in Hrun.
  match type of Hrun with
  | context [TrelloClient.retryLoop net ?f ?m ?c ?k ?t ?p ?r ?n ?s ?a ?l ?w1] =>
      destruct (TrelloClient.retryLoop net f m c k t p r n s a l w1)
        as [[result|last] w2] eqn:Hloop; [|discriminate];
      pose proof (retryLoop_returned_cache net f m c k t p r n s a l w1 result w2 Hloop)
        as Hcache
  end.
  injection Hrun as -> ->.
  rewrite Hvalue, andb_false_r in Hcache.
  split; [exact Hcache|].
  intros d. unfold TrelloClient.servedFromCache in *.
  destruct (TrelloClient.is_GET (default TrelloClient.GET (TrelloClient.method options))
            && default true (TrelloClient.useCache options)) eqn:Hgate;
    [|reflexivity].
  cbn [andb] in *. apply negb_false_iff in Hs. apply is_undefined_spec in Hs.
  apply negb_false_iff. apply is_undefined_spec.
  rewrite MemoryCache_get_value in Hs |- *.
  cbn [TrelloClient.sleep TrelloClient.now TrelloClient.cache].
  rewrite Hcache. unfold afterMiss. rewrite Hgate.
  cbn [TrelloClient.count_cacheMiss TrelloClient.with_cache TrelloClient.with_stats
       TrelloClient.cache].
  rewrite MemoryCache_get_store.
  apply NodeCache_get_absent. now apply NodeCache_get_undefined.
Qed.

(** The service answers a request with [null]. *)
Lemma falsy_result_is_not_cached_witness :
  let net_null : TrelloClient.Net :=
    fun _ _ => {| TrelloClient.settled := Fulfilled JsNull;
                  TrelloClient.elapsed := 120 |} in
  let w' := (TrelloClient.makeRequest demo_stringify net_null "/boards"
               TrelloClient.no_options fresh_world).2 in
  TrelloClient.cache w'
  = TrelloClient.cache (afterMiss demo_stringify "/boards" TrelloClient.no_options
                          fresh_world)
  /\ forall d : Z,
       TrelloClient.servedFromCache demo_stringify "/boards" TrelloClient.no_options
         (TrelloClient.sleep d w')
       = false.
Proof.
  exact (falsy_result_is_not_cached demo_stringify
           (fun _ _ => {| TrelloClient.settled := Fulfilled JsNull;
                          TrelloClient.elapsed := 120 |})
           "/boards" TrelloClient.no_options fresh_world _ JsNull
           eq_refl eq_refl eq_refl).
Defined.

(** *** Statistics *)

(** X16 (average response time).  The average that [updateStats] keeps
    stays within the range of the durations it has seen: if the average so
    far and the new duration both lie between [lo] and [hi], so does the new
    average; and the first duration recorded is the first average. *)
Theorem average_stays_in_range (success : bool) (duration lo hi : Z)
    (w : TrelloClient.World) :
  0 <= TrelloClient.totalRequests (TrelloClient.stats w) ->
  lo <= TrelloClient.averageResponseTime (TrelloClient.stats w) <= hi ->
  lo <= duration <= hi ->
  let s' := TrelloClient.stats (TrelloClient.updateStats success duration w) in
  lo <= TrelloClient.averageResponseTime s' <= hi
  /\ (TrelloClient.totalRequests (TrelloClient.stats w) = 0 ->
      TrelloClient.averageResponseTime s' = duration).
Proof.
  intros Htotal Havg Hd s'. subst s'. unfold TrelloClient.updateStats.
  cbn [TrelloClient.with_stats TrelloClient.stats TrelloClient.averageResponseTime].
  split.
  - apply round_div_bounds; [lia|]. nia.
  - intros H0. rewrite H0.
    assert (duration <= Math_round_div
                          (TrelloClient.averageResponseTime (TrelloClient.stats w)
                           * (0 + 1 - 1) + duration) (0 + 1) <= duration); [|lia].
    apply round_div_bounds; lia.
Qed.

Lemma average_stays_in_range_witness :
  let s' := TrelloClient.stats (TrelloClient.updateStats true 120 fresh_world) in
  0 <= TrelloClient.averageResponseTime s' <= 200
  /\ (TrelloClient.totalRequests (TrelloClient.stats fresh_world) = 0 ->
      TrelloClient.averageResponseTime s' = 120).
Proof.
  apply (average_stays_in_range true 120 0 200 fresh_world).
  - vm_compute. discriminate.
  - vm_compute. split; discriminate.
  - lia.
Defined.

(** X17 (the counters of the client).  Whatever a call does, the total of
    requests moves by as much as the successes and the failures together, so
    that a total that equals their sum keeps doing so; a GET call with
    [useCache] on counts exactly one cache hit or one cache miss, any other
    call none; and no counter ever goes down. *)
Theorem client_counters_move_together (stringify : JsVal -> string)
    (net : TrelloClient.Net) (endpoint : string)
    (options : TrelloClient.ApiRequestOptions) (w : TrelloClient.World) :
  let s := TrelloClient.stats w in
  let s' := TrelloClient.stats
              (TrelloClient.makeRequest stringify net endpoint options w).2 in
  TrelloClient.totalRequests s' - TrelloClient.totalRequests s
  = (TrelloClient.successfulRequests s' - TrelloClient.successfulRequests s)
    + (TrelloClient.failedRequests s' - TrelloClient.failedRequests s)
  /\ TrelloClient.successfulRequests s <= TrelloClient.successfulRequests s'
  /\ TrelloClient.failedRequests s <= TrelloClient.failedRequests s'
  /\ TrelloClient.cacheHits s <= TrelloClient.cacheHits s'
  /\ TrelloClient.cacheMisses s <= TrelloClient.cacheMisses s'
  /\ TrelloClient.cacheHits s' + TrelloClient.cacheMisses s'
     = TrelloClient.cacheHits s + TrelloClient.cacheMisses s
       + (if TrelloClient.is_GET
               (default TrelloClient.GET (TrelloClient.method options))
             && default true (TrelloClient.useCache options)
          then 1 else 0).
Proof.
  cbv zeta.
  destruct (TrelloClient.servedFromCache stringify endpoint options w) eqn:Hs.
  - destruct (servedFromCache_true _ _ _ _ Hs) as (cached & c & _ & _ & Hrun).
    rewrite Hrun. unfold TrelloClient.servedFromCache in Hs.
    apply andb_prop in Hs as [-> _]. simpl. lia.
  - rewrite (servedFromCache_false stringify net _ _ _ Hs). cbv zeta.
    pose proof (afterMiss_counted stringify endpoint options w) as Hw1.
    assert (Hmiss : TrelloClient.cacheHits
                      (TrelloClient.stats (afterMiss stringify endpoint options w))
                    = TrelloClient.cacheHits (TrelloClient.stats w)
                    /\ TrelloClient.cacheMisses
                         (TrelloClient.stats (afterMiss stringify endpoint options w))
                       = TrelloClient.cacheMisses (TrelloClient.stats w)
                         + (if TrelloClient.is_GET
                                 (default TrelloClient.GET (TrelloClient.method options))
                               && default true (TrelloClient.useCache options)
                            then 1 else 0)).
    { unfold afterMiss. destruct (_ && _); simpl; lia. }
    destruct Hmiss as [Hh1 Hm1].
    set (w1 := afterMiss stringify endpoint options w) in *.
    match goal with
    | |- context [TrelloClient.retryLoop net ?f ?m ?c ?k ?t ?p ?r ?n ?s ?a ?l w1] =>
        destruct (retryLoop_counted net f m c k t p r n s a l w1)
          as (jobs & _ & Hloop & Hexit & _);
        destruct (retryLoop_cache net f m c k t p r n s a l w1) as (Hh & Hm & _);
        destruct (TrelloClient.retryLoop net f m c k t p r n s a l w1)
          as [[value|last] w2]
    end; cbn [fst snd] in *; unfold counted in *; simpl;
      destruct (TrelloClient.is_GET _ && _); lia.
Qed.

(** ** Bulk operations: every item is tried *)

Section ToolAttempts.

Variable stringify : JsVal -> string.
Variable net : TrelloClient.Net.
Variable schedule : nat -> list nat.
Variable CannotRead : JsVal -> string -> JsError.
Variable validateRequired : forall A : Type, A -> list string -> option JsError.
Variable createSummary : string -> list (string * JsVal) -> string.
Variable trim : string -> string.
Variable valid_date : string -> bool.

(** The jobs of the calls of a bulk operation, each call leaving [retries]
    at its default of 3. *)
Lemma bulk_job_count {A : Type} (op : A -> TrelloClient.Call) (items : list A)
    (w w' : TrelloClient.World) (runs : list (Settled JsVal * list nat)) :
  (forall item, TrelloClient.retries (TrelloClient.call_options (op item)) = None) ->
  accounts net w w' (op <$> items) runs ->
  (length (TrelloClient.jobs w) + length items <= length (TrelloClient.jobs w')
   <= length (TrelloClient.jobs w) + 4 * length items)%nat.
Proof.
  intros Hop Hacc.
  pose proof (accounts_count net w w' (op <$> items) runs
                ltac:(apply Forall_fmap, Forall_forall; intros item _; apply Hop)
                Hacc) as H.
  now rewrite length_fmap in H.
Qed.

(** X18 (bulk operations).  The bulk operations try every item, whatever
    happens to the others: for [n] items between [n] and [4 n] jobs go to
    the limiter, each item being a call with the default of three retries.
    This holds of [bulkCreateCards] and [bulkUpdateCards] of the client,
    which give back at most [n] cards, and of the create, the move and the
    archive tool when they accept their arguments, in whatever order the
    calls of a wave take their turns. *)
Theorem bulk_operations_try_every_item (w : TrelloClient.World) :
  (forall request : TrelloClient.BulkCreateCardsRequest,
     let n := length (TrelloClient.cards request) in
     let r := TrelloClient.bulkCreateCards stringify net schedule request w in
     (length (TrelloClient.jobs w) + n <= length (TrelloClient.jobs r.2)
      <= length (TrelloClient.jobs w) + 4 * n)%nat
     /\ (length r.1 <= n)%nat)
  /\ (forall updates : list TrelloClient.CardUpdate,
        let n := length updates in
        let r := TrelloClient.bulkUpdateCards stringify net schedule updates w in
        (length (TrelloClient.jobs w) + n <= length (TrelloClient.jobs r.2)
         <= length (TrelloClient.jobs w) + 4 * n)%nat
        /\ (length r.1 <= n)%nat)
  /\ (forall (args : BulkTools.BulkCreateArgs) (cards : list BulkTools.CardInput),
        validateRequired _ args ["listId"; "cards"] = None ->
        BulkTools.args_cards args = Some cards -> cards <> [] ->
        (length cards <= 50)%nat ->
        BulkTools.validateCards trim valid_date 0 cards = None ->
        let r := BulkTools.bulkCreateExecute stringify net schedule CannotRead
                   validateRequired createSummary trim valid_date args w in
        (length (TrelloClient.jobs w) + length cards
         <= length (TrelloClient.jobs r.2)
         <= length (TrelloClient.jobs w) + 4 * length cards)%nat)
  /\ (forall (args : BulkTools.BulkMoveArgs) (cardIds : list string),
        validateRequired _ args ["cardIds"; "targetListId"] = None ->
        BulkTools.move_cardIds args = Some cardIds -> cardIds <> [] ->
        (length cardIds <= 50)%nat ->
        let r := BulkTools.bulkMoveExecute stringify net schedule CannotRead
                   validateRequired createSummary args w in
        (length (TrelloClient.jobs w) + length cardIds
         <= length (TrelloClient.jobs r.2)
         <= length (TrelloClient.jobs w) + 4 * length cardIds)%nat)
  /\ (forall (args : BulkTools.BulkArchiveArgs) (cardIds : list string),
        validateRequired _ args ["cardIds"] = None ->
        BulkTools.archive_cardIds args = Some cardIds -> cardIds <> [] ->
        (length cardIds <= 50)%nat ->
        let r := BulkTools.bulkArchiveExecute stringify net schedule CannotRead
                   validateRequired createSummary args w in
        (length (TrelloClient.jobs w) + length cardIds
         <= length (TrelloClient.jobs r.2)
         <= length (TrelloClient.jobs w) + 4 * length cardIds)%nat).
Proof.
  split; [|split; [|split; [|split]]].
  - intros request n r. subst n r. unfold TrelloClient.bulkCreateCards.
    destruct (bulkCreateLoop_accounts stringify net schedule request
                (length (TrelloClient.cards request)) 0 [] w
                ltac:(unfold TrelloClient.batchSize; lia))
      as (runs & Hacc & Hdone).
    rewrite drop_0 in Hacc. rewrite Hdone. simpl.
    pose proof (accounts_length net _ _ _ _ Hacc) as Hruns.
    rewrite length_fmap in Hruns.
    split; [eapply bulk_job_count; [|exact Hacc]; reflexivity|].
    pose proof (fulfilled_values_length runs.*1) as Hle.
    rewrite length_fmap in Hle. lia.
  - intros updates n r. subst n r. unfold TrelloClient.bulkUpdateCards.
    destruct (bulkUpdateLoop_accounts stringify net schedule updates
                (length updates) 0 [] w ltac:(unfold TrelloClient.batchSize; lia))
      as (runs & Hacc & Hdone).
    rewrite drop_0 in Hacc. rewrite Hdone. simpl.
    pose proof (accounts_length net _ _ _ _ Hacc) as Hruns.
    rewrite length_fmap in Hruns.
    split; [eapply bulk_job_count; [|exact Hacc]; reflexivity|].
    pose proof (fulfilled_values_length runs.*1) as Hle.
    rewrite length_fmap in Hle. lia.
  - intros args cards Hvalid Hcards Hne Hlen Hcheck r. subst r.
    destruct (bulkCreate_accounts stringify schedule CannotRead validateRequired
                createSummary trim valid_date net w args cards Hvalid Hcards Hne
                Hlen Hcheck) as (runs & Hacc & _).
    eapply bulk_job_count in Hacc; [|intros card; reflexivity].
    now rewrite length_fmap in Hacc.
  - intros args cardIds Hvalid Hids Hne Hlen r. subst r.
    destruct (bulkMove_accounts stringify schedule CannotRead validateRequired
                createSummary net w args cardIds Hvalid Hids Hne Hlen)
      as (runs & Hacc & _).
    eapply bulk_job_count in Hacc; [exact Hacc | intros cardId; reflexivity].
  - intros args cardIds Hvalid Hids Hne Hlen r. subst r.
    destruct (bulkArchive_accounts stringify schedule CannotRead validateRequired
                createSummary net w args cardIds Hvalid Hids Hne Hlen)
      as (runs & Hacc & _).
    eapply bulk_job_count in Hacc; [exact Hacc | intros cardId; reflexivity].
Qed.

Lemma validateCards_app (good rest : list BulkTools.CardInput) :
  forall i : nat,
    BulkTools.validateCards trim valid_date i good = None ->
    BulkTools.validateCards trim valid_date i (good ++ rest)
    = BulkTools.validateCards trim valid_date (i + length good) rest.
Proof.
  induction good as [|card good IH]; intros i Hgood; simpl.
  - now rewrite Nat.add_0_r.
  - simpl in Hgood.
    destruct (negb (BulkTools.given (BulkTools.name card))
              || negb (BulkTools.given (trim <$> BulkTools.name card)));
      [discriminate|].
    destruct (BulkTools.given (BulkTools.dueDate card)
              && negb (valid_date (default "" (BulkTools.dueDate card))));
      [discriminate|].
    rewrite IH by exact Hgood. f_equal. lia.
Qed.

(** X19 (validation comes first).  The create tool checks every card before
    it creates any.  When the cards before the first one without a name (or
    with a name that trims to nothing) are valid, the tool answers with the
    error that gives the position of that card, counted from 1, and has done
    nothing: no job went to the limiter for the valid cards either.  The
    same holds of a tool called with an empty list, or with something that
    is not a list. *)
Theorem invalid_card_rejects_batch (w : TrelloClient.World) :
  (forall (args : BulkTools.BulkCreateArgs)
          (good rest : list BulkTools.CardInput) (bad : BulkTools.CardInput),
     validateRequired _ args ["listId"; "cards"] = None ->
     BulkTools.args_cards args = Some (good ++ bad :: rest) ->
     (length (good ++ bad :: rest) <= 50)%nat ->
     BulkTools.validateCards trim valid_date 0 good = None ->
     BulkTools.given (BulkTools.name bad) = false
     \/ BulkTools.given (trim <$> BulkTools.name bad) = false ->
     BulkTools.bulkCreateExecute stringify net schedule CannotRead validateRequired
       createSummary trim valid_date args w
     = (BulkTools.ToolError
          ("Kart " +:+ pretty (Z.of_nat (length good) + 1) +:+ ": Kart adı gerekli"),
        w))
  /\ (forall args : BulkTools.BulkCreateArgs,
        validateRequired _ args ["listId"; "cards"] = None ->
        BulkTools.args_cards args = None \/ BulkTools.args_cards args = Some [] ->
        BulkTools.bulkCreateExecute stringify net schedule CannotRead validateRequired
          createSummary trim valid_date args w
        = (BulkTools.ToolError "En az bir kart bilgisi gerekli", w))
  /\ (forall args : BulkTools.BulkMoveArgs,
        validateRequired _ args ["cardIds"; "targetListId"] = None ->
        BulkTools.move_cardIds args = None \/ BulkTools.move_cardIds args = Some [] ->
        BulkTools.bulkMoveExecute stringify net schedule CannotRead validateRequired
          createSummary args w
        = (BulkTools.ToolError "En az bir kart ID'si gerekli", w))
  /\ (forall args : BulkTools.BulkArchiveArgs,
        validateRequired _ args ["cardIds"] = None ->
        BulkTools.archive_cardIds args = None
        \/ BulkTools.archive_cardIds args = Some [] ->
        BulkTools.bulkArchiveExecute stringify net schedule CannotRead validateRequired
          createSummary args w
        = (BulkTools.ToolError "En az bir kart ID'si gerekli", w)).
Proof.
  split; [|split; [|split]].
  - intros args good rest bad Hvalid Hcards Hlen Hgood Hbad.
    unfold BulkTools.bulkCreateExecute. rewrite Hvalid, Hcards.
    assert (Hcap : (50 <? length (good ++ bad :: rest))%nat = false)
      by (apply Nat.ltb_ge; exact Hlen).
    destruct (good ++ bad :: rest) as [|card cards] eqn:Hall.
    { destruct good; discriminate. }
    rewrite Hcap, <- Hall, (validateCards_app good (bad :: rest) 0 Hgood).
    simpl. destruct Hbad as [-> | ->]; [reflexivity|].
    now rewrite orb_true_r.
  - intros args Hvalid Hcards. unfold BulkTools.bulkCreateExecute.
    rewrite Hvalid. destruct Hcards as [-> | ->]; reflexivity.
  - intros args Hvalid Hids. unfold BulkTools.bulkMoveExecute.
    rewrite Hvalid. destruct Hids as [-> | ->]; reflexivity.
  - intros args Hvalid Hids. unfold BulkTools.bulkArchiveExecute.
    rewrite Hvalid. destruct Hids as [-> | ->]; reflexivity.
Qed.

End ToolAttempts.

(** Three cards to create, the third without a name. *)
Lemma invalid_card_rejects_batch_witness :
  BulkTools.bulkCreateExecute demo_stringify net_ok as_due demo_CannotRead
    demo_validateRequired demo_createSummary demo_trim demo_valid_date
    {| BulkTools.args_listId := "list1";
       BulkTools.args_cards :=
         Some ([card_named "Card A"; card_named "Card B"]
               ++ card_named "" :: [card_named "Card D"]) |}
    fresh_world
  = (BulkTools.ToolError "Kart 3: Kart adı gerekli", fresh_world).
Proof.
  exact (proj1 (invalid_card_rejects_batch demo_stringify net_ok as_due demo_CannotRead
                  demo_validateRequired demo_createSummary demo_trim
                  demo_valid_date fresh_world)
           {| BulkTools.args_listId := "list1";
              BulkTools.args_cards :=
                Some ([card_named "Card A"; card_named "Card B"]
                      ++ card_named "" :: [card_named "Card D"]) |}
           [card_named "Card A"; card_named "Card B"] [card_named "Card D"]
           (card_named "") eq_refl eq_refl ltac:(simpl; lia) eq_refl
           (or_introl eq_refl)).
Defined.

(** Two cards to move, with the service down. *)
Lemma bulk_operations_try_every_item_witness :
  let r := BulkTools.bulkMoveExecute demo_stringify net_down as_due demo_CannotRead
             demo_validateRequired demo_createSummary two_moves fresh_world in
  (length (TrelloClient.jobs fresh_world) + 2 <= length (TrelloClient.jobs r.2)
   <= length (TrelloClient.jobs fresh_world) + 4 * 2)%nat.
Proof.
  exact (proj1 (proj2 (proj2 (proj2
           (bulk_operations_try_every_item demo_stringify net_down as_due demo_CannotRead
              demo_validateRequired demo_createSummary demo_trim
              demo_valid_date fresh_world))))
           two_moves ["idA"; "idB"] eq_refl eq_refl ltac:(discriminate)
           ltac:(simpl; lia)).
Defined.

(** The rates of all the batches that a bulk tool accepts, one by one. *)
Lemma rates_in_range :
  forallb (fun total => forallb (rateInRange total) (seq 0 (S total))) (seq 1 50)
  = true.
Proof. vm_compute. reflexivity. Qed.

(** X20 (success rate).  For a batch that a bulk tool accepts (at most 50
    items), the rate shown in the summary is a whole number of percent
    between 0 and 100, and it is not rounded to an extreme: "100%" is shown
    only when every item succeeded and "0%" only when none did. *)
Theorem success_rate_extremes (successCount total : nat) :
  (0 < total <= 50)%nat -> (successCount <= total)%nat ->
  exists rate : Z,
    BulkTools.successRate successCount total = JsStr (pretty rate +:+ "%")
    /\ 0 <= rate <= 100
    /\ (rate = 100 <-> successCount = total)
    /\ (rate = 0 <-> successCount = 0%nat).
Proof.
  intros Htotal Hs.
  pose proof rates_in_range as Hall.
  rewrite forallb_forall in Hall.
  specialize (Hall total ltac:(apply in_seq; lia)).
  rewrite forallb_forall in Hall.
  specialize (Hall successCount ltac:(apply in_seq; lia)).
  unfold rateInRange in Hall. unfold BulkTools.successRate, shown_rounded.
  destruct (Math_round (BulkTools.percentage successCount total)) as [rate|];
    [|discriminate].
  exists rate. split; [reflexivity|].
  apply andb_prop in Hall as [Hall H0]. apply andb_prop in Hall as [Hall H100].
  apply andb_prop in Hall as [Hlo Hhi].
  apply Z.leb_le in Hlo. apply Z.leb_le in Hhi.
  apply Bool.eqb_prop in H0. apply Bool.eqb_prop in H100.
  split; [lia|]. split.
  - rewrite <- Z.eqb_eq, H100. apply Nat.eqb_eq.
  - rewrite <- Z.eqb_eq, H0. apply Nat.eqb_eq.
Qed.

(** Forty-nine of fifty is shown as 98 percent. *)
Lemma success_rate_extremes_witness :
  exists rate : Z,
    BulkTools.successRate 49 50 = JsStr (pretty rate +:+ "%")
    /\ 0 <= rate <= 100
    /\ (rate = 100 <-> 49%nat = 50%nat)
    /\ (rate = 0 <-> 49%nat = 0%nat).
Proof.
  exact (success_rate_extremes 49 50 ltac:(lia) ltac:(lia)).
Defined.

(** The rate is rounded from the product that the platform computes, which
    can fall short of the exact one: 23 of 40 are shown as 57 percent, and
    29 of 40 as 73. *)
Example success_rate_rounding :
  BulkTools.successRate 23 40 = JsStr "57%"
  /\ BulkTools.successRate 29 40 = JsStr "73%"
  /\ BulkTools.successRate 1 3 = JsStr "33%".
Proof. vm_compute. repeat split; reflexivity. Qed.

(** ** A card with its Power-Up data *)

Lemma lookup_set_field (key : string) (v : JsVal) (fields : list (string * JsVal)) :
  lookup_field key (TrelloClient.set_field key v fields) = v
  /\ forall key' : string,
       key' <> key ->
       lookup_field key' (TrelloClient.set_field key v fields)
       = lookup_field key' fields.
Proof.
  induction fields as [|[k x] fields [IH1 IH2]]; simpl.
  - rewrite String.eqb_refl. split; [reflexivity|].
    intros key' Hne. apply String.eqb_neq in Hne.
    rewrite String.eqb_sym in Hne. now rewrite Hne.
  - destruct (String.eqb k key) eqn:Hk; simpl.
    + apply String.eqb_eq in Hk. subst k. rewrite String.eqb_refl.
      split; [reflexivity|].
      intros key' Hne. apply String.eqb_neq in Hne.
      rewrite String.eqb_sym in Hne. now rewrite Hne.
    + rewrite Hk. split; [exact IH1|].
      intros key' Hne. destruct (String.eqb k key'); [reflexivity|].
      now apply IH2.
Qed.

Section PowerUps.

Variable stringify : JsVal -> string.
Variable net : TrelloClient.Net.

Lemma call_job_bound (endpoint : string) (options : TrelloClient.ApiRequestOptions)
    (w : TrelloClient.World) :
  (length (TrelloClient.jobs w)
   <= length (TrelloClient.jobs
                (TrelloClient.makeRequest stringify net endpoint options w).2)
   <= length (TrelloClient.jobs w)
      + Z.to_nat (default 3 (TrelloClient.retries options) + 1)%Z)%nat.
Proof.
  destruct (TrelloClient.servedFromCache stringify endpoint options w) eqn:Hs.
  - destruct (servedFromCache_true _ _ _ _ Hs) as (cached & c & _ & _ & Hrun).
    rewrite Hrun. simpl. lia.
  - rewrite (servedFromCache_false stringify net _ _ _ Hs). cbv zeta.
    pose proof (afterMiss_jobs stringify endpoint options w) as Hjobs.
    match goal with
    | |- context [TrelloClient.retryLoop net ?f ?m ?c ?k ?t ?p ?r ?n ?s ?a ?l ?w1] =>
        destruct (retryLoop_jobs net f m c k t p r n s a l w1)
          as (new & Hnew & Hfuel & _);
        destruct (TrelloClient.retryLoop net f m c k t p r n s a l w1)
          as [[value|last] w2]
    end; cbn [fst snd] in *; simpl; rewrite Hnew, length_app, Hjobs; lia.
Qed.

Lemma orEmpty_jobs (endpoint : string) (w : TrelloClient.World) :
  (length (TrelloClient.jobs w)
   <= length (TrelloClient.jobs
                (TrelloClient.orEmpty
                   (TrelloClient.makeRequest stringify net endpoint
                      TrelloClient.no_options w)).2)
   <= length (TrelloClient.jobs w) + 4)%nat.
Proof.
  pose proof (call_job_bound endpoint TrelloClient.no_options w) as H.
  destruct (TrelloClient.makeRequest stringify net endpoint TrelloClient.no_options w)
    as [[value|error] w']; simpl in *; lia.
Qed.

Lemma orEmpty_leaves (request : Settled JsVal * TrelloClient.World) :
  leaves request (TrelloClient.orEmpty request).1 (TrelloClient.orEmpty request).2.
Proof. destruct request as [[value|error] w']; split; reflexivity. Qed.

(** X21 (a card with its Power-Up data).  [getCardWithPowerUps] fails only
    when the request for the card itself fails, and then with the error of
    that request.  Otherwise three requests follow, one after the other:
    for the custom fields of the board of the card (this one is left out,
    and the list is empty, when the card is [null] or [undefined]), for the
    custom field items of the card and for its plugin data.  Each leaves
    the value it is fulfilled with, or an empty list when it is rejected.
    The result has the properties of the card and, under [powerUps], an
    object with exactly the three lists; and the whole call hands at most
    sixteen jobs to the limiter. *)
Theorem power_ups_never_fail_the_card (cardId : string) (w : TrelloClient.World) :
  let first := TrelloClient.makeRequest stringify net ("/cards/" +:+ cardId)
                 TrelloClient.no_options w in
  let r := TrelloClient.getCardWithPowerUps stringify net cardId w in
  match first.1 with
  | Rejected error => r = (Rejected error, first.2)
  | Fulfilled card =>
      exists (result customFields customFieldItems pluginData : JsVal)
             (w2 w3 : TrelloClient.World),
        match prop_of card "idBoard" with
        | Some boardId =>
            leaves (TrelloClient.makeRequest stringify net
                      ("/boards/" +:+ to_string boardId +:+ "/customFields")
                      TrelloClient.no_options first.2)
                   customFields w2
        | None => customFields = JsArr [] /\ w2 = first.2
        end
        /\ leaves (TrelloClient.makeRequest stringify net
                     ("/cards/" +:+ cardId +:+ "/customFieldItems")
                     TrelloClient.no_options w2)
                  customFieldItems w3
        /\ leaves (TrelloClient.makeRequest stringify net
                     ("/cards/" +:+ cardId +:+ "/pluginData")
                     TrelloClient.no_options w3)
                  pluginData r.2
        /\ r.1 = Fulfilled result
        /\ prop result "powerUps"
           = JsObj [("customFields", customFields);
                    ("customFieldItems", customFieldItems);
                    ("pluginData", pluginData)]
        /\ (forall (fields : list (string * JsVal)) (key : string),
              card = JsObj fields -> key <> "powerUps" ->
              prop result key = prop card key)
        /\ (card = JsNull -> customFields = JsArr [])
  end
  /\ (length (TrelloClient.jobs r.2) <= length (TrelloClient.jobs w) + 16)%nat.
Proof.
  cbv zeta. unfold TrelloClient.getCardWithPowerUps.
  pose proof (call_job_bound ("/cards/" +:+ cardId) TrelloClient.no_options w) as H1.
  destruct (TrelloClient.makeRequest stringify net ("/cards/" +:+ cardId)
              TrelloClient.no_options w) as [[card|error] w1];
    cbn [fst snd] in *; simpl in H1; [|split; [reflexivity | simpl; lia]].
  assert (H2 : exists customFields w2,
             match prop_of card "idBoard" with
             | Some boardId =>
                 TrelloClient.orEmpty
                   (TrelloClient.makeRequest stringify net
                      ("/boards/" +:+ to_string boardId +:+ "/customFields")
                      TrelloClient.no_options w1)
             | None => (JsArr [], w1)
             end = (customFields, w2)
             /\ (length (TrelloClient.jobs w1) <= length (TrelloClient.jobs w2)
                 <= length (TrelloClient.jobs w1) + 4)%nat
             /\ match prop_of card "idBoard" with
                | Some boardId =>
                    leaves (TrelloClient.makeRequest stringify net
                              ("/boards/" +:+ to_string boardId +:+ "/customFields")
                              TrelloClient.no_options w1)
                           customFields w2
                | None => customFields = JsArr [] /\ w2 = w1
                end
             /\ (card = JsNull -> customFields = JsArr [])).
  { destruct (prop_of card "idBoard") as [boardId|] eqn:Hboard.
    - pose proof (orEmpty_jobs ("/boards/" +:+ to_string boardId +:+ "/customFields")
                    w1) as H.
      pose proof (orEmpty_leaves
                    (TrelloClient.makeRequest stringify net
                       ("/boards/" +:+ to_string boardId +:+ "/customFields")
                       TrelloClient.no_options w1)) as Hl.
      destruct (TrelloClient.orEmpty _) as [customFields w2].
      exists customFields, w2. split; [reflexivity|]. split; [exact H|].
      split; [exact Hl|]. intros ->. discriminate.
    - exists (JsArr []), w1. split; [reflexivity|]. split; [lia | auto]. }
  destruct H2 as (customFields & w2 & -> & Hj2 & Hl2 & Hnull).
  pose proof (orEmpty_jobs ("/cards/" +:+ cardId +:+ "/customFieldItems") w2) as Hj3.
  pose proof (orEmpty_leaves
                (TrelloClient.makeRequest stringify net
                   ("/cards/" +:+ cardId +:+ "/customFieldItems")
                   TrelloClient.no_options w2)) as Hl3.
  destruct (TrelloClient.orEmpty
              (TrelloClient.makeRequest stringify net
                 ("/cards/" +:+ cardId +:+ "/customFieldItems")
                 TrelloClient.no_options w2)) as [customFieldItems w3].
  pose proof (orEmpty_jobs ("/cards/" +:+ cardId +:+ "/pluginData") w3) as Hj4.
  pose proof (orEmpty_leaves
                (TrelloClient.makeRequest stringify net
                   ("/cards/" +:+ cardId +:+ "/pluginData")
                   TrelloClient.no_options w3)) as Hl4.
  destruct (TrelloClient.orEmpty
              (TrelloClient.makeRequest stringify net
                 ("/cards/" +:+ cardId +:+ "/pluginData")
                 TrelloClient.no_options w3)) as [pluginData w4].
  cbn [fst snd] in *. split; [|lia].
  eexists _, customFields, customFieldItems, pluginData, w2, w3.
  split; [exact Hl2|]. split; [exact Hl3|]. split; [exact Hl4|].
  split; [reflexivity|].
  match goal with
  | |- context [TrelloClient.set_field "powerUps" ?v (spread card)] =>
      destruct (lookup_set_field "powerUps" v (spread card)) as [Hset Hother]
  end.
  split; [exact Hset|]. split; [|exact Hnull].
  intros fields key -> Hkey. cbn [prop spread] in *. now apply Hother.
Qed.

(** A card whose board does not answer for its custom fields: the card
    comes back with an empty list in their place. *)
Example power_ups_of_a_card :
  let net : TrelloClient.Net :=
    fun _ req =>
      if String.eqb (TrelloClient.url req)
                    (TrelloClient.baseUrl +:+ "/boards/b1/customFields")
      then {| TrelloClient.settled := Rejected (Error "forbidden");
              TrelloClient.elapsed := 30 |}
      else if String.eqb (TrelloClient.url req) (TrelloClient.baseUrl +:+ "/cards/c1")
      then {| TrelloClient.settled :=
                Fulfilled (JsObj [("id", JsStr "c1"); ("idBoard", JsStr "b1")]);
              TrelloClient.elapsed := 120 |}
      else {| TrelloClient.settled := Fulfilled (JsArr [JsStr "x"]);
              TrelloClient.elapsed := 120 |} in
  (TrelloClient.getCardWithPowerUps demo_stringify net "c1" fresh_world).1
  = Fulfilled
      (JsObj [("id", JsStr "c1"); ("idBoard", JsStr "b1");
              ("powerUps",
               JsObj [("customFields", JsArr []);
                      ("customFieldItems", JsArr [JsStr "x"]);
                      ("pluginData", JsArr [JsStr "x"])])]).
Proof. vm_compute. reflexivity. Qed.

End PowerUps.

(** ** The transport *)

Section TransportFacts.

Variable JSON_stringify : JsVal -> string.
Variable JSON_parse : string -> option JsVal.
Variable withCredentials : string -> option string.
Variable InvalidURL : JsError.
Variable CannotReadNull : JsError.
Variable fetch : TrelloClient.FetchCall -> Settled TrelloClient.Response.

(** X22 (the transport).  [executeRequest] sends a body with POST and PUT
    only, and only a truthy one.  A response that is not ok is never
    returned as data: the call is rejected with an error that carries the
    status of the response, and whose message is the [message] of the JSON
    body when it has a truthy one, else the text of the body, else "Unknown
    error" -- the text "HTTP <status>" that the code provides for is never
    used, because the empty text is not JSON.  The one response that loses
    its status is the one whose body is the JSON [null]: reading its
    [message] is a TypeError.  A response that is ok is read as JSON. *)
Theorem failed_response_is_rejected (url method requestUrl : string) (body : JsVal)
    (response : TrelloClient.Response) :
  JSON_parse "" = None ->
  withCredentials url = Some requestUrl ->
  fetch (TrelloClient.fetchCallOf JSON_stringify requestUrl method body)
  = Fulfilled response ->
  let r := TrelloClient.executeRequest JSON_stringify JSON_parse withCredentials
             InvalidURL CannotReadNull fetch url method body in
  r.1 = Some (TrelloClient.fetchCallOf JSON_stringify requestUrl method body)
  /\ (TrelloClient.fetch_body
        (TrelloClient.fetchCallOf JSON_stringify requestUrl method body)
      = if truthy body && (String.eqb method "POST" || String.eqb method "PUT")
        then Some (JSON_stringify body) else None)
  /\ (TrelloClient.ok response = true -> r.2 = TrelloClient.json response)
  /\ (TrelloClient.ok response = false ->
      r.2 = if match TrelloClient.errorDataOf JSON_parse response with
               | JsNull | JsUndefined => true
               | _ => false
               end
            then Rejected CannotReadNull
            else Rejected (MkError (failureMessage JSON_parse response)
                                   (Some (TrelloClient.status response))
                                   None None None)).
Proof.
  intros Hempty Hurl Hfetch r. subst r. unfold TrelloClient.executeRequest.
  rewrite Hurl, Hfetch. cbn [fst snd].
  split; [reflexivity|]. split; [reflexivity|]. split.
  - intros ->. reflexivity.
  - intros ->. cbn [negb].
    unfold TrelloClient.errorDataOf, TrelloClient.responseTextOf, failureMessage.
    destruct (TrelloClient.text response) as [responseText|reason];
      [|reflexivity].
    destruct (JSON_parse responseText) as [parsed|] eqn:Hparse.
    + assert (Hne : String.eqb responseText "" = false).
      { apply String.eqb_neq. intros ->. congruence. }
      destruct parsed as [| |b|n|s|items|fields];
        try reflexivity; cbn [prop_of]; rewrite Hne.
      * reflexivity.
      * reflexivity.
      * (* a string and an array have no [message] *)
        now rewrite prop_of_no_object.
      * now rewrite prop_of_no_object.
      * cbn [prop]. destruct (truthy (lookup_field "message" fields)); reflexivity.
    + cbn [prop_of prop lookup_field]. rewrite String.eqb_refl.
      unfold str_or. destruct (String.eqb responseText "") eqn:Hne;
        cbn [truthy]; rewrite ?Hne; reflexivity.
Qed.

End TransportFacts.

(** A request that the service refuses with the status 401. *)
Lemma failed_response_is_rejected_witness :
  (TrelloClient.executeRequest demo_stringify demo_parse demo_credentials
     (Error "Invalid URL") (Error "Cannot read properties of null")
     fetch_unauthorized "https://api.trello.com/1/boards/b1" "GET" JsUndefined).2
  = Rejected (MkError "invalid key" (Some 401) None None None).
Proof.
  exact (proj2 (proj2 (proj2
           (failed_response_is_rejected demo_stringify demo_parse demo_credentials
              (Error "Invalid URL") (Error "Cannot read properties of null")
              fetch_unauthorized "https://api.trello.com/1/boards/b1" "GET"
              "https://api.trello.com/1/boards/b1?key=k&token=t" JsUndefined _
              eq_refl eq_refl eq_refl))) eq_refl).
Defined.

(** ** The rate limiter: options, counters and waiting *)

Lemma num_or_nonzero (o : option Z) (d : Z) : d <> 0 -> num_or o d <> 0.
Proof.
  intros Hd. unfold num_or. destruct o as [n|]; [|exact Hd].
  destruct (n =? 0) eqn:Hn; [exact Hd|]. now apply Z.eqb_neq.
Qed.

(** X23 (zero counts as missing).  The constructor of the wrapper and
    [schedule] read their options with [||]: an option that is 0 gets the
    default, like one that is missing.  So no setting of the limiter can be
    made 0 at construction (a reservoir of 0 becomes 50, a [minTime] of 0
    becomes 50), and no job can be given the priority 0, which is the
    limiter's most urgent level: it becomes 5.  The option [maxTime] has no
    effect at all. *)
Theorem zero_counts_as_missing :
  (forall options : option TrelloRateLimiter.RateLimitOptions,
     let cfg := TrelloRateLimiter.constructor options in
     Bottleneck.maxConcurrent cfg <> 0 /\ Bottleneck.minTime cfg <> 0
     /\ Bottleneck.reservoir cfg <> 0 /\ Bottleneck.reservoirRefreshAmount cfg <> 0
     /\ Bottleneck.reservoirRefreshInterval cfg <> 0
     /\ (options ≫= TrelloRateLimiter.opt_reservoir = Some 0 ->
         Bottleneck.reservoir cfg = 50)
     /\ (options ≫= TrelloRateLimiter.opt_minTime = Some 0 ->
         Bottleneck.minTime cfg = 50))
  /\ (forall (now : Z) (options : option TrelloRateLimiter.ScheduleOptions),
        let job := TrelloRateLimiter.schedule now options in
        Bottleneck.priority job <> 0 /\ Bottleneck.weight job <> 0
        /\ Bottleneck.expiration job <> 0
        /\ (options ≫= TrelloRateLimiter.so_priority = Some 0 ->
            Bottleneck.priority job = 5))
  /\ (forall (o : TrelloRateLimiter.RateLimitOptions) (maxTime : option Z),
        TrelloRateLimiter.constructor (Some (withMaxTime maxTime o))
        = TrelloRateLimiter.constructor (Some o)).
Proof.
  split; [|split].
  - intros options cfg. subst cfg. unfold TrelloRateLimiter.constructor.
    cbn [Bottleneck.maxConcurrent Bottleneck.minTime Bottleneck.reservoir
         Bottleneck.reservoirRefreshAmount Bottleneck.reservoirRefreshInterval].
    repeat split; try (apply num_or_nonzero; discriminate);
      intros ->; reflexivity.
  - intros now options job. subst job. unfold TrelloRateLimiter.schedule.
    cbn [Bottleneck.priority Bottleneck.weight Bottleneck.expiration].
    repeat split; try (apply num_or_nonzero; discriminate).
    intros ->. reflexivity.
  - intros o maxTime. reflexivity.
Qed.

(** X24 (updateConfig).  [updateConfig] overwrites what its argument gives
    and nothing else: with no option given the limiter is as before, the
    option [maxTime] is ignored, and applying the same options twice is the
    same as once.  Unlike the constructor it takes 0 for a value: after
    [updateConfig({ reservoir: 0 })] the level is 0 and no job of a positive
    weight starts until the reservoir is refreshed. *)
Theorem updateConfig_overwrites (l : Bottleneck.Settings * Bottleneck.Store) :
  TrelloRateLimiter.updateConfig noOptions l = l
  /\ (forall (o : TrelloRateLimiter.RateLimitOptions) (maxTime : option Z),
        TrelloRateLimiter.updateConfig (withMaxTime maxTime o) l
        = TrelloRateLimiter.updateConfig o l)
  /\ (forall o : TrelloRateLimiter.RateLimitOptions,
        TrelloRateLimiter.updateConfig o (TrelloRateLimiter.updateConfig o l)
        = TrelloRateLimiter.updateConfig o l)
  /\ (forall (o : TrelloRateLimiter.RateLimitOptions) (weight : Z),
        TrelloRateLimiter.opt_reservoir o = Some 0 -> 0 < weight ->
        let l' := TrelloRateLimiter.updateConfig o l in
        Bottleneck.level l'.2 = 0
        /\ Bottleneck.step l'.1 l'.2 (Bottleneck.Admission weight) = l'.2).
Proof.
  destruct l as [cfg s]. split; [|split; [|split]].
  - unfold TrelloRateLimiter.updateConfig. simpl. destruct cfg, s. reflexivity.
  - intros o maxTime. reflexivity.
  - intros o. unfold TrelloRateLimiter.updateConfig. simpl.
    destruct (TrelloRateLimiter.opt_maxConcurrent o),
             (TrelloRateLimiter.opt_minTime o),
             (TrelloRateLimiter.opt_reservoir o),
             (TrelloRateLimiter.opt_reservoirRefreshAmount o),
             (TrelloRateLimiter.opt_reservoirRefreshInterval o); reflexivity.
  - intros o weight Hres Hweight l'. subst l'.
    unfold TrelloRateLimiter.updateConfig. rewrite Hres. simpl.
    split; [reflexivity|].
    unfold Bottleneck.register, Bottleneck.capacity. simpl.
    assert (Hno : (weight <=? Z.min (default (Bottleneck.maxConcurrent cfg)
                                       (TrelloRateLimiter.opt_maxConcurrent o)
                                     - Bottleneck.running s) 0) = false)
      by (apply Z.leb_gt; lia).
    now rewrite Hno.
Qed.

Lemma observe_counts (events : list TrelloRateLimiter.LimiterEvent) :
  forall s : TrelloRateLimiter.Counters,
    TrelloRateLimiter.requests (observe events s)
    = TrelloRateLimiter.requests s + occurrences TrelloRateLimiter.Executing events
    /\ TrelloRateLimiter.errors (observe events s)
       = TrelloRateLimiter.errors s + occurrences TrelloRateLimiter.Failed events
    /\ TrelloRateLimiter.retries (observe events s)
       = TrelloRateLimiter.retries s + occurrences TrelloRateLimiter.Retry events.
Proof.
  unfold observe, occurrences.
  induction events as [|e events IH]; intros s; simpl; [lia|].
  destruct (IH (TrelloRateLimiter.listen s e)) as (-> & -> & ->).
  destruct e; simpl; lia.
Qed.

(** X25 (throttling).  The counters of the wrapper count the events of the
    limiter: the jobs that started executing, the failures and the retries,
    and nothing else moves them.  [shouldThrottle] answers true exactly when
    more than one in ten of the jobs that started have failed (one in ten is
    not enough), never before a job has started, and never right after
    [resetStats]. *)
Theorem throttle_follows_error_rate (events : list TrelloRateLimiter.LimiterEvent) :
  let s := observe events TrelloRateLimiter.noCounters in
  TrelloRateLimiter.requests s = occurrences TrelloRateLimiter.Executing events
  /\ TrelloRateLimiter.errors s = occurrences TrelloRateLimiter.Failed events
  /\ TrelloRateLimiter.retries s = occurrences TrelloRateLimiter.Retry events
  /\ (TrelloRateLimiter.shouldThrottle s = true
      <-> 0 < occurrences TrelloRateLimiter.Executing events
          /\ occurrences TrelloRateLimiter.Executing events
             < 10 * occurrences TrelloRateLimiter.Failed events)
  /\ TrelloRateLimiter.shouldThrottle (TrelloRateLimiter.resetStats s) = false.
Proof.
  cbv zeta.
  destruct (observe_counts events TrelloRateLimiter.noCounters) as (Hr & He & Ht).
  cbn [TrelloRateLimiter.noCounters TrelloRateLimiter.requests
       TrelloRateLimiter.errors TrelloRateLimiter.retries] in Hr, He, Ht.
  rewrite Z.add_0_l in Hr, He, Ht.
  split; [exact Hr|]. split; [exact He|]. split; [exact Ht|].
  split; [|reflexivity].
  unfold TrelloRateLimiter.shouldThrottle. rewrite Hr, He.
  destruct (0 <? occurrences TrelloRateLimiter.Executing events) eqn:H0.
  - apply Z.ltb_lt in H0. split.
    + intros H. apply Z.ltb_lt in H. auto.
    + intros [_ H]. now apply Z.ltb_lt.
  - apply Z.ltb_ge in H0. split; [discriminate|]. intros [H _]. lia.
Qed.

(** The loop of [waitForQuiet] at its k-th evaluation, 100 k ms after the
    start: it ends at a poll number between [k] and 301. *)
Lemma waitLoop_settles (counts : nat -> TrelloRateLimiter.Counts) (startTime : Z) :
  forall (todo k fuel : nat),
    (k + todo = 302)%nat -> (k <= 301)%nat -> (todo <= fuel)%nat ->
    (forall i : nat, (i < k)%nat -> busy (counts i) = true) ->
    exists (outcome : Settled unit) (n : nat),
      TrelloRateLimiter.waitLoop fuel counts startTime
        (startTime + 100 * Z.of_nat k) k
      = Some (outcome, startTime + 100 * Z.of_nat n)
      /\ (n <= 301)%nat
      /\ (forall i : nat, (i < n)%nat -> busy (counts i) = true)
      /\ match outcome with
         | Fulfilled _ => busy (counts n) = false
         | Rejected reason =>
             n = 301%nat /\ busy (counts n) = true /\ reason = timeoutError
         end.
Proof.
  induction todo as [|todo IH]; intros k fuel Hk Hmax Hfuel Hbusy; [lia|].
  destruct fuel as [|fuel]; [lia|]. cbn [TrelloRateLimiter.waitLoop].
  fold (busy (counts k)). destruct (busy (counts k)) eqn:Hb.
  - destruct (30000 <? startTime + 100 * Z.of_nat k - startTime) eqn:Hout.
    + apply Z.ltb_lt in Hout. exists (Rejected timeoutError), k.
      split; [reflexivity|]. split; [lia|]. split; [exact Hbusy|].
      split; [lia|]. split; [exact Hb | reflexivity].
    + apply Z.ltb_ge in Hout.
      replace (startTime + 100 * Z.of_nat k + 100)
        with (startTime + 100 * Z.of_nat (S k)) by lia.
      apply IH; [lia | lia | lia |].
      intros i Hi. destruct (Nat.eq_dec i k) as [->|Hne]; [exact Hb|].
      apply Hbusy. lia.
  - exists (Fulfilled tt), k. split; [reflexivity|]. split; [lia|].
    split; [exact Hbusy | exact Hb].
Qed.

(** X26 (waiting for the limiter).  [waitForQuiet] always settles, at one of
    its polls, which are 100 ms apart, and within 30.1 seconds of the call.
    It resolves at the first poll that finds no job waiting or running, if
    that is one of the first 302; if all of these find the limiter busy it
    is rejected with the timeout error, 30100 ms after the call. *)
Theorem waitForQuiet_settles (counts : nat -> TrelloRateLimiter.Counts) (now : Z)
    (extra : nat) :
  exists (outcome : Settled unit) (n : nat),
    TrelloRateLimiter.waitForQuiet (302 + extra) counts now
    = Some (outcome, now + 100 * Z.of_nat n)
    /\ (n <= 301)%nat
    /\ (forall i : nat, (i < n)%nat -> busy (counts i) = true)
    /\ match outcome with
       | Fulfilled _ => busy (counts n) = false
       | Rejected reason =>
           n = 301%nat /\ busy (counts n) = true /\ reason = timeoutError
       end.
Proof.
  unfold TrelloRateLimiter.waitForQuiet.
  destruct (waitLoop_settles counts now 302 0 (302 + extra))
    as (outcome & n & Hrun & Hrest); [lia | lia | lia | intros i Hi; lia |].
  exists outcome, n. rewrite Z.mul_0_r, Z.add_0_r in Hrun. auto.
Qed.

(** The limiter is busy for the first three polls, and the limiter that is
    always busy. *)
Example waitForQuiet_examples :
  let idle := {| TrelloRateLimiter.RECEIVED := 9; TrelloRateLimiter.QUEUED := 0;
                 TrelloRateLimiter.RUNNING := 0; TrelloRateLimiter.EXECUTING := 0 |} in
  let working := {| TrelloRateLimiter.RECEIVED := 9; TrelloRateLimiter.QUEUED := 2;
                    TrelloRateLimiter.RUNNING := 1;
                    TrelloRateLimiter.EXECUTING := 1 |} in
  TrelloRateLimiter.waitForQuiet 302 (fun k => if (k <? 3)%nat then working else idle)
    1000
  = Some (Fulfilled tt, 1300)
  /\ TrelloRateLimiter.waitForQuiet 302 (fun _ => working) 1000
     = Some (Rejected timeoutError, 31100).
Proof. split; vm_compute; reflexivity. Qed.

(** ** The base class of the tools *)

(** X27 (truncateText).  A text that is not longer than [maxLength] is
    returned as it is.  A longer one is cut to its first [maxLength - 3]
    code units followed by three dots, which makes [maxLength] code units
    when [maxLength] is at least 3; for a smaller [maxLength] the result is
    the three dots alone, which is longer than asked for.  In every case the
    result has at most [max(maxLength, 3)] code units.  The length is that
    of the JavaScript string, so that a letter outside ASCII counts once,
    and a character beyond U+FFFF twice: the cut can fall between the two
    halves of its surrogate pair. *)
Theorem truncateText_bounds (text : CodeUnits) (maxLength : option Z) :
  let m := default 100 maxLength in
  let r := BaseTool.truncateText text maxLength in
  (str_length text <= m -> r = text)
  /\ (m < str_length text -> 3 <= m ->
      r = substring0 (m - 3) text ++ utf16 "..." /\ str_length r = m)
  /\ (m < str_length text -> m < 3 -> r = utf16 "...")
  /\ str_length r <= Z.max m 3.
Proof.
  cbv zeta. unfold BaseTool.truncateText, str_length, substring0.
  set (m := default 100 maxLength).
  destruct (Z.of_nat (length text) <=? m) eqn:Hle.
  - apply Z.leb_le in Hle. repeat split; try lia.
  - apply Z.leb_gt in Hle.
    assert (Hlen : Z.of_nat (length (take (Z.to_nat (m - 3)) text ++ utf16 "..."))
                   = Z.max (m - 3) 0 + 3).
    { rewrite length_app, length_take. change (length (utf16 "...")) with 3%nat. lia. }
    split; [lia|]. split; [|split].
    + intros _ H3. split; [reflexivity | lia].
    + intros _ H3. replace (Z.to_nat (m - 3)) with 0%nat by lia.
      now rewrite take_0.
    + lia.
Qed.

(** A Turkish word of five letters, three of them outside ASCII, is not
    longer than five; a text with an emoji is cut inside the emoji. *)
Example truncateText_counts_code_units :
  str_length (utf16 "çığır") = 5
  /\ BaseTool.truncateText (utf16 "çığır") (Some 5) = utf16 "çığır"
  /\ BaseTool.truncateText (utf16 "ğğğğğ") (Some 5) = utf16 "ğğğğğ"
  /\ BaseTool.truncateText (utf16 "İstanbul'da") (Some 8) = utf16 "İstan..."
  /\ str_length (utf16 "ab😀cd") = 6
  /\ BaseTool.truncateText (utf16 "ab😀cd") (Some 6) = utf16 "ab😀cd"
  /\ BaseTool.truncateText (utf16 "ab😀cdef") (Some 6)
     = utf16 "ab" ++ [55357%N] ++ utf16 "...".
Proof. vm_compute. repeat split; reflexivity. Qed.

(** [validateRequired] reads the fields as properties of the arguments: an
    array and a text have their [length] and what they hold under their
    indices, and reading a field of [null] throws. *)
Example validateRequired_reads_own_properties :
  BaseTool.validateRequired demo_CannotRead (JsArr [JsStr "idA"]) ["length"; "0"] = None
  /\ BaseTool.validateRequired demo_CannotRead (JsArr []) ["length"]
     = Some (Error "Missing required fields: length")
  /\ BaseTool.validateRequired demo_CannotRead (JsStr "çığır") ["length"; "4"; "5"]
     = Some (Error "Missing required fields: 5")
  /\ BaseTool.validateRequired demo_CannotRead
       (JsObj [("cardId", JsStr "idA"); ("archive", JsBool false)])
       ["cardId"; "archive"; "listId"]
     = Some (Error "Missing required fields: archive, listId")
  /\ BaseTool.validateRequired demo_CannotRead JsNull ["cardId"]
     = Some (demo_CannotRead JsNull "cardId").
Proof. vm_compute. repeat split; reflexivity. Qed.

(** The waiting time of [retry] after [j] failures. *)
Lemma retry_delay_sum (d : Z) (j : nat) :
  d * (2 ^ Z.of_nat j - 1) + d * 2 ^ Z.of_nat j = d * (2 ^ Z.of_nat (S j) - 1).
Proof.
  replace (Z.of_nat (S j)) with (Z.of_nat j + 1) by lia.
  rewrite Z.pow_add_r by lia. lia.
Qed.

(** [k] failures that are not the last attempt allowed. *)
Lemma retryFrom_failures {A : Type} (operation : nat -> Settled A) (N d : Z) :
  forall (k fuel j : nat) (lastError : option JsError),
    (forall i : nat, (j <= i < j + k)%nat -> is_fulfilled (operation i) = false) ->
    Z.of_nat (j + k) <= N ->
    BaseTool.retryFrom (k + fuel) operation N d (Z.of_nat j) j
                       (d * (2 ^ Z.of_nat j - 1)) lastError
    = BaseTool.retryFrom fuel operation N d (Z.of_nat (j + k)) (j + k)%nat
                         (d * (2 ^ Z.of_nat (j + k) - 1))
                         (match k with
                          | O => lastError
                          | S k' => reasonOf (operation (j + k')%nat)
                          end).
Proof.
  induction k as [|k IH]; intros fuel j lastError Hfail Hbudget.
  - simpl. now rewrite Nat.add_0_r.
  - cbn [Nat.add BaseTool.retryFrom].
    assert (Hle : (Z.of_nat j <=? N) = true) by (apply Z.leb_le; lia).
    assert (Hne : (Z.of_nat j =? N) = false) by (apply Z.eqb_neq; lia).
    rewrite Hle.
    pose proof (Hfail j ltac:(lia)) as Hj.
    destruct (operation j) as [value|error] eqn:Hop; [discriminate|].
    rewrite Hne, retry_delay_sum.
    replace (Z.of_nat j + 1) with (Z.of_nat (S j)) by lia.
    rewrite (IH fuel (S j) (Some error)).
    + replace (S j + k)%nat with (j + S k)%nat by lia. f_equal.
      destruct k as [|k].
      * rewrite Nat.add_0_r, Hop. reflexivity.
      * replace (S j + k)%nat with (j + S k)%nat by lia. reflexivity.
    + intros i Hi. apply Hfail. lia.
    + lia.
Qed.

(** X28 (retry).  [BaseTool.retry] calls the operation until it succeeds, at
    most [maxRetries + 1] times, and doubles its delay after every failure,
    without a ceiling: a result that comes at the call number [k + 1] has
    waited [initialDelay * (2^k - 1)] ms, and when all [maxRetries + 1]
    calls fail the error of the last one is thrown after
    [initialDelay * (2^maxRetries - 1)] ms.  With a negative [maxRetries] the
    operation is not called and what is thrown is [undefined]. *)
Theorem retry_doubles_its_delay {A : Type} (operation : nat -> Settled A)
    (maxRetries initialDelay : option Z) (k : nat) :
  let N := default 3 maxRetries in
  let d := default 1000 initialDelay in
  let r := BaseTool.retry operation maxRetries initialDelay in
  (N < 0 ->
   BaseTool.retry_outcome r = inr None /\ BaseTool.retry_calls r = 0%nat
   /\ BaseTool.retry_waited r = 0)
  /\ (Z.of_nat k <= N ->
      (forall i : nat, (i < k)%nat -> is_fulfilled (operation i) = false) ->
      match operation k with
      | Fulfilled value =>
          BaseTool.retry_outcome r = inl value
          /\ BaseTool.retry_calls r = S k
          /\ BaseTool.retry_waited r = d * (2 ^ Z.of_nat k - 1)
      | Rejected error =>
          Z.of_nat k = N ->
          BaseTool.retry_outcome r = inr (Some error)
          /\ BaseTool.retry_calls r = S k
          /\ BaseTool.retry_waited r = d * (2 ^ N - 1)
      end).
Proof.
  cbv zeta. unfold BaseTool.retry.
  set (N := default 3 maxRetries). set (d := default 1000 initialDelay).
  split.
  - intros Hneg. replace (Z.to_nat (N + 1)) with 0%nat by lia. simpl. auto.
  - intros Hk Hfail.
    replace (Z.to_nat (N + 1)) with (k + S (Z.to_nat N - k))%nat by lia.
    pose proof (retryFrom_failures operation N d k (S (Z.to_nat N - k)) 0 None) as Hrun.
    change (Z.of_nat 0) with 0 in Hrun. change (0 + k)%nat with k in Hrun.
    change (2 ^ 0 - 1) with 0 in Hrun. rewrite Z.mul_0_r in Hrun.
    rewrite Hrun; [|intros i Hi; apply Hfail; lia | lia].
    cbn [BaseTool.retryFrom].
    assert (Hle : (Z.of_nat k <=? N) = true) by (apply Z.leb_le; lia).
    rewrite Hle. destruct (operation k) as [value|error].
    + simpl. auto.
    + intros HN. assert (Heq : (Z.of_nat k =? N) = true) by (apply Z.eqb_eq; lia).
      rewrite Heq. simpl. rewrite HN. auto.
Qed.

(** ** Archiving a card, alone and in bulk *)

Section ArchiveFacts.

Variable stringify : JsVal -> string.
Variable net : TrelloClient.Net.
Variable schedule : nat -> list nat.

(** The jobs of an update of a card carry the data of the update. *)
Lemma updateCard_new_jobs (cardId : string) (data : JsVal) (w : TrelloClient.World) :
  exists new : list TrelloClient.Job,
    TrelloClient.jobs (TrelloClient.updateCard stringify net cardId data w).2
    = TrelloClient.jobs w ++ new
    /\ new <> []
    /\ Forall (fun j => TrelloClient.req_body (TrelloClient.job_request j) = data) new.
Proof.
  unfold TrelloClient.updateCard, TrelloClient.perform, TrelloClient.updateCardCall.
  cbn [TrelloClient.call_endpoint TrelloClient.call_options].
  set (options := {| TrelloClient.method := Some TrelloClient.PUT;
                     TrelloClient.body := data;
                     TrelloClient.useCache := Some false;
                     TrelloClient.cacheTtl := None;
                     TrelloClient.priority := None;
                     TrelloClient.retries := None |}).
  assert (Hs : TrelloClient.servedFromCache stringify ("/cards/" +:+ cardId) options w
               = false) by reflexivity.
  rewrite (servedFromCache_false stringify net _ _ _ Hs). cbv zeta.
  pose proof (afterMiss_jobs stringify ("/cards/" +:+ cardId) options w) as Hjobs.
  match goal with
  | |- context [TrelloClient.retryLoop net ?f ?m ?c ?k ?t ?p ?r ?n ?s ?a ?l ?w1] =>
      destruct (retryLoop_jobs net f m c k t p r n s a l w1)
        as (new & Hnew & _ & _ & Hall & Hexit);
      destruct (TrelloClient.retryLoop net f m c k t p r n s a l w1)
        as [[value|last] w2]
  end; cbn [fst snd] in *; exists new; rewrite Hjobs in Hnew;
    (split; [exact Hnew|]); (split; [|eapply Forall_impl; [exact Hall|];
                                      intros j [-> _]; reflexivity]).
  - exact Hexit.
  - specialize (Hexit ltac:(simpl; lia)). intros ->. simpl in Hexit. lia.
Qed.

Variable CannotRead : JsVal -> string -> JsError.
Variable validateRequired : forall A : Type, A -> list string -> option JsError.
Variable createSummary : string -> list (string * JsVal) -> string.

(** X29 (the default of [archive]).  The input schemas of archive_card and
    of bulk_archive_cards both give [archive] the default true, but only the
    bulk tool applies it.  Called without [archive], archive_card sends the
    update [{ closed: undefined }], with no value for [closed], and reports
    that the card was taken out of the archive; bulk_archive_cards sends
    [{ closed: true }] for every card. *)
Theorem archive_default_differs (w : TrelloClient.World) :
  (forall (args : JsVal) (fields : list (string * JsVal)),
     args = JsObj fields -> truthy (prop args "cardId") = true ->
     prop args "archive" = JsUndefined ->
     let r := CardTools.archiveCardExecute stringify net CannotRead args w in
     (exists new : list TrelloClient.Job,
        TrelloClient.jobs r.2 = TrelloClient.jobs w ++ new /\ new <> []
        /\ Forall (fun j => TrelloClient.req_body (TrelloClient.job_request j)
                            = JsObj [("closed", JsUndefined)]) new)
     /\ match r.1 with
        | BulkTools.ToolSuccess text =>
            String.prefix "✅ **Kart başarıyla arşivden çıkarıldı!**" text = true
        | BulkTools.ToolError _ => True
        end)
  /\ (forall (args : BulkTools.BulkArchiveArgs) (cardIds : list string),
        validateRequired _ args ["cardIds"] = None ->
        BulkTools.archive_cardIds args = Some cardIds -> cardIds <> [] ->
        (length cardIds <= 50)%nat ->
        BulkTools.archive_archive args = None ->
        let r := BulkTools.bulkArchiveExecute stringify net schedule CannotRead
                   validateRequired createSummary args w in
        exists new : list TrelloClient.Job,
          TrelloClient.jobs r.2 = TrelloClient.jobs w ++ new /\ new <> []
          /\ Forall (fun j => TrelloClient.req_body (TrelloClient.job_request j)
                              = JsObj [("closed", JsBool true)]) new).
Proof.
  split.
  - intros args fields -> Hid Harchive r. subst r.
    unfold CardTools.archiveCardExecute, BaseTool.validateRequired.
    cbn [List.filter]. rewrite Hid, Harchive. cbn [negb].
    destruct (updateCard_new_jobs (to_string (prop (JsObj fields) "cardId"))
                (JsObj [("closed", JsUndefined)]) w) as (new & Hnew & Hne & Hall).
    destruct (TrelloClient.updateCard stringify net
                (to_string (prop (JsObj fields) "cardId"))
                (JsObj [("closed", JsUndefined)]) w) as [[card|error] w'];
      cbn [fst snd] in *.
    + destruct (prop_of card "name"); cbn [fst snd];
        (split; [exists new; auto|]); [|exact I].
      reflexivity.
    + split; [exists new; auto | exact I].
  - intros args cardIds Hvalid Hids Hne Hlen Harchive r. subst r.
    destruct (bulkArchive_accounts stringify schedule CannotRead validateRequired
                createSummary net w args cardIds Hvalid Hids Hne Hlen)
      as (runs & Hacc & _).
    rewrite Harchive in Hacc. cbn [default] in Hacc.
    pose proof Hacc as Hjobs.
    apply (accounts_jobs net
             (fun req => TrelloClient.req_body req = JsObj [("closed", JsBool true)]))
      in Hjobs; [|apply Forall_fmap, Forall_forall; intros cardId _; reflexivity].
    destruct Hjobs as (new & Hnew & Hall).
    exists new. split; [exact Hnew|]. split; [|exact Hall].
    eapply bulk_job_count in Hacc; [|intros cardId; reflexivity].
    rewrite Hnew, length_app in Hacc. intros ->.
    destruct cardIds; [congruence | simpl in Hacc; lia].
Qed.

End ArchiveFacts.

(** ** The console logger *)

Lemma indexOf_from_bounds (x : string) (l : list string) :
  forall i : Z,
    (x ∈ l -> i <= SimpleLogger.indexOf_from i x l < i + Z.of_nat (length l))
    /\ (x ∉ l -> SimpleLogger.indexOf_from i x l = -1).
Proof.
  induction l as [|y l IH]; intros i; simpl.
  - split; [intros H; apply elem_of_nil in H; contradiction | reflexivity].
  - destruct (String.eqb y x) eqn:Hy.
    + apply String.eqb_eq in Hy. subst y. split; [lia|].
      intros H. contradiction H. apply list_elem_of_here.
    + apply String.eqb_neq in Hy. destruct (IH (i + 1)) as [Hin Hout]. split.
      * intros H. apply elem_of_cons in H as [->|H]; [congruence|].
        specialize (Hin H). lia.
      * intros H. apply Hout. intros Hx. apply H. now apply list_elem_of_further.
Qed.

(** X30 (log levels).  A logger whose level is one of error, warn, info and
    debug prints the messages of its own level and of the more severe ones:
    errors always, debug messages only at the level debug.  A logger that
    was given any other level prints no message of these four levels, not
    even an error; a message of an unknown level is printed by every
    logger; and what a logger prints is printed by every logger whose level
    comes later in the list. *)
Theorem shouldLog_levels (current level : string) :
  (current ∈ SimpleLogger.levels -> SimpleLogger.shouldLog current "error" = true)
  /\ (SimpleLogger.shouldLog current "debug" = true -> current = "debug")
  /\ (current ∉ SimpleLogger.levels -> level ∈ SimpleLogger.levels ->
      SimpleLogger.shouldLog current level = false)
  /\ (level ∉ SimpleLogger.levels -> SimpleLogger.shouldLog current level = true)
  /\ (forall verbose : string,
        SimpleLogger.indexOf current SimpleLogger.levels
        <= SimpleLogger.indexOf verbose SimpleLogger.levels ->
        SimpleLogger.shouldLog current level = true ->
        SimpleLogger.shouldLog verbose level = true).
Proof.
  unfold SimpleLogger.shouldLog, SimpleLogger.indexOf.
  pose proof (indexOf_from_bounds current SimpleLogger.levels 0) as [Hc Hc'].
  pose proof (indexOf_from_bounds level SimpleLogger.levels 0) as [Hl Hl'].
  change (Z.of_nat (length SimpleLogger.levels)) with 4 in *.
  split; [|split; [|split; [|split]]].
  - intros Hin. specialize (Hc Hin). apply Z.leb_le.
    change (SimpleLogger.indexOf_from 0 "error" SimpleLogger.levels) with 0. lia.
  - change (SimpleLogger.indexOf_from 0 "debug" SimpleLogger.levels) with 3.
    intros H. apply Z.leb_le in H.
    destruct (decide (current ∈ SimpleLogger.levels)) as [Hin|Hout].
    + unfold SimpleLogger.levels in Hin.
      repeat (apply elem_of_cons in Hin as [->|Hin]); try reflexivity;
        try (vm_compute in H; contradiction H; reflexivity).
      apply elem_of_nil in Hin. contradiction.
    + rewrite (Hc' Hout) in H. lia.
  - intros Hout Hin. rewrite (Hc' Hout). specialize (Hl Hin).
    apply Z.leb_gt. lia.
  - intros Hout. rewrite (Hl' Hout).
    destruct (decide (current ∈ SimpleLogger.levels)) as [Hin|Hout'].
    + specialize (Hc Hin). apply Z.leb_le. lia.
    + rewrite (Hc' Hout'). reflexivity.
  - intros verbose Hle H. apply Z.leb_le in H. apply Z.leb_le.
    unfold SimpleLogger.indexOf in Hle. lia.
Qed.
